(** * Simd::Detection: the cascade detector driver of SimdDetection.hpp

    A shallow embedding of [Simd::Detection<A>]: pyramid construction
    ([Init], [InitLevels]), the per-level refresh ([FillLevels]), the strip
    dispatch of [Hid::Detect], the candidate aggregation ([AddObjects]) and
    the disjoint-set clustering ([Similar], [Partition], [GroupObjects]).

    Conventions.
    - [int] and [ptrdiff_t] values are integers of [Z]; signed overflow is
      undefined behaviour in C++ and is outside the model.  Unsigned
      ([size_t]) arithmetic wraps modulo [2^64] and the wrap is written out
      where the source mixes signed and unsigned operands.
    - [double] is an abstract carrier with the operations the source uses
      (interface [DoubleOps]); nothing is assumed about rounding unless a
      theorem lists the law as a hypothesis.  The instance [QOps] on exact
      rationals is used to run the definitions on concrete inputs, and
      [Binary64Ops] on IEEE 754 binary64 where rounding matters.
    - Pixel kernels and native cascade handles are external collaborators;
      they enter as the fields of [Primitives].
    - [while] loops and the [do ... while (true)] of [InitLevels] take fuel;
      running out of it, an out-of-bounds index and a failed [assert] are
      outcomes of their own ([result]).
    - Pointers into a [std::vector] and owned native handles are valid
      until the vector moves or the owner is destroyed.  The detector
      records both events ([_stale], [_freed]); using what they invalidate
      is the outcome [Dangling]. *)

From Stdlib Require Strings.String.
From Stdlib Require PrimFloat FloatOps Uint63.
From Stdlib Require Import ZArith QArith Qround Lia Bool List Sorted.
From stdpp Require Import base list.
Import ListNotations.
Open Scope Z_scope.

(** ** Machine integers *)

Definition size_t_modulus : Z := 2 ^ 64.

(** Conversion of a signed value to [size_t] (the usual arithmetic
    conversion applied when an [int] or [ptrdiff_t] meets a [size_t]). *)
Definition to_size_t (z : Z) : Z := z mod size_t_modulus.

(** Conversion of a [size_t] value back to [ptrdiff_t] (two's complement). *)
Definition to_ptrdiff_t (z : Z) : Z :=
  let u := z mod size_t_modulus in
  if u <? 2 ^ 63 then u else u - size_t_modulus.

(** ** The [double] interface *)

Class DoubleOps (D : Type) := {
  D_of_Z : Z -> D;            (* implicit conversion of an integer *)
  Dhalf : D;                  (* the literal 0.5 *)
  Dmul : D -> D -> D;
  Ddiv : D -> D -> D;
  Dleb : D -> D -> bool;      (* operator <= *)
  Round : D -> Z              (* Simd::Round, Convert<ptrdiff_t, double> *)
}.

(** Exact rationals as a runnable instance.  [Simd::Round] adds 0.5 away
    from zero and truncates. *)
Definition QRound (q : Q) : Z :=
  if Qle_bool 0 q then Qfloor (q + (1 # 2)) else Qceiling (q - (1 # 2)).

#[export] Instance QOps : DoubleOps Q := {
  D_of_Z := inject_Z;
  Dhalf := (1 # 2)%Q;
  Dmul := Qmult;
  Ddiv := Qdiv;
  Dleb := Qle_bool;
  Round := QRound
}.

(** IEEE 754 binary64, the [double] of the platforms the library builds
    on, with the default rounding to nearest.  An integer is converted
    through its magnitude (exact below [2^53], rounded above; the model is
    for magnitudes below [2^63]). *)
Definition float_of_Z (z : Z) : PrimFloat.float :=
  if z <? 0 then PrimFloat.opp (PrimFloat.of_uint63 (Uint63.of_Z (- z)))
  else PrimFloat.of_uint63 (Uint63.of_Z z).

(** [(int)value]: truncation towards zero.  The conversion of a NaN, of an
    infinity or of a value outside the range of [int] is undefined in C++;
    the first two are given 0 here. *)
Definition float_trunc (f : PrimFloat.float) : Z :=
  match FloatOps.Prim2SF f with
  | SpecFloat.S754_finite s m e =>
      let a := if 0 <=? e then Z.pos m * 2 ^ e else Z.pos m / 2 ^ (- e) in
      if s then - a else a
  | _ => 0
  end.

Definition float_half : PrimFloat.float :=
  PrimFloat.div PrimFloat.one PrimFloat.two.

Definition float_Round (f : PrimFloat.float) : Z :=
  float_trunc
    (PrimFloat.add f (if PrimFloat.leb PrimFloat.zero f then float_half
                      else PrimFloat.opp float_half)).

Definition Binary64Ops : DoubleOps PrimFloat.float := {|
  D_of_Z := float_of_Z;
  Dhalf := float_half;
  Dmul := PrimFloat.mul;
  Ddiv := PrimFloat.div;
  Dleb := PrimFloat.leb;
  Round := float_Round
|}.

(** ** Points and rectangles ([Simd::Point<ptrdiff_t>], [Simd::Rectangle<ptrdiff_t>]) *)

Module Size.
Record t : Type := mk { x : Z; y : Z }.

Definition eqb (a b : t) : bool := (x a =? x b) && (y a =? y b).
Definition sub (a b : t) : t := mk (x a - x b) (y a - y b).
Definition add (a b : t) : t := mk (x a + x b) (y a + y b).
Definition neg (a : t) : t := mk (- x a) (- y a).
(** Division of a point by the [int] literal 2: C++ integer division. *)
Definition quot2 (a : t) : t := mk (Z.quot (x a) 2) (Z.quot (y a) 2).

Section WithDouble.
Context {D : Type} {ops : DoubleOps D}.
(** Modelled from the spec: [Point * double] and [Point / double] are
    declared in SimdPoint.hpp, not under src/; each coordinate is
    computed in [double] and converted back with [Round] ("window size
    scaled by the level's scale"). *)
Definition scale (a : t) (s : D) : t :=
  mk (Round (Dmul (D_of_Z (x a)) s)) (Round (Dmul (D_of_Z (y a)) s)).
Definition unscale (a : t) (s : D) : t :=
  mk (Round (Ddiv (D_of_Z (x a)) s)) (Round (Ddiv (D_of_Z (y a)) s)).
End WithDouble.
End Size.

Module Rect.
Record t : Type := mk { left : Z; top : Z; right : Z; bottom : Z }.

(** Modelled from the spec: the members of [Simd::Rectangle] used by the
    detector are declared in SimdRectangle.hpp, not under src/.  They act
    component-wise on the four edges. *)
Definition zero : t := mk 0 0 0 0.                        (* Rect() *)
Definition of_size (s : Size.t) : t := mk 0 0 (Size.x s) (Size.y s).
Definition Width (r : t) : Z := right r - left r.
Definition Height (r : t) : Z := bottom r - top r.
Definition Empty (r : t) : bool := Width r * Height r =? 0.
Definition Shifted (r : t) (p : Size.t) : t :=
  mk (left r + Size.x p) (top r + Size.y p)
     (right r + Size.x p) (bottom r + Size.y p).
Definition Intersection (a b : t) : t :=
  let l := Z.max (left a) (left b) in
  let t_ := Z.max (top a) (top b) in
  mk l t_ (Z.max l (Z.min (right a) (right b)))
          (Z.max t_ (Z.min (bottom a) (bottom b))).
(** [operator +=]: adds the coordinates of [b] to those of [a]. *)
Definition add (a b : t) : t :=
  mk (left a + left b) (top a + top b) (right a + right b) (bottom a + bottom b).
Definition eqb (a b : t) : bool :=
  (left a =? left b) && (top a =? top b) &&
  (right a =? right b) && (bottom a =? bottom b).

Section WithDouble.
Context {D : Type} {ops : DoubleOps D}.
(** [Rect * double] and [Rect / double]: every edge is computed in
    [double] and converted back through [Round]. *)
Definition scale (r : t) (s : D) : t :=
  mk (Round (Dmul (D_of_Z (left r)) s)) (Round (Dmul (D_of_Z (top r)) s))
     (Round (Dmul (D_of_Z (right r)) s)) (Round (Dmul (D_of_Z (bottom r)) s)).
Definition div (r : t) (s : D) : t :=
  mk (Round (Ddiv (D_of_Z (left r)) s)) (Round (Ddiv (D_of_Z (top r)) s))
     (Round (Ddiv (D_of_Z (right r)) s)) (Round (Ddiv (D_of_Z (bottom r)) s)).
End WithDouble.
End Rect.

(** ** Detected objects *)

Definition Tag := Z.
Definition UNDEFINED_OBJECT_TAG : Tag := -1.

Record Object : Type := mkObject {
  rect : Rect.t;
  weight : Z;
  tag : Tag
}.

(** [Object()] : the default-constructed element of [buffer.resize]. *)
Definition Object_default : Object := mkObject Rect.zero 0 UNDEFINED_OBJECT_TAG.

Abbreviation Objects := (list Object).

(** ** [Similar::operator()] *)

Section Similar.
Context {D : Type} {ops : DoubleOps D}.

Definition Similar_delta (sizeDifferenceMax : D) (r1 r2 : Rect.t) : D :=
  Dmul (Dmul sizeDifferenceMax
             (D_of_Z (Z.min (Rect.Width r1) (Rect.Width r2)
                      + Z.min (Rect.Height r1) (Rect.Height r2))))
       Dhalf.

Definition Similar (sizeDifferenceMax : D) (o1 o2 : Object) : bool :=
  let r1 := rect o1 in
  let r2 := rect o2 in
  let delta := Similar_delta sizeDifferenceMax r1 r2 in
  Dleb (D_of_Z (Z.abs (Rect.left r1 - Rect.left r2))) delta &&
  Dleb (D_of_Z (Z.abs (Rect.top r1 - Rect.top r2))) delta &&
  Dleb (D_of_Z (Z.abs (Rect.right r1 - Rect.right r2))) delta &&
  Dleb (D_of_Z (Z.abs (Rect.bottom r1 - Rect.bottom r2))) delta.

(** The similarity bound as the specification words it:
    [sizeDifferenceMax * 0.5 * (min(w1,w2) + min(h1,h2))], the products
    taken from left to right as C++ does. *)
Definition spec_delta (sizeDifferenceMax : D) (r1 r2 : Rect.t) : D :=
  Dmul (Dmul sizeDifferenceMax Dhalf)
       (D_of_Z (Z.min (Rect.Width r1) (Rect.Width r2)
                + Z.min (Rect.Height r1) (Rect.Height r2))).

Definition spec_similar (sizeDifferenceMax : D) (o1 o2 : Object) : Prop :=
  let r1 := rect o1 in
  let r2 := rect o2 in
  let bound := spec_delta sizeDifferenceMax r1 r2 in
  Dleb (D_of_Z (Z.abs (Rect.left r1 - Rect.left r2))) bound = true /\
  Dleb (D_of_Z (Z.abs (Rect.top r1 - Rect.top r2))) bound = true /\
  Dleb (D_of_Z (Z.abs (Rect.right r1 - Rect.right r2))) bound = true /\
  Dleb (D_of_Z (Z.abs (Rect.bottom r1 - Rect.bottom r2))) bound = true.

(** The statement with the factors in the order of the code: each edge
    difference is at most
    [sizeDifferenceMax * (min(w1,w2) + min(h1,h2)) * 0.5]. *)
Definition edges_within (sizeDifferenceMax : D) (o1 o2 : Object) : Prop :=
  let r1 := rect o1 in
  let r2 := rect o2 in
  let bound :=
    Dmul (Dmul sizeDifferenceMax
               (D_of_Z (Z.min (Rect.Width r1) (Rect.Width r2)
                        + Z.min (Rect.Height r1) (Rect.Height r2))))
         Dhalf in
  Dleb (D_of_Z (Z.abs (Rect.left r1 - Rect.left r2))) bound = true /\
  Dleb (D_of_Z (Z.abs (Rect.top r1 - Rect.top r2))) bound = true /\
  Dleb (D_of_Z (Z.abs (Rect.right r1 - Rect.right r2))) bound = true /\
  Dleb (D_of_Z (Z.abs (Rect.bottom r1 - Rect.bottom r2))) bound = true.
End Similar.

(** ** Results of partial computations

    Loops whose trip count is not syntactically bounded ([while]) take a
    fuel argument; indexing outside a vector and a failed [assert] are
    errors of their own, and so is the use of an object through a pointer
    or a handle that no longer refers to it ([Dangling]): the source defines
    no behaviour there. *)

Inductive result (A : Type) : Type :=
| Ok (a : A)
| OutOfFuel
| OutOfBounds
| AssertFailed
| Dangling.
Arguments Ok {A} a.
Arguments OutOfFuel {A}.
Arguments OutOfBounds {A}.
Arguments AssertFailed {A}.
Arguments Dangling {A}.

Definition rbind {A B : Type} (m : result A) (k : A -> result B) : result B :=
  match m with
  | Ok a => k a
  | OutOfFuel => OutOfFuel
  | OutOfBounds => OutOfBounds
  | AssertFailed => AssertFailed
  | Dangling => Dangling
  end.

#[export] Instance result_bind : MBind result := fun A B k m => rbind m k.

(** [v[i]] for an [int] or [size_t] index. *)
Definition at_ {A : Type} (v : list A) (i : Z) : result A :=
  if i <? 0 then OutOfBounds
  else match v !! Z.to_nat i with
       | Some a => Ok a
       | None => OutOfBounds
       end.

(** [v[i] = a]. *)
Definition put_ {A : Type} (v : list A) (i : Z) (a : A) : result (list A) :=
  if (0 <=? i) && (i <? Z.of_nat (length v))
  then Ok (<[Z.to_nat i := a]> v)
  else OutOfBounds.

(** [for (i = start; i < start + count; ++i) body]. *)
Fixpoint for_ {S : Type} (count : nat) (i : Z)
    (body : Z -> S -> result S) (s : S) : result S :=
  match count with
  | O => Ok s
  | Datatypes.S c => s' ← body i s; for_ c (i + 1) body s'
  end.

(** The values taken by [x] in [for (x = lo; x < hi; x += step)]. *)
Fixpoint scan (fuel : nat) (lo hi step : Z) : list Z :=
  match fuel with
  | O => []
  | Datatypes.S f => if lo <? hi then lo :: scan f (lo + step) hi step else []
  end.

Definition strided (lo hi step : Z) : list Z :=
  scan (Z.to_nat (hi - lo)) lo hi step.

(** ** [Partition]: the disjoint-set forest over [int nodes[N][2]] *)

Definition PARENT : Z := 0.
Definition RANK : Z := 1.

(** [nodes[i][f]] reads [_nodes[2 * i + f]]. *)
Definition node_get (nodes : list Z) (i f : Z) : result Z :=
  if i <? 0 then OutOfBounds else at_ nodes (2 * i + f).

Definition node_set (nodes : list Z) (i f v : Z) : result (list Z) :=
  if i <? 0 then OutOfBounds else put_ nodes (2 * i + f) v.

(** [while (nodes[root][PARENT] >= 0) root = nodes[root][PARENT];] *)
Fixpoint find_root (fuel : nat) (nodes : list Z) (root : Z) : result Z :=
  match fuel with
  | O => OutOfFuel
  | Datatypes.S f =>
      p ← node_get nodes root PARENT;
      if 0 <=? p then find_root f nodes p else Ok root
  end.

(** [while ((parent = nodes[k][PARENT]) >= 0) { nodes[k][PARENT] = root; k = parent; }] *)
Fixpoint compress (fuel : nat) (nodes : list Z) (k root : Z) : result (list Z) :=
  match fuel with
  | O => OutOfFuel
  | Datatypes.S f =>
      parent ← node_get nodes k PARENT;
      if 0 <=? parent then
        nodes' ← node_set nodes k PARENT root;
        compress f nodes' parent root
      else Ok nodes
  end.

Section Partition.
Context {D : Type} {ops : DoubleOps D}.
Variable fuel : nat.
Variable vec : list Object.
Variable sizeDifferenceMax : D.

Definition Partition_init (i : Z) (nodes : list Z) : result (list Z) :=
  nodes ← node_set nodes i PARENT (-1);
  node_set nodes i RANK 0.

(** One iteration of the inner [for (j = 0; j < N; j++)] loop; the loop
    state is the node array and the local [root]. *)
Definition Partition_inner (i j : Z) (st : list Z * Z) : result (list Z * Z) :=
  let '(nodes, root) := st in
  if i =? j then Ok st
  else
    vi ← at_ vec i;
    vj ← at_ vec j;
    if negb (Similar sizeDifferenceMax vi vj) then Ok st
    else
      root2 ← find_root fuel nodes j;
      if root2 =? root then Ok st
      else
        rank ← node_get nodes root RANK;
        rank2 ← node_get nodes root2 RANK;
        '(nodes, root) ←
          (if rank2 <? rank then
             nodes ← node_set nodes root2 PARENT root;
             Ok (nodes, root)
           else
             nodes ← node_set nodes root PARENT root2;
             r2 ← node_get nodes root2 RANK;
             nodes ← node_set nodes root2 RANK
                        (r2 + (if rank =? rank2 then 1 else 0));
             Ok (nodes, root2));
        p ← node_get nodes root PARENT;
        if 0 <=? p then AssertFailed
        else
          nodes ← compress fuel nodes j root;
          nodes ← compress fuel nodes i root;
          Ok (nodes, root).

Definition Partition_outer (N : nat) (i : Z) (nodes : list Z) : result (list Z) :=
  root ← find_root fuel nodes i;
  '(nodes, _) ← for_ N 0 (Partition_inner i) (nodes, root);
  Ok nodes.

(** One iteration of the labelling loop; the state is the node array, the
    label vector and [nclasses]. *)
Definition Partition_label (i : Z) (st : list Z * list Z * Z)
    : result (list Z * list Z * Z) :=
  let '(nodes, labels, nclasses) := st in
  root ← find_root fuel nodes i;
  r ← node_get nodes root RANK;
  '(nodes, nclasses) ←
    (if 0 <=? r then
       nodes ← node_set nodes root RANK (Z.lnot nclasses);
       Ok (nodes, nclasses + 1)
     else Ok (nodes, nclasses));
  r ← node_get nodes root RANK;
  labels ← put_ labels i (Z.lnot r);
  Ok (nodes, labels, nclasses).

(** [Partition(vec, labels, sizeDifferenceMax)]: returns [nclasses] and the
    resized label vector. *)
Definition Partition (labels : list Z) : result (Z * list Z) :=
  let N := length vec in
  let nodes := replicate (N * 2) 0 in
  nodes ← for_ N 0 Partition_init nodes;
  nodes ← for_ N 0 (Partition_outer N) nodes;
  let labels := resize N 0 labels in
  '(_, labels, nclasses) ← for_ N 0 Partition_label (nodes, labels, 0);
  Ok (nclasses, labels).
End Partition.

(** Fuel under which every [while] loop of [Partition] runs to completion
    on [N] elements (see [Partition_total]). *)
Definition Partition_fuel (N : nat) : nat := Datatypes.S (N * N).

(** ** [GroupObjects] *)

Section GroupObjects.
Context {D : Type} {ops : DoubleOps D}.

(** Body of the accumulation loop over [labels]. *)
Definition Group_accumulate (src : Objects) (labels : list Z) (i : Z)
    (buffer : Objects) : result Objects :=
  cls ← at_ labels i;
  b ← at_ buffer cls;
  s ← at_ src i;
  put_ buffer cls (mkObject (Rect.add (rect b) (rect s)) (weight b + 1) (tag s)).

(** [buffer[i].rect = buffer[i].rect / double(buffer[i].weight)]. *)
Definition Group_average (o : Object) : Object :=
  mkObject (Rect.div (rect o) (D_of_Z (weight o))) (weight o) (tag o).

(** The test under which the inner loop of the suppression pass leaves at
    index [j] while examining cluster [i]. *)
Definition Group_absorbs (groupSizeMin : Z) (sizeDifferenceMax : D)
    (i j : Z) (bi bj : Object) : bool :=
  let r1 := rect bi in
  let n1 := weight bi in
  let n2 := weight bj in
  if (j =? i) || (to_size_t n2 <? groupSizeMin) then false
  else
    let r2 := rect bj in
    let dx := Round (Dmul (D_of_Z (Rect.Width r2)) sizeDifferenceMax) in
    let dy := Round (Dmul (D_of_Z (Rect.Height r2)) sizeDifferenceMax) in
    negb (i =? j) && ((Z.max 3 n1 <? n2) || (n1 <? 3)) &&
    (Rect.left r2 - dx <=? Rect.left r1) && (Rect.top r2 - dy <=? Rect.top r1) &&
    (Rect.right r1 <=? Rect.right r2 + dx) &&
    (Rect.bottom r1 <=? Rect.bottom r2 + dy).

(** [for (j = 0; j < buffer.size(); j++) { ... break; }]: the value of [j]
    on leaving the loop, at most [count] iterations from [j]. *)
Fixpoint Group_search (groupSizeMin : Z) (sizeDifferenceMax : D)
    (buffer : Objects) (i : Z) (bi : Object) (count : nat) (j : Z) : result Z :=
  match count with
  | O => Ok j
  | S c =>
      bj ← at_ buffer j;
      if Group_absorbs groupSizeMin sizeDifferenceMax i j bi bj then Ok j
      else Group_search groupSizeMin sizeDifferenceMax buffer i bi c (j + 1)
  end.

(** Body of the outer loop of the suppression pass; the state is [dst]. *)
Definition Group_emit (groupSizeMin : Z) (sizeDifferenceMax : D)
    (buffer : Objects) (i : Z) (dst : Objects) : result Objects :=
  bi ← at_ buffer i;
  if to_size_t (weight bi) <? groupSizeMin then Ok dst
  else
    j ← Group_search groupSizeMin sizeDifferenceMax buffer i bi (length buffer) 0;
    if j =? Z.of_nat (length buffer) then Ok (dst ++ [bi]) else Ok dst.

(** First half of [GroupObjects]: partition, accumulate, average.  The
    result is [buffer] as it stands before the suppression pass. *)
Definition Group_clusters (src : Objects) (sizeDifferenceMax : D) : result Objects :=
  '(nclasses, labels) ←
    Partition (Partition_fuel (length src)) src sizeDifferenceMax [];
  if nclasses <? 0 then OutOfBounds
  else
    let buffer := replicate (Z.to_nat nclasses) Object_default in
    buffer ← for_ (length labels) 0 (Group_accumulate src labels) buffer;
    Ok (map Group_average buffer).

(** Second half: the suppression pass, appending to [dst]. *)
Definition Group_suppress (groupSizeMin : Z) (sizeDifferenceMax : D)
    (buffer dst : Objects) : result Objects :=
  for_ (length buffer) 0 (Group_emit groupSizeMin sizeDifferenceMax buffer) dst.

(** [GroupObjects(dst, src, groupSizeMin, sizeDifferenceMax)]; [groupSizeMin]
    is the [size_t] parameter, a value in [0, 2^64). *)
Definition GroupObjects (dst src : Objects) (groupSizeMin : Z)
    (sizeDifferenceMax : D) : result Objects :=
  if (groupSizeMin =? 0) || (Z.of_nat (length src) <? groupSizeMin) then Ok dst
  else
    buffer ← Group_clusters src sizeDifferenceMax;
    Group_suppress groupSizeMin sizeDifferenceMax buffer dst.

(** *** The clustering as the specification words it *)

(** The members of class [c] among the first [n] candidates, in index order. *)
Fixpoint members_upto (n : nat) (src : Objects) (labels : list Z) (c : Z) : Objects :=
  match n with
  | O => []
  | S n' =>
      members_upto n' src labels c ++
      match src !! n', labels !! n' with
      | Some s, Some l => if l =? c then [s] else []
      | _, _ => []
      end
  end.

Definition members (src : Objects) (labels : list Z) (c : Z) : Objects :=
  members_upto (length labels) src labels c.

Definition sumZ (l : list Z) : Z := fold_right Z.add 0 l.

(** Component-wise sum of the member rectangles. *)
Definition rect_sum (ms : Objects) : Rect.t :=
  Rect.mk (sumZ (map (fun o => Rect.left (rect o)) ms))
          (sumZ (map (fun o => Rect.top (rect o)) ms))
          (sumZ (map (fun o => Rect.right (rect o)) ms))
          (sumZ (map (fun o => Rect.bottom (rect o)) ms)).

(** Mean rectangle, member count, tag of the last member. *)
Definition representative (ms : Objects) : Object :=
  mkObject (Rect.div (rect_sum ms) (D_of_Z (Z.of_nat (length ms))))
           (Z.of_nat (length ms))
           (tag (List.last ms Object_default)).

(** Cluster [i] lies within cluster [j] widened by the margins
    [Round(sizeDifferenceMax * width_j)] and [Round(sizeDifferenceMax * height_j)]. *)
Definition within_margins (sizeDifferenceMax : D) (bi bj : Object) : Prop :=
  let r1 := rect bi in
  let r2 := rect bj in
  let dx := Round (Dmul sizeDifferenceMax (D_of_Z (Rect.Width r2))) in
  let dy := Round (Dmul sizeDifferenceMax (D_of_Z (Rect.Height r2))) in
  Rect.left r2 - dx <= Rect.left r1 /\ Rect.top r2 - dy <= Rect.top r1 /\
  Rect.right r1 <= Rect.right r2 + dx /\ Rect.bottom r1 <= Rect.bottom r2 + dy.

(** Cluster [j] suppresses cluster [i]. *)
Definition suppresses (groupSizeMin : Z) (sizeDifferenceMax : D)
    (buffer : Objects) (i j : nat) : Prop :=
  exists bi bj,
    buffer !! i = Some bi /\ buffer !! j = Some bj /\ j <> i /\
    groupSizeMin <= weight bj /\
    within_margins sizeDifferenceMax bi bj /\
    (Z.max 3 (weight bi) < weight bj \/ weight bi < 3).

(** Cluster [i] is emitted by the suppression pass. *)
Definition spec_emitted (groupSizeMin : Z) (sizeDifferenceMax : D)
    (buffer : Objects) (i : nat) : Prop :=
  (exists bi, buffer !! i = Some bi /\ groupSizeMin <= weight bi) /\
  ~ exists j, suppresses groupSizeMin sizeDifferenceMax buffer i j.

(** The objects of [buffer] at the given indices. *)
Definition pick (buffer : Objects) (idxs : list nat) : Objects :=
  omap (fun i => buffer !! i) idxs.
End GroupObjects.

(** ** Images ([Simd::View]) *)

Inductive Format : Type := FormatNone | Gray8 | Int32 | Bgr24.

Definition Format_eqb (a b : Format) : bool :=
  match a, b with
  | FormatNone, FormatNone | Gray8, Gray8 | Int32, Int32 | Bgr24, Bgr24 => true
  | _, _ => false
  end.

(** Modelled from the spec: [Simd::View], [Recreate] and [Simd::Fill] are
    declared in SimdView.hpp and SimdLib.hpp, not under src/.  A view is its
    format, its dimensions and its pixels, addressed as
    [data + row * stride] then [[col]]; copies of a view share the pixels. *)
Record View : Type := mkView {
  format : Format;
  width : Z;
  height : Z;
  pixel : Z -> Z -> Z
}.

Definition View_default : View := mkView FormatNone 0 0 (fun _ _ => 0).
Definition View_Size (v : View) : Size.t := Size.mk (width v) (height v).

(** [Recreate(size, format)]: fresh storage (its contents are unspecified in
    the source and every buffer is written before it is read; the model
    starts it at zero). *)
Definition Recreate (s : Size.t) (f : Format) : View :=
  mkView f (Size.x s) (Size.y s) (fun _ _ => 0).

(** [Simd::Fill(view, value)]. *)
Definition Fill (v : View) (value : Z) : View :=
  mkView (format v) (width v) (height v) (fun _ _ => value).

(** A store of one pixel, [view.At<uint8_t>(col, row) = value]. *)
Definition set_pixel (v : View) (row col value : Z) : View :=
  mkView (format v) (width v) (height v)
         (fun r c => if (r =? row) && (c =? col) then value else pixel v r c).

(** ** Cascade data, evaluators, levels *)

(** Modelled from the spec: the enumerators of [SimdDetectionInfoFlags] are
    declared in SimdLib.h, not under src/; the flags encode the feature kind
    (mask 3, Haar = 0), tilted-feature support (4) and int16 eligibility (8). *)
Definition SimdDetectionInfoFeatureHaar : Z := 0.
Definition SimdDetectionInfoFeatureMask : Z := 3.
Definition SimdDetectionInfoHasTilted : Z := 4.
Definition SimdDetectionInfoCanInt16 : Z := 8.

(** Native handles are [void *]: an address, [0] for [NULL]. *)
Definition Handle := Z.

Module Data.
Record t : Type := mk {
  handle : Handle;
  tag : Tag;
  size : Size.t;
  flags : Z
}.
Definition Haar (d : t) : bool :=
  Z.land (flags d) SimdDetectionInfoFeatureMask =? SimdDetectionInfoFeatureHaar.
Definition Tilted (d : t) : bool :=
  negb (Z.land (flags d) SimdDetectionInfoHasTilted =? 0).
Definition Int16 (d : t) : bool :=
  negb (Z.land (flags d) SimdDetectionInfoCanInt16 =? 0).
End Data.

(** The six native detection routines a [DetectPtr] can hold. *)
Inductive DetectPtr : Type :=
| SimdDetectionHaarDetect32fp
| SimdDetectionHaarDetect32fi
| SimdDetectionLbpDetect32fp
| SimdDetectionLbpDetect32fi
| SimdDetectionLbpDetect16ip
| SimdDetectionLbpDetect16ii.

Module Hid.
(** [data] is the pointer [&_data[i]], kept as the index [i]. *)
Record t : Type := mk {
  handle : Handle;
  data : nat;
  detect : DetectPtr
}.
End Hid.

Module Level.
Record t {D : Type} : Type := mk {
  hids : list Hid.t;
  scale : D;
  src : View;
  roi : View;
  mask : View;
  rect : Rect.t;
  sum : View;
  sqsum : View;
  tilted : View;
  dst : View;
  throughColumn : bool;
  needSqsum : bool;
  needTilted : bool
}.
Arguments t : clear implicits.

Section Setters.
Context {D : Type}.
Definition set_hids (l : t D) (v : list Hid.t) : t D :=
  mk D v (scale l) (src l) (roi l) (mask l) (rect l) (sum l) (sqsum l)
     (tilted l) (dst l) (throughColumn l) (needSqsum l) (needTilted l).
Definition set_src (l : t D) (v : View) : t D :=
  mk D (hids l) (scale l) v (roi l) (mask l) (rect l) (sum l) (sqsum l)
     (tilted l) (dst l) (throughColumn l) (needSqsum l) (needTilted l).
Definition set_roi (l : t D) (v : View) : t D :=
  mk D (hids l) (scale l) (src l) v (mask l) (rect l) (sum l) (sqsum l)
     (tilted l) (dst l) (throughColumn l) (needSqsum l) (needTilted l).
Definition set_mask (l : t D) (v : View) : t D :=
  mk D (hids l) (scale l) (src l) (roi l) v (rect l) (sum l) (sqsum l)
     (tilted l) (dst l) (throughColumn l) (needSqsum l) (needTilted l).
Definition set_rect (l : t D) (v : Rect.t) : t D :=
  mk D (hids l) (scale l) (src l) (roi l) (mask l) v (sum l) (sqsum l)
     (tilted l) (dst l) (throughColumn l) (needSqsum l) (needTilted l).
Definition set_integrals (l : t D) (s q t_ : View) : t D :=
  mk D (hids l) (scale l) (src l) (roi l) (mask l) (rect l) s q
     t_ (dst l) (throughColumn l) (needSqsum l) (needTilted l).
Definition set_dst (l : t D) (v : View) : t D :=
  mk D (hids l) (scale l) (src l) (roi l) (mask l) (rect l) (sum l) (sqsum l)
     (tilted l) v (throughColumn l) (needSqsum l) (needTilted l).
Definition set_need (l : t D) (q t_ : bool) : t D :=
  mk D (hids l) (scale l) (src l) (roi l) (mask l) (rect l) (sum l) (sqsum l)
     (tilted l) (dst l) (throughColumn l) q t_.
End Setters.
End Level.

(** ** External collaborators

    The pixel kernels, the cascade loader and the native evaluator of the
    Simd base library, and the helpers of SimdView.hpp and SimdRectangle.hpp
    that the detector only passes values through. *)

Class Primitives : Type := {
  hardware_concurrency : Z;
  SimdDetectionLoadA : String.string -> Handle;
  SimdDetectionInfo : Handle -> Size.t * Z;
  (** [SimdDetectionInit(cascade, sum, sqsum, tilted, throughColumn, int16)] *)
  SimdDetectionInit : Handle -> View -> View -> View -> bool -> bool -> Handle;
  (** Verdict of the cascade bound to an evaluator handle for the window at
      [(row, col)], read from the integral buffers the handle is bound to. *)
  classify : DetectPtr -> Handle -> View -> View -> View -> Z -> Z -> bool;
  Convert : View -> View -> View;
  ResizeBilinear : View -> View -> View;
  NormalizeHistogram : View -> View -> View;
  Integral1 : View -> View -> View;
  Integral2 : View -> View -> View -> View * View;
  Integral3 : View -> View -> View -> View -> View * View * View;
  Binarization : View -> View -> View;
  SegmentationShrinkRegion : View -> Z -> Rect.t -> Rect.t;
  OperationBinary8uAnd : View -> View -> View -> View;
  (** [view.Region(size, View::MiddleCenter)] *)
  Region_MiddleCenter : View -> Size.t -> View;
  (** [Simd::Fill(view.Region(rect).Ref(), value)] *)
  FillRegion : View -> Rect.t -> Z -> View;
  (** [Rectangle::operator |=] and [Rectangle::operator &=] *)
  Rect_or : Rect.t -> Rect.t -> Rect.t;
  Rect_and : Rect.t -> Rect.t -> Rect.t
}.

(** ** The detector *)

(** A queued detection sub-task: evaluator, mask region and row/column
    bounds; the destination bitmap is the level's, shared by all tasks. *)
Record Task : Type := mkTask {
  task_h : Hid.t;
  task_m : View;
  task_r : Rect.t
}.

(** A worker is its task queue; its thread consumes the queue front first. *)
Record Worker : Type := mkWorker { _tasks : list Task }.

Definition Worker_Add (w : Worker) (t : Task) : Worker :=
  mkWorker (_tasks w ++ [t]).

(** The members of [Detection], and two flags that record what the C++
    object model does behind them.  An evaluator keeps [hid.data =
    &_data[i]], a pointer into the storage of [_data]; a level owns its
    evaluators' native handles and its pixel buffers, which [~Level] and
    [~View] free.

    - [_stale]: [_data] has grown since the evaluators of [_levels] were
      bound.  A [push_back] may move the vector's storage, after which every
      [hid.data] points into freed memory.
    - [_freed]: [_levels] has grown beyond its reserved capacity since its
      levels were built.  The vector then moved: the levels were copied and
      the originals destroyed, so the handles and the buffers that the
      copies refer to are freed.

    No capacity of [_data] is reserved, and [reserve] promises no more than
    what it is asked for: every [push_back] that the standard allows to
    move the storage is taken as moving it. *)
Record Detection {D : Type} : Type := mkDetection {
  _data : list Data.t;
  _imageSize : Size.t;
  _needNormalization : bool;
  _levels : list (Level.t D);
  _workers : list Worker;
  _stale : bool;
  _freed : bool
}.
Arguments Detection : clear implicits.

(** [Detection()] *)
Definition Detection_new {D : Type} : Detection D :=
  mkDetection D [] (Size.mk 0 0) false [] [] false false.

(** Every pointer and handle the detector holds refers to a live object. *)
Definition usable {D : Type} (det : Detection D) : Prop :=
  _stale det = false /\ _freed det = false.

(** Scan stride of a native routine: the [i] routines visit every second
    row and column, the [p] routines every one. *)
Definition detect_stride (p : DetectPtr) : Z :=
  match p with
  | SimdDetectionHaarDetect32fi
  | SimdDetectionLbpDetect32fi
  | SimdDetectionLbpDetect16ii => 2
  | _ => 1
  end.

(** Modelled from the spec: the native detection routines
    ([SimdDetection*Detect*]) are in the Simd base library, not under src/.
    A routine scans rows [top, bottom) and columns [left, right) with its
    stride and marks the destination cell of every position whose mask
    pixel is non-zero and on which the cascade votes positive; no other
    cell is written. *)
Definition kernel_cell (verdict : Z -> Z -> bool) (m : View) (row col : Z)
    (dst : View) : View :=
  if negb (pixel m row col =? 0) && verdict row col
  then set_pixel dst row col 1
  else dst.

Definition kernel_row (verdict : Z -> Z -> bool) (m : View) (stride left right : Z)
    (dst : View) (row : Z) : View :=
  fold_left (fun d col => kernel_cell verdict m row col d)
            (strided left right stride) dst.

Definition kernel (verdict : Z -> Z -> bool) (m : View)
    (stride left top right bottom : Z) (dst : View) : View :=
  fold_left (kernel_row verdict m stride left right)
            (strided top bottom stride) dst.

Section Detector.
Context {D : Type} {ops : DoubleOps D} {prim : Primitives}.

(** The integral buffers an evaluator handle is bound to. *)
Definition Buffers : Type := (View * View * View)%type.

Definition Level_buffers (l : Level.t D) : Buffers :=
  (Level.sum l, Level.sqsum l, Level.tilted l).

(** [h->detect(h->handle, m.data, m.stride, left, top, right, bottom, d.data, d.stride)] *)
Definition run_detect (bufs : Buffers) (h : Hid.t) (m : View)
    (left top right bottom : Z) (dst : View) : View :=
  let '(s, q, t) := bufs in
  kernel (classify (Hid.detect h) (Hid.handle h) s q t) m
         (detect_stride (Hid.detect h)) left top right bottom dst.

(** [Task::Run] *)
Definition Task_Run (bufs : Buffers) (t : Task) (dst : View) : View :=
  let r := task_r t in
  run_detect bufs (task_h t) (task_m t)
             (Rect.left r) (Rect.top r) (Rect.right r) (Rect.bottom r) dst.

(** [Worker::Wait]: returns once the worker thread has run and popped every
    queued task. *)
Definition Worker_Wait (bufs : Buffers) (w : Worker) (dst : View) : View * Worker :=
  (fold_left (fun d t => Task_Run bufs t d) (_tasks w) dst, mkWorker []).

(** Row step of the strips of [Hid::Detect] ([size_t] arithmetic). *)
Definition strip_step (top bottom : Z) (N : Z) (throughColumn : bool) : Z :=
  let step := to_size_t (to_size_t (bottom - top) / N + 1) in
  if throughColumn then to_size_t (step + Z.land step 1) else step.

Definition strip_top (top step i : Z) : Z :=
  to_ptrdiff_t (to_size_t top + to_size_t (i * step)).

Definition strip_bottom (stop step bottom : Z) : Z :=
  Z.min (to_ptrdiff_t (to_size_t stop + step)) bottom.

Definition Hid_Detect_add (h : Hid.t) (m : View) (r : Rect.t) (step : Z)
    (i : Z) (workers : list Worker) : result (list Worker) :=
  let top := strip_top (Rect.top r) step i in
  let bottom := strip_bottom top step (Rect.bottom r) in
  w ← at_ workers i;
  put_ workers i
       (Worker_Add w (mkTask h m (Rect.mk (Rect.left r) top (Rect.right r) bottom))).

Definition Hid_Detect_wait (bufs : Buffers) (i : Z) (st : View * list Worker)
    : result (View * list Worker) :=
  let '(dst, workers) := st in
  w ← at_ workers i;
  let '(dst, w) := Worker_Wait bufs w dst in
  workers ← put_ workers i w;
  Ok (dst, workers).

(** [Hid::Detect(mask, rect, dst, workers, throughColumn)]; [size] is
    [data->size] and [bufs] the buffers [handle] is bound to.
    [SimdDetectionPrepare] refreshes the state the handle derives from those
    buffers; the verdict [classify] reads them directly.  The parallel
    branch queues strip [i] on worker [i], then waits for the workers in
    index order. *)
Definition Hid_Detect (bufs : Buffers) (h : Hid.t) (size : Size.t)
    (mask : View) (rect : Rect.t) (dst : View) (workers : list Worker)
    (throughColumn : bool) : result (View * list Worker) :=
  let s := Size.sub (View_Size dst) size in
  let m := Region_MiddleCenter mask s in
  let r := Rect.Intersection (Rect.Shifted rect (Size.quot2 (Size.neg size)))
                             (Rect.of_size s) in
  let dst := Fill dst 0 in
  match workers with
  | [] =>
      Ok (run_detect bufs h m (Rect.left r) (Rect.top r) (Rect.right r)
                     (Rect.bottom r) dst, workers)
  | _ :: _ =>
      let N := length workers in
      let step := strip_step (Rect.top r) (Rect.bottom r) (Z.of_nat N) throughColumn in
      workers ← for_ N 0 (Hid_Detect_add h m r step) workers;
      for_ N 0 (Hid_Detect_wait bufs) (dst, workers)
  end.

(** [AddObjects(objects, dst, rect, size, scale, step, tag)] *)
Definition AddObjects_cell (dst : View) (size : Size.t) (scale : D) (tag : Tag)
    (row : Z) (objects : Objects) (col : Z) : Objects :=
  if negb (pixel dst row col =? 0)
  then objects ++
       [mkObject (Rect.scale (Rect.mk col row (col + Size.x size) (row + Size.y size))
                             scale) 1 tag]
  else objects.

Definition AddObjects (objects : Objects) (dst : View) (rect : Rect.t)
    (size : Size.t) (scale : D) (step : Z) (tag : Tag) : Objects :=
  let s := Size.sub (View_Size dst) size in
  let r := Rect.Intersection (Rect.Shifted rect (Size.quot2 (Size.neg size)))
                             (Rect.of_size s) in
  fold_left
    (fun objs row =>
       fold_left (AddObjects_cell dst size scale tag row)
                 (strided (Rect.left r) (Rect.right r) step) objs)
    (strided (Rect.top r) (Rect.bottom r) step) objects.

(** [Load(path, tag)].  [_data.push_back(data)] may move the models, which
    leaves the [hid.data] of every evaluator bound before the call
    dangling: [_stale] is set. *)
Definition Load (det : Detection D) (path : String.string) (tag : Tag)
    : bool * Detection D :=
  let handle := SimdDetectionLoadA path in
  if handle =? 0 then (false, det)
  else
    let '(size, flags) := SimdDetectionInfo handle in
    (true, mkDetection D (_data det ++ [Data.mk handle tag size flags])
                       (_imageSize det) (_needNormalization det)
                       (_levels det) (_workers det)
                       true (_freed det)).

(** [InitWorkers(threadNumber)]: new workers are appended to the pool. *)
Definition InitWorkers (workers : list Worker) (threadNumber : Z) : list Worker :=
  let threadNumberMax := hardware_concurrency in
  let threadNumber :=
    if (threadNumber <=? 0) || (threadNumberMax <? threadNumber)
    then threadNumberMax else threadNumber in
  if 1 <? threadNumber
  then workers ++ replicate (Z.to_nat threadNumber) (mkWorker [])
  else workers.

(** *** [InitLevels] *)

Definition window_fits (imageSize sizeMax w : Size.t) : bool :=
  (Size.x w <=? Size.x sizeMax) && (Size.y w <=? Size.y sizeMax) &&
  (Size.x w <=? Size.x imageSize) && (Size.y w <=? Size.y imageSize).

Definition window_large_enough (sizeMin w : Size.t) : bool :=
  (Size.x sizeMin <=? Size.x w) && (Size.y sizeMin <=? Size.y w).

(** Body of the first inner loop; the state is [(inserts, exit, insert)],
    [inserts] being filled front to back. *)
Definition InitLevels_probe (imageSize sizeMin sizeMax : Size.t) (scale : D)
    (st : list bool * bool * bool) (d : Data.t) : list bool * bool * bool :=
  let '(inserts, exit, insert) := st in
  let windowSize := Size.scale (Data.size d) scale in
  if window_fits imageSize sizeMax windowSize then
    if window_large_enough sizeMin windowSize
    then (inserts ++ [true], false, true)
    else (inserts ++ [false], false, insert)
  else (inserts ++ [false], exit, insert).

Definition select_detect (d : Data.t) (throughColumn : bool) : DetectPtr :=
  if Data.Haar d then
    if throughColumn then SimdDetectionHaarDetect32fi else SimdDetectionHaarDetect32fp
  else if Data.Int16 d then
    if throughColumn then SimdDetectionLbpDetect16ii else SimdDetectionLbpDetect16ip
  else
    if throughColumn then SimdDetectionLbpDetect32fi else SimdDetectionLbpDetect32fp.

(** The binding loop over [_data] from index [i] on.  Returns [false] as
    soon as a native bind yields [NULL], with the level as built so far. *)
Fixpoint InitLevels_bind (datas : list Data.t) (inserts : list bool) (i : nat)
    (level : Level.t D) (needNormalization : bool)
    : bool * Level.t D * bool :=
  match datas, inserts with
  | d :: datas', ins :: inserts' =>
      if negb ins then InitLevels_bind datas' inserts' (S i) level needNormalization
      else
        let handle :=
          SimdDetectionInit (Data.handle d) (Level.sum level) (Level.sqsum level)
                            (Level.tilted level) (Level.throughColumn level)
                            (Data.Int16 d) in
        if handle =? 0 then (false, level, needNormalization)
        else
          let hid := Hid.mk handle i (select_detect d (Level.throughColumn level)) in
          let level := Level.set_hids level (Level.hids level ++ [hid]) in
          let level := Level.set_need level (Level.needSqsum level || Data.Haar d)
                                      (Level.needTilted level || Data.Tilted d) in
          InitLevels_bind datas' inserts' (S i) level
                          (needNormalization || Data.Haar d)
  | _, _ => (true, level, needNormalization)
  end.

(** The freshly pushed level with its buffers allocated. *)
Definition InitLevels_alloc (imageSize : Size.t) (scale : D) : Level.t D :=
  let scaledSize := Size.unscale imageSize scale in
  let plus1 := Size.add scaledSize (Size.mk 1 1) in
  Level.mk D [] scale
    (Recreate scaledSize Gray8) (Recreate scaledSize Gray8) (Recreate scaledSize Gray8)
    Rect.zero
    (Recreate plus1 Int32) (Recreate plus1 Int32) (Recreate plus1 Int32)
    (Recreate scaledSize Gray8)
    (Dleb scale (D_of_Z 2)) false false.

(** The region-of-interest part at the end of a level's construction. *)
Definition InitLevels_roi (roi : View) (level : Level.t D) : Level.t D :=
  let level := Level.set_rect level (Rect.of_size (View_Size (Level.roi level))) in
  if Format_eqb (format roi) FormatNone
  then Level.set_roi level (Fill (Level.roi level) 255)
  else
    let level := Level.set_roi level (ResizeBilinear roi (Level.roi level)) in
    let level := Level.set_roi level (Binarization (Level.roi level) (Level.roi level)) in
    Level.set_rect level
      (SegmentationShrinkRegion (Level.roi level) 255 (Level.rect level)).

(** [_levels.reserve(100)] *)
Definition levels_reserved : nat := 100.

(** [_levels.push_back(Level())], with the level as the rest of the
    iteration leaves it.  Within the reserved capacity the vector grows in
    place.  Beyond it the vector moves: the levels are copied to new storage
    and the originals destroyed, where [~Level] frees the evaluator handles
    and [~View] the pixel buffers that the copies still refer to; [_freed]
    is set. *)
Definition Levels_push_back (det : Detection D) (needNormalization : bool)
    (level : Level.t D) : Detection D :=
  mkDetection D (_data det) (_imageSize det) needNormalization
              (_levels det ++ [level]) (_workers det)
              (_stale det)
              (_freed det || (levels_reserved <=? length (_levels det))%nat).

(** [_needNormalization = false; _levels.clear(); _levels.reserve(100)].
    The evaluators are all bound anew, against [_data] as it is now:
    [_stale] is reset.  Levels that were freed stay so: [clear] runs
    [~Level] on them, which frees their handles a second time, and the
    detector does not become usable again. *)
Definition Levels_clear (det : Detection D) : Detection D :=
  mkDetection D (_data det) (_imageSize det) false [] (_workers det)
              false (_freed det).

(** The [do { ... } while (true)] loop of [InitLevels], one unit of fuel per
    iteration. *)
Fixpoint InitLevels_loop (fuel : nat) (det : Detection D) (scaleFactor : D)
    (sizeMin sizeMax : Size.t) (roi : View) (scale : D)
    : result (bool * Detection D) :=
  match fuel with
  | O => OutOfFuel
  | S fuel' =>
      let '(inserts, exit, insert) :=
        fold_left (InitLevels_probe (_imageSize det) sizeMin sizeMax scale)
                  (_data det) ([], true, false) in
      if exit then Ok (negb (length (_levels det) =? 0)%nat, det)
      else if insert then
        let level := InitLevels_alloc (_imageSize det) scale in
        let '(bound, level, needNormalization) :=
          InitLevels_bind (_data det) inserts 0 level (_needNormalization det) in
        if bound then
          let level := InitLevels_roi roi level in
          InitLevels_loop fuel'
            (Levels_push_back det needNormalization level)
            scaleFactor sizeMin sizeMax roi (Dmul scale scaleFactor)
        else Ok (false, Levels_push_back det needNormalization level)
      else
        InitLevels_loop fuel' det scaleFactor sizeMin sizeMax roi
                        (Dmul scale scaleFactor)
  end.

Definition InitLevels (fuel : nat) (det : Detection D) (scaleFactor : D)
    (sizeMin sizeMax : Size.t) (roi : View) : result (bool * Detection D) :=
  InitLevels_loop fuel (Levels_clear det) scaleFactor sizeMin sizeMax roi
                  (D_of_Z 1).

(** [Init(imageSize, scaleFactor, sizeMin, sizeMax, roi, threadNumber)] *)
Definition Init (fuel : nat) (det : Detection D) (imageSize : Size.t)
    (scaleFactor : D) (sizeMin sizeMax : Size.t) (roi : View) (threadNumber : Z)
    : result (bool * Detection D) :=
  match _data det with
  | [] => Ok (false, det)
  | _ :: _ =>
      let det := mkDetection D (_data det) imageSize (_needNormalization det)
                             (_levels det)
                             (InitWorkers (_workers det) threadNumber)
                             (_stale det) (_freed det) in
      InitLevels fuel det scaleFactor sizeMin sizeMax roi
  end.

(** *** [FillLevels] *)

Definition EstimateIntegral (level : Level.t D) : Level.t D :=
  if Level.needSqsum level then
    if Level.needTilted level then
      let '(s, q, t) := Integral3 (Level.src level) (Level.sum level)
                                  (Level.sqsum level) (Level.tilted level) in
      Level.set_integrals level s q t
    else
      let '(s, q) := Integral2 (Level.src level) (Level.sum level)
                               (Level.sqsum level) in
      Level.set_integrals level s q (Level.tilted level)
  else
    Level.set_integrals level (Integral1 (Level.src level) (Level.sum level))
                        (Level.sqsum level) (Level.tilted level).

(** Grey conversion at the head of [FillLevels]. *)
Definition FillLevels_gray (src : View) : View :=
  if Format_eqb (format src) Gray8 then src
  else Convert src (Recreate (View_Size src) Gray8).

(** Body of the loop over the levels [i >= 1]; [src0] is [_levels[0].src]. *)
Definition FillLevels_next (src0 : View) (level : Level.t D) : Level.t D :=
  EstimateIntegral (Level.set_src level (ResizeBilinear src0 (Level.src level))).

(** [FillLevels(src)]; it is only called on a non-empty [_levels]. *)
Definition FillLevels (needNormalization : bool) (levels : list (Level.t D))
    (src : View) : list (Level.t D) :=
  match levels with
  | [] => []
  | level0 :: rest =>
      let src := FillLevels_gray src in
      let level0 := Level.set_src level0 (ResizeBilinear src (Level.src level0)) in
      let level0 :=
        if needNormalization
        then Level.set_src level0
               (NormalizeHistogram (Level.src level0) (Level.src level0))
        else level0 in
      let level0 := EstimateIntegral level0 in
      level0 :: map (FillLevels_next (Level.src level0)) rest
  end.

(** *** [Detect] *)

Definition FillMotionMask_rect (scale : D) (st : View * Rect.t) (ri : Rect.t)
    : View * Rect.t :=
  let '(mask, rect) := st in
  let r := Rect.div ri scale in
  (FillRegion mask r 255, Rect_or rect r).

(** [FillMotionMask(rects, level, rect)]: the new level and the new [rect]. *)
Definition FillMotionMask (rects : list Rect.t) (level : Level.t D)
    : Level.t D * Rect.t :=
  let '(mask, rect) :=
    fold_left (FillMotionMask_rect (Level.scale level)) rects
              (Fill (Level.mask level) 0, Rect.zero) in
  let rect := Rect_and rect (Level.rect level) in
  (Level.set_mask level (OperationBinary8uAnd mask (Level.roi level) mask), rect).

(** [std::map<Tag, Objects>]: ascending keys, one entry per key. *)
Definition Candidates : Type := list (Tag * Objects).

(** [f] applied to [candidates[tag]], the entry being created when absent. *)
Fixpoint Candidates_update (c : Candidates) (tag : Tag) (f : Objects -> Objects)
    : Candidates :=
  match c with
  | [] => [(tag, f [])]
  | (k, v) :: c' =>
      if tag <? k then (tag, f []) :: c
      else if tag =? k then (k, f v) :: c'
      else (k, v) :: Candidates_update c' tag f
  end.

Definition Detect_state : Type := (Level.t D * list Worker * Candidates)%type.

(** [*hid.data], the model an evaluator was bound to: element [i] of
    [_data] as long as the models have not moved. *)
Definition Hid_data (stale : bool) (datas : list Data.t) (hid : Hid.t)
    : result Data.t :=
  if stale then Dangling else at_ datas (Z.of_nat (Hid.data hid)).

(** Body of the loop over [level.hids]. *)
Definition Detect_hid (stale : bool) (datas : list Data.t) (mask : View)
    (rect : Rect.t) (j : Z) (st : Detect_state) : result Detect_state :=
  let '(level, workers, candidates) := st in
  hid ← at_ (Level.hids level) j;
  d ← Hid_data stale datas hid;
  '(dst, workers) ←
    Hid_Detect (Level_buffers level) hid (Data.size d) mask rect
               (Level.dst level) workers (Level.throughColumn level);
  let level := Level.set_dst level dst in
  let candidates :=
    Candidates_update candidates (Data.tag d)
      (fun objects =>
         AddObjects objects (Level.dst level) rect (Data.size d) (Level.scale level)
                    (if Level.throughColumn level then 2 else 1) (Data.tag d)) in
  Ok (level, workers, candidates).

(** Body of the loop over [_levels]. *)
Definition Detect_level (stale : bool) (datas : list Data.t) (motionMask : bool)
    (motionRegions : list Rect.t) (i : Z)
    (st : list (Level.t D) * list Worker * Candidates)
    : result (list (Level.t D) * list Worker * Candidates) :=
  let '(levels, workers, candidates) := st in
  level ← at_ levels i;
  let '(level, mask, rect) :=
    if motionMask then
      let '(level, rect) := FillMotionMask motionRegions level in
      (level, Level.mask level, rect)
    else (level, Level.roi level, Level.rect level) in
  if Rect.Empty rect then
    levels ← put_ levels i level;
    Ok (levels, workers, candidates)
  else
    '(level, workers, candidates) ←
      for_ (length (Level.hids level)) 0 (Detect_hid stale datas mask rect)
           (level, workers, candidates);
    levels ← put_ levels i level;
    Ok (levels, workers, candidates).

Fixpoint Detect_group (c : Candidates) (objects : Objects) (groupSizeMin : Z)
    (sizeDifferenceMax : D) : result Objects :=
  match c with
  | [] => Ok objects
  | (_, second) :: c' =>
      objects ← GroupObjects objects second groupSizeMin sizeDifferenceMax;
      Detect_group c' objects groupSizeMin sizeDifferenceMax
  end.

(** [Detect(src, objects, groupSizeMin, sizeDifferenceMax, motionMask,
    motionRegions)]: the returned flag, [objects] and the detector after the
    call.  [groupSizeMin] is the [int] argument.  Past the test at its
    head, [FillLevels] writes the pixel buffers of the levels and the
    evaluators run on their handles: on freed levels the call is
    [Dangling]. *)
Definition Detect (det : Detection D) (src : View) (objects : Objects)
    (groupSizeMin : Z) (sizeDifferenceMax : D) (motionMask : bool)
    (motionRegions : list Rect.t) : result (bool * Objects * Detection D) :=
  if (length (_levels det) =? 0)%nat || negb (Size.eqb (View_Size src) (_imageSize det))
  then Ok (false, objects, det)
  else if _freed det then Dangling
  else
    let levels := FillLevels (_needNormalization det) (_levels det) src in
    '(levels, workers, candidates) ←
      for_ (length levels) 0
           (Detect_level (_stale det) (_data det) motionMask motionRegions)
           (levels, _workers det, []);
    objects ← Detect_group candidates [] (to_size_t groupSizeMin) sizeDifferenceMax;
    Ok (true, objects,
        mkDetection D (_data det) (_imageSize det) (_needNormalization det)
                    levels workers (_stale det) (_freed det)).
End Detector.

(** ** Sample inputs and a test double for the external collaborators *)

Definition R4 (l t r b : Z) : Rect.t := Rect.mk l t r b.

(** The two near-duplicate candidates of the clustering scenario. *)
Definition cand_a : Object := mkObject (R4 10 10 50 50) 1 7.
Definition cand_b : Object := mkObject (R4 12 12 52 52) 1 7.

(** A representative carrying weight 2, as [GroupObjects] emits it with
    [groupSizeMin = 2]. *)
Definition grouped_2 : Object := mkObject (R4 11 11 51 51) 2 7.

(** A stand-in for the pixel kernels that records provenance: a resized
    image holds, in every pixel, the width of the image it was resized
    from; normalisation adds 1000 to every pixel.  Cascade handle 13 cannot
    be bound ([SimdDetectionInit] answers [NULL]); every other one binds to
    the handle 1.  Every window is a hit. *)
Definition probe_resize (src dst : View) : View :=
  mkView (format dst) (width dst) (height dst) (fun _ _ => width src).

Definition probe_normalize (src dst : View) : View :=
  mkView (format dst) (width dst) (height dst)
         (fun r c => pixel src r c + 1000).

#[export] Instance probe : Primitives := {
  hardware_concurrency := 4;
  SimdDetectionLoadA := fun _ => 1;
  SimdDetectionInfo := fun _ => (Size.mk 2 2, 1);
  SimdDetectionInit := fun cascade _ _ _ _ _ => if cascade =? 13 then 0 else 1;
  classify := fun _ _ _ _ _ _ _ => true;
  Convert := fun _ dst => dst;
  ResizeBilinear := probe_resize;
  NormalizeHistogram := probe_normalize;
  Integral1 := fun _ s => s;
  Integral2 := fun _ s q => (s, q);
  Integral3 := fun _ s q t => (s, q, t);
  Binarization := fun _ dst => dst;
  SegmentationShrinkRegion := fun _ _ r => r;
  OperationBinary8uAnd := fun _ _ dst => dst;
  Region_MiddleCenter := fun v _ => v;
  FillRegion := fun v _ _ => v;
  Rect_or := fun a _ => a;
  Rect_and := fun a _ => a
}.

(** A level of the given side whose buffers are allocated and empty. *)
Definition sample_level (side : Z) (scale : Q) : Level.t Q :=
  InitLevels_alloc (Size.mk side side) scale.

Definition three_levels : list (Level.t Q) :=
  [sample_level 8 1; sample_level 4 1; sample_level 2 1].

Definition gray_image (side : Z) : View := Recreate (Size.mk side side) Gray8.

(** The stand-in with a native bind that refuses integral images wider
    than 6 columns, as a bind that runs out of memory would. *)
Definition probe_tight : Primitives := {|
  hardware_concurrency := 4;
  SimdDetectionLoadA := fun _ => 1;
  SimdDetectionInfo := fun _ => (Size.mk 2 2, 1);
  SimdDetectionInit := fun _ sum _ _ _ _ => if 6 <? width sum then 0 else 1;
  classify := fun _ _ _ _ _ _ _ => true;
  Convert := fun _ dst => dst;
  ResizeBilinear := probe_resize;
  NormalizeHistogram := probe_normalize;
  Integral1 := fun _ s => s;
  Integral2 := fun _ s q => (s, q);
  Integral3 := fun _ s q t => (s, q, t);
  Binarization := fun _ dst => dst;
  SegmentationShrinkRegion := fun _ _ r => r;
  OperationBinary8uAnd := fun _ _ dst => dst;
  Region_MiddleCenter := fun v _ => v;
  FillRegion := fun v _ _ => v;
  Rect_or := fun a _ => a;
  Rect_and := fun a _ => a
|}.

(** A detector with one model loaded, under that stand-in. *)
Definition tight_det : Detection Q :=
  snd (Load (prim := probe_tight) Detection_new String.EmptyString 7).

(** The smallest negative [double], [-2^-1074], and a 1x2 window. *)
Definition least_negative : PrimFloat.float :=
  PrimFloat.opp (PrimFloat.next_up PrimFloat.zero).

Definition cand_1x2 : Object := mkObject (R4 0 0 1 2) 1 7.

(** ** Proof-side vocabulary for [Partition] *)

(** The two columns of [nodes] as total functions. *)
Definition parent_of (nodes : list Z) (k : Z) : Z :=
  default 0 (nodes !! Z.to_nat (2 * k + PARENT)).
Definition rank_of (nodes : list Z) (k : Z) : Z :=
  default 0 (nodes !! Z.to_nat (2 * k + RANK)).

(** [forest N nodes rep h R]: the parent column of [nodes] is a forest over
    [0 .. N-1]; [rep k] is the root of the tree of [k], and [h] a height,
    bounded by [R], that grows strictly along parent links. *)
Record forest (N : Z) (nodes : list Z) (rep h : Z -> Z) (R : Z) : Prop := {
  forest_len : Z.of_nat (length nodes) = 2 * N;
  forest_rep_range : forall k, 0 <= k < N -> 0 <= rep k < N;
  forest_rep_root : forall k, 0 <= k < N -> parent_of nodes (rep k) < 0;
  forest_root_rep : forall k, 0 <= k < N -> parent_of nodes k < 0 -> rep k = k;
  forest_parent : forall k, 0 <= k < N -> 0 <= parent_of nodes k ->
    parent_of nodes k < N /\ h k < h (parent_of nodes k) /\
    rep (parent_of nodes k) = rep k;
  forest_height : forall k, 0 <= k < N -> 0 <= h k <= R;
  forest_below : forall k, 0 <= k < N -> rep k = k \/ h k < h (rep k)
}.

(** The labels are class indices, and every class has a member. *)
Definition labels_ok (N : Z) (labels : list Z) (nclasses : Z) : Prop :=
  Z.of_nat (length labels) = N /\
  (forall i l, labels !! i = Some l -> 0 <= l < nclasses) /\
  (forall c, 0 <= c < nclasses -> exists i, labels !! i = Some c).

(** Loop invariants of [Partition]: [R] bounds the ranks and grows by at
    most one per inner iteration. *)
Definition inner_inv (N i j : Z) (st : list Z * Z) : Prop :=
  exists rep R,
    forest N (fst st) rep (rank_of (fst st)) R /\
    0 <= R <= i * N + j /\ snd st = rep i.

Definition outer_inv (N i : Z) (nodes : list Z) : Prop :=
  exists rep R, forest N nodes rep (rank_of nodes) R /\ 0 <= R <= i * N.

Definition init_inv (N i : Z) (nodes : list Z) : Prop :=
  Z.of_nat (length nodes) = 2 * N /\
  (forall k, 0 <= k < N -> rank_of nodes k = 0) /\
  (forall k, 0 <= k < i -> parent_of nodes k = -1).

Definition label_inv (N : Z) (rep h : Z -> Z) (R : Z) (i : Z)
    (st : list Z * list Z * Z) : Prop :=
  let '(nodes, labels, nclasses) := st in
  forest N nodes rep h R /\
  Z.of_nat (length labels) = N /\
  0 <= nclasses <= i /\
  (forall k, 0 <= k < N -> - nclasses <= rank_of nodes k) /\
  (forall k l, (k < Z.to_nat i)%nat -> labels !! k = Some l -> 0 <= l < nclasses) /\
  (forall c, 0 <= c < nclasses ->
             exists k, (k < Z.to_nat i)%nat /\ labels !! k = Some c).

(** The accumulator [buffer[cls]] after the members [ms] were added to it. *)
Definition cluster_acc (ms : Objects) : Object :=
  fold_left
    (fun b s => mkObject (Rect.add (rect b) (rect s)) (weight b + 1) (tag s))
    ms Object_default.

(** The strong cluster and the weak cluster nested in it. *)
Definition strong_cluster : Object := mkObject (R4 0 0 100 100) 10 7.
Definition weak_cluster : Object := mkObject (R4 10 10 90 90) 2 7.

(** The [data] of every evaluator of every level is the address of an
    element of [_data]; whether that address is still live is [_stale]. *)
Definition hids_wf (n : nat) (hids : list Hid.t) : Prop :=
  Forall (fun h => (Hid.data h < n)%nat) hids.

Definition levels_wf {D : Type} (n : nat) (levels : list (Level.t D)) : Prop :=
  Forall (fun level => hids_wf n (Level.hids level)) levels.

Definition det_wf {D : Type} (det : Detection D) : Prop :=
  levels_wf (length (_data det)) (_levels det).

(** The failure test at the head of [Detect]. *)
Definition Detect_rejects {D : Type} (det : Detection D) (src : View) : Prop :=
  _levels det = [] \/ View_Size src <> _imageSize det.

(** A detector as [Init] leaves it for one LBP model with a 2x2 window on a
    4x4 image: one level at scale 1 with one evaluator. *)
Definition sample_data : Data.t := Data.mk 1 7 (Size.mk 2 2) 1.

Definition sample_det : Detection Q :=
  mkDetection Q [sample_data] (Size.mk 4 4) false
    [InitLevels_roi View_default
       (Level.set_hids (sample_level 4 1)
                       [Hid.mk 1 0 SimdDetectionLbpDetect32fi])]
    [] false false.

(** A detector holding one model whose cascade handle the native bind
    refuses. *)
Definition unbindable_det : Detection Q :=
  mkDetection Q [Data.mk 13 7 (Size.mk 2 2) 1] (Size.mk 0 0) false [] []
              false false.

(** The detectors a client can obtain: a fresh one, then any sequence of
    [Load], [Init] and [Detect] calls that return.  They need not be
    usable: a [Load] after [Init] is such a sequence. *)
Inductive reachable {D : Type} {ops : DoubleOps D} {prim : Primitives}
    : Detection D -> Prop :=
| reachable_new : reachable Detection_new
| reachable_Load det path tag :
    reachable det -> reachable (snd (Load det path tag))
| reachable_Init det fuel imageSize scaleFactor sizeMin sizeMax roi threadNumber b det' :
    reachable det ->
    Init fuel det imageSize scaleFactor sizeMin sizeMax roi threadNumber = Ok (b, det') ->
    reachable det'
| reachable_Detect det src objects groupSizeMin sizeDifferenceMax motionMask
                   motionRegions b objects' det' :
    reachable det ->
    Detect det src objects groupSizeMin sizeDifferenceMax motionMask motionRegions
      = Ok (b, objects', det') ->
    reachable det'.

(** The valid sub-rectangle computed at the head of [Hid::Detect] and of
    [AddObjects]. *)
Definition valid_rect (dst : View) (rect : Rect.t) (size : Size.t) : Rect.t :=
  Rect.Intersection (Rect.Shifted rect (Size.quot2 (Size.neg size)))
                    (Rect.of_size (Size.sub (View_Size dst) size)).

(** Membership in a scan, as a test. *)
Definition mem (x : Z) (l : list Z) : bool := existsb (Z.eqb x) l.

(** The cell test of the native routine. *)
Definition hitb (verdict : Z -> Z -> bool) (m : View) (row col : Z) : bool :=
  negb (pixel m row col =? 0) && verdict row col.

(** The row step of the strips without machine arithmetic:
    [(bottom - top) / N + 1], made even when [throughColumn] is set. *)
Definition ideal_step (top bottom N : Z) (throughColumn : bool) : Z :=
  let step0 := (bottom - top) / N + 1 in
  if throughColumn then step0 + step0 mod 2 else step0.

(** Row [row] belongs to strip [i]. *)
Definition in_strip (top bottom step i row : Z) : Prop :=
  strip_top top step i <= row < strip_bottom (strip_top top step i) step bottom.

(** Two views with the same geometry and the same pixels. *)
Definition same_view (a b : View) : Prop :=
  format a = format b /\ width a = width b /\ height a = height b /\
  forall row col, pixel a row col = pixel b row col.

(** Task [i] of the parallel path of [Hid::Detect]. *)
Definition strip_task (h : Hid.t) (m : View) (r : Rect.t) (step : Z) (i : Z) : Task :=
  let top := strip_top (Rect.top r) step i in
  mkTask h m (Rect.mk (Rect.left r) top (Rect.right r)
                      (strip_bottom top step (Rect.bottom r))).

(** The destination after strips [0 .. n-1] ran, in index order. *)
Fixpoint run_strips {prim : Primitives} (bufs : Buffers) (h : Hid.t) (m : View)
    (r : Rect.t) (step : Z) (n : nat) (d : View) : View :=
  match n with
  | O => d
  | S n' => Task_Run bufs (strip_task h m r step (Z.of_nat n'))
                     (run_strips bufs h m r step n' d)
  end.

(** Row [row] is scanned by one of the strips [0 .. n-1]. *)
Fixpoint rows_upto (top bottom step stride : Z) (n : nat) (row : Z) : bool :=
  match n with
  | O => false
  | S n' =>
      rows_upto top bottom step stride n' row ||
      mem row (strided (strip_top top step (Z.of_nat n'))
                       (strip_bottom (strip_top top step (Z.of_nat n')) step bottom)
                       stride)
  end.

(** A pool of two idle workers. *)
Definition two_workers : list Worker := [mkWorker []; mkWorker []].

Definition sample_hid : Hid.t := Hid.mk 1 0 SimdDetectionLbpDetect32fi.

Definition sample_buffers : Buffers :=
  (View_default, View_default, View_default).

(** ** The scale iteration of [InitLevels] as the specification words it *)

Section ScaleIteration.
Context {D : Type} {ops : DoubleOps D}.
Variable imageSize sizeMin sizeMax : Size.t.
Variable datas : list Data.t.

(** The scale of iteration [k]: 1.0 multiplied [k] times by [scaleFactor]. *)
Definition scale_at (scaleFactor : D) (k : nat) : D :=
  Nat.iter k (fun s => Dmul s scaleFactor) (D_of_Z 1).

(** The scaled window of a model is within [sizeMax] and the image. *)
Definition model_fits (scale : D) (d : Data.t) : bool :=
  window_fits imageSize sizeMax (Size.scale (Data.size d) scale).

(** ... and at least [sizeMin] as well. *)
Definition model_qualifies (scale : D) (d : Data.t) : bool :=
  model_fits scale d && window_large_enough sizeMin (Size.scale (Data.size d) scale).

(** Every registered model's window exceeds [sizeMax] or the image. *)
Definition all_exceed (scale : D) : bool :=
  forallb (fun d => negb (model_fits scale d)) datas.

Definition any_qualifies (scale : D) : bool :=
  existsb (model_qualifies scale) datas.

(** Indices, from [i] on, of the models that qualify at [scale]. *)
Fixpoint qualifying_from (scale : D) (i : nat) (ds : list Data.t) : list nat :=
  match ds with
  | [] => []
  | d :: ds' =>
      if model_qualifies scale d
      then i :: qualifying_from scale (S i) ds'
      else qualifying_from scale (S i) ds'
  end.

(** The iterations among [k0 .. k0 + n - 1] at which a level is due. *)
Definition emitting_steps (scaleFactor : D) (k0 n : nat) : list nat :=
  List.filter (fun k => any_qualifies (scale_at scaleFactor k)) (seq k0 n).

(** A level is the one due at iteration [k]: its scale is that of the
    iteration and it binds the qualifying models, in registry order. *)
Definition level_of_step (scaleFactor : D) (level : Level.t D) (k : nat) : Prop :=
  Level.scale level = scale_at scaleFactor k /\
  map Hid.data (Level.hids level) = qualifying_from (scale_at scaleFactor k) 0 datas.
End ScaleIteration.

(** ** Pool and evaluator coherence *)

(** A worker with nothing queued. *)
Definition idle (w : Worker) : Prop := _tasks w = [].

(** Every evaluator of the level that scans with stride 2 belongs to a
    level with [throughColumn] set. *)
Definition level_coherent {D : Type} (level : Level.t D) : Prop :=
  Forall (fun h => detect_stride (Hid.detect h) = 2 ->
                   Level.throughColumn level = true) (Level.hids level).

Definition det_coherent {D : Type} (det : Detection D) : Prop :=
  Forall level_coherent (_levels det) /\ Forall idle (_workers det).

(** The destination after the strips with the given indices ran in the
    given order. *)
Definition run_strips_in {prim : Primitives} (bufs : Buffers) (h : Hid.t)
    (m : View) (r : Rect.t) (step : Z) (order : list nat) (d : View) : View :=
  fold_left (fun d k => Task_Run bufs (strip_task h m r step (Z.of_nat k)) d)
            order d.

(** Row [row] is scanned by one of the strips of the given indices. *)
Definition rows_of (top bottom step stride : Z) (order : list nat) (row : Z) : bool :=
  existsb (fun k =>
             mem row (strided (strip_top top step (Z.of_nat k))
                              (strip_bottom (strip_top top step (Z.of_nat k)) step bottom)
                              stride))
          order.


(** ** Chains of similar candidates *)

(** Candidates [a] and [b] of [vec] pass the [Similar] test. *)
Definition similar_at {D : Type} {ops : DoubleOps D} (vec : Objects) (s : D)
    (a b : nat) : Prop :=
  exists va vb, vec !! a = Some va /\ vec !! b = Some vb /\ Similar s va vb = true.

(** [a] and [b] are joined by a chain of candidates, each similar to the
    next. *)
Inductive linked {D : Type} {ops : DoubleOps D} (vec : Objects) (s : D)
    : nat -> nat -> Prop :=
| linked_refl a : (a < length vec)%nat -> linked vec s a a
| linked_step a b c :
    linked vec s a b -> similar_at vec s b c -> linked vec s a c.

(** Invariants of the union phase of [Partition] that tie the trees to the
    chains: a tree only holds linked candidates, the rows [0 .. i-1] of the
    pair loop are merged, and so are the columns [0 .. j-1] of row [i]. *)
Definition classes_sound {D : Type} {ops : DoubleOps D} (vec : Objects) (s : D)
    (N : Z) (rep : Z -> Z) : Prop :=
  forall a b, 0 <= a < N -> 0 <= b < N -> rep a = rep b ->
              linked vec s (Z.to_nat a) (Z.to_nat b).

Definition rows_done {D : Type} {ops : DoubleOps D} (vec : Objects) (s : D)
    (N : Z) (rep : Z -> Z) (i : Z) : Prop :=
  forall a b, 0 <= a < i -> 0 <= b < N ->
              similar_at vec s (Z.to_nat a) (Z.to_nat b) -> rep a = rep b.

Definition row_done {D : Type} {ops : DoubleOps D} (vec : Objects) (s : D)
    (rep : Z -> Z) (i j : Z) : Prop :=
  forall b, 0 <= b < j ->
            similar_at vec s (Z.to_nat i) (Z.to_nat b) -> rep i = rep b.

Definition component_inner_inv {D : Type} {ops : DoubleOps D} (vec : Objects)
    (s : D) (N i j : Z) (st : list Z * Z) : Prop :=
  exists rep R,
    forest N (fst st) rep (rank_of (fst st)) R /\
    0 <= R <= i * N + j /\ snd st = rep i /\
    classes_sound vec s N rep /\ rows_done vec s N rep i /\ row_done vec s rep i j.

Definition component_outer_inv {D : Type} {ops : DoubleOps D} (vec : Objects)
    (s : D) (N i : Z) (nodes : list Z) : Prop :=
  exists rep R,
    forest N nodes rep (rank_of nodes) R /\ 0 <= R <= i * N /\
    classes_sound vec s N rep /\ rows_done vec s N rep i.

(** Invariant of the labelling phase: a visited candidate carries the
    complement of its root's rank, labelled roots have distinct ranks, and
    a label above zero is preceded by the label below it. *)
Definition component_label_inv (N : Z) (rep h : Z -> Z) (R : Z) (i : Z)
    (st : list Z * list Z * Z) : Prop :=
  let '(nodes, labels, nclasses) := st in
  forest N nodes rep h R /\
  Z.of_nat (length labels) = N /\
  0 <= nclasses <= i /\
  (forall k, 0 <= k < N -> - nclasses <= rank_of nodes k) /\
  (forall k, 0 <= k < i ->
             rank_of nodes (rep k) < 0 /\
             labels !! Z.to_nat k = Some (Z.lnot (rank_of nodes (rep k)))) /\
  (forall a b, 0 <= a < N -> 0 <= b < N ->
               rank_of nodes (rep a) < 0 ->
               rank_of nodes (rep a) = rank_of nodes (rep b) -> rep a = rep b) /\
  (forall k l, 0 <= k < i -> labels !! Z.to_nat k = Some l ->
               l = 0 \/ exists k', 0 <= k' < k /\
                                    labels !! Z.to_nat k' = Some (l - 1)) /\
  (forall c, 0 <= c < nclasses ->
             exists k, 0 <= k < i /\ labels !! Z.to_nat k = Some c).

(** ** One detection pass over a level *)

(** The verdict function of an evaluator bound to the integral buffers
    [bufs]. *)
Definition verdict_of {prim : Primitives} (bufs : View * View * View) (h : Hid.t)
    : Z -> Z -> bool :=
  let '(s, q, t) := bufs in classify (Hid.detect h) (Hid.handle h) s q t.

(** The candidate [AddObjects] emits for the window whose top-left corner
    is at [(row, col)]. *)
Definition window_object {D : Type} {ops : DoubleOps D} (size : Size.t)
    (scale : D) (tag : Tag) (row col : Z) : Object :=
  mkObject (Rect.scale (Rect.mk col row (col + Size.x size) (row + Size.y size))
                       scale) 1 tag.

(** The positions [(row, col)] of [r] visited with the given step, row by
    row, that pass [test]. *)
Definition scan_hits (test : Z -> Z -> bool) (r : Rect.t) (step : Z) : list (Z * Z) :=
  flat_map (fun row =>
              map (pair row)
                  (List.filter (test row)
                               (strided (Rect.left r) (Rect.right r) step)))
           (strided (Rect.top r) (Rect.bottom r) step).

(** The mask region [Hid::Detect] hands to the native routine. *)
Definition mask_region {prim : Primitives} (mask dst : View) (size : Size.t) : View :=
  Region_MiddleCenter mask (Size.sub (View_Size dst) size).

(** A bitmap in which every window marks a hit. *)
Definition all_set (side : Z) : View := Fill (gray_image side) 1.

(** ** What [Detect] leaves alone, and what every detector satisfies *)

(** The part of a level that is fixed when the level is built: evaluators,
    scale, region of interest, flags and the size of the hit bitmap. *)
Definition Level_static {D : Type} (l : Level.t D)
    : list Hid.t * D * View * Rect.t * bool * bool * bool * Size.t :=
  (Level.hids l, Level.scale l, Level.roi l, Level.rect l,
   Level.throughColumn l, Level.needSqsum l, Level.needTilted l,
   View_Size (Level.dst l)).

(** A flag of the model an evaluator points at. *)
Definition model_flag (datas : list Data.t) (f : Data.t -> bool) (h : Hid.t) : bool :=
  match datas !! Hid.data h with
  | Some d => f d
  | None => false
  end.

(** An evaluator is bound (non-[NULL] handle), points at a registered
    model and holds the routine chosen from that model's flags. *)
Definition hid_sound (datas : list Data.t) (throughColumn : bool) (h : Hid.t) : Prop :=
  Hid.handle h <> 0 /\
  exists d, datas !! Hid.data h = Some d /\
            Hid.detect h = select_detect d throughColumn.

Definition level_sound {D : Type} {ops : DoubleOps D} (datas : list Data.t)
    (imageSize : Size.t) (level : Level.t D) : Prop :=
  Level.throughColumn level = Dleb (Level.scale level) (D_of_Z 2) /\
  Forall (hid_sound datas (Level.throughColumn level)) (Level.hids level) /\
  Level.needSqsum level = existsb (model_flag datas Data.Haar) (Level.hids level) /\
  Level.needTilted level = existsb (model_flag datas Data.Tilted) (Level.hids level) /\
  View_Size (Level.dst level) = Size.unscale imageSize (Level.scale level).

Definition det_sound {D : Type} {ops : DoubleOps D} (det : Detection D) : Prop :=
  Forall (level_sound (_data det) (_imageSize det)) (_levels det) /\
  (_levels det <> [] ->
   _needNormalization det = existsb Level.needSqsum (_levels det)) /\
  Forall idle (_workers det).

(** The candidate map of [Detect]: ascending keys, each a registered tag,
    and under a key only unit-weight objects carrying that key as tag. *)
Definition cand_ok (datas : list Data.t) (c : list (Tag * Objects)) : Prop :=
  StronglySorted Z.lt (map fst c) /\
  Forall (fun e => In (fst e) (map Data.tag datas) /\
                   Forall (fun o => tag o = fst e) (snd e)) c.

(** A detector obtained from a fresh one by loading one model and a
    successful [Init] on a 4x4 image, and the same after one [Detect]. *)
Definition loaded_det : Detection Q :=
  snd (Load Detection_new String.EmptyString 7).

Definition ready_det : Detection Q :=
  match Init 3 loaded_det (Size.mk 4 4) (inject_Z 2) (Size.mk 0 0)
             (Size.mk 100 100) View_default 1 with
  | Ok (_, det) => det
  | _ => loaded_det
  end.

(** The native bind never refuses the cascade of model [d]. *)
Definition bindable {prim : Primitives} (d : Data.t) : Prop :=
  forall s q t tc i16, SimdDetectionInit (Data.handle d) s q t tc i16 <> 0.

(** [Init] on the loaded detector with a size range no window can meet
    ([sizeMin] above [sizeMax]), and with three worker threads requested. *)
Definition starved_det : Detection Q :=
  match Init 3 loaded_det (Size.mk 4 4) (inject_Z 2) (Size.mk 10 10)
             (Size.mk 5 5) View_default 1 with
  | Ok (_, det) => det
  | _ => loaded_det
  end.

Definition pooled_det : Detection Q :=
  match Init 3 loaded_det (Size.mk 4 4) (inject_Z 2) (Size.mk 0 0)
             (Size.mk 100 100) View_default 3 with
  | Ok (_, det) => det
  | _ => loaded_det
  end.

(** * The test driver of Test.cpp

    The command-line options, the selection of the test groups and the
    exit code of [main].  A test behind a function pointer is the verdict
    its call returns; [NULL] is [None].  Logging is left out.  The branch
    of [MakeAutoTests] that starts [threads] concurrent tasks is an outcome
    of its own and is not followed further. *)

Module Test.
Import Stdlib.Strings.String Stdlib.Strings.Ascii.

Definition String : Type := string.
Definition Strings : Type := list String.

Record Group : Type := mkGroup {
  name : String;
  autoTest : option bool;             (* AutoTestPtr *)
  dataTest : option (bool -> bool);   (* DataTestPtr, applied to [create] *)
  specialTest : option bool           (* SpecialTestPtr *)
}.
Definition Groups : Type := list Group.

Inductive Mode : Type := Auto | Create | Verify | Special.

Definition Mode_eqb (a b : Mode) : bool :=
  match a, b with
  | Auto, Auto | Create, Create | Verify, Verify | Special, Special => true
  | _, _ => false
  end.

Record Options : Type := mkOptions {
  help : bool;
  mode : Mode;
  filters : Strings;
  output : String;
  threads : Z
}.

(** [s.substr(pos, len)] for [pos <= s.size()]: the characters from [pos]
    on, at most [len] of them. *)
Definition substr (s : String) (pos len : nat) : String := substring pos len s.

(** [s.find(pat)]: the first position at which [pat] occurs in [s];
    [None] stands for [npos]. *)
Definition find (s pat : String) : option nat := index 0 pat s.

(** [arg.find(pat) == 0] *)
Definition find_is_0 (arg pat : String) : bool :=
  match find arg pat with
  | Some O => true
  | _ => false
  end.

(** [arg.substr(3, arg.size() - 3)] *)
Definition value_of (arg : String) : String :=
  substr arg 3 (String.length arg - 3).

(** What a constructor or [main] comes to: a normal return, a call of
    [exit], a call through a [NULL] test pointer, or the hand-over to the
    concurrent tasks. *)
Inductive outcome (A : Type) : Type :=
| Returned (a : A)
| Exited (code : Z)
| NullCalled
| Threaded.
Arguments Returned {A} a.
Arguments Exited {A} code.
Arguments NullCalled {A}.
Arguments Threaded {A}.

Section Driver.
(** The build flag [NDEBUG], and [ss >> threads]: the value of [threads]
    after the extraction from the given text. *)
Variable NDEBUG : bool.
Variable read_size_t : String -> Z -> Z.
(** The registered groups, in registration order. *)
Variable g_groups : Groups.

(** The loop of the constructor [Options(argc, argv)] over [argv[1 ..]]. *)
Fixpoint Options_loop (args : list String) (o : Options) : outcome Options :=
  match args with
  | [] => Returned o
  | arg :: rest =>
      if (substr arg 0 2 =? "-h")%string || (substr arg 0 2 =? "-?")%string then
        Returned (mkOptions true (mode o) (filters o) (output o) (threads o))
      else if find_is_0 arg "-m="%string then
        match get 3 arg with
        | Some "a"%char =>
            Options_loop rest (mkOptions (help o) Auto (filters o) (output o) (threads o))
        | Some "c"%char =>
            Options_loop rest (mkOptions (help o) Create (filters o) (output o) (threads o))
        | Some "v"%char =>
            Options_loop rest (mkOptions (help o) Verify (filters o) (output o) (threads o))
        | Some "s"%char =>
            Options_loop rest (mkOptions (help o) Special (filters o) (output o) (threads o))
        | _ => Exited 1
        end
      else if find_is_0 arg "-t="%string then
        Options_loop rest
          (if NDEBUG
           then mkOptions (help o) (mode o) (filters o) (output o)
                          (read_size_t (value_of arg) (threads o))
           else o)
      else if find_is_0 arg "-f="%string then
        Options_loop rest
          (mkOptions (help o) (mode o) (filters o ++ [value_of arg]) (output o)
                     (threads o))
      else if find_is_0 arg "-o="%string then
        Options_loop rest
          (mkOptions (help o) (mode o) (filters o) (value_of arg) (threads o))
      else Exited 1
  end.

(** [Options(argc, argv)]; [argv] includes the program name. *)
Definition Options_ctor (argv : list String) : outcome Options :=
  Options_loop (List.tl argv) (mkOptions false Auto [] EmptyString 0).

(** The filter loop of [Required], left at the first match. *)
Fixpoint Required_filters (name : String) (filters : Strings) : bool :=
  match filters with
  | [] => false
  | f :: rest =>
      match find name f with
      | Some _ => true
      | None => Required_filters name rest
      end
  end.

Definition is_null {A : Type} (p : option A) : bool :=
  match p with
  | None => true
  | Some _ => false
  end.

(** [Options::Required(group)] *)
Definition Required (o : Options) (group : Group) : bool :=
  if Mode_eqb (mode o) Auto && is_null (autoTest group) then false
  else if (Mode_eqb (mode o) Create || Mode_eqb (mode o) Verify)
          && is_null (dataTest group) then false
  else if Mode_eqb (mode o) Special && is_null (specialTest group) then false
  else match filters o with
       | [] => true
       | _ :: _ => Required_filters (name group) (filters o)
       end.

(** [Task::Run] on the main thread, [s_stopped] being false on entry: the
    value of [s_stopped] on return, [None] if a [NULL] pointer is called. *)
Fixpoint Task_Run (groups : Groups) : option bool :=
  match groups with
  | [] => Some false
  | group :: rest =>
      match autoTest group with
      | None => None
      | Some result => if result then Task_Run rest else Some true
      end
  end.

Definition MakeAutoTests (groups : Groups) (o : Options) : outcome Z :=
  if 0 <? threads o then Threaded
  else match Task_Run groups with
       | None => NullCalled
       | Some stopped => if stopped then Returned 1 else Returned 0
       end.

Fixpoint MakeDataTests (groups : Groups) (o : Options) : outcome Z :=
  match groups with
  | [] => Returned 0
  | group :: rest =>
      match dataTest group with
      | None => NullCalled
      | Some test =>
          if test (Mode_eqb (mode o) Create) then MakeDataTests rest o
          else Returned 1
      end
  end.

Fixpoint MakeSpecialTests (groups : Groups) (o : Options) : outcome Z :=
  match groups with
  | [] => Returned 0
  | group :: rest =>
      match specialTest group with
      | None => NullCalled
      | Some result => if result then MakeSpecialTests rest o else Returned 1
      end
  end.

Definition PrintHelp : Z := 0.

(** The groups [main] keeps. *)
Definition selected (o : Options) : Groups := List.filter (Required o) g_groups.

(** [main(argc, argv)] *)
Definition main (argv : list String) : outcome Z :=
  match Options_ctor argv with
  | Returned options =>
      if help options then Returned PrintHelp
      else
        match selected options with
        | [] => Returned 1
        | groups =>
            match mode options with
            | Auto => MakeAutoTests groups options
            | Create | Verify => MakeDataTests groups options
            | Special => MakeSpecialTests groups options
            end
        end
  | Exited code => Exited code
  | NullCalled => NullCalled
  | Threaded => Threaded
  end.
End Driver.

(** The test of the mode [o] is in, applied to [group]: present and
    passing. *)
Definition passes (o : Options) (group : Group) : Prop :=
  match mode o with
  | Auto => autoTest group = Some true
  | Create => exists test, dataTest group = Some test /\ test true = true
  | Verify => exists test, dataTest group = Some test /\ test false = true
  | Special => specialTest group = Some true
  end.

(** [pat] occurs in [s] at position [m]. *)
Definition occurs_at (s pat : String) (m : nat) : Prop :=
  substring m (String.length pat) s = pat.

(** Sample groups and command lines. *)
Definition sobel : Group := mkGroup "Sobel"%string (Some true) (Some (fun _ => true)) None.
Definition detection : Group := mkGroup "Detection"%string None None (Some true).
Definition sample_groups : Groups := [sobel; detection].
Definition prog : String := "Test"%string.
Definition arg_filter : String := "-f=Sobel"%string.
Definition arg_help : String := "-help"%string.
Definition arg_bogus : String := "--bogus"%string.
Definition argv_special : list String := [prog; "-m=s"; "-f=Det"]%string.
Definition argv_mode_missing : list String := [prog; "-m="]%string.
(** An extraction that always reads 0. *)
Definition read_zero (text : String) (old : Z) : Z := 0.
End Test.

(** A candidate far away from [cand_a]. *)
Definition cand_far : Object := mkObject (R4 200 200 240 240) 1 7.
(** * Theorems *)

(** ** Similarity *)

Section SimilarFacts.
Context {D : Type} {ops : DoubleOps D}.

Lemma Similar_sym (s : D) (o1 o2 : Object) : Similar s o1 o2 = Similar s o2 o1.
Proof.
  unfold Similar, Similar_delta.
  rewrite (Z.min_comm (Rect.Width (rect o1))), (Z.min_comm (Rect.Height (rect o1))).
  assert (Habs : forall a b : Z, Z.abs (a - b) = Z.abs (b - a)) by (intros; lia).
  rewrite (Habs (Rect.left (rect o1))), (Habs (Rect.top (rect o1))),
          (Habs (Rect.right (rect o1))), (Habs (Rect.bottom (rect o1))).
  reflexivity.
Qed.

(** C3 (amended). For every pair of candidates and every
    [sizeDifferenceMax], in whatever arithmetic [double] has, [Similar]
    holds exactly when each of the four absolute edge differences is at
    most [sizeDifferenceMax * (min(w1,w2) + min(h1,h2)) * 0.5], the
    products taken in this order; and it is symmetric in its two
    arguments. *)
Theorem Similar_iff_edges_within_code_order (s : D) (o1 o2 : Object) :
  (Similar s o1 o2 = true <-> edges_within s o1 o2) /\
  Similar s o1 o2 = Similar s o2 o1.
Proof.
  split; [| apply Similar_sym].
  unfold Similar, edges_within, Similar_delta; cbv zeta.
  rewrite !andb_true_iff.
  tauto.
Qed.

(** Where halving commutes with a product, as on the rationals, the bound
    may be taken in the order [sizeDifferenceMax * 0.5 * (...)] as well. *)
Lemma Similar_iff_spec_order_when_exact
    (Hhalf : forall a b : D, Dmul (Dmul a b) Dhalf = Dmul (Dmul a Dhalf) b)
    (s : D) (o1 o2 : Object) :
  Similar s o1 o2 = true <-> spec_similar s o1 o2.
Proof.
  unfold Similar, spec_similar, Similar_delta, spec_delta; cbv zeta.
  rewrite Hhalf, !andb_true_iff.
  tauto.
Qed.
End SimilarFacts.

(** C3, as the claim words it, fails in binary64.  With
    [sizeDifferenceMax = -2^-1074] and a 1x2 window compared with itself,
    [min(w1,w2) + min(h1,h2) = 3] and every edge difference is 0.  The code
    computes [(s * 3) * 0.5], which rounds to [-2^-1073 < 0]: not similar.
    The claimed bound [(s * 0.5) * 3] has [s * 0.5] rounded to [-0], so it
    is [-0] and [0 <= -0] holds. *)
Lemma Similar_bound_order_matters_in_binary64 :
  @Similar PrimFloat.float Binary64Ops least_negative cand_1x2 cand_1x2 = false /\
  @spec_similar PrimFloat.float Binary64Ops least_negative cand_1x2 cand_1x2.
Proof.
  split; [vm_compute; reflexivity |].
  repeat split; vm_compute; reflexivity.
Qed.

(** The amended statement at the same binary64 input. *)
Example Similar_code_order_in_binary64 :
  @Similar PrimFloat.float Binary64Ops least_negative cand_1x2 cand_1x2 = false /\
  ~ @edges_within PrimFloat.float Binary64Ops least_negative cand_1x2 cand_1x2.
Proof.
  split; [vm_compute; reflexivity |].
  intros (H & _). vm_compute in H. discriminate.
Qed.

Lemma Q_half_exchange (a b : Q) :
  Dmul (Dmul a b) Dhalf = Dmul (Dmul a Dhalf) b.
Proof.
  destruct a as [an ad], b as [bn bd]; cbn.
  unfold Qmult; cbn. f_equal; [ring | ].
  rewrite <- !Pos.mul_assoc. f_equal. apply Pos.mul_comm.
Qed.

Example Similar_spec_order_on_Q :
  Similar (2 # 10)%Q cand_a cand_b = true <-> spec_similar (2 # 10)%Q cand_a cand_b.
Proof. apply (Similar_iff_spec_order_when_exact Q_half_exchange). Qed.

(** ** Loops and vectors *)

Lemma rbind_Ok {A B : Type} (a : A) (k : A -> result B) : (Ok a ≫= k) = k a.
Proof. reflexivity. Qed.

Lemma at_Ok {A : Type} (v : list A) (i : Z) (a : A) :
  0 <= i -> v !! Z.to_nat i = Some a -> at_ v i = Ok a.
Proof.
  intros Hi Hl. unfold at_.
  destruct (Z.ltb_spec i 0); [lia |]. now rewrite Hl.
Qed.

Lemma at_in_range {A : Type} (v : list A) (i : Z) :
  0 <= i < Z.of_nat (length v) -> exists a, at_ v i = Ok a /\ v !! Z.to_nat i = Some a.
Proof.
  intros Hi.
  destruct (lookup_lt_is_Some_2 v (Z.to_nat i)) as [a Ha]; [lia |].
  exists a. split; [apply at_Ok; [lia | exact Ha] | exact Ha].
Qed.

Lemma at_inv {A : Type} (v : list A) (i : Z) (a : A) :
  at_ v i = Ok a -> 0 <= i /\ v !! Z.to_nat i = Some a.
Proof.
  unfold at_. destruct (Z.ltb_spec i 0); [discriminate |].
  destruct (v !! Z.to_nat i); [| discriminate].
  intros [= ->]. split; [lia | reflexivity].
Qed.

Lemma put_Ok {A : Type} (v : list A) (i : Z) (a : A) :
  0 <= i < Z.of_nat (length v) -> put_ v i a = Ok (<[Z.to_nat i := a]> v).
Proof.
  intros Hi. unfold put_.
  destruct (Z.leb_spec 0 i); [| lia].
  destruct (Z.ltb_spec i (Z.of_nat (length v))); [reflexivity | lia].
Qed.

(** Invariant rule for [for_]. *)
Lemma for_inv {St : Type} (P : Z -> St -> Prop) (body : Z -> St -> result St) :
  forall (count : nat) (i : Z) (s : St),
    P i s ->
    (forall k s0, i <= k < i + Z.of_nat count -> P k s0 ->
                  exists s1, body k s0 = Ok s1 /\ P (k + 1) s1) ->
    exists s', for_ count i body s = Ok s' /\ P (i + Z.of_nat count) s'.
Proof.
  induction count as [| c IH]; intros i s HP Hstep.
  - exists s. split; [reflexivity |]. now replace (i + Z.of_nat 0) with i by lia.
  - destruct (Hstep i s ltac:(lia) HP) as (s1 & Hb & HP1).
    destruct (IH (i + 1) s1 HP1) as (s' & Hf & HP').
    + intros k s0 Hk. apply Hstep. lia.
    + exists s'. split.
      * cbn [for_]. rewrite Hb. exact Hf.
      * now replace (i + Z.of_nat (S c)) with (i + 1 + Z.of_nat c) by lia.
Qed.

(** A loop that returns still does, with the same result, under a body
    that returns whatever the first one does. *)
Lemma for_ok_ext {St : Type} (body1 body2 : Z -> St -> result St) :
  (forall k s s', body1 k s = Ok s' -> body2 k s = Ok s') ->
  forall (count : nat) (i : Z) (s s' : St),
    for_ count i body1 s = Ok s' -> for_ count i body2 s = Ok s'.
Proof.
  intros Hbody. induction count as [| c IH]; intros i s s' H; [exact H |].
  cbn [for_] in *. destruct (body1 i s) as [s1 | | | |] eqn:E; try discriminate.
  rewrite (Hbody _ _ _ E). rewrite rbind_Ok in *. now apply IH.
Qed.

(** ** The node array *)

Section Nodes.
Variable N : Z.
Variable nodes : list Z.
Hypothesis Hlen : Z.of_nat (length nodes) = 2 * N.

Lemma node_get_parent (k : Z) :
  0 <= k < N -> node_get nodes k PARENT = Ok (parent_of nodes k).
Proof.
  intros Hk. unfold node_get, parent_of.
  destruct (Z.ltb_spec k 0); [lia |].
  destruct (at_in_range nodes (2 * k + PARENT)) as (a & Ha & Hl);
    [unfold PARENT; lia |].
  now rewrite Ha, Hl.
Qed.

Lemma node_get_rank (k : Z) :
  0 <= k < N -> node_get nodes k RANK = Ok (rank_of nodes k).
Proof.
  intros Hk. unfold node_get, rank_of.
  destruct (Z.ltb_spec k 0); [lia |].
  destruct (at_in_range nodes (2 * k + RANK)) as (a & Ha & Hl);
    [unfold RANK; lia |].
  now rewrite Ha, Hl.
Qed.

Lemma node_set_parent (k v : Z) :
  0 <= k < N ->
  exists nodes',
    node_set nodes k PARENT v = Ok nodes' /\
    Z.of_nat (length nodes') = 2 * N /\
    parent_of nodes' k = v /\
    (forall k', 0 <= k' -> k' <> k -> parent_of nodes' k' = parent_of nodes k') /\
    (forall k', 0 <= k' -> rank_of nodes' k' = rank_of nodes k').
Proof.
  intros Hk. eexists. unfold node_set.
  destruct (Z.ltb_spec k 0); [lia |].
  rewrite put_Ok by (unfold PARENT; lia).
  split; [reflexivity |].
  rewrite length_insert. split; [exact Hlen |].
  unfold parent_of, rank_of, PARENT, RANK.
  split; [| split].
  - rewrite list_lookup_insert_eq by lia. reflexivity.
  - intros k' Hk' Hne. rewrite list_lookup_insert_ne by lia. reflexivity.
  - intros k' Hk'. rewrite list_lookup_insert_ne by lia. reflexivity.
Qed.

Lemma node_set_rank (k v : Z) :
  0 <= k < N ->
  exists nodes',
    node_set nodes k RANK v = Ok nodes' /\
    Z.of_nat (length nodes') = 2 * N /\
    rank_of nodes' k = v /\
    (forall k', 0 <= k' -> k' <> k -> rank_of nodes' k' = rank_of nodes k') /\
    (forall k', 0 <= k' -> parent_of nodes' k' = parent_of nodes k').
Proof.
  intros Hk. eexists. unfold node_set.
  destruct (Z.ltb_spec k 0); [lia |].
  rewrite put_Ok by (unfold RANK; lia).
  split; [reflexivity |].
  rewrite length_insert. split; [exact Hlen |].
  unfold parent_of, rank_of, PARENT, RANK.
  split; [| split].
  - rewrite list_lookup_insert_eq by lia. reflexivity.
  - intros k' Hk' Hne. rewrite list_lookup_insert_ne by lia. reflexivity.
  - intros k' Hk'. rewrite list_lookup_insert_ne by lia. reflexivity.
Qed.
End Nodes.

(** ** The disjoint-set forest *)

Lemma forest_ext (N : Z) (nodes : list Z) (rep h h' : Z -> Z) (R : Z) :
  (forall k, 0 <= k < N -> h k = h' k) ->
  forest N nodes rep h R -> forest N nodes rep h' R.
Proof.
  intros He [Hl Hrr Hro Hrt Hp Hh Hb].
  split; auto.
  - intros k Hk Hpk. destruct (Hp k Hk Hpk) as (H1 & H2 & H3).
    split; [exact H1 | split; [| exact H3]].
    rewrite <- !He by lia. exact H2.
  - intros k Hk. rewrite <- He by exact Hk. auto.
  - intros k Hk. destruct (Hb k Hk) as [H1 | H1]; [now left | right].
    rewrite <- !He; auto.
Qed.

Lemma forest_weaken (N : Z) (nodes : list Z) (rep h : Z -> Z) (R R' : Z) :
  R <= R' -> forest N nodes rep h R -> forest N nodes rep h R'.
Proof.
  intros HR [Hl Hrr Hro Hrt Hp Hh Hb]. split; auto.
  intros k Hk. specialize (Hh k Hk). lia.
Qed.

Lemma find_root_rep (N : Z) (nodes : list Z) (rep h : Z -> Z) (R : Z) :
  forest N nodes rep h R ->
  forall (fuel : nat) (k : Z),
    0 <= k < N -> R - h k < Z.of_nat fuel ->
    find_root fuel nodes k = Ok (rep k).
Proof.
  intros F. induction fuel as [| f IH]; intros k Hk Hf.
  - pose proof (forest_height _ _ _ _ _ F k Hk). lia.
  - cbn [find_root].
    rewrite (node_get_parent N) by (auto; apply (forest_len _ _ _ _ _ F)).
    rewrite rbind_Ok.
    destruct (Z.leb_spec 0 (parent_of nodes k)) as [Hp | Hp].
    + destruct (forest_parent _ _ _ _ _ F k Hk Hp) as (H1 & H2 & H3).
      rewrite <- H3. apply IH; lia.
    + now rewrite (forest_root_rep _ _ _ _ _ F k Hk Hp).
Qed.

Lemma compress_forest (N : Z) (rep h : Z -> Z) (R : Z) :
  forall (fuel : nat) (nodes : list Z) (k : Z),
    forest N nodes rep h R ->
    0 <= k < N -> R - h k < Z.of_nat fuel ->
    exists nodes',
      compress fuel nodes k (rep k) = Ok nodes' /\
      forest N nodes' rep h R /\
      (forall k', 0 <= k' -> rank_of nodes' k' = rank_of nodes k').
Proof.
  induction fuel as [| f IH]; intros nodes k F Hk Hf.
  - pose proof (forest_height _ _ _ _ _ F k Hk). lia.
  - cbn [compress].
    pose proof (forest_len _ _ _ _ _ F) as Hlen.
    rewrite (node_get_parent N) by auto. rewrite rbind_Ok.
    destruct (Z.leb_spec 0 (parent_of nodes k)) as [Hp | Hp].
    2:{ exists nodes. split; [reflexivity | split; [exact F | reflexivity]]. }
    destruct (forest_parent _ _ _ _ _ F k Hk Hp) as (Hp1 & Hp2 & Hp3).
    destruct (node_set_parent N nodes Hlen k (rep k) Hk)
      as (nodes1 & Hset & Hlen1 & Hpk & Hpo & Hrk).
    rewrite Hset, rbind_Ok.
    pose proof (forest_rep_range _ _ _ _ _ F) as Hrr.
    pose proof (forest_rep_root _ _ _ _ _ F) as Hro.
    assert (Hne : rep k <> k)
      by (intros E; specialize (Hro k Hk); rewrite E in Hro; lia).
    assert (F1 : forest N nodes1 rep h R).
    { split; try apply F; auto.
      - intros x Hx. rewrite Hpo.
        + now apply Hro.
        + specialize (Hrr x Hx). lia.
        + intros E. specialize (Hro x Hx). rewrite E in Hro. lia.
      - intros x Hx Hneg. destruct (Z.eq_dec x k) as [-> | Hxk].
        + rewrite Hpk in Hneg. specialize (Hrr k Hk). lia.
        + rewrite Hpo in Hneg by lia. now apply (forest_root_rep _ _ _ _ _ F).
      - intros x Hx Hpos. destruct (Z.eq_dec x k) as [-> | Hxk].
        + rewrite Hpk. split; [apply Hrr; auto |]. split.
          * destruct (forest_below _ _ _ _ _ F k Hk); [contradiction | assumption].
          * apply (forest_root_rep _ _ _ _ _ F); auto.
        + rewrite Hpo in * by lia. now apply (forest_parent _ _ _ _ _ F). }
    destruct (IH nodes1 (parent_of nodes k) F1 ltac:(lia) ltac:(lia))
      as (nodes' & Hc & F' & Hr').
    rewrite Hp3 in Hc.
    exists nodes'. split; [exact Hc |]. split; [exact F' |].
    intros k' Hk'. rewrite Hr' by exact Hk'. now apply Hrk.
Qed.

(** Linking the root [a] under the root [b]. *)
Lemma forest_link (N : Z) (nodes nodes' : list Z) (rep h h' : Z -> Z)
    (R R' a b : Z) :
  forest N nodes rep h R ->
  0 <= a < N -> 0 <= b < N -> a <> b ->
  parent_of nodes a < 0 -> parent_of nodes b < 0 ->
  Z.of_nat (length nodes') = 2 * N ->
  parent_of nodes' a = b ->
  (forall k, 0 <= k -> k <> a -> parent_of nodes' k = parent_of nodes k) ->
  (forall k, 0 <= k < N -> k <> b -> h' k = h k) ->
  h b <= h' b <= R' -> R <= R' -> h a < h' b ->
  forest N nodes' (fun k => if rep k =? a then b else rep k) h' R'.
Proof.
  intros F Ha Hb Hab Hra Hrb Hlen' Hpa Hpo Hh' Hhb HR Hlt.
  pose proof (forest_rep_range _ _ _ _ _ F) as Hrr.
  pose proof (forest_rep_root _ _ _ _ _ F) as Hro.
  pose proof (forest_root_rep _ _ _ _ _ F) as Hrt.
  pose proof (forest_parent _ _ _ _ _ F) as Hp.
  pose proof (forest_height _ _ _ _ _ F) as Hh.
  pose proof (forest_below _ _ _ _ _ F) as Hbl.
  assert (Hge : forall k, 0 <= k < N -> h k <= h' k).
  { intros k Hk. destruct (Z.eq_dec k b) as [-> | Hkb]; [lia |].
    rewrite Hh'; auto; lia. }
  split.
  - exact Hlen'.
  - intros k Hk. specialize (Hrr k Hk). destruct (Z.eqb_spec (rep k) a); lia.
  - intros k Hk. specialize (Hrr k Hk). specialize (Hro k Hk).
    destruct (Z.eqb_spec (rep k) a) as [E | E].
    + rewrite Hpo by lia. exact Hrb.
    + rewrite Hpo by lia. exact Hro.
  - intros k Hk Hneg.
    assert (Hka : k <> a) by (intros ->; lia).
    rewrite Hpo in Hneg by lia.
    rewrite (Hrt k Hk Hneg).
    destruct (Z.eqb_spec k a); [contradiction | reflexivity].
  - intros k Hk Hpos. destruct (Z.eq_dec k a) as [-> | Hka].
    + rewrite Hpa. split; [lia |]. split.
      * rewrite (Hh' a) by auto. exact Hlt.
      * rewrite (Hrt b Hb Hrb), (Hrt a Ha Hra).
        destruct (Z.eqb_spec b a); [lia |].
        destruct (Z.eqb_spec a a); [reflexivity | lia].
    + rewrite Hpo in * by lia.
      destruct (Hp k Hk Hpos) as (H1 & H2 & H3).
      split; [exact H1 |]. split.
      * assert (k <> b) by (intros ->; lia).
        rewrite (Hh' k) by auto.
        specialize (Hge (parent_of nodes k) ltac:(lia)). lia.
      * now rewrite H3.
  - intros k Hk. destruct (Z.eq_dec k b) as [-> | Hkb].
    + specialize (Hh b Hb). lia.
    + rewrite Hh' by auto. specialize (Hh k Hk). lia.
  - intros k Hk. specialize (Hrr k Hk).
    destruct (Z.eqb_spec (rep k) a) as [E | E].
    + destruct (Z.eq_dec k a) as [-> | Hka].
      * right. rewrite (Hh' a) by auto. exact Hlt.
      * right. destruct (Hbl k Hk) as [Hs | Hs]; [lia |].
        assert (k <> b).
        { intros ->. rewrite (Hrt b Hb Hrb) in E. lia. }
        rewrite (Hh' k) by auto. rewrite E in Hs. lia.
    + destruct (Hbl k Hk) as [Hs | Hs]; [now left | right].
      destruct (Z.eq_dec k b) as [-> | Hkb].
      * rewrite (Hrt b Hb Hrb) in Hs. lia.
      * rewrite (Hh' k) by auto. specialize (Hge (rep k) Hrr). lia.
Qed.

Section PartitionProof.
Context {D : Type} {ops : DoubleOps D}.
Variable fuel : nat.
Variable vec : list Object.
Variable sizeDifferenceMax : D.
Let N : Z := Z.of_nat (length vec).
Hypothesis Hfuel : N * N < Z.of_nat fuel.

(** The tail of a union: the assertion and the two path compressions. *)
Lemma compress_pair (nodes : list Z) (rep : Z -> Z) (R i j root : Z) :
  forest N nodes rep (rank_of nodes) R ->
  0 <= i < N -> 0 <= j < N -> rep i = root -> rep j = root ->
  R < Z.of_nat fuel ->
  exists nodes',
    (p ← node_get nodes root PARENT;
     if 0 <=? p then AssertFailed
     else
       nodes ← compress fuel nodes j root;
       nodes ← compress fuel nodes i root;
       Ok (nodes, root)) = Ok (nodes', root) /\
    forest N nodes' rep (rank_of nodes') R.
Proof.
  intros F Hi Hj Hri Hrj HR.
  pose proof (forest_len _ _ _ _ _ F) as Hlen.
  assert (Hroot : 0 <= root < N)
    by (rewrite <- Hri; apply (forest_rep_range _ _ _ _ _ F); auto).
  rewrite (node_get_parent N) by auto. rewrite rbind_Ok.
  pose proof (forest_rep_root _ _ _ _ _ F i Hi) as Hneg. rewrite Hri in Hneg.
  destruct (Z.leb_spec 0 (parent_of nodes root)); [lia |].
  destruct (compress_forest N rep (rank_of nodes) R fuel nodes j F Hj)
    as (n1 & Hc1 & F1 & Hr1).
  { pose proof (forest_height _ _ _ _ _ F j Hj). lia. }
  rewrite Hrj in Hc1. rewrite Hc1, rbind_Ok.
  destruct (compress_forest N rep (rank_of nodes) R fuel n1 i F1 Hi)
    as (n2 & Hc2 & F2 & Hr2).
  { pose proof (forest_height _ _ _ _ _ F i Hi). lia. }
  rewrite Hri in Hc2. rewrite Hc2, rbind_Ok.
  exists n2. split; [reflexivity |].
  apply (forest_ext N n2 rep (rank_of nodes)); [| exact F2].
  intros k Hk. rewrite Hr2, Hr1 by lia. reflexivity.
Qed.

Lemma Partition_inner_ok (i j : Z) (st : list Z * Z) :
  0 <= i < N -> 0 <= j < N -> inner_inv N i j st ->
  exists st',
    Partition_inner fuel vec sizeDifferenceMax i j st = Ok st' /\
    inner_inv N i (j + 1) st'.
Proof.
  intros Hi Hj Hinv. destruct st as [nodes root].
  destruct Hinv as (rep & R & F & HR & Hroot). cbn [fst snd] in *.
  assert (Hkeep : inner_inv N i (j + 1) (nodes, root)).
  { exists rep, R. cbn [fst snd]. split; [exact F | split; [lia | exact Hroot]]. }
  assert (HiN : i * N <= (N - 1) * N) by (apply Z.mul_le_mono_nonneg_r; lia).
  assert (HRf : R + 1 < Z.of_nat fuel) by lia.
  pose proof (forest_len _ _ _ _ _ F) as Hlen.
  pose proof (forest_rep_range _ _ _ _ _ F) as Hrr.
  pose proof (forest_rep_root _ _ _ _ _ F) as Hro.
  pose proof (forest_root_rep _ _ _ _ _ F) as Hrt.
  pose proof (forest_height _ _ _ _ _ F) as Hh.
  unfold Partition_inner.
  destruct (Z.eqb_spec i j) as [| Hij]; [eauto |].
  destruct (at_in_range vec i ltac:(fold N; lia)) as (vi & Hvi & _).
  destruct (at_in_range vec j ltac:(fold N; lia)) as (vj & Hvj & _).
  rewrite Hvi, rbind_Ok, Hvj, rbind_Ok.
  destruct (Similar sizeDifferenceMax vi vj); cbn [negb]; [| eauto].
  rewrite (find_root_rep N nodes rep _ R F fuel j Hj)
    by (specialize (Hh j Hj); lia).
  rewrite rbind_Ok.
  destruct (Z.eqb_spec (rep j) root) as [| Hne]; [eauto |].
  assert (Hr1 : 0 <= root < N) by (rewrite Hroot; auto).
  assert (Hr2 : 0 <= rep j < N) by auto.
  rewrite (node_get_rank N nodes Hlen root Hr1), rbind_Ok.
  rewrite (node_get_rank N nodes Hlen (rep j) Hr2), rbind_Ok.
  assert (Hn1 : parent_of nodes root < 0) by (rewrite Hroot; auto).
  assert (Hn2 : parent_of nodes (rep j) < 0) by auto.
  destruct (Z.ltb_spec (rank_of nodes (rep j)) (rank_of nodes root)) as [Hlt | Hge].
  - (* root2 goes under root *)
    destruct (node_set_parent N nodes Hlen (rep j) root Hr2)
      as (n1 & Hset & Hlen1 & Hpa & Hpo & Hrk).
    rewrite Hset, !rbind_Ok.
    assert (F1 : forest N n1 (fun k => if rep k =? rep j then root else rep k)
                        (rank_of n1) (R + 1)).
    { apply (forest_link N nodes n1 rep (rank_of nodes) (rank_of n1) R (R + 1)
                         (rep j) root); auto; try lia.
      - intros k Hk _. apply Hrk. lia.
      - rewrite Hrk by lia. specialize (Hh root Hr1). lia.
      - rewrite Hrk by lia. exact Hlt. }
    destruct (compress_pair n1 _ (R + 1) i j root F1 Hi Hj) as (n2 & Hc & F2).
    + cbv beta. destruct (Z.eqb_spec (rep i) (rep j)); [reflexivity | now symmetry].
    + cbv beta. now rewrite Z.eqb_refl.
    + exact HRf.
    + rewrite Hc. eexists; split; [reflexivity |].
      eexists _, (R + 1). cbn [fst snd]. split; [exact F2 |]. split; [lia |].
      cbv beta. rewrite <- Hroot.
      destruct (Z.eqb_spec root (rep j)); [congruence | reflexivity].
  - (* root goes under root2 *)
    destruct (node_set_parent N nodes Hlen root (rep j) Hr1)
      as (n1 & Hset & Hlen1 & Hpa & Hpo & Hrk).
    rewrite Hset, !rbind_Ok.
    rewrite (node_get_rank N n1 Hlen1 (rep j) Hr2), rbind_Ok.
    destruct (node_set_rank N n1 Hlen1 (rep j)
                (rank_of n1 (rep j) +
                 (if rank_of nodes root =? rank_of nodes (rep j) then 1 else 0))
                Hr2)
      as (n2 & Hset2 & Hlen2 & Hra & Hrao & Hpar).
    rewrite Hset2, !rbind_Ok.
    assert (F1 : forest N n2 (fun k => if rep k =? root then rep j else rep k)
                        (rank_of n2) (R + 1)).
    { apply (forest_link N nodes n2 rep (rank_of nodes) (rank_of n2) R (R + 1)
                         root (rep j)); auto; try lia.
      - rewrite Hpar by lia. exact Hpa.
      - intros k Hk Hka. rewrite Hpar by lia. now apply Hpo.
      - intros k Hk Hkb. rewrite Hrao by lia. apply Hrk. lia.
      - rewrite Hra, Hrk by lia. specialize (Hh (rep j) Hr2).
        destruct (rank_of nodes root =? rank_of nodes (rep j)); lia.
      - rewrite Hra, Hrk by lia.
        destruct (Z.eqb_spec (rank_of nodes root) (rank_of nodes (rep j))); lia. }
    destruct (compress_pair n2 _ (R + 1) i j (rep j) F1 Hi Hj) as (n3 & Hc & F3).
    + cbv beta. rewrite <- Hroot. now rewrite Z.eqb_refl.
    + cbv beta. destruct (Z.eqb_spec (rep j) root); [contradiction | reflexivity].
    + exact HRf.
    + rewrite Hc. eexists; split; [reflexivity |].
      eexists _, (R + 1). cbn [fst snd]. split; [exact F3 |]. split; [lia |].
      cbv beta. rewrite <- Hroot. now rewrite Z.eqb_refl.
Qed.

Lemma Partition_outer_ok (i : Z) (nodes : list Z) :
  0 <= i < N -> outer_inv N i nodes ->
  exists nodes',
    Partition_outer fuel vec sizeDifferenceMax (length vec) i nodes = Ok nodes' /\
    outer_inv N (i + 1) nodes'.
Proof.
  intros Hi (rep & R & F & HR).
  assert (HiN : i * N <= (N - 1) * N) by (apply Z.mul_le_mono_nonneg_r; lia).
  unfold Partition_outer.
  rewrite (find_root_rep N nodes rep _ R F fuel i Hi)
    by (pose proof (forest_height _ _ _ _ _ F i Hi); lia).
  rewrite rbind_Ok.
  destruct (for_inv (inner_inv N i) (Partition_inner fuel vec sizeDifferenceMax i)
                    (length vec) 0 (nodes, rep i)) as ([n' r'] & Hfor & Hinv).
  - exists rep, R. cbn [fst snd]. split; [exact F | split; [lia | reflexivity]].
  - intros k s0 Hk. apply Partition_inner_ok; [exact Hi | fold N in Hk; lia].
  - rewrite Hfor, rbind_Ok. exists n'. split; [reflexivity |].
    destruct Hinv as (rep' & R' & F' & HR' & _). cbn [fst snd] in *.
    exists rep', R'. split; [exact F' |]. fold N in HR'. lia.
Qed.

Lemma Partition_init_ok (i : Z) (nodes : list Z) :
  0 <= i < N -> init_inv N i nodes ->
  exists nodes', Partition_init i nodes = Ok nodes' /\ init_inv N (i + 1) nodes'.
Proof.
  intros Hi (Hlen & Hr & Hp). unfold Partition_init.
  destruct (node_set_parent N nodes Hlen i (-1) Hi)
    as (n1 & Hs1 & Hl1 & Hp1 & Hpo1 & Hr1).
  destruct (node_set_rank N n1 Hl1 i 0 Hi) as (n2 & Hs2 & Hl2 & Hr2 & Hro2 & Hp2).
  rewrite Hs1, rbind_Ok, Hs2. exists n2. split; [reflexivity |].
  split; [exact Hl2 |]. split.
  - intros k Hk. destruct (Z.eq_dec k i) as [-> | Hne]; [exact Hr2 |].
    rewrite Hro2, Hr1 by lia. now apply Hr.
  - intros k Hk. rewrite Hp2 by lia.
    destruct (Z.eq_dec k i) as [-> | Hne]; [exact Hp1 |].
    rewrite Hpo1 by lia. apply Hp. lia.
Qed.

Lemma init_inv_forest (nodes : list Z) :
  init_inv N N nodes -> outer_inv N 0 nodes.
Proof.
  intros (Hlen & Hr & Hp). exists (fun k => k), 0. split; [| lia].
  split; auto.
  - intros k Hk. rewrite Hp by exact Hk. lia.
  - intros k Hk Hpos. rewrite Hp in Hpos by exact Hk. lia.
  - intros k Hk. rewrite Hr by exact Hk. lia.
Qed.

Lemma forest_same_parents (nodes nodes' : list Z) (rep h : Z -> Z) (R : Z) :
  Z.of_nat (length nodes') = 2 * N ->
  (forall k, 0 <= k -> parent_of nodes' k = parent_of nodes k) ->
  forest N nodes rep h R -> forest N nodes' rep h R.
Proof.
  intros Hlen Hpar [Hl Hrr Hro Hrt Hp Hh Hb]. split; auto.
  - intros k Hk. rewrite Hpar by (specialize (Hrr k Hk); lia). auto.
  - intros k Hk. rewrite Hpar by lia. auto.
  - intros k Hk. rewrite Hpar by lia. auto.
Qed.

Lemma Partition_label_ok (rep h : Z -> Z) (R i : Z) (st : list Z * list Z * Z) :
  R < Z.of_nat fuel -> 0 <= i < N -> label_inv N rep h R i st ->
  exists st', Partition_label fuel i st = Ok st' /\ label_inv N rep h R (i + 1) st'.
Proof.
  intros HR Hi. destruct st as [[nodes labels] nclasses].
  intros (F & Hll & Hnc & Hrk & Hlab & Hcls).
  pose proof (forest_len _ _ _ _ _ F) as Hlen.
  pose proof (forest_rep_range _ _ _ _ _ F i Hi) as Hroot.
  unfold Partition_label.
  rewrite (find_root_rep N nodes rep h R F fuel i Hi)
    by (pose proof (forest_height _ _ _ _ _ F i Hi); lia).
  rewrite rbind_Ok, (node_get_rank N nodes Hlen (rep i) Hroot), rbind_Ok.
  assert (Hti : Z.to_nat (i + 1) = S (Z.to_nat i)) by lia.
  destruct (Z.leb_spec 0 (rank_of nodes (rep i))) as [Hpos | Hneg].
  - destruct (node_set_rank N nodes Hlen (rep i) (Z.lnot nclasses) Hroot)
      as (n1 & Hs & Hl1 & Hr1 & Hro1 & Hp1).
    rewrite Hs, !rbind_Ok, (node_get_rank N n1 Hl1 (rep i) Hroot), rbind_Ok.
    rewrite Hr1, Z.lnot_involutive.
    rewrite put_Ok by lia. rewrite rbind_Ok.
    eexists; split; [reflexivity |].
    split; [| split; [| split; [| split; [| split]]]].
    + apply (forest_same_parents nodes); auto.
    + rewrite length_insert. exact Hll.
    + lia.
    + intros k Hk. destruct (Z.eq_dec k (rep i)) as [-> | Hne].
      * rewrite Hr1. unfold Z.lnot. lia.
      * rewrite Hro1 by lia. specialize (Hrk k Hk). lia.
    + intros k l Hk Hl. destruct (Nat.eq_dec k (Z.to_nat i)) as [-> | Hne].
      * rewrite list_lookup_insert_eq in Hl by lia. injection Hl as <-. lia.
      * rewrite list_lookup_insert_ne in Hl by lia.
        specialize (Hlab k l ltac:(lia) Hl). lia.
    + intros c Hc. destruct (Z.eq_dec c nclasses) as [-> | Hne].
      * exists (Z.to_nat i). split; [lia |].
        rewrite list_lookup_insert_eq by lia. reflexivity.
      * destruct (Hcls c ltac:(lia)) as (k & Hk & Hl).
        exists k. split; [lia |]. rewrite list_lookup_insert_ne by lia. exact Hl.
  - rewrite !rbind_Ok, (node_get_rank N nodes Hlen (rep i) Hroot), rbind_Ok.
    rewrite put_Ok by lia. rewrite rbind_Ok.
    eexists; split; [reflexivity |].
    pose proof (Hrk (rep i) Hroot) as Hlow.
    split; [| split; [| split; [| split; [| split]]]].
    + exact F.
    + rewrite length_insert. exact Hll.
    + lia.
    + exact Hrk.
    + intros k l Hk Hl. destruct (Nat.eq_dec k (Z.to_nat i)) as [-> | Hne].
      * rewrite list_lookup_insert_eq in Hl by lia. injection Hl as <-.
        unfold Z.lnot. lia.
      * rewrite list_lookup_insert_ne in Hl by lia. apply (Hlab k l); [lia | exact Hl].
    + intros c Hc. destruct (Hcls c Hc) as (k & Hk & Hl).
      exists k. split; [lia |]. rewrite list_lookup_insert_ne by lia. exact Hl.
Qed.

(** [Partition] runs to completion: no loop runs out of fuel, no access is
    out of bounds and the assertion holds; the labels it returns are class
    indices, and every class has a member. *)
Lemma Partition_total (labels0 : list Z) :
  exists nclasses labels,
    Partition fuel vec sizeDifferenceMax labels0 = Ok (nclasses, labels) /\
    labels_ok N labels nclasses /\
    0 <= nclasses <= N.
Proof.
  unfold Partition.
  destruct (for_inv (init_inv N) Partition_init (length vec) 0
                    (replicate (length vec * 2) 0)) as (n1 & Hf1 & Hi1).
  { split; [rewrite length_replicate; unfold N; lia |]. split.
    - intros k Hk. unfold rank_of.
      destruct (replicate (length vec * 2) 0 !! Z.to_nat (2 * k + RANK)) eqn:E;
        [| reflexivity].
      apply lookup_replicate in E. cbn. tauto.
    - intros k Hk. lia. }
  { intros k s0 Hk. apply Partition_init_ok. fold N in Hk. lia. }
  rewrite Hf1, rbind_Ok. cbn [Z.add] in Hi1. fold N in Hi1.
  apply init_inv_forest in Hi1.
  destruct (for_inv (outer_inv N)
                    (Partition_outer fuel vec sizeDifferenceMax (length vec))
                    (length vec) 0 n1 Hi1) as (n2 & Hf2 & Hi2).
  { intros k s0 Hk. apply Partition_outer_ok. fold N in Hk. lia. }
  rewrite Hf2, rbind_Ok. cbn [Z.add] in Hi2. fold N in Hi2.
  destruct Hi2 as (rep & R & F & HR).
  assert (HRf : R < Z.of_nat fuel) by lia.
  destruct (for_inv (label_inv N rep (rank_of n2) R) (Partition_label fuel)
                    (length vec) 0 (n2, resize (length vec) 0 labels0, 0))
    as ([[n3 labels] nclasses] & Hf3 & Hi3).
  { split; [exact F |]. split; [rewrite length_resize; reflexivity |].
    split; [lia |]. split.
    - intros k Hk. pose proof (forest_height _ _ _ _ _ F k Hk). lia.
    - split; [intros k l Hk; cbn in Hk; lia | intros c Hc; lia]. }
  { intros k s0 Hk. apply Partition_label_ok; [exact HRf | fold N in Hk; lia]. }
  rewrite Hf3, rbind_Ok. cbn [Z.add] in Hi3. fold N in Hi3.
  destruct Hi3 as (_ & Hll & Hnc & _ & Hlab & Hcls).
  exists nclasses, labels. split; [reflexivity |]. split; [| exact Hnc].
  split; [exact Hll |]. split.
  - intros i l Hl. apply (Hlab i l); [| exact Hl].
    apply lookup_lt_Some in Hl. unfold N. lia.
  - intros c Hc. destruct (Hcls c Hc) as (k & _ & Hk). now exists k.
Qed.
End PartitionProof.

(** ** Accumulation over the labels *)

Lemma members_upto_S (n : nat) (src : Objects) (labels : list Z) (c : Z)
    (s : Object) (l : Z) :
  src !! n = Some s -> labels !! n = Some l ->
  members_upto (S n) src labels c =
  members_upto n src labels c ++ (if l =? c then [s] else []).
Proof. intros Hs Hl. cbn [members_upto]. now rewrite Hs, Hl. Qed.

Lemma accumulate_ok (src : Objects) (labels : list Z) (nclasses : Z) :
  length src = length labels ->
  (forall i l, labels !! i = Some l -> 0 <= l < nclasses) ->
  exists buffer,
    for_ (length labels) 0 (Group_accumulate src labels)
         (replicate (Z.to_nat nclasses) Object_default) = Ok buffer /\
    length buffer = Z.to_nat nclasses /\
    forall c, 0 <= c < nclasses ->
              buffer !! Z.to_nat c = Some (cluster_acc (members src labels c)).
Proof.
  intros Hlen Hrange.
  destruct (for_inv
    (fun i buffer =>
       length buffer = Z.to_nat nclasses /\
       forall c, 0 <= c < nclasses ->
         buffer !! Z.to_nat c =
         Some (cluster_acc (members_upto (Z.to_nat i) src labels c)))
    (Group_accumulate src labels) (length labels) 0
    (replicate (Z.to_nat nclasses) Object_default)) as (buffer & Hf & Hl & Hb).
  - split; [apply length_replicate |].
    intros c Hc. apply lookup_replicate_2. lia.
  - intros k buffer Hk (Hl & Hb). unfold Group_accumulate.
    destruct (at_in_range labels k ltac:(lia)) as (cls & Hcls & Hlk).
    destruct (at_in_range src k ltac:(lia)) as (s & Hs & Hsk).
    pose proof (Hrange _ _ Hlk) as Hc.
    rewrite Hcls, rbind_Ok.
    rewrite (at_Ok buffer cls _ ltac:(lia) (Hb cls Hc)), rbind_Ok, Hs, rbind_Ok.
    rewrite put_Ok by lia.
    eexists; split; [reflexivity |]. split; [now rewrite length_insert |].
    intros c Hcr. replace (Z.to_nat (k + 1)) with (S (Z.to_nat k)) by lia.
    rewrite (members_upto_S _ _ _ c s cls Hsk Hlk).
    destruct (Z.eqb_spec cls c) as [-> | Hne].
    + rewrite list_lookup_insert_eq by lia.
      unfold cluster_acc. now rewrite fold_left_app.
    + rewrite list_lookup_insert_ne by lia. rewrite app_nil_r. now apply Hb.
  - exists buffer. split; [exact Hf |]. split; [exact Hl |].
    intros c Hc. specialize (Hb c Hc).
    now replace (Z.to_nat (0 + Z.of_nat (length labels))) with (length labels) in Hb by lia.
Qed.

Lemma cluster_acc_fold (ms : Objects) (b : Object) :
  let r := fold_left
    (fun b s => mkObject (Rect.add (rect b) (rect s)) (weight b + 1) (tag s)) ms b in
  rect r = Rect.add (rect b) (rect_sum ms) /\
  weight r = weight b + Z.of_nat (length ms) /\
  tag r = tag (List.last ms b).
Proof.
  revert b. induction ms as [| m ms IH]; intros b; cbn zeta.
  - cbn. split; [| split; [lia | reflexivity]].
    destruct (rect b); unfold Rect.add, rect_sum; cbn. f_equal; lia.
  - cbn [fold_left]. destruct (IH (mkObject (Rect.add (rect b) (rect m)) (weight b + 1) (tag m)))
      as (Hr & Hw & Ht).
    rewrite Hr, Hw, Ht. cbn [rect weight tag]. split; [| split].
    + unfold Rect.add, rect_sum, sumZ;
        cbn [map fold_right Rect.left Rect.top Rect.right Rect.bottom].
      f_equal; lia.
    + cbn [length]. lia.
    + destruct ms as [| m' ms']; [reflexivity |].
      cbn [List.last]. clear. revert m'. induction ms' as [| x xs IHx]; intros m'.
      * reflexivity.
      * cbn [List.last] in *. apply IHx.
Qed.

Lemma Group_average_cluster_acc {D : Type} {ops : DoubleOps D} (ms : Objects) :
  Group_average (cluster_acc ms) = representative ms.
Proof.
  unfold cluster_acc.
  destruct (cluster_acc_fold ms Object_default) as (Hr & Hw & Ht).
  unfold Group_average, representative. rewrite Hr, Hw, Ht.
  cbn [Object_default rect weight]. reflexivity.
Qed.

(** ** Class labels ([Partition]) *)

(** C10. With enough fuel for its [while] loops, [Partition] returns: the
    class count is non-negative (at least 1 when there is a candidate), the
    label vector has one entry per candidate, every label is a class index
    below the count, and the accumulation loop of [GroupObjects], which
    indexes a buffer of that many classes with the labels, completes with
    every access in bounds. *)
Theorem Partition_labels_in_range {D : Type} {ops : DoubleOps D}
    (fuel : nat) (vec : Objects) (sizeDifferenceMax : D) (labels0 : list Z) :
  (length vec * length vec < fuel)%nat ->
  exists nclasses labels,
    Partition fuel vec sizeDifferenceMax labels0 = Ok (nclasses, labels) /\
    0 <= nclasses /\
    ((1 <= length vec)%nat -> 1 <= nclasses) /\
    length labels = length vec /\
    (forall i l, labels !! i = Some l -> 0 <= l < nclasses) /\
    exists buffer,
      for_ (length labels) 0 (Group_accumulate vec labels)
           (replicate (Z.to_nat nclasses) Object_default) = Ok buffer /\
      length buffer = Z.to_nat nclasses.
Proof.
  intros Hfuel.
  destruct (Partition_total fuel vec sizeDifferenceMax ltac:(lia) labels0)
    as (nclasses & labels & HP & (Hlen & Hrange & Hcls) & Hnc).
  exists nclasses, labels. split; [exact HP |]. split; [lia |].
  split; [| split; [lia | split; [exact Hrange |]]].
  - intros Hn. destruct (lookup_lt_is_Some_2 labels 0 ltac:(lia)) as (l & Hl).
    specialize (Hrange _ _ Hl). lia.
  - destruct (accumulate_ok vec labels nclasses ltac:(lia) Hrange)
      as (buffer & Hb & Hl & _).
    exists buffer. split; [exact Hb | exact Hl].
Qed.

Lemma Partition_labels_in_range_witness :
  exists nclasses labels,
    Partition 5 [cand_a; cand_b] (2 # 10)%Q [] = Ok (nclasses, labels) /\
    0 <= nclasses /\
    ((1 <= length [cand_a; cand_b])%nat -> 1 <= nclasses) /\
    length labels = length [cand_a; cand_b] /\
    (forall i l, labels !! i = Some l -> 0 <= l < nclasses) /\
    exists buffer,
      for_ (length labels) 0 (Group_accumulate [cand_a; cand_b] labels)
           (replicate (Z.to_nat nclasses) Object_default) = Ok buffer /\
      length buffer = Z.to_nat nclasses.
Proof.
  apply (Partition_labels_in_range 5 [cand_a; cand_b] (2 # 10)%Q []).
  cbn. lia.
Defined.

(** ** Representatives ([GroupObjects], first half) *)

Lemma members_upto_nonempty (n i : nat) (src : Objects) (labels : list Z)
    (c : Z) (s : Object) :
  (i < n)%nat -> src !! i = Some s -> labels !! i = Some c ->
  members_upto n src labels c <> [].
Proof.
  induction n as [| n IH]; intros Hi Hs Hl; [lia |].
  cbn [members_upto]. destruct (Nat.eq_dec i n) as [-> | Hne].
  - rewrite Hs, Hl, Z.eqb_refl. intros E. now apply app_eq_nil in E as [_ E].
  - intros E. apply app_eq_nil in E as [E _]. revert E. apply IH; [lia | auto | auto].
Qed.

Lemma Group_clusters_spec {D : Type} {ops : DoubleOps D}
    (src : Objects) (sizeDifferenceMax : D) :
  exists nclasses labels buffer,
    Partition (Partition_fuel (length src)) src sizeDifferenceMax [] =
      Ok (nclasses, labels) /\
    Group_clusters src sizeDifferenceMax = Ok buffer /\
    0 <= nclasses /\
    length labels = length src /\
    length buffer = Z.to_nat nclasses /\
    forall c, 0 <= c < nclasses ->
      members src labels c <> [] /\
      buffer !! Z.to_nat c = Some (representative (members src labels c)).
Proof.
  destruct (Partition_total (Partition_fuel (length src)) src sizeDifferenceMax
                            ltac:(unfold Partition_fuel; lia) [])
    as (nclasses & labels & HP & (Hlen & Hrange & Hcls) & Hnc).
  destruct (accumulate_ok src labels nclasses ltac:(lia) Hrange)
    as (buffer & Hacc & Hbl & Hb).
  exists nclasses, labels, (map Group_average buffer).
  split; [exact HP |]. split.
  { unfold Group_clusters. rewrite HP, rbind_Ok.
    destruct (Z.ltb_spec nclasses 0); [lia |].
    now rewrite Hacc, rbind_Ok. }
  split; [lia |]. split; [lia |]. split; [now rewrite length_map |].
  intros c Hc. split.
  - destruct (Hcls c Hc) as (i & Hi).
    pose proof (lookup_lt_Some _ _ _ Hi) as Hlt.
    destruct (lookup_lt_is_Some_2 src i ltac:(lia)) as (s & Hs).
    apply (members_upto_nonempty _ i _ _ _ s); auto.
  - change (map Group_average buffer) with (Group_average <$> buffer).
    rewrite list_lookup_fmap, (Hb c Hc). cbn.
    now rewrite Group_average_cluster_acc.
Qed.

(** C4. The buffer of [GroupObjects] before the suppression pass holds one
    object per class of the partition; each class has a member, and the
    object of a class has the component-wise sum of the member rectangles
    divided by the member count as rectangle, the member count as weight
    and the tag of the last member of the class as tag. *)
Theorem Group_clusters_representatives {D : Type} {ops : DoubleOps D}
    (src : Objects) (sizeDifferenceMax : D) :
  exists nclasses labels buffer,
    Partition (Partition_fuel (length src)) src sizeDifferenceMax [] =
      Ok (nclasses, labels) /\
    Group_clusters src sizeDifferenceMax = Ok buffer /\
    0 <= nclasses /\
    length labels = length src /\
    length buffer = Z.to_nat nclasses /\
    forall c, 0 <= c < nclasses ->
      members src labels c <> [] /\
      buffer !! Z.to_nat c = Some (representative (members src labels c)).
Proof. apply Group_clusters_spec. Qed.

(** The clustering scenario: two near-duplicates merge into one cluster of
    weight 2 around (11,11,51,51). *)
Example Group_clusters_scenario :
  Group_clusters [cand_a; cand_b] (2 # 10)%Q = Ok [grouped_2].
Proof. reflexivity. Qed.

(** ** The suppression pass ([GroupObjects], second half) *)

Section Suppression.
Context {D : Type} {ops : DoubleOps D}.
Variable groupSizeMin : Z.
Variable sizeDifferenceMax : D.
Variable buffer : Objects.
Hypothesis Hcomm : forall a b : D, Dmul a b = Dmul b a.
Hypothesis Hweights :
  forall o, In o buffer -> 0 <= weight o < size_t_modulus.

Lemma to_size_t_weight (i : nat) (o : Object) :
  buffer !! i = Some o -> to_size_t (weight o) = weight o.
Proof.
  intros Ho. unfold to_size_t. apply Z.mod_small, Hweights.
  apply list_elem_of_In. eapply list_elem_of_lookup_2, Ho.
Qed.

Lemma Group_absorbs_iff (i j : nat) (bi bj : Object) :
  buffer !! i = Some bi -> buffer !! j = Some bj ->
  Group_absorbs groupSizeMin sizeDifferenceMax (Z.of_nat i) (Z.of_nat j) bi bj = true <->
  suppresses groupSizeMin sizeDifferenceMax buffer i j.
Proof.
  intros Hi Hj. unfold Group_absorbs, suppresses, within_margins.
  rewrite (to_size_t_weight j bj Hj).
  rewrite (Hcomm (D_of_Z (Rect.Width (rect bj)))),
          (Hcomm (D_of_Z (Rect.Height (rect bj)))).
  destruct (Z.eqb_spec (Z.of_nat j) (Z.of_nat i)) as [E | E]; cbn [orb].
  { split; [discriminate |]. intros (bi' & bj' & _ & _ & Hne & _). lia. }
  destruct (Z.ltb_spec (weight bj) groupSizeMin) as [Hlt | Hge].
  { split; [discriminate |]. intros (bi' & bj' & _ & Hj' & _ & Hw & _).
    rewrite Hj in Hj'. injection Hj' as <-. lia. }
  cbv zeta.
  rewrite !andb_true_iff, orb_true_iff, negb_true_iff, !Z.leb_le, !Z.ltb_lt,
    Z.eqb_neq.
  split.
  - intros (((((Hne & Hw) & H1) & H2) & H3) & H4).
    exists bi, bj. repeat split; auto; lia.
  - intros (bi' & bj' & Hi' & Hj' & Hne & Hw & (H1 & H2 & H3 & H4) & Hn).
    rewrite Hi in Hi'. rewrite Hj in Hj'.
    injection Hi' as <-. injection Hj' as <-.
    repeat split; auto; lia.
Qed.

Lemma Group_search_spec (i : nat) (bi : Object) :
  buffer !! i = Some bi ->
  forall (count j : nat),
    (j + count = length buffer)%nat ->
    exists jf : nat,
      Group_search groupSizeMin sizeDifferenceMax buffer (Z.of_nat i) bi count
                   (Z.of_nat j) = Ok (Z.of_nat jf) /\
      ((jf = length buffer /\
        forall k, (j <= k)%nat ->
                  ~ suppresses groupSizeMin sizeDifferenceMax buffer i k) \/
       ((jf < length buffer)%nat /\
        suppresses groupSizeMin sizeDifferenceMax buffer i jf)).
Proof.
  intros Hi. induction count as [| c IH]; intros j Hj.
  - exists j. split; [reflexivity |]. left. split; [lia |].
    intros k Hk (bi' & bk & _ & Hbk & _).
    apply lookup_lt_Some in Hbk. lia.
  - cbn [Group_search].
    destruct (at_in_range buffer (Z.of_nat j) ltac:(lia)) as (bj & Hat & Hl).
    rewrite Nat2Z.id in Hl. rewrite Hat, rbind_Ok.
    destruct (Group_absorbs groupSizeMin sizeDifferenceMax (Z.of_nat i)
                            (Z.of_nat j) bi bj) eqn:E.
    + exists j. split; [reflexivity |]. right.
      split; [lia |]. now apply (Group_absorbs_iff i j bi bj Hi Hl).
    + destruct (IH (S j) ltac:(lia)) as (jf & Hs & Hr).
      replace (Z.of_nat (S j)) with (Z.of_nat j + 1) in Hs by lia.
      exists jf. split; [exact Hs |].
      destruct Hr as [(Hjf & Hall) | Hr]; [left | now right].
      split; [exact Hjf |].
      intros k Hk. destruct (Nat.eq_dec k j) as [-> | Hne]; [| apply Hall; lia].
      intros Hsup. apply (Group_absorbs_iff i j bi bj Hi Hl) in Hsup. congruence.
Qed.

Lemma StronglySorted_snoc (l : list nat) (i : nat) :
  StronglySorted lt l -> (forall k, In k l -> (k < i)%nat) ->
  StronglySorted lt (l ++ [i]).
Proof.
  induction 1 as [| a l Hs IH Ha]; intros Hlt; cbn.
  - constructor; constructor.
  - constructor.
    + apply IH. intros k Hk. apply Hlt. now right.
    + apply Forall_app. split; [exact Ha |].
      constructor; [apply Hlt; now left | constructor].
Qed.

(** C2. For a buffer of clusters whose weights are counts (and a
    commutative [double] product), the suppression pass appends to [dst],
    in index order, exactly the clusters [i] whose weight is at least
    [groupSizeMin] and for which no other cluster [j] of weight at least
    [groupSizeMin] both contains [i] within the margins
    [Round(sizeDifferenceMax * width_j)], [Round(sizeDifferenceMax * height_j)]
    and has [weight_j > max(3, weight_i)] or [weight_i < 3]; a cluster of
    weight below [groupSizeMin] is never emitted. *)
Theorem Group_suppress_emits_unsuppressed (dst : Objects) :
  exists idxs : list nat,
    Group_suppress groupSizeMin sizeDifferenceMax buffer dst =
      Ok (dst ++ pick buffer idxs) /\
    StronglySorted lt idxs /\
    forall i, In i idxs <-> spec_emitted groupSizeMin sizeDifferenceMax buffer i.
Proof.
  unfold Group_suppress.
  destruct (for_inv
    (fun i out =>
       exists idxs, out = dst ++ pick buffer idxs /\ StronglySorted lt idxs /\
         forall k, In k idxs <->
                   (k < Z.to_nat i)%nat /\
                   spec_emitted groupSizeMin sizeDifferenceMax buffer k)
    (Group_emit groupSizeMin sizeDifferenceMax buffer) (length buffer) 0 dst)
    as (out & Hfor & idxs & Hout & Hsorted & Hin).
  - exists []. split; [now rewrite app_nil_r |]. split; [constructor |].
    intros k. cbn. split; [tauto | lia].
  - intros k out Hk (idxs & -> & Hsorted & Hin). unfold Group_emit.
    destruct (at_in_range buffer k ltac:(lia)) as (bi & Hat & Hl).
    rewrite Hat, rbind_Ok.
    assert (Hkn : Z.to_nat (k + 1) = S (Z.to_nat k)) by lia.
    rewrite (to_size_t_weight _ _ Hl).
    assert (Hskip :
      ~ spec_emitted groupSizeMin sizeDifferenceMax buffer (Z.to_nat k) ->
      exists idxs0,
        dst ++ pick buffer idxs = dst ++ pick buffer idxs0 /\
        StronglySorted lt idxs0 /\
        forall k0, In k0 idxs0 <->
          (k0 < Z.to_nat (k + 1))%nat /\
          spec_emitted groupSizeMin sizeDifferenceMax buffer k0).
    { intros Hno. exists idxs. split; [reflexivity |]. split; [exact Hsorted |].
      intros k0. rewrite Hin, Hkn. split; [intros [? ?]; split; [lia | auto] |].
      intros [Hlt He]. split; [| exact He].
      destruct (Nat.eq_dec k0 (Z.to_nat k)) as [-> | ?]; [contradiction | lia]. }
    destruct (Z.ltb_spec (weight bi) groupSizeMin) as [Hlt | Hge].
    { eexists; split; [reflexivity |]. apply Hskip.
      intros ((bi' & Hbi' & Hw) & _). rewrite Hl in Hbi'. injection Hbi' as <-. lia. }
    destruct (Group_search_spec (Z.to_nat k) bi Hl (length buffer) 0 ltac:(lia))
      as (jf & Hs & Hr).
    rewrite Z2Nat.id in Hs by lia. change (Z.of_nat 0) with 0 in Hs.
    rewrite Hs, rbind_Ok.
    destruct Hr as [(-> & Hall) | (Hjf & Hsup)].
    + rewrite Z.eqb_refl. eexists; split; [reflexivity |].
      exists (idxs ++ [Z.to_nat k]). split; [| split].
      * unfold pick. rewrite omap_app, app_assoc. f_equal.
        change (omap (fun i => buffer !! i) [Z.to_nat k])
          with (match buffer !! Z.to_nat k with Some y => [y] | None => [] end).
        now rewrite Hl.
      * apply StronglySorted_snoc; [exact Hsorted |].
        intros k0 Hk0. apply Hin in Hk0. lia.
      * intros k0. rewrite in_app_iff, Hin, Hkn. cbn [In]. split.
        -- intros [[Hlt He] | [<- | []]]; [split; [lia | exact He] |].
           split; [lia |]. split; [now exists bi |].
           intros (j & Hj). apply (Hall j); [lia | exact Hj].
        -- intros [Hlt He].
           destruct (Nat.eq_dec k0 (Z.to_nat k)) as [-> | ?]; [right; now left |].
           left. split; [lia | exact He].
    + destruct (Z.eqb_spec (Z.of_nat jf) (Z.of_nat (length buffer))); [lia |].
      eexists; split; [reflexivity |]. apply Hskip.
      intros (_ & Hno). apply Hno. now exists jf.
  - exists idxs. split; [now rewrite Hfor, Hout |]. split; [exact Hsorted |].
    intros i. rewrite Hin. split; [tauto |]. intros He. split; [| exact He].
    destruct He as ((bi & Hbi & _) & _). apply lookup_lt_Some in Hbi. lia.
Qed.
End Suppression.

Lemma Q_mul_comm (a b : Q) : Dmul a b = Dmul b a.
Proof.
  destruct a as [an ad], b as [bn bd]. cbn. unfold Qmult; cbn.
  f_equal; [apply Z.mul_comm | apply Pos.mul_comm].
Qed.

Lemma Group_suppress_emits_unsuppressed_witness :
  exists idxs : list nat,
    Group_suppress 2 (1 # 10)%Q [strong_cluster; weak_cluster] [] =
      Ok ([] ++ pick [strong_cluster; weak_cluster] idxs) /\
    StronglySorted lt idxs /\
    forall i, In i idxs <->
              spec_emitted 2 (1 # 10)%Q [strong_cluster; weak_cluster] i.
Proof.
  apply (Group_suppress_emits_unsuppressed 2 (1 # 10)%Q [strong_cluster; weak_cluster]
           Q_mul_comm).
  intros o [<- | [<- | []]]; cbn; unfold size_t_modulus; lia.
Defined.

(** The nested-cluster scenario: only the strong cluster is returned. *)
Example Group_suppress_scenario :
  Group_suppress 2 (1 # 10)%Q [strong_cluster; weak_cluster] [] = Ok [strong_cluster].
Proof. reflexivity. Qed.

(** ** Grouping a single representative *)

Lemma QRound_div_1 (z : Z) : Round (Ddiv (D_of_Z z) (D_of_Z 1)) = z.
Proof.
  cbn. unfold QRound, Qdiv, Qinv, Qle_bool, Qfloor, Qceiling, Qminus, Qopp, Qplus, Qmult; cbn.
  rewrite !Z.mul_1_r. change (Z.pos (1 * 1 * 2)) with 2.
  destruct (Z.leb_spec 0 z) as [H | H].
  - symmetry. apply Z.div_unique with (r := 1); lia.
  - assert (E : (- (z * 2 + - (1))) / 2 = - z)
      by (symmetry; apply Z.div_unique with (r := 1); lia).
    rewrite E. lia.
Qed.

(** C5 as stated fails: the two near-duplicates group, with
    [groupSizeMin = 2], into one representative of weight 2; grouping that
    representative again with the same parameters emits nothing. *)
Lemma GroupObjects_regroup_drops :
  GroupObjects [] [cand_a; cand_b] 2 (2 # 10)%Q = Ok [grouped_2] /\
  weight grouped_2 = 2 /\
  ~ exists o,
      GroupObjects [] [grouped_2] 2 (2 # 10)%Q = Ok [o] /\
      rect o = rect grouped_2 /\ weight o = weight grouped_2.
Proof.
  split; [reflexivity |]. split; [reflexivity |].
  intros (o & H & _). vm_compute in H. discriminate.
Qed.

Section Single.
Context {D : Type} {ops : DoubleOps D}.

Lemma Group_clusters_single (o : Object) (s : D) :
  Group_clusters [o] s =
  Ok [mkObject (Rect.div (rect o) (D_of_Z 1)) 1 (tag o)].
Proof.
  unfold Group_clusters, Partition, Partition_fuel. cbn.
  destruct o as [[l t r b] w tg]. reflexivity.
Qed.

(** C5 (amended). For a list of one representative whose weight equals
    [groupSizeMin], [GroupObjects] reproduces the object, rectangle and
    weight, when [groupSizeMin = 1] (division by 1.0 being exact); for every
    other [groupSizeMin] the call leaves [dst] as it is and emits nothing. *)
Theorem GroupObjects_single_fixed_point_iff_1
    (Hexact : forall z : Z, Round (Ddiv (D_of_Z z) (D_of_Z 1)) = z)
    (dst : Objects) (o : Object) (groupSizeMin : Z) (s : D) :
  0 <= groupSizeMin < size_t_modulus ->
  weight o = groupSizeMin ->
  (groupSizeMin = 1 -> GroupObjects dst [o] groupSizeMin s = Ok (dst ++ [o])) /\
  (groupSizeMin <> 1 -> GroupObjects dst [o] groupSizeMin s = Ok dst).
Proof.
  intros Hg Hw. split.
  - intros ->. unfold GroupObjects. cbn [length Z.of_nat Z.eqb Z.ltb orb].
    rewrite Group_clusters_single, rbind_Ok.
    unfold Rect.div. rewrite !Hexact.
    destruct o as [[l t r b] w tg]. cbn in Hw. subst w. reflexivity.
  - intros Hne. unfold GroupObjects.
    destruct (Z.eqb_spec groupSizeMin 0); [reflexivity |].
    cbn [length orb].
    destruct (Z.ltb_spec (Z.of_nat 1) groupSizeMin); [reflexivity | lia].
Qed.
End Single.

Lemma GroupObjects_single_fixed_point_iff_1_witness :
  (1 = 1 -> GroupObjects [] [cand_a] 1 (2 # 10)%Q = Ok ([] ++ [cand_a])) /\
  (1 <> 1 -> GroupObjects [] [cand_a] 1 (2 # 10)%Q = Ok []).
Proof.
  apply (GroupObjects_single_fixed_point_iff_1 QRound_div_1 [] cand_a 1 (2 # 10)%Q).
  - unfold size_t_modulus. lia.
  - reflexivity.
Defined.

(** ** The sources of the pyramid levels ([FillLevels]) *)

Section FillLevelsFacts.
Context {D : Type} {ops : DoubleOps D} {prim : Primitives}.

Lemma EstimateIntegral_src (level : Level.t D) :
  Level.src (EstimateIntegral level) = Level.src level.
Proof.
  unfold EstimateIntegral.
  destruct (Level.needSqsum level); [destruct (Level.needTilted level) |].
  - destruct (Integral3 _ _ _ _) as [[s q] t]. reflexivity.
  - destruct (Integral2 _ _ _) as [s q]. reflexivity.
  - reflexivity.
Qed.

(** C6 (amended). After [FillLevels], the first level's source is the
    bilinear resize of the (grey) input image, histogram-normalised when a
    Haar model is bound; the source of every later level is the bilinear
    resize of the FIRST level's refreshed source into that level's buffer:
    independent resizes from level 0, not a chain through level [i-1]. *)
Theorem FillLevels_sources_from_level0
    (needNormalization : bool) (level0 : Level.t D) (rest : list (Level.t D))
    (src : View) :
  let levels' := FillLevels needNormalization (level0 :: rest) src in
  length levels' = S (length rest) /\
  exists new0,
    levels' !! 0%nat = Some new0 /\
    Level.src new0 =
      (let r := ResizeBilinear (FillLevels_gray src) (Level.src level0) in
       if needNormalization then NormalizeHistogram r r else r) /\
    forall (i : nat) (old : Level.t D),
      rest !! i = Some old ->
      exists new,
        levels' !! S i = Some new /\
        Level.src new = ResizeBilinear (Level.src new0) (Level.src old).
Proof.
  cbv zeta. unfold FillLevels. split; [cbn; now rewrite length_map |].
  eexists. split; [reflexivity |]. split.
  - rewrite EstimateIntegral_src. destruct needNormalization; reflexivity.
  - intros i old Hold. rewrite lookup_cons.
    change (map ?f rest) with (f <$> rest).
    rewrite list_lookup_fmap, Hold.
    eexists. split; [reflexivity |].
    unfold FillLevels_next. now rewrite EstimateIntegral_src.
Qed.
End FillLevelsFacts.

(** C6 as stated fails: on three levels of widths 8, 4 and 2 the third
    source is resized from the 8-wide first level, not from the 4-wide
    second one. *)
Lemma FillLevels_third_level_not_from_second :
  exists prev old new,
    FillLevels false three_levels (gray_image 16) !! 1%nat = Some prev /\
    three_levels !! 2%nat = Some old /\
    FillLevels false three_levels (gray_image 16) !! 2%nat = Some new /\
    pixel (Level.src new) 0 0 = 8 /\
    pixel (ResizeBilinear (Level.src prev) (Level.src old)) 0 0 = 4 /\
    Level.src new <> ResizeBilinear (Level.src prev) (Level.src old).
Proof.
  eexists _, _, _.
  split; [reflexivity |]. split; [reflexivity |]. split; [reflexivity |].
  split; [reflexivity |]. split; [reflexivity |].
  intros E. apply (f_equal (fun v => pixel v 0 0)) in E. vm_compute in E. discriminate.
Qed.

(** ** Totality of the detection pass *)

Section Totality.
Context {D : Type} {ops : DoubleOps D} {prim : Primitives}.

Lemma Group_search_total (g : Z) (s : D) (buffer : Objects) (i : Z) (bi : Object) :
  forall (count j : nat),
    (j + count = length buffer)%nat ->
    exists jf, Group_search g s buffer i bi count (Z.of_nat j) = Ok jf.
Proof.
  induction count as [| c IH]; intros j Hj; [now eexists |].
  cbn [Group_search].
  destruct (at_in_range buffer (Z.of_nat j) ltac:(lia)) as (bj & Hat & _).
  rewrite Hat, rbind_Ok.
  destruct (Group_absorbs g s i (Z.of_nat j) bi bj); [now eexists |].
  destruct (IH (S j) ltac:(lia)) as (jf & Hs).
  replace (Z.of_nat (S j)) with (Z.of_nat j + 1) in Hs by lia. now exists jf.
Qed.

Lemma Group_suppress_total (g : Z) (s : D) (buffer dst : Objects) :
  exists out, Group_suppress g s buffer dst = Ok out.
Proof.
  unfold Group_suppress.
  destruct (for_inv (fun _ _ => True) (Group_emit g s buffer) (length buffer) 0 dst I)
    as (out & Hf & _); [| now exists out].
  intros k out Hk _. unfold Group_emit.
  destruct (at_in_range buffer k ltac:(lia)) as (bi & Hat & _).
  rewrite Hat, rbind_Ok.
  destruct (to_size_t (weight bi) <? g); [now eexists |].
  destruct (Group_search_total g s buffer k bi (length buffer) 0 ltac:(lia))
    as (jf & Hs).
  change (Z.of_nat 0) with 0 in Hs. rewrite Hs, rbind_Ok.
  destruct (jf =? Z.of_nat (length buffer)); now eexists.
Qed.

Lemma GroupObjects_total (dst src : Objects) (g : Z) (s : D) :
  exists out, GroupObjects dst src g s = Ok out.
Proof.
  unfold GroupObjects.
  destruct ((g =? 0) || (Z.of_nat (length src) <? g)); [now eexists |].
  destruct (Group_clusters_spec src s)
    as (nclasses & labels & buffer & _ & Hc & _).
  rewrite Hc, rbind_Ok. apply Group_suppress_total.
Qed.

Lemma Detect_group_total (c : Candidates) (objects : Objects) (g : Z) (s : D) :
  exists out, Detect_group c objects g s = Ok out.
Proof.
  revert objects. induction c as [| [t second] c IH]; intros objects; [now eexists |].
  cbn [Detect_group].
  destruct (GroupObjects_total objects second g s) as (o1 & H1).
  rewrite H1, rbind_Ok. apply IH.
Qed.

Lemma Hid_Detect_total (bufs : Buffers) (h : Hid.t) (size : Size.t) (mask : View)
    (rect : Rect.t) (dst : View) (workers : list Worker) (throughColumn : bool) :
  exists dst' workers',
    Hid_Detect bufs h size mask rect dst workers throughColumn = Ok (dst', workers') /\
    length workers' = length workers.
Proof.
  unfold Hid_Detect. destruct workers as [| w ws] eqn:Ew; [now eexists _, _ |].
  rewrite <- Ew. clear Ew w ws.
  set (m := Region_MiddleCenter _ _). set (r := Rect.Intersection _ _).
  set (step := strip_step _ _ _ _).
  destruct (for_inv (fun _ ws => length ws = length workers)
                    (Hid_Detect_add h m r step) (length workers) 0 workers eq_refl)
    as (ws1 & Hf1 & Hl1).
  { intros k ws0 Hk Hl. unfold Hid_Detect_add.
    destruct (at_in_range ws0 k ltac:(lia)) as (w & Hat & _).
    rewrite Hat, rbind_Ok, put_Ok by lia.
    eexists; split; [reflexivity | now rewrite length_insert]. }
  rewrite Hf1, rbind_Ok.
  destruct (for_inv (fun _ (st : View * list Worker) => length (snd st) = length workers)
                    (Hid_Detect_wait bufs) (length workers) 0 (Fill dst 0, ws1) Hl1)
    as ([d2 ws2] & Hf2 & Hl2).
  { intros k [d0 ws0] Hk Hl. cbn [snd] in Hl. unfold Hid_Detect_wait.
    destruct (at_in_range ws0 k ltac:(lia)) as (w & Hat & _).
    rewrite Hat, rbind_Ok. unfold Worker_Wait.
    rewrite put_Ok by lia. rewrite rbind_Ok.
    eexists; split; [reflexivity | cbn [snd]; now rewrite length_insert]. }
  rewrite Hf2. now exists d2, ws2.
Qed.

Lemma Detect_hid_total (datas : list Data.t) (mask : View) (rect : Rect.t)
    (hids : list Hid.t) (j : Z) (st : Detect_state) :
  hids_wf (length datas) hids ->
  0 <= j < Z.of_nat (length hids) ->
  Level.hids (fst (fst st)) = hids ->
  exists st', Detect_hid false datas mask rect j st = Ok st' /\
              Level.hids (fst (fst st')) = hids.
Proof.
  intros Hwf Hj Hh. destruct st as [[level workers] candidates]. cbn [fst] in Hh.
  unfold Detect_hid, Hid_data. rewrite Hh.
  destruct (at_in_range hids j Hj) as (hid & Hat & Hl).
  rewrite Hat, rbind_Ok.
  assert (Hd : (Hid.data hid < length datas)%nat).
  { exact (Forall_lookup_1 _ _ _ _ Hwf Hl). }
  destruct (at_in_range datas (Z.of_nat (Hid.data hid)) ltac:(lia)) as (d & Hatd & _).
  rewrite Hatd, rbind_Ok.
  destruct (Hid_Detect_total (Level_buffers level) hid (Data.size d) mask rect
              (Level.dst level) workers (Level.throughColumn level))
    as (dst' & workers' & HD & _).
  rewrite HD, rbind_Ok. eexists; split; [reflexivity |]. exact Hh.
Qed.

Lemma FillMotionMask_hids (rects : list Rect.t) (level : Level.t D) :
  Level.hids (fst (FillMotionMask rects level)) = Level.hids level.
Proof.
  unfold FillMotionMask. destruct (fold_left _ _ _) as [mask rect]. reflexivity.
Qed.

Lemma Detect_level_total (datas : list Data.t) (motionMask : bool)
    (motionRegions : list Rect.t) (i : Z)
    (st : list (Level.t D) * list Worker * Candidates) :
  levels_wf (length datas) (fst (fst st)) ->
  0 <= i < Z.of_nat (length (fst (fst st))) ->
  exists st',
    Detect_level false datas motionMask motionRegions i st = Ok st' /\
    levels_wf (length datas) (fst (fst st')) /\
    length (fst (fst st')) = length (fst (fst st)).
Proof.
  destruct st as [[levels workers] candidates]. cbn [fst]. intros Hwf Hi.
  unfold Detect_level.
  destruct (at_in_range levels i Hi) as (level & Hat & Hl).
  rewrite Hat, rbind_Ok.
  assert (Hlw : hids_wf (length datas) (Level.hids level)).
  { exact (Forall_lookup_1 _ _ _ _ Hwf Hl). }
  assert (Hput : forall level' : Level.t D,
            Level.hids level' = Level.hids level ->
            exists st',
              (levels0 ← put_ levels i level'; Ok (levels0, workers, candidates)) = Ok st' /\
              levels_wf (length datas) (fst (fst st')) /\
              length (fst (fst st')) = length levels).
  { intros level' Hh. rewrite put_Ok by exact Hi. rewrite rbind_Ok.
    eexists; split; [reflexivity |]. cbn [fst].
    split; [| now rewrite length_insert].
    apply Forall_insert; [exact Hwf | now rewrite Hh]. }
  set (pre := if motionMask then _ else _).
  assert (Hpre : Level.hids (fst (fst pre)) = Level.hids level).
  { subst pre. destruct motionMask; [| reflexivity].
    pose proof (FillMotionMask_hids motionRegions level) as E.
    destruct (FillMotionMask motionRegions level) as [l' r']. exact E. }
  destruct pre as [[level1 mask] rect]. cbn [fst] in Hpre.
  destruct (Rect.Empty rect); [now apply Hput |].
  destruct (for_inv
    (fun _ (s : Detect_state) => Level.hids (fst (fst s)) = Level.hids level)
    (Detect_hid false datas mask rect) (length (Level.hids level1)) 0
    (level1, workers, candidates) Hpre) as ([[level2 workers2] cand2] & Hf & Hh2).
  { intros k s0 Hk Hs0. apply Detect_hid_total; [exact Hlw | | exact Hs0].
    rewrite Hpre in Hk. lia. }
  rewrite Hf, rbind_Ok. cbn [fst] in Hh2.
  rewrite put_Ok by exact Hi. rewrite rbind_Ok.
  eexists; split; [reflexivity |]. cbn [fst].
  split; [| now rewrite length_insert].
  apply Forall_insert; [exact Hwf | now rewrite Hh2].
Qed.

(** An evaluator whose [data] dangles gives no result: where the loop body
    returns, the models had not moved. *)
Lemma Detect_hid_stale (stale : bool) (datas : list Data.t) (mask : View)
    (rect : Rect.t) (j : Z) (st st' : Detect_state) :
  Detect_hid stale datas mask rect j st = Ok st' ->
  Detect_hid false datas mask rect j st = Ok st'.
Proof.
  destruct stale; [| auto]. destruct st as [[level workers] candidates].
  unfold Detect_hid, Hid_data.
  destruct (at_ (Level.hids level) j) as [hid | | | |]; discriminate.
Qed.

Lemma Detect_level_stale (stale : bool) (datas : list Data.t) (motionMask : bool)
    (motionRegions : list Rect.t) (i : Z)
    (st st' : list (Level.t D) * list Worker * Candidates) :
  Detect_level stale datas motionMask motionRegions i st = Ok st' ->
  Detect_level false datas motionMask motionRegions i st = Ok st'.
Proof.
  destruct st as [[levels workers] candidates]. unfold Detect_level.
  destruct (at_ levels i) as [level | | | |]; try discriminate.
  rewrite !rbind_Ok.
  destruct (if motionMask then _ else _) as [[level1 mask] rect].
  destruct (Rect.Empty rect); [auto |].
  destruct (for_ _ _ (Detect_hid stale datas mask rect) _) as [st1 | | | |] eqn:Ef;
    try discriminate.
  apply (for_ok_ext _ (Detect_hid false datas mask rect)) in Ef;
    [| intros k s0 s1; apply Detect_hid_stale].
  now rewrite Ef.
Qed.

Lemma EstimateIntegral_hids (level : Level.t D) :
  Level.hids (EstimateIntegral level) = Level.hids level.
Proof.
  unfold EstimateIntegral.
  destruct (Level.needSqsum level); [destruct (Level.needTilted level) |].
  - destruct (Integral3 _ _ _ _) as [[s q] t]. reflexivity.
  - destruct (Integral2 _ _ _) as [s q]. reflexivity.
  - reflexivity.
Qed.

Lemma FillLevels_wf (n : nat) (needNormalization : bool)
    (levels : list (Level.t D)) (src : View) :
  levels_wf n levels ->
  levels_wf n (FillLevels needNormalization levels src) /\
  length (FillLevels needNormalization levels src) = length levels.
Proof.
  intros Hwf. destruct levels as [| level0 rest]; [split; [constructor | reflexivity] |].
  unfold FillLevels. apply Forall_cons in Hwf as [H0 Hrest].
  split; [| cbn; now rewrite length_map].
  apply Forall_cons. split.
  - rewrite EstimateIntegral_hids. destruct needNormalization; exact H0.
  - change (map ?f rest) with (f <$> rest). apply Forall_fmap.
    eapply Forall_impl; [exact Hrest |]. intros l Hl. cbn.
    unfold FillLevels_next. rewrite EstimateIntegral_hids. exact Hl.
Qed.
End Totality.

(** ** [Detect] *)

Lemma Size_eqb_eq (a b : Size.t) : Size.eqb a b = true <-> a = b.
Proof.
  destruct a as [ax ay], b as [bx by_]. unfold Size.eqb; cbn.
  rewrite andb_true_iff, !Z.eqb_eq. split; [intros [-> ->]; reflexivity |].
  intros [= -> ->]. split; reflexivity.
Qed.

Section DetectFacts.
Context {D : Type} {ops : DoubleOps D} {prim : Primitives}.

(** The loop of [Detect] over the levels returns when no [data] dangles. *)
Lemma Detect_levels_total (det : Detection D) (src : View) (motionMask : bool)
    (motionRegions : list Rect.t) :
  det_wf det ->
  exists levels workers candidates,
    for_ (length (FillLevels (_needNormalization det) (_levels det) src)) 0
         (Detect_level false (_data det) motionMask motionRegions)
         (FillLevels (_needNormalization det) (_levels det) src, _workers det, [])
      = Ok (levels, workers, candidates) /\
    levels_wf (length (_data det)) levels /\
    length levels = length (_levels det).
Proof.
  intros Hwf.
  destruct (FillLevels_wf (length (_data det)) (_needNormalization det)
                          (_levels det) src Hwf) as (Hwf1 & Hlen1).
  destruct (for_inv
    (fun _ (st : list (Level.t D) * list Worker * Candidates) =>
       levels_wf (length (_data det)) (fst (fst st)) /\
       length (fst (fst st)) = length (_levels det))
    (Detect_level false (_data det) motionMask motionRegions)
    (length (FillLevels (_needNormalization det) (_levels det) src)) 0
    (FillLevels (_needNormalization det) (_levels det) src, _workers det, []))
    as ([[levels workers] candidates] & Hf & Hw2 & Hl2).
  { cbn [fst]. split; [exact Hwf1 | exact Hlen1]. }
  { intros k st Hk [Hw Hl].
    destruct (Detect_level_total (_data det) motionMask motionRegions k st Hw)
      as (st' & HD & Hw' & Hl'); [rewrite Hl, <- Hlen1; lia |].
    exists st'. split; [exact HD |]. split; [exact Hw' | congruence]. }
  now exists levels, workers, candidates.
Qed.

(** What a [Detect] that returns leaves of the detector. *)
Lemma Detect_Ok_wf
    (det : Detection D) (src : View) (objects : Objects) (groupSizeMin : Z)
    (sizeDifferenceMax : D) (motionMask : bool) (motionRegions : list Rect.t)
    (b : bool) (objects' : Objects) (det' : Detection D) :
  det_wf det ->
  Detect det src objects groupSizeMin sizeDifferenceMax motionMask motionRegions
    = Ok (b, objects', det') ->
  det_wf det' /\ _data det' = _data det /\
  length (_levels det') = length (_levels det) /\
  _stale det' = _stale det /\ _freed det' = _freed det.
Proof.
  intros Hwf H. unfold Detect in H.
  destruct (_ || _).
  { injection H as <- <- <-. auto. }
  destruct (_freed det) eqn:Hfr; [discriminate |].
  destruct (for_ _ _ _ _) as [[[levels workers] candidates] | | | |] eqn:Ef;
    try discriminate.
  rewrite rbind_Ok in H.
  destruct (Detect_group _ _ _ _) as [out | | | |]; try discriminate.
  injection H as <- <- <-.
  apply (for_ok_ext _ (Detect_level false (_data det) motionMask motionRegions))
    in Ef; [| intros k s0 s1; apply Detect_level_stale].
  destruct (Detect_levels_total det src motionMask motionRegions Hwf)
    as (levels' & workers' & candidates' & Hf & Hw2 & Hl2).
  rewrite Hf in Ef. injection Ef as -> -> ->.
  unfold det_wf. cbn. auto.
Qed.

(** The two outcomes of [Detect] on a usable detector. *)
Lemma Detect_cases
    (det : Detection D) (src : View) (objects : Objects) (groupSizeMin : Z)
    (sizeDifferenceMax : D) (motionMask : bool) (motionRegions : list Rect.t) :
  det_wf det ->
  usable det ->
  (Detect_rejects det src /\
   Detect det src objects groupSizeMin sizeDifferenceMax motionMask motionRegions
     = Ok (false, objects, det)) \/
  (~ Detect_rejects det src /\
   exists objects' levels workers,
     Detect det src objects groupSizeMin sizeDifferenceMax motionMask motionRegions
       = Ok (true, objects',
             mkDetection D (_data det) (_imageSize det) (_needNormalization det)
                         levels workers false false) /\
     levels_wf (length (_data det)) levels /\ levels <> []).
Proof.
  intros Hwf [Hst Hfr]. unfold Detect, Detect_rejects. rewrite Hst, Hfr.
  destruct (_levels det) as [| l0 ls] eqn:El.
  { left. split; [now left | reflexivity]. }
  rewrite <- El. replace (length (_levels det) =? 0)%nat with false
    by (rewrite El; reflexivity).
  cbn [orb].
  destruct (Size.eqb (View_Size src) (_imageSize det)) eqn:Es; cbn [negb].
  2:{ left. split; [| reflexivity]. right. intros E.
      apply Size_eqb_eq in E. congruence. }
  apply Size_eqb_eq in Es. right.
  split; [intros [E | E]; [congruence | contradiction] |].
  destruct (Detect_levels_total det src motionMask motionRegions Hwf)
    as (levels & workers & candidates & Hf & Hw2 & Hl2).
  rewrite Hf, rbind_Ok.
  destruct (Detect_group_total candidates [] (to_size_t groupSizeMin) sizeDifferenceMax)
    as (out & Hg).
  rewrite Hg, rbind_Ok.
  exists out, levels, workers. split; [reflexivity |]. split; [exact Hw2 |].
  intros ->. rewrite El in Hl2. discriminate.
Qed.

(** On a usable detector whose evaluators point into [_data], [Detect]
    returns; it returns false exactly when [_levels] is empty or the image
    size differs from [_imageSize], and then neither [objects] nor the
    detector is changed; in every other case it returns true. *)
Lemma Detect_false_iff_guard
    (det : Detection D) (src : View) (objects : Objects) (groupSizeMin : Z)
    (sizeDifferenceMax : D) (motionMask : bool) (motionRegions : list Rect.t) :
  det_wf det ->
  usable det ->
  exists (b : bool) (objects' : Objects) (det' : Detection D),
    Detect det src objects groupSizeMin sizeDifferenceMax motionMask motionRegions
      = Ok (b, objects', det') /\
    (b = false <-> Detect_rejects det src) /\
    (b = false -> objects' = objects /\ det' = det).
Proof.
  intros Hwf Hu.
  destruct (Detect_cases det src objects groupSizeMin sizeDifferenceMax motionMask
                         motionRegions Hwf Hu)
    as [(Hr & HD) | (Hr & objects' & levels & workers & HD & _)].
  - exists false, objects, det. split; [exact HD |]. split; [tauto | auto].
  - eexists true, objects', _. split; [exact HD |].
    split; [split; [discriminate | contradiction] | discriminate].
Qed.
End DetectFacts.

Lemma sample_det_wf : det_wf sample_det.
Proof.
  unfold det_wf, levels_wf, hids_wf. cbn.
  repeat constructor.
Qed.

Lemma sample_det_usable : usable sample_det.
Proof. split; reflexivity. Qed.

(** A run of [Detect] on the sample detector: with the column-through
    stride of 2 the 2x2 search area holds one window, which is a hit. *)
Example Detect_sample_run :
  exists det',
    Detect sample_det (gray_image 4) [] 1 (2 # 10)%Q false []
      = Ok (true, [mkObject (R4 0 0 2 2) 1 7], det').
Proof. eexists. vm_compute. reflexivity. Qed.

(** ** [Init] *)

Section InitFacts.
Context {D : Type} {ops : DoubleOps D} {prim : Primitives}.

Lemma hids_wf_mono (n m : nat) (hids : list Hid.t) :
  (n <= m)%nat -> hids_wf n hids -> hids_wf m hids.
Proof.
  intros Hnm Hf. eapply Forall_impl; [exact Hf |]. intros h Hh. cbn in *. lia.
Qed.

Lemma InitLevels_bind_hids (n : nat) :
  forall (datas : list Data.t) (inserts : list bool) (i : nat)
         (level : Level.t D) (needNormalization : bool),
    (i + length datas <= n)%nat ->
    hids_wf n (Level.hids level) ->
    hids_wf n (Level.hids (snd (fst (InitLevels_bind datas inserts i level
                                                     needNormalization)))).
Proof.
  induction datas as [| d datas IH]; intros inserts i level nn Hi Hwf;
    [exact Hwf |].
  destruct inserts as [| ins inserts]; [exact Hwf |].
  cbn [InitLevels_bind length] in *.
  destruct ins; cbn [negb]; [| apply IH; [lia | exact Hwf]].
  destruct (SimdDetectionInit _ _ _ _ _ _ =? 0); [exact Hwf |].
  apply IH; [lia |]. cbn [Level.set_need Level.set_hids Level.hids].
  apply Forall_app. split; [exact Hwf |].
  constructor; [cbn; lia | constructor].
Qed.

Lemma InitLevels_roi_hids (roi : View) (level : Level.t D) :
  Level.hids (InitLevels_roi roi level) = Level.hids level.
Proof.
  unfold InitLevels_roi. destruct (Format_eqb _ _); reflexivity.
Qed.

Lemma InitLevels_loop_props (scaleFactor : D) (sizeMin sizeMax : Size.t) (roi : View) :
  forall (fuel : nat) (det : Detection D) (scale : D) (b : bool) (det' : Detection D),
    InitLevels_loop fuel det scaleFactor sizeMin sizeMax roi scale = Ok (b, det') ->
    _data det' = _data det /\
    _imageSize det' = _imageSize det /\
    (b = true -> _levels det' <> []) /\
    (det_wf det -> det_wf det').
Proof.
  induction fuel as [| fuel IH]; intros det scale b det' H; [discriminate |].
  cbn [InitLevels_loop] in H.
  destruct (fold_left _ _ _) as [[inserts exit] insert].
  destruct exit.
  { injection H as <- <-. split; [reflexivity |]. split; [reflexivity |].
    split; [| auto].
    destruct (_levels det); [cbn; discriminate | intros _; discriminate]. }
  destruct insert; [| now apply IH in H].
  destruct (InitLevels_bind _ _ _ _ _) as [[bound level] nn] eqn:Eb.
  assert (Hlw : hids_wf (length (_data det)) (Level.hids level)).
  { pose proof (InitLevels_bind_hids (length (_data det)) (_data det) inserts 0
                  (InitLevels_alloc (_imageSize det) scale) (_needNormalization det)
                  ltac:(lia) ltac:(constructor)) as Hb.
    now rewrite Eb in Hb. }
  destruct bound.
  - apply IH in H as (Hd & Hs & Hl & Hw). cbn in Hd, Hs.
    repeat split; auto. intros Hwf. apply Hw.
    unfold det_wf, levels_wf in *. cbn. apply Forall_app. split; [exact Hwf |].
    constructor; [| constructor]. now rewrite InitLevels_roi_hids.
  - injection H as <- <-. cbn.
    split; [reflexivity |]. split; [reflexivity |]. split; [discriminate |].
    intros Hwf. unfold det_wf, levels_wf in *. cbn. apply Forall_app.
    split; [exact Hwf |]. constructor; [exact Hlw | constructor].
Qed.

(** The levels only grow in number during the loop, and within the
    reserved capacity none of them is freed. *)
Lemma InitLevels_loop_usable (scaleFactor : D) (sizeMin sizeMax : Size.t) (roi : View) :
  forall (fuel : nat) (det : Detection D) (scale : D) (b : bool) (det' : Detection D),
    InitLevels_loop fuel det scaleFactor sizeMin sizeMax roi scale = Ok (b, det') ->
    (length (_levels det) <= length (_levels det'))%nat /\
    _stale det' = _stale det /\
    (_freed det = false -> (length (_levels det') <= levels_reserved)%nat ->
     _freed det' = false).
Proof.
  induction fuel as [| fuel IH]; intros det scale b det' H; [discriminate |].
  cbn [InitLevels_loop] in H.
  destruct (fold_left _ _ _) as [[inserts exit] insert].
  destruct exit; [injection H as <- <-; auto |].
  destruct insert; [| now apply IH in H].
  destruct (InitLevels_bind _ _ _ _ _) as [[bound level] nn].
  assert (Hpush : forall l,
    (length (_levels det) < length (_levels (Levels_push_back det nn l)))%nat /\
    _stale (Levels_push_back det nn l) = _stale det /\
    (_freed det = false ->
     (length (_levels (Levels_push_back det nn l)) <= levels_reserved)%nat ->
     _freed (Levels_push_back det nn l) = false)).
  { intros l. cbn [Levels_push_back _levels _stale _freed]. rewrite length_app.
    cbn [length]. split; [lia |]. split; [reflexivity |].
    intros -> Hn. cbn [orb]. apply Nat.leb_gt. lia. }
  destruct bound.
  - apply IH in H as (Hl & Hs & Hf).
    destruct (Hpush (InitLevels_roi roi level)) as (Hl1 & Hs1 & Hf1).
    split; [lia |]. split; [congruence |].
    intros Hfr Hn. apply Hf; [apply Hf1; [exact Hfr | lia] | exact Hn].
  - injection H as <- <-. destruct (Hpush level) as (Hl1 & Hs1 & Hf1).
    split; [lia |]. split; [exact Hs1 | exact Hf1].
Qed.

(** An [Init] that reaches [InitLevels] binds every evaluator anew; the
    detector is usable after it when it was not freed before and the
    levels fit the reserved capacity. *)
Lemma Init_usable (fuel : nat) (det : Detection D) (imageSize : Size.t)
    (scaleFactor : D) (sizeMin sizeMax : Size.t) (roi : View) (threadNumber : Z)
    (b : bool) (det' : Detection D) :
  Init fuel det imageSize scaleFactor sizeMin sizeMax roi threadNumber = Ok (b, det') ->
  _data det <> [] ->
  _freed det = false ->
  (length (_levels det') <= levels_reserved)%nat ->
  usable det'.
Proof.
  unfold Init. destruct (_data det) as [| d ds]; [contradiction |].
  unfold InitLevels. intros H _ Hfr Hn.
  apply InitLevels_loop_usable in H as (_ & Hs & Hf).
  split; [exact Hs | now apply Hf].
Qed.

Lemma Init_props (fuel : nat) (det : Detection D) (imageSize : Size.t)
    (scaleFactor : D) (sizeMin sizeMax : Size.t) (roi : View) (threadNumber : Z)
    (b : bool) (det' : Detection D) :
  Init fuel det imageSize scaleFactor sizeMin sizeMax roi threadNumber = Ok (b, det') ->
  _data det' = _data det /\
  (b = true -> _levels det' <> [] /\ _imageSize det' = imageSize) /\
  (det_wf det -> det_wf det').
Proof.
  unfold Init. destruct (_data det) as [| d ds] eqn:Ed.
  { intros [= <- <-]. repeat split; auto; discriminate. }
  unfold InitLevels. intros H.
  apply InitLevels_loop_props in H as (Hd & Hs & Hl & Hw). cbn in Hd, Hs.
  split; [congruence |]. split; [intros Hb; split; [auto | exact Hs] |].
  intros _. apply Hw. constructor.
Qed.

Lemma Load_props (det : Detection D) (path : String.string) (tag : Tag) :
  det_wf det -> det_wf (snd (Load det path tag)) /\
  _levels (snd (Load det path tag)) = _levels det.
Proof.
  intros Hwf. unfold Load. destruct (_ =? 0); [split; [exact Hwf | reflexivity] |].
  destruct (SimdDetectionInfo _) as [size flags]. cbn [snd].
  split; [| reflexivity].
  unfold det_wf, levels_wf in *. cbn. eapply Forall_impl; [exact Hwf |].
  intros level. apply hids_wf_mono. rewrite length_app. lia.
Qed.
End InitFacts.

(** ** Detectors a client can reach *)

Section Reachable.
Context {D : Type} {ops : DoubleOps D} {prim : Primitives}.

Lemma reachable_wf (det : Detection D) :
  reachable det -> det_wf det /\ (_data det = [] -> _levels det = []).
Proof.
  induction 1 as [| det path tag _ [IHw IHe]
                  | det fuel sz f smin smax roi tn b det' _ [IHw IHe] HI
                  | det src objs g s mm mr b objs' det' _ [IHw IHe] HD].
  - split; [constructor | reflexivity].
  - destruct (Load_props det path tag IHw) as (Hw & Hl).
    split; [exact Hw |]. rewrite Hl. unfold Load.
    destruct (_ =? 0); [exact IHe |].
    destruct (SimdDetectionInfo _) as [size flags]. cbn.
    intros E. now apply app_eq_nil in E as [_ E].
  - destruct (Init_props _ _ _ _ _ _ _ _ _ _ HI) as (Hd & _ & Hw).
    split; [auto |]. intros E. rewrite Hd in E.
    unfold Init in HI. rewrite E in HI. injection HI as <- <-. auto.
  - destruct (Detect_Ok_wf _ _ _ _ _ _ _ _ _ _ IHw HD) as (Hw & Hd & Hl & _).
    split; [exact Hw |]. intros E. rewrite Hd in E. apply IHe in E.
    rewrite E in Hl. now destruct (_levels det').
Qed.

Lemma InitLevels_bind_bound
    (Hbind : forall c s q t tc i16, SimdDetectionInit c s q t tc i16 <> 0) :
  forall (datas : list Data.t) (inserts : list bool) (i : nat)
         (level : Level.t D) (needNormalization : bool),
    fst (fst (InitLevels_bind datas inserts i level needNormalization)) = true.
Proof.
  induction datas as [| d datas IH]; intros inserts i level nn; [reflexivity |].
  destruct inserts as [| ins inserts]; [reflexivity |].
  cbn [InitLevels_bind]. destruct ins; cbn [negb]; [| apply IH].
  destruct (Z.eqb_spec (SimdDetectionInit (Data.handle d) (Level.sum level)
              (Level.sqsum level) (Level.tilted level) (Level.throughColumn level)
              (Data.Int16 d)) 0) as [E | _]; [now apply Hbind in E | apply IH].
Qed.

Lemma InitLevels_loop_false
    (Hbind : forall c s q t tc i16, SimdDetectionInit c s q t tc i16 <> 0)
    (scaleFactor : D) (sizeMin sizeMax : Size.t) (roi : View) :
  forall (fuel : nat) (det : Detection D) (scale : D) (det' : Detection D),
    InitLevels_loop fuel det scaleFactor sizeMin sizeMax roi scale = Ok (false, det') ->
    _levels det' = [].
Proof.
  induction fuel as [| fuel IH]; intros det scale det' H; [discriminate |].
  cbn [InitLevels_loop] in H.
  destruct (fold_left _ _ _) as [[inserts exit] insert].
  destruct exit.
  { injection H as Hb <-. destruct (_levels det); [reflexivity | discriminate]. }
  destruct insert; [| now apply IH in H].
  pose proof (InitLevels_bind_bound Hbind (_data det) inserts 0
                (InitLevels_alloc (_imageSize det) scale) (_needNormalization det)) as Hb.
  destruct (InitLevels_bind _ _ _ _ _) as [[bound level] nn]. cbn in Hb. subst bound.
  now apply IH in H.
Qed.

(** When no native bind fails, a failed [Init] leaves no level behind and
    every later [Detect] is rejected. *)
Lemma Init_false_then_Detect_false
    (Hbind : forall c s q t tc i16, SimdDetectionInit c s q t tc i16 <> 0)
    (fuel : nat) (det det1 : Detection D) (imageSize : Size.t) (scaleFactor : D)
    (sizeMin sizeMax : Size.t) (roi : View) (threadNumber : Z) :
  reachable det ->
  Init fuel det imageSize scaleFactor sizeMin sizeMax roi threadNumber = Ok (false, det1) ->
  forall src objects groupSizeMin sizeDifferenceMax motionMask motionRegions,
    Detect det1 src objects groupSizeMin sizeDifferenceMax motionMask motionRegions
      = Ok (false, objects, det1).
Proof.
  intros Hr HI. assert (Hl : _levels det1 = []).
  { destruct (reachable_wf det Hr) as (_ & He).
    unfold Init in HI. destruct (_data det) as [| d ds] eqn:Ed.
    - injection HI as <-. auto.
    - unfold InitLevels in HI. now apply InitLevels_loop_false in HI. }
  intros. unfold Detect. now rewrite Hl.
Qed.
(** After a successful [Init] for [imageSize] that leaves the detector
    usable, [Detect] is rejected exactly for images of another size. *)
Lemma Init_true_then_Detect
    (fuel : nat) (det det1 : Detection D) (imageSize : Size.t) (scaleFactor : D)
    (sizeMin sizeMax : Size.t) (roi : View) (threadNumber : Z) :
  reachable det ->
  Init fuel det imageSize scaleFactor sizeMin sizeMax roi threadNumber = Ok (true, det1) ->
  usable det1 ->
  forall src objects groupSizeMin sizeDifferenceMax motionMask motionRegions,
  exists b objects' det2,
    Detect det1 src objects groupSizeMin sizeDifferenceMax motionMask motionRegions
      = Ok (b, objects', det2) /\
    (b = false <-> View_Size src <> imageSize).
Proof.
  intros Hr HI Hu src objects g s mm mr.
  destruct (reachable_wf det Hr) as (Hwf & _).
  destruct (Init_props _ _ _ _ _ _ _ _ _ _ HI) as (_ & Ht & Hw).
  destruct (Ht eq_refl) as (Hne & Hsz).
  destruct (Detect_cases det1 src objects g s mm mr (Hw Hwf) Hu)
    as [([Hr1 | Hr1] & HD) | (Hr1 & o' & levels & workers & HD & _)].
  - contradiction.
  - exists false, objects, det1. split; [exact HD |]. rewrite <- Hsz. tauto.
  - eexists true, o', _. split; [exact HD |]. split; [discriminate |].
    intros Hs. exfalso. apply Hr1. right. now rewrite Hsz.
Qed.
End Reachable.

(** C8. At the failing input the claim breaks: the native bind of the only
    model fails at scale 1, [Init] returns false with the half-built level
    left in [_levels], and a [Detect] on an image of the [Init] size returns
    true. *)
Lemma Init_bind_failure_then_Detect_true :
  exists det1,
    Init 8 unbindable_det (Size.mk 4 4) (inject_Z 2) (Size.mk 0 0) (Size.mk 100 100)
         View_default 1 = Ok (false, det1) /\
    length (_levels det1) = 1%nat /\
    exists objects det2,
      Detect det1 (gray_image 4) [] 3 (2 # 10)%Q false [] = Ok (true, objects, det2).
Proof.
  eexists. split; [vm_compute; reflexivity |]. split; [reflexivity |].
  eexists _, _. vm_compute. reflexivity.
Qed.

(** C7. At the failing input the claim breaks.  [Init] succeeds for 4x4
    images; a second [Init], for 8x8 images, fails because the native bind
    refuses the larger buffers.  It has overwritten [_imageSize] and left
    its half-built level in [_levels], so the detector has no initialized
    level and the last successful [Init] was for 4x4.  Yet [Detect] on an
    8x8 image returns true, and clears [objects]; a 4x4 image it rejects. *)
Lemma Detect_accepts_size_of_failed_Init :
  exists det1 det2,
    Init (prim := probe_tight) 3 tight_det (Size.mk 4 4) (inject_Z 2)
         (Size.mk 0 0) (Size.mk 100 100) View_default 1 = Ok (true, det1) /\
    Init (prim := probe_tight) 3 det1 (Size.mk 8 8) (inject_Z 2)
         (Size.mk 0 0) (Size.mk 100 100) View_default 1 = Ok (false, det2) /\
    _imageSize det2 = Size.mk 8 8 /\
    map (fun level => length (Level.hids level)) (_levels det2) = [0%nat] /\
    usable det2 /\
    (exists det3,
       Detect (prim := probe_tight) det2 (gray_image 8) [cand_a] 3 (2 # 10)%Q
              false [] = Ok (true, [], det3)) /\
    Detect (prim := probe_tight) det2 (gray_image 4) [cand_a] 3 (2 # 10)%Q
           false [] = Ok (false, [cand_a], det2).
Proof.
  eexists _, _. split; [vm_compute; reflexivity |].
  split; [vm_compute; reflexivity |].
  split; [reflexivity |]. split; [reflexivity |].
  split; [split; reflexivity |].
  split; [eexists; vm_compute; reflexivity | vm_compute; reflexivity].
Qed.

(** ** Detectors that are no longer usable *)

Section Unusable.
Context {D : Type} {ops : DoubleOps D} {prim : Primitives}.

(** Once the levels number more than the reserved capacity, they are
    freed. *)
Lemma InitLevels_loop_overflow (scaleFactor : D) (sizeMin sizeMax : Size.t)
    (roi : View) :
  forall (fuel : nat) (det : Detection D) (scale : D) (b : bool) (det' : Detection D),
    InitLevels_loop fuel det scaleFactor sizeMin sizeMax roi scale = Ok (b, det') ->
    _freed det = true \/ (length (_levels det) <= levels_reserved)%nat ->
    (levels_reserved < length (_levels det'))%nat ->
    _freed det' = true.
Proof.
  induction fuel as [| fuel IH]; intros det scale b det' H Hpre Hn; [discriminate |].
  cbn [InitLevels_loop] in H.
  destruct (fold_left _ _ _) as [[inserts exit] insert].
  destruct exit; [injection H as <- <-; destruct Hpre; [assumption | lia] |].
  destruct insert; [| now apply IH in H].
  destruct (InitLevels_bind _ _ _ _ _) as [[bound level] nn].
  assert (Hpush : forall l,
    _freed (Levels_push_back det nn l) = true \/
    (length (_levels (Levels_push_back det nn l)) <= levels_reserved)%nat).
  { intros l. cbn [Levels_push_back _levels _freed]. rewrite length_app.
    cbn [length]. destruct Hpre as [-> | Hle]; [now left |].
    destruct (Nat.leb_spec levels_reserved (length (_levels det))) as [Hge | Hlt].
    - left. apply orb_true_r.
    - right. lia. }
  destruct bound.
  - apply IH in H; [exact H | apply Hpush | exact Hn].
  - injection H as <- <-. destruct (Hpush level) as [Hf | Hle]; [exact Hf | lia].
Qed.

(** An [Init] that builds more levels than [reserve] set aside leaves them
    freed. *)
Lemma Init_beyond_reserve (fuel : nat) (det : Detection D) (imageSize : Size.t)
    (scaleFactor : D) (sizeMin sizeMax : Size.t) (roi : View) (threadNumber : Z)
    (b : bool) (det' : Detection D) :
  Init fuel det imageSize scaleFactor sizeMin sizeMax roi threadNumber = Ok (b, det') ->
  _data det <> [] ->
  (levels_reserved < length (_levels det'))%nat ->
  _freed det' = true.
Proof.
  unfold Init. destruct (_data det) as [| d ds]; [contradiction |].
  unfold InitLevels. intros H _ Hn.
  apply InitLevels_loop_overflow in H; [exact H | | exact Hn].
  right. cbn. lia.
Qed.

(** On freed levels [Detect] has no defined result, unless it rejects the
    image at its head. *)
Lemma Detect_freed (det : Detection D) (src : View) (objects : Objects)
    (groupSizeMin : Z) (sizeDifferenceMax : D) (motionMask : bool)
    (motionRegions : list Rect.t) :
  _freed det = true ->
  ~ Detect_rejects det src ->
  Detect det src objects groupSizeMin sizeDifferenceMax motionMask motionRegions
    = Dangling.
Proof.
  intros Hf Hr. unfold Detect.
  destruct (_levels det) as [| l0 ls] eqn:El;
    [exfalso; apply Hr; now left |].
  rewrite <- El. replace (length (_levels det) =? 0)%nat with false
    by (rewrite El; reflexivity).
  destruct (Size.eqb (View_Size src) (_imageSize det)) eqn:Es;
    [| exfalso; apply Hr; right; intros E; apply Size_eqb_eq in E; congruence].
  cbn [orb negb]. now rewrite Hf.
Qed.
End Unusable.

(** A model loaded after [Init] moves [_data]: the evaluators bound by
    [Init] are left with a dangling [data], and the next [Detect] that
    reaches one has no defined result. *)
Example Detect_after_Load_after_Init :
  Detect (snd (Load sample_det String.EmptyString 8)) (gray_image 4) [] 1
         (2 # 10)%Q false [] = Dangling.
Proof. vm_compute. reflexivity. Qed.

(** ** Strips of [Hid::Detect] *)

Lemma scan_In (hi st x : Z) :
  1 <= st ->
  forall (fuel : nat) (lo : Z),
    hi - lo <= Z.of_nat fuel ->
    (In x (scan fuel lo hi st) <-> lo <= x < hi /\ (x - lo) mod st = 0).
Proof.
  intros Hst. induction fuel as [| f IH]; intros lo Hf.
  - cbn. split; [tauto | lia].
  - cbn [scan]. destruct (Z.ltb_spec lo hi) as [Hlt | Hge].
    2:{ cbn. split; [tauto | lia]. }
    cbn [In]. rewrite (IH (lo + st)) by lia. split.
    + intros [<- | (Hr & Hm)].
      * split; [lia |]. now rewrite Z.sub_diag, Z.mod_0_l by lia.
      * split; [lia |].
        replace (x - lo) with (x - (lo + st) + 1 * st) by lia.
        now rewrite Z.mod_add by lia.
    + intros (Hr & Hm).
      destruct (Z.eq_dec x lo) as [-> | Hne]; [now left | right].
      apply Z.mod_divide in Hm; [| lia]. destruct Hm as (q & Hq).
      assert (1 <= q) by nia.
      split; [nia |].
      replace (x - (lo + st)) with ((q - 1) * st) by lia.
      apply Z.mod_mul. lia.
Qed.

Lemma mem_strided (lo hi st x : Z) :
  1 <= st ->
  mem x (strided lo hi st) = true <-> lo <= x < hi /\ (x - lo) mod st = 0.
Proof.
  intros Hst. unfold mem, strided. rewrite existsb_exists.
  rewrite <- (scan_In hi st x Hst (Z.to_nat (hi - lo)) lo) by lia.
  split.
  - intros (y & Hy & E). apply Z.eqb_eq in E. now subst y.
  - intros H. exists x. split; [exact H | apply Z.eqb_refl].
Qed.

Lemma land_1_mod (a : Z) : Z.land a 1 = a mod 2.
Proof. change 1 with (Z.ones 1). now rewrite Z.land_ones by lia. Qed.

Section StripArithmetic.
Variables top bottom N : Z.
Variable throughColumn : bool.
Hypothesis Htop : 0 <= top <= bottom.
Hypothesis HN : 1 <= N.
Hypothesis Hrange : bottom + N * (bottom - top + 2) < 2 ^ 63.

Lemma step0_bounds : 1 <= (bottom - top) / N + 1 <= bottom - top + 1.
Proof.
  assert (0 <= (bottom - top) / N) by (apply Z.div_pos; lia).
  assert ((bottom - top) / N <= bottom - top)
    by (apply Z.div_le_upper_bound; nia).
  lia.
Qed.

Lemma step_bounds :
  (bottom - top) / N + 1 <= ideal_step top bottom N throughColumn
                         <= bottom - top + 2.
Proof.
  pose proof step0_bounds. unfold ideal_step. cbv zeta.
  destruct throughColumn; [| lia].
  pose proof (Z.mod_pos_bound ((bottom - top) / N + 1) 2 ltac:(lia)). lia.
Qed.

Lemma step_covers : bottom - top < N * ideal_step top bottom N throughColumn.
Proof.
  pose proof step_bounds as Hs.
  assert (bottom - top < N * ((bottom - top) / N + 1)).
  { pose proof (Z.div_mod (bottom - top) N ltac:(lia)).
    pose proof (Z.mod_pos_bound (bottom - top) N ltac:(lia)). nia. }
  nia.
Qed.

Lemma strip_step_eq :
  strip_step top bottom N throughColumn = ideal_step top bottom N throughColumn.
Proof.
  pose proof step0_bounds as H0. pose proof step_bounds as H1.
  assert (Hpow : 2 ^ 63 < 2 ^ 64) by (vm_compute; reflexivity).
  assert (Hb : bottom - top + 2 < 2 ^ 63) by nia.
  unfold strip_step, to_size_t, size_t_modulus.
  rewrite (Z.mod_small (bottom - top)) by lia.
  rewrite (Z.mod_small ((bottom - top) / N + 1)) by lia.
  unfold ideal_step in *. cbv zeta in *. destruct throughColumn; [| reflexivity].
  cbv iota in H1. rewrite land_1_mod.
  pose proof (Z.mod_pos_bound ((bottom - top) / N + 1) 2 ltac:(lia)).
  apply Z.mod_small. lia.
Qed.

Lemma strip_top_eq (i : Z) :
  0 <= i < N ->
  strip_top top (ideal_step top bottom N throughColumn) i =
  top + i * ideal_step top bottom N throughColumn.
Proof.
  intros Hi. pose proof step_bounds as H1. pose proof step0_bounds as H0.
  set (step := ideal_step top bottom N throughColumn) in *.
  assert (Hpow : 2 ^ 63 < 2 ^ 64) by (vm_compute; reflexivity).
  assert (His : 0 <= i * step <= N * (bottom - top + 2)) by nia.
  unfold strip_top, to_ptrdiff_t, to_size_t, size_t_modulus.
  rewrite (Z.mod_small top) by lia.
  rewrite (Z.mod_small (i * step)) by lia.
  rewrite (Z.mod_small (top + i * step)) by lia.
  destruct (Z.ltb_spec (top + i * step) (2 ^ 63)); lia.
Qed.

Lemma strip_bottom_eq (i : Z) :
  0 <= i < N ->
  strip_bottom (strip_top top (ideal_step top bottom N throughColumn) i)
               (ideal_step top bottom N throughColumn) bottom =
  Z.min (top + (i + 1) * ideal_step top bottom N throughColumn) bottom.
Proof.
  intros Hi. rewrite strip_top_eq by exact Hi.
  pose proof step_bounds as H1. pose proof step0_bounds as H0.
  set (step := ideal_step top bottom N throughColumn) in *.
  assert (Hpow : 2 ^ 63 < 2 ^ 64) by (vm_compute; reflexivity).
  assert (His : 0 <= (i + 1) * step <= N * (bottom - top + 2)) by nia.
  unfold strip_bottom, to_ptrdiff_t, to_size_t, size_t_modulus.
  rewrite (Z.mod_small (top + i * step)) by nia.
  replace (top + i * step + step) with (top + (i + 1) * step) by lia.
  rewrite (Z.mod_small (top + (i + 1) * step)) by lia.
  destruct (Z.ltb_spec (top + (i + 1) * step) (2 ^ 63)); lia.
Qed.

(** The strips cover the rows of the sub-rectangle and nothing else. *)
Lemma strips_cover (row : Z) :
  top <= row < bottom <->
  exists i, 0 <= i < N /\
            in_strip top bottom (ideal_step top bottom N throughColumn) i row.
Proof.
  pose proof step_bounds as H1. pose proof step0_bounds as H0.
  pose proof step_covers as Hc.
  pose proof strip_top_eq as Ht. pose proof strip_bottom_eq as Hb.
  set (step := ideal_step top bottom N throughColumn) in *.
  unfold in_strip. split.
  - intros Hrow. exists ((row - top) / step).
    assert (Hq : 0 <= (row - top) / step) by (apply Z.div_pos; lia).
    pose proof (Z.div_mod (row - top) step ltac:(lia)) as Hdm.
    pose proof (Z.mod_pos_bound (row - top) step ltac:(lia)) as Hm.
    assert (Hi : (row - top) / step < N).
    { apply Z.div_lt_upper_bound; lia. }
    split; [lia |].
    rewrite Hb, Ht by lia. nia.
  - intros (i & Hi & Hs).
    rewrite Hb, Ht in Hs by lia. nia.
Qed.

(** Two different strips share no row. *)
Lemma strips_disjoint (i j row : Z) :
  0 <= i < N -> 0 <= j < N ->
  in_strip top bottom (ideal_step top bottom N throughColumn) i row ->
  in_strip top bottom (ideal_step top bottom N throughColumn) j row ->
  i = j.
Proof.
  pose proof step_bounds as H1. pose proof step0_bounds as H0.
  pose proof strip_top_eq as Ht. pose proof strip_bottom_eq as Hb.
  set (step := ideal_step top bottom N throughColumn) in *.
  unfold in_strip. intros Hi Hj Hsi Hsj.
  rewrite Hb, Ht in Hsi, Hsj by lia.
  assert (top + i * step <= row < top + (i + 1) * step) by lia.
  assert (top + j * step <= row < top + (j + 1) * step) by lia.
  nia.
Qed.
End StripArithmetic.

(** ** The native routine, cell by cell *)

Lemma kernel_cell_pixel (v : Z -> Z -> bool) (m : View) (row col : Z) (d : View)
    (r c : Z) :
  pixel (kernel_cell v m row col d) r c =
  if (r =? row) && (c =? col) && hitb v m row col then 1 else pixel d r c.
Proof.
  unfold kernel_cell. fold (hitb v m row col).
  destruct (hitb v m row col); cbn [set_pixel pixel].
  - now rewrite andb_true_r.
  - now rewrite andb_false_r.
Qed.

Lemma kernel_row_pixel (v : Z -> Z -> bool) (m : View) (row r c : Z) :
  forall (cs : list Z) (d : View),
    pixel (fold_left (fun d col => kernel_cell v m row col d) cs d) r c =
    if (r =? row) && mem c cs && hitb v m r c then 1 else pixel d r c.
Proof.
  induction cs as [| col cs IH]; intros d.
  - cbn. now rewrite andb_false_r.
  - cbn [fold_left]. rewrite IH, kernel_cell_pixel.
    unfold mem. cbn [existsb]. fold (mem c cs).
    destruct (Z.eqb_spec r row) as [-> | Hr]; [| reflexivity].
    destruct (Z.eqb_spec c col) as [-> | Hc]; cbn [andb orb].
    + destruct (mem col cs), (hitb v m row col); reflexivity.
    + reflexivity.
Qed.

Lemma kernel_pixel (v : Z -> Z -> bool) (m : View) (st l t r b : Z) (row col : Z) :
  forall d : View,
    pixel (kernel v m st l t r b d) row col =
    if mem row (strided t b st) && mem col (strided l r st) && hitb v m row col
    then 1 else pixel d row col.
Proof.
  unfold kernel. generalize (strided t b st) as rows.
  induction rows as [| x rows IH]; intros d; [reflexivity |].
  cbn [fold_left]. rewrite IH. unfold kernel_row. rewrite kernel_row_pixel.
  change (mem row (x :: rows)) with ((row =? x) || mem row rows).
  destruct (Z.eqb_spec row x) as [-> | Hne]; cbn [andb orb]; [| reflexivity].
  destruct (mem x rows), (mem col (strided l r st)), (hitb v m x col); reflexivity.
Qed.

Lemma kernel_dims (v : Z -> Z -> bool) (m : View) (st l t r b : Z) (d : View) :
  format (kernel v m st l t r b d) = format d /\
  width (kernel v m st l t r b d) = width d /\
  height (kernel v m st l t r b d) = height d.
Proof.
  unfold kernel. generalize (strided t b st) as rows. revert d.
  assert (Hrow : forall row cs d,
            let d' := fold_left (fun d col => kernel_cell v m row col d) cs d in
            format d' = format d /\ width d' = width d /\ height d' = height d).
  { intros row cs. induction cs as [| c cs IH]; intros d; [now cbn |].
    cbn [fold_left]. cbv zeta in *. destruct (IH (kernel_cell v m row c d)) as (H1 & H2 & H3).
    rewrite H1, H2, H3. unfold kernel_cell. destruct (_ && _); now cbn. }
  intros d rows. revert d. induction rows as [| x rows IH]; intros d; [now cbn |].
  cbn [fold_left]. destruct (IH (kernel_row v m st l r d x)) as (H1 & H2 & H3).
  rewrite H1, H2, H3. apply Hrow.
Qed.

Lemma even_step (a : Z) : (a + a mod 2) mod 2 = 0.
Proof.
  pose proof (Z.div_mod a 2 ltac:(lia)) as Hd.
  pose proof (Z.mod_pos_bound a 2 ltac:(lia)) as Hm.
  replace (a + a mod 2) with ((a / 2 + a mod 2) * 2) by lia.
  apply Z.mod_mul. lia.
Qed.

Lemma AddObjects_ext {D : Type} {ops : DoubleOps D} (objects : Objects)
    (a b : View) (rect : Rect.t) (size : Size.t) (scale : D) (step : Z) (tag : Tag) :
  same_view a b ->
  AddObjects objects a rect size scale step tag =
  AddObjects objects b rect size scale step tag.
Proof.
  intros (_ & Hw & Hh & Hp). unfold AddObjects, View_Size. rewrite Hw, Hh.
  generalize (strided
    (Rect.top (Rect.Intersection (Rect.Shifted rect (Size.quot2 (Size.neg size)))
       (Rect.of_size (Size.sub (Size.mk (width b) (height b)) size))))
    (Rect.bottom (Rect.Intersection (Rect.Shifted rect (Size.quot2 (Size.neg size)))
       (Rect.of_size (Size.sub (Size.mk (width b) (height b)) size)))) step) as rows.
  generalize (strided
    (Rect.left (Rect.Intersection (Rect.Shifted rect (Size.quot2 (Size.neg size)))
       (Rect.of_size (Size.sub (Size.mk (width b) (height b)) size))))
    (Rect.right (Rect.Intersection (Rect.Shifted rect (Size.quot2 (Size.neg size)))
       (Rect.of_size (Size.sub (Size.mk (width b) (height b)) size)))) step) as cols.
  intros cols rows. revert objects.
  induction rows as [| row rows IH]; intros objects; [reflexivity |].
  cbn [fold_left]. rewrite IH. f_equal.
  clear IH. revert objects. induction cols as [| col cols IH]; intros objects;
    [reflexivity |].
  cbn [fold_left]. rewrite IH. f_equal.
  unfold AddObjects_cell. now rewrite Hp.
Qed.

(** ** Worker-pool parity *)

Section Parity.
Context {prim : Primitives}.
Variable bufs : Buffers.
Variable h : Hid.t.
Variable m : View.
Variable r : Rect.t.
Variable step : Z.

Lemma empty_worker (w : Worker) : _tasks w = [] -> w = mkWorker [].
Proof. destruct w as [q]. cbn. now intros ->. Qed.

Lemma Hid_Detect_add_loop (workers : list Worker) :
  Forall (fun w => _tasks w = []) workers ->
  exists ws,
    for_ (length workers) 0 (Hid_Detect_add h m r step) workers = Ok ws /\
    length ws = length workers /\
    forall k, (k < length workers)%nat ->
              ws !! k = Some (mkWorker [strip_task h m r step (Z.of_nat k)]).
Proof.
  intros Hempty.
  destruct (for_inv
    (fun i ws =>
       length ws = length workers /\
       forall k, (k < length workers)%nat ->
         ws !! k = Some (if (Z.of_nat k <? i)
                         then mkWorker [strip_task h m r step (Z.of_nat k)]
                         else mkWorker []))
    (Hid_Detect_add h m r step) (length workers) 0 workers) as (ws & Hf & Hl & Hk).
  - split; [reflexivity |]. intros k Hk.
    destruct (lookup_lt_is_Some_2 workers k Hk) as (w & Hw).
    rewrite Hw. destruct (Z.ltb_spec (Z.of_nat k) 0); [lia |].
    f_equal. apply empty_worker. exact (Forall_lookup_1 _ _ _ _ Hempty Hw).
  - intros i ws Hi (Hl & Hk). unfold Hid_Detect_add.
    pose proof (Hk (Z.to_nat i) ltac:(lia)) as Hi0.
    rewrite Z2Nat.id in Hi0 by lia. rewrite Z.ltb_irrefl in Hi0.
    rewrite (at_Ok ws i _ ltac:(lia) Hi0), rbind_Ok, put_Ok by lia.
    eexists; split; [reflexivity |]. split; [now rewrite length_insert |].
    intros k Hkl. destruct (Nat.eq_dec k (Z.to_nat i)) as [-> | Hne].
    + rewrite list_lookup_insert_eq by lia. rewrite Z2Nat.id by lia.
      destruct (Z.ltb_spec i (i + 1)); [| lia]. reflexivity.
    + rewrite list_lookup_insert_ne by lia. rewrite (Hk k Hkl).
      destruct (Z.ltb_spec (Z.of_nat k) i), (Z.ltb_spec (Z.of_nat k) (i + 1));
        try reflexivity; lia.
  - exists ws. split; [exact Hf |]. split; [exact Hl |].
    intros k Hkl. rewrite (Hk k Hkl).
    destruct (Z.ltb_spec (Z.of_nat k) (0 + Z.of_nat (length workers))); [reflexivity | lia].
Qed.

Lemma Hid_Detect_wait_loop (ws : list Worker) (d : View) :
  (forall k, (k < length ws)%nat ->
             ws !! k = Some (mkWorker [strip_task h m r step (Z.of_nat k)])) ->
  exists ws',
    for_ (length ws) 0 (Hid_Detect_wait bufs) (d, ws) =
      Ok (run_strips bufs h m r step (length ws) d, ws') /\
    length ws' = length ws /\
    Forall (fun w => _tasks w = []) ws'.
Proof.
  intros Hws.
  destruct (for_inv
    (fun i (st : View * list Worker) =>
       fst st = run_strips bufs h m r step (Z.to_nat i) d /\
       length (snd st) = length ws /\
       forall k, (k < length ws)%nat ->
         snd st !! k = Some (if (Z.of_nat k <? i) then mkWorker []
                             else mkWorker [strip_task h m r step (Z.of_nat k)]))
    (Hid_Detect_wait bufs) (length ws) 0 (d, ws)) as ([d' ws'] & Hf & Hd & Hl & Hk).
  - cbn [fst snd]. split; [reflexivity |]. split; [reflexivity |].
    intros k Hk. rewrite (Hws k Hk).
    destruct (Z.ltb_spec (Z.of_nat k) 0); [lia | reflexivity].
  - intros i [d0 ws0] Hi (Hd & Hl & Hk). cbn [fst snd] in *.
    unfold Hid_Detect_wait.
    pose proof (Hk (Z.to_nat i) ltac:(lia)) as Hi0.
    rewrite Z2Nat.id in Hi0 by lia. rewrite Z.ltb_irrefl in Hi0.
    rewrite (at_Ok ws0 i _ ltac:(lia) Hi0), rbind_Ok.
    unfold Worker_Wait. cbn [_tasks fold_left].
    rewrite put_Ok by lia. rewrite rbind_Ok.
    eexists; split; [reflexivity |]. cbn [fst snd].
    split; [| split; [now rewrite length_insert |]].
    + replace (Z.to_nat (i + 1)) with (S (Z.to_nat i)) by lia.
      cbn [run_strips]. rewrite Z2Nat.id by lia. now rewrite Hd.
    + intros k Hkl. destruct (Nat.eq_dec k (Z.to_nat i)) as [-> | Hne].
      * rewrite list_lookup_insert_eq by lia. rewrite Z2Nat.id by lia.
        destruct (Z.ltb_spec i (i + 1)); [reflexivity | lia].
      * rewrite list_lookup_insert_ne by lia. rewrite (Hk k Hkl).
        destruct (Z.ltb_spec (Z.of_nat k) i), (Z.ltb_spec (Z.of_nat k) (i + 1));
          try reflexivity; lia.
  - cbn [fst snd] in *. exists ws'. split; [| split; [exact Hl |]].
    + rewrite Hf, Hd.
      now replace (Z.to_nat (0 + Z.of_nat (length ws))) with (length ws) by lia.
    + apply Forall_lookup. intros k w Hw.
      pose proof (lookup_lt_Some _ _ _ Hw) as Hlt.
      rewrite (Hk k ltac:(lia)) in Hw.
      destruct (Z.ltb_spec (Z.of_nat k) (0 + Z.of_nat (length ws))); [| lia].
      now injection Hw as <-.
Qed.

Lemma run_strips_pixel (n : nat) (d : View) (row col : Z) :
  let '(s, q, t) := bufs in
  let v := classify (Hid.detect h) (Hid.handle h) s q t in
  let st := detect_stride (Hid.detect h) in
  pixel (run_strips bufs h m r step n d) row col =
  if rows_upto (Rect.top r) (Rect.bottom r) step st n row &&
     mem col (strided (Rect.left r) (Rect.right r) st) && hitb v m row col
  then 1 else pixel d row col.
Proof.
  destruct bufs as [[s q] t] eqn:Eb. cbv zeta.
  induction n as [| n IH]; [reflexivity |].
  cbn [run_strips rows_upto]. unfold Task_Run, run_detect, strip_task.
  cbn [task_r task_h task_m Rect.left Rect.top Rect.right Rect.bottom].
  rewrite kernel_pixel, IH.
  destruct (rows_upto _ _ _ _ n row), (mem row _), (mem col _), (hitb _ _ _ _);
    reflexivity.
Qed.

Lemma run_strips_dims (n : nat) (d : View) :
  format (run_strips bufs h m r step n d) = format d /\
  width (run_strips bufs h m r step n d) = width d /\
  height (run_strips bufs h m r step n d) = height d.
Proof.
  induction n as [| n (H1 & H2 & H3)]; [now cbn |].
  cbn [run_strips]. unfold Task_Run, run_detect. destruct bufs as [[s q] t].
  rewrite <- H1, <- H2, <- H3. apply kernel_dims.
Qed.
End Parity.

Lemma rows_upto_true (top bottom step st : Z) (n : nat) (row : Z) :
  rows_upto top bottom step st n row = true <->
  exists k, (k < n)%nat /\
    mem row (strided (strip_top top step (Z.of_nat k))
                     (strip_bottom (strip_top top step (Z.of_nat k)) step bottom)
                     st) = true.
Proof.
  induction n as [| n IH]; cbn [rows_upto].
  - split; [discriminate | intros (k & Hk & _); lia].
  - rewrite orb_true_iff, IH. split.
    + intros [(k & Hk & Hm) | Hm]; [exists k | exists n]; split; auto; lia.
    + intros (k & Hk & Hm). destruct (Nat.eq_dec k n) as [-> | Hne]; [now right |].
      left. exists k. split; [lia | exact Hm].
Qed.

Lemma rows_upto_all (top bottom N : Z) (throughColumn : bool) (st row : Z) :
  0 <= top <= bottom -> 1 <= N ->
  bottom + N * (bottom - top + 2) < 2 ^ 63 ->
  1 <= st -> (st | ideal_step top bottom N throughColumn) ->
  rows_upto top bottom (ideal_step top bottom N throughColumn) st (Z.to_nat N) row =
  mem row (strided top bottom st).
Proof.
  intros Htop HN Hrange Hst Hdiv.
  apply eq_true_iff_eq. rewrite rows_upto_true, mem_strided by exact Hst.
  split.
  - intros (k & Hk & Hm). apply mem_strided in Hm; [| exact Hst].
    destruct Hm as (Hr & Hmod).
    assert (Hki : 0 <= Z.of_nat k < N) by lia.
    split.
    + apply (strips_cover top bottom N throughColumn Htop HN Hrange).
      exists (Z.of_nat k). split; [exact Hki | exact Hr].
    + rewrite (strip_top_eq top bottom N throughColumn Htop HN Hrange _ Hki) in Hmod.
      apply Z.mod_divide in Hmod; [| lia]. apply Z.mod_divide; [lia |].
      replace (row - top)
        with (row - (top + Z.of_nat k * ideal_step top bottom N throughColumn)
              + Z.of_nat k * ideal_step top bottom N throughColumn) by lia.
      apply Z.divide_add_r; [exact Hmod | now apply Z.divide_mul_r].
  - intros (Hr & Hmod).
    apply (strips_cover top bottom N throughColumn Htop HN Hrange) in Hr.
    destruct Hr as (i & Hi & Hs).
    exists (Z.to_nat i). split; [lia |]. rewrite Z2Nat.id by lia.
    apply mem_strided; [exact Hst |]. split; [exact Hs |].
    rewrite (strip_top_eq top bottom N throughColumn Htop HN Hrange _ Hi).
    apply Z.mod_divide in Hmod; [| lia]. apply Z.mod_divide; [lia |].
    replace (row - (top + i * ideal_step top bottom N throughColumn))
      with (row - top - i * ideal_step top bottom N throughColumn) by lia.
    apply Z.divide_sub_r; [exact Hmod | now apply Z.divide_mul_r].
Qed.

Lemma valid_rect_ordered (dst : View) (rect : Rect.t) (size : Size.t) :
  0 <= Rect.top (valid_rect dst rect size) <= Rect.bottom (valid_rect dst rect size).
Proof. unfold valid_rect, Rect.Intersection, Rect.of_size. cbn. lia. Qed.

Section ParityTheorem.
Context {D : Type} {ops : DoubleOps D} {prim : Primitives}.

(** C1. With a pool of [N >= 1] idle workers, the strips of [Hid::Detect]
    use the step [(bottom - top) / N + 1], made even under [throughColumn];
    they are pairwise disjoint and cover exactly the rows [top, bottom) of
    the valid sub-rectangle; and the bitmap left by the parallel path has
    the pixels of the one left by the synchronous path (empty pool), so
    [AddObjects] reads the same candidates from both. *)
Theorem Hid_Detect_parallel_equals_synchronous
    (bufs : Buffers) (h : Hid.t) (size : Size.t) (mask : View) (rect : Rect.t)
    (dst : View) (workers : list Worker) (throughColumn : bool)
    (objects : Objects) (scale : D) (tag : Tag) :
  let r := valid_rect dst rect size in
  let N := Z.of_nat (length workers) in
  let step := strip_step (Rect.top r) (Rect.bottom r) N throughColumn in
  workers <> [] ->
  Forall (fun w => _tasks w = []) workers ->
  (detect_stride (Hid.detect h) = 2 -> throughColumn = true) ->
  Rect.bottom r + N * (Rect.bottom r - Rect.top r + 2) < 2 ^ 63 ->
  step = ideal_step (Rect.top r) (Rect.bottom r) N throughColumn /\
  (forall row, Rect.top r <= row < Rect.bottom r <->
               exists i, 0 <= i < N /\
                         in_strip (Rect.top r) (Rect.bottom r) step i row) /\
  (forall i j row, 0 <= i < N -> 0 <= j < N ->
                   in_strip (Rect.top r) (Rect.bottom r) step i row ->
                   in_strip (Rect.top r) (Rect.bottom r) step j row -> i = j) /\
  exists dst_par workers' dst_sync,
    Hid_Detect bufs h size mask rect dst workers throughColumn = Ok (dst_par, workers') /\
    Hid_Detect bufs h size mask rect dst [] throughColumn = Ok (dst_sync, []) /\
    same_view dst_par dst_sync /\
    length workers' = length workers /\
    Forall (fun w => _tasks w = []) workers' /\
    AddObjects objects dst_par rect size scale (if throughColumn then 2 else 1) tag =
    AddObjects objects dst_sync rect size scale (if throughColumn then 2 else 1) tag.
Proof.
  cbv zeta. intros Hne Hidle Hstride.
  set (r := valid_rect dst rect size). set (N := Z.of_nat (length workers)).
  set (step := strip_step (Rect.top r) (Rect.bottom r) N throughColumn).
  intros Hrange.
  pose proof (valid_rect_ordered dst rect size) as Htop. fold r in Htop.
  assert (HN : 1 <= N) by (subst N; destruct workers; [contradiction | cbn; lia]).
  pose proof (strip_step_eq (Rect.top r) (Rect.bottom r) N throughColumn Htop HN Hrange)
    as Hstep. fold step in Hstep.
  split; [exact Hstep |]. split; [| split].
  - intros row. rewrite Hstep. apply strips_cover; assumption.
  - intros i j row. rewrite Hstep. apply strips_disjoint; assumption.
  - set (m := Region_MiddleCenter mask (Size.sub (View_Size dst) size)).
    assert (Hpar :
      Hid_Detect bufs h size mask rect dst workers throughColumn =
      (for_ (length workers) 0 (Hid_Detect_add h m r step) workers ≫=
       fun ws => for_ (length workers) 0 (Hid_Detect_wait bufs) (Fill dst 0, ws))).
    { unfold Hid_Detect. subst step N. destruct workers; [contradiction | reflexivity]. }
    rewrite Hpar.
    change (Hid_Detect bufs h size mask rect dst [] throughColumn)
      with (Ok (A := View * list Worker)
               (run_detect bufs h m (Rect.left r) (Rect.top r) (Rect.right r)
                           (Rect.bottom r) (Fill dst 0), [])).
    destruct (Hid_Detect_add_loop h m r step workers Hidle) as (ws1 & Hadd & Hl1 & Hk1).
    rewrite Hadd, rbind_Ok. rewrite <- Hl1.
    destruct (Hid_Detect_wait_loop bufs h m r step ws1 (Fill dst 0))
      as (ws2 & Hwait & Hl2 & Hidle2).
    { intros k Hk. apply Hk1. lia. }
    rewrite Hwait. eexists _, ws2, _.
    split; [reflexivity |]. split; [reflexivity |].
    assert (Hsame : same_view
              (run_strips bufs h m r step (length ws1) (Fill dst 0))
              (run_detect bufs h m (Rect.left r) (Rect.top r) (Rect.right r)
                          (Rect.bottom r) (Fill dst 0))).
    { destruct (run_strips_dims bufs h m r step (length ws1) (Fill dst 0))
        as (F1 & W1 & H1).
      pose proof (run_strips_pixel bufs h m r step (length ws1) (Fill dst 0)) as Hpix.
      unfold run_detect. destruct bufs as [[s q] t]. cbv zeta in Hpix.
      destruct (kernel_dims (classify (Hid.detect h) (Hid.handle h) s q t) m
                  (detect_stride (Hid.detect h)) (Rect.left r) (Rect.top r)
                  (Rect.right r) (Rect.bottom r) (Fill dst 0)) as (F2 & W2 & H2).
      split; [congruence |]. split; [congruence |]. split; [congruence |].
      intros row col. rewrite Hpix, kernel_pixel.
      replace (length ws1) with (Z.to_nat N) by (unfold N; lia).
      rewrite Hstep, rows_upto_all; auto.
      + destruct (Hid.detect h); cbn; lia.
      + destruct (Z.eq_dec (detect_stride (Hid.detect h)) 2) as [E | E].
        * rewrite E, (Hstride E). unfold ideal_step. cbv zeta.
          apply Z.mod_divide; [lia | apply even_step].
        * replace (detect_stride (Hid.detect h)) with 1
            by (destruct (Hid.detect h); cbn in *; congruence).
          apply Z.divide_1_l. }
    split; [exact Hsame |]. split; [lia |]. split; [exact Hidle2 |].
    now apply AddObjects_ext.
Qed.
End ParityTheorem.

Lemma Hid_Detect_parallel_equals_synchronous_witness :
  let r := valid_rect (gray_image 8) (R4 0 0 8 8) (Size.mk 2 2) in
  let N := Z.of_nat (length two_workers) in
  let step := strip_step (Rect.top r) (Rect.bottom r) N true in
  step = ideal_step (Rect.top r) (Rect.bottom r) N true /\
  (forall row, Rect.top r <= row < Rect.bottom r <->
               exists i, 0 <= i < N /\
                         in_strip (Rect.top r) (Rect.bottom r) step i row) /\
  (forall i j row, 0 <= i < N -> 0 <= j < N ->
                   in_strip (Rect.top r) (Rect.bottom r) step i row ->
                   in_strip (Rect.top r) (Rect.bottom r) step j row -> i = j) /\
  exists dst_par workers' dst_sync,
    Hid_Detect sample_buffers sample_hid (Size.mk 2 2) (gray_image 8) (R4 0 0 8 8)
               (gray_image 8) two_workers true = Ok (dst_par, workers') /\
    Hid_Detect sample_buffers sample_hid (Size.mk 2 2) (gray_image 8) (R4 0 0 8 8)
               (gray_image 8) [] true = Ok (dst_sync, []) /\
    same_view dst_par dst_sync /\
    length workers' = length two_workers /\
    Forall (fun w => _tasks w = []) workers' /\
    AddObjects [] dst_par (R4 0 0 8 8) (Size.mk 2 2) (inject_Z 1) 2 7 =
    AddObjects [] dst_sync (R4 0 0 8 8) (Size.mk 2 2) (inject_Z 1) 2 7.
Proof.
  apply (Hid_Detect_parallel_equals_synchronous
           sample_buffers sample_hid (Size.mk 2 2) (gray_image 8) (R4 0 0 8 8)
           (gray_image 8) two_workers true [] (inject_Z 1) 7).
  - discriminate.
  - repeat constructor.
  - reflexivity.
  - vm_compute. reflexivity.
Defined.

(** ** The scale iteration ([InitLevels]) *)

Section ScaleLoop.
Context {D : Type} {ops : DoubleOps D} {prim : Primitives}.
Variable scaleFactor : D.
Variable sizeMin sizeMax : Size.t.
Variable roi : View.
Variable datas : list Data.t.
Variable imageSize : Size.t.

Lemma InitLevels_probe_fold (scale : D) :
  forall (ds : list Data.t) (inserts : list bool) (exit insert : bool),
    fold_left (InitLevels_probe imageSize sizeMin sizeMax scale) ds
              (inserts, exit, insert) =
    (inserts ++ map (model_qualifies imageSize sizeMin sizeMax scale) ds,
     exit && forallb (fun d => negb (model_fits imageSize sizeMax scale d)) ds,
     insert || existsb (model_qualifies imageSize sizeMin sizeMax scale) ds).
Proof.
  induction ds as [| d ds IH]; intros inserts exit insert.
  - cbn. now rewrite app_nil_r, andb_true_r, orb_false_r.
  - cbn [fold_left map forallb existsb]. unfold InitLevels_probe at 2.
    unfold model_qualifies, model_fits.
    destruct (window_fits imageSize sizeMax (Size.scale (Data.size d) scale));
      [destruct (window_large_enough sizeMin (Size.scale (Data.size d) scale)) |];
      rewrite IH, <- app_assoc; cbn [negb andb orb app];
      rewrite ?andb_false_r, ?orb_true_r, ?andb_true_r, ?orb_false_r;
      reflexivity.
Qed.

Hypothesis Hbind :
  Forall (fun d => forall s q t tc i16,
                     SimdDetectionInit (Data.handle d) s q t tc i16 <> 0) datas.

Lemma InitLevels_bind_spec (scale : D) :
  forall (ds : list Data.t) (i : nat) (level : Level.t D) (needNormalization : bool),
    Forall (fun d => forall s q t tc i16,
                       SimdDetectionInit (Data.handle d) s q t tc i16 <> 0) ds ->
    exists level' needNormalization',
      InitLevels_bind ds (map (model_qualifies imageSize sizeMin sizeMax scale) ds)
                      i level needNormalization =
        (true, level', needNormalization') /\
      Level.scale level' = Level.scale level /\
      map Hid.data (Level.hids level') =
        map Hid.data (Level.hids level) ++
        qualifying_from imageSize sizeMin sizeMax scale i ds.
Proof.
  induction ds as [| d ds IH]; intros i level nn Hb.
  - exists level, nn. cbn. now rewrite app_nil_r.
  - apply Forall_cons in Hb as [Hd Hds].
    cbn [map InitLevels_bind qualifying_from].
    destruct (model_qualifies imageSize sizeMin sizeMax scale d); cbn [negb]; [| now apply IH].
    destruct (Z.eqb_spec (SimdDetectionInit (Data.handle d) (Level.sum level)
                (Level.sqsum level) (Level.tilted level) (Level.throughColumn level)
                (Data.Int16 d)) 0) as [E | _]; [now apply Hd in E |].
    match goal with
    | |- context [InitLevels_bind ds _ (S i) ?l ?n] =>
        destruct (IH (S i) l n Hds) as (level' & nn' & HB & Hs & Hh)
    end.
    exists level', nn'. split; [exact HB |]. split; [exact Hs |].
    rewrite Hh. cbn [Level.set_need Level.set_hids Level.hids].
    rewrite map_app, <- app_assoc. reflexivity.
Qed.

Variable K : nat.
Hypothesis HK : all_exceed imageSize sizeMax datas (scale_at scaleFactor K) = true.
Hypothesis Hbefore :
  forall k, (k < K)%nat ->
            all_exceed imageSize sizeMax datas (scale_at scaleFactor k) = false.

Lemma InitLevels_loop_spec :
  forall (n k0 : nat) (det : Detection D),
    K = (k0 + n)%nat -> _data det = datas -> _imageSize det = imageSize ->
    (forall fuel, (fuel <= n)%nat ->
       InitLevels_loop fuel det scaleFactor sizeMin sizeMax roi
                       (scale_at scaleFactor k0) = OutOfFuel) /\
    (forall fuel, (n < fuel)%nat ->
       exists det',
         InitLevels_loop fuel det scaleFactor sizeMin sizeMax roi
                         (scale_at scaleFactor k0) =
           Ok (negb (length (_levels det') =? 0)%nat, det') /\
         _data det' = datas /\ _imageSize det' = imageSize /\
         exists new,
           _levels det' = _levels det ++ new /\
           Forall2 (level_of_step imageSize sizeMin sizeMax datas scaleFactor) new
                   (emitting_steps imageSize sizeMin sizeMax datas scaleFactor k0 n)).
Proof.
  induction n as [| n IH]; intros k0 det HKn Hd Hi.
  - assert (k0 = K) by lia. subst k0. split.
    + intros fuel Hf. now replace fuel with O by lia.
    + intros [| fuel] Hf; [lia |]. cbn [InitLevels_loop].
      rewrite Hd, Hi, InitLevels_probe_fold. cbn [andb].
      unfold all_exceed in HK. rewrite HK.
      exists det. split; [reflexivity |]. split; [exact Hd |]. split; [exact Hi |].
      exists []. split; [now rewrite app_nil_r | constructor].
  - assert (Hex : all_exceed imageSize sizeMax datas (scale_at scaleFactor k0) = false)
      by (apply Hbefore; lia).
    unfold all_exceed in Hex.
    assert (Hstep : forall fuel,
      InitLevels_loop (S fuel) det scaleFactor sizeMin sizeMax roi
                      (scale_at scaleFactor k0) =
      if any_qualifies imageSize sizeMin sizeMax datas (scale_at scaleFactor k0)
      then
        let '(bound, level, needNormalization) :=
          InitLevels_bind datas
            (map (model_qualifies imageSize sizeMin sizeMax (scale_at scaleFactor k0))
                 datas) 0
            (InitLevels_alloc imageSize (scale_at scaleFactor k0))
            (_needNormalization det) in
        if bound then
          InitLevels_loop fuel
            (Levels_push_back det needNormalization (InitLevels_roi roi level))
            scaleFactor sizeMin sizeMax roi (scale_at scaleFactor (S k0))
        else Ok (false, Levels_push_back det needNormalization level)
      else InitLevels_loop fuel det scaleFactor sizeMin sizeMax roi
                           (scale_at scaleFactor (S k0))).
    { intros fuel. cbn [InitLevels_loop].
      rewrite Hd, Hi, InitLevels_probe_fold. cbn [andb orb app].
      rewrite Hex. reflexivity. }
    destruct (InitLevels_bind_spec (scale_at scaleFactor k0) datas 0
                (InitLevels_alloc imageSize (scale_at scaleFactor k0))
                (_needNormalization det) Hbind)
      as (level & nn & HB & Hscale & Hhids).
    unfold emitting_steps. cbn [seq List.filter].
    fold (emitting_steps imageSize sizeMin sizeMax datas scaleFactor (S k0) n).
    destruct (any_qualifies imageSize sizeMin sizeMax datas (scale_at scaleFactor k0)) eqn:Eq.
    + destruct (IH (S k0)
                   (Levels_push_back det nn (InitLevels_roi roi level))
                   ltac:(lia) Hd Hi) as (IH1 & IH2).
      split.
      * intros [| fuel] Hf; [reflexivity |]. rewrite Hstep, HB. apply IH1. lia.
      * intros [| fuel] Hf; [lia |]. rewrite Hstep, HB.
        destruct (IH2 fuel ltac:(lia)) as (det' & HL & Hd' & Hi' & new & Hnew & HF).
        exists det'. split; [exact HL |]. split; [exact Hd' |]. split; [exact Hi' |].
        exists (InitLevels_roi roi level :: new). split.
        -- rewrite Hnew. cbn [Levels_push_back Levels_clear _levels]. now rewrite <- app_assoc.
        -- constructor; [| exact HF]. split.
           ++ unfold InitLevels_roi. destruct (Format_eqb _ _); cbn; exact Hscale.
           ++ rewrite InitLevels_roi_hids, Hhids. reflexivity.
    + destruct (IH (S k0) det ltac:(lia) Hd Hi) as (IH1 & IH2).
      split.
      * intros [| fuel] Hf; [reflexivity |]. rewrite Hstep. apply IH1. lia.
      * intros [| fuel] Hf; [lia |]. rewrite Hstep. apply IH2. lia.
Qed.
End ScaleLoop.

Section ScaleOrder.
Context {D : Type} {ops : DoubleOps D}.
Variable Dlt : D -> D -> Prop.
Variable scaleFactor : D.
Hypothesis Dlt_trans : forall x y z, Dlt x y -> Dlt y z -> Dlt x z.
Hypothesis Hgrow :
  forall x, x = D_of_Z 1 \/ Dlt (D_of_Z 1) x -> Dlt x (Dmul x scaleFactor).

Lemma scale_at_ge_1 (k : nat) :
  scale_at scaleFactor k = D_of_Z 1 \/ Dlt (D_of_Z 1) (scale_at scaleFactor k).
Proof.
  induction k as [| k IH]; [now left | right].
  change (scale_at scaleFactor (S k))
    with (Dmul (scale_at scaleFactor k) scaleFactor).
  pose proof (Hgrow _ IH) as Hg.
  destruct IH as [E | Hlt]; [now rewrite E in Hg |- * | eauto].
Qed.

Lemma scale_at_lt (i j : nat) :
  (i < j)%nat -> Dlt (scale_at scaleFactor i) (scale_at scaleFactor j).
Proof.
  induction j as [| j IH]; intros Hij; [lia |].
  change (scale_at scaleFactor (S j))
    with (Dmul (scale_at scaleFactor j) scaleFactor).
  pose proof (Hgrow _ (scale_at_ge_1 j)) as Hg.
  destruct (Nat.eq_dec i j) as [-> | Hne]; [exact Hg |].
  apply (Dlt_trans _ (scale_at scaleFactor j)); [apply IH; lia | exact Hg].
Qed.

Lemma scale_at_sorted (ks : list nat) :
  StronglySorted lt ks -> StronglySorted Dlt (map (scale_at scaleFactor) ks).
Proof.
  induction 1 as [| a l Hs IH Ha]; cbn; constructor; [exact IH |].
  apply Forall_map. eapply Forall_impl; [exact Ha |].
  intros b Hb. now apply scale_at_lt.
Qed.
End ScaleOrder.

Lemma filter_seq_sorted (p : nat -> bool) :
  forall (n a : nat), StronglySorted lt (List.filter p (seq a n)).
Proof.
  induction n as [| n IH]; intros a; cbn [seq List.filter]; [constructor |].
  destruct (p a); [| apply IH]. constructor; [apply IH |].
  apply List.Forall_forall. intros x Hx.
  apply filter_In in Hx as [Hx _]. apply in_seq in Hx. lia.
Qed.

Section InitTheorem.
Context {D : Type} {ops : DoubleOps D} {prim : Primitives}.

(** C9 (amended). For an [Init] call on a detector with at least one
    model, none of whose native binds fails, and a scale factor under which
    the scale grows at every step: the scale starts at 1.0 and is multiplied
    by [scaleFactor] at every iteration; the loop ends at the first
    iteration [K] at which every model's scaled window exceeds [sizeMax] or
    the image (with fewer than [K + 1] iterations it has not returned); the
    levels are exactly those of the iterations [k < K] at which a model's
    window lies within [sizeMin, sizeMax] and the image, each binding
    exactly the qualifying models; and the scales of the levels increase
    strictly. *)
Theorem Init_levels_of_scale_iteration
    (Dlt : D -> D -> Prop) (det : Detection D) (imageSize : Size.t)
    (scaleFactor : D) (sizeMin sizeMax : Size.t) (roi : View) (threadNumber : Z)
    (K : nat) :
  (forall x y z, Dlt x y -> Dlt y z -> Dlt x z) ->
  (forall x, x = D_of_Z 1 \/ Dlt (D_of_Z 1) x -> Dlt x (Dmul x scaleFactor)) ->
  _data det <> [] ->
  Forall (fun d => forall s q t tc i16,
                     SimdDetectionInit (Data.handle d) s q t tc i16 <> 0) (_data det) ->
  all_exceed imageSize sizeMax (_data det) (scale_at scaleFactor K) = true ->
  (forall k, (k < K)%nat ->
             all_exceed imageSize sizeMax (_data det) (scale_at scaleFactor k) = false) ->
  (forall fuel, (fuel <= K)%nat ->
     Init fuel det imageSize scaleFactor sizeMin sizeMax roi threadNumber = OutOfFuel) /\
  (forall fuel, (K < fuel)%nat ->
     exists det',
       Init fuel det imageSize scaleFactor sizeMin sizeMax roi threadNumber =
         Ok (negb (length (_levels det') =? 0)%nat, det') /\
       Forall2 (level_of_step imageSize sizeMin sizeMax (_data det) scaleFactor)
               (_levels det')
               (emitting_steps imageSize sizeMin sizeMax (_data det) scaleFactor 0 K) /\
       StronglySorted Dlt (map Level.scale (_levels det'))).
Proof.
  intros Htrans Hgrow Hne Hbind HK Hbefore.
  destruct (InitLevels_loop_spec scaleFactor sizeMin sizeMax roi (_data det) imageSize
              Hbind K HK Hbefore K 0%nat
              (Levels_clear (mkDetection D (_data det) imageSize (_needNormalization det)
                             (_levels det) (InitWorkers (_workers det) threadNumber)
                             (_stale det) (_freed det)))
              eq_refl eq_refl eq_refl) as (H1 & H2).
  assert (HI : forall fuel,
    Init fuel det imageSize scaleFactor sizeMin sizeMax roi threadNumber =
    InitLevels_loop fuel
      (Levels_clear (mkDetection D (_data det) imageSize (_needNormalization det)
                     (_levels det) (InitWorkers (_workers det) threadNumber)
                     (_stale det) (_freed det)))
      scaleFactor sizeMin sizeMax roi (scale_at scaleFactor 0)).
  { intros fuel. unfold Init. destruct (_data det); [contradiction | reflexivity]. }
  split.
  - intros fuel Hf. rewrite HI. now apply H1.
  - intros fuel Hf. rewrite HI.
    destruct (H2 fuel Hf) as (det' & HL & _ & _ & new & Hnew & HF).
    cbn [Levels_push_back Levels_clear _levels app] in Hnew. subst new.
    exists det'. split; [exact HL |]. split; [exact HF |].
    assert (Hmap : map Level.scale (_levels det') =
                   map (scale_at scaleFactor)
                       (emitting_steps imageSize sizeMin sizeMax (_data det)
                                       scaleFactor 0 K)).
    { clear -HF. induction HF as [| l k ls ks [Hl _] _ IH]; [reflexivity |].
      cbn [map]. now rewrite Hl, IH. }
    rewrite Hmap. apply scale_at_sorted; auto. apply filter_seq_sorted.
Qed.
End InitTheorem.

Lemma Q_scale_grows (x : Q) :
  x = D_of_Z 1 \/ Qlt (D_of_Z 1) x -> Qlt x (Dmul x (inject_Z 2)).
Proof.
  intros Hx. assert (Hpos : Qlt 0 x).
  { destruct Hx as [-> | Hx]; [reflexivity |].
    apply (Qlt_trans 0 (D_of_Z 1)); [reflexivity | exact Hx]. }
  destruct x as [n d]. unfold Qlt in *. cbn in *. nia.
Qed.

Lemma Init_levels_of_scale_iteration_witness :
  (forall fuel, (fuel <= 2)%nat ->
     Init fuel sample_det (Size.mk 4 4) (inject_Z 2) (Size.mk 0 0) (Size.mk 100 100)
          View_default 1 = OutOfFuel) /\
  (forall fuel, (2 < fuel)%nat ->
     exists det',
       Init fuel sample_det (Size.mk 4 4) (inject_Z 2) (Size.mk 0 0) (Size.mk 100 100)
            View_default 1 =
         Ok (negb (length (_levels det') =? 0)%nat, det') /\
       Forall2 (level_of_step (Size.mk 4 4) (Size.mk 0 0) (Size.mk 100 100)
                              (_data sample_det) (inject_Z 2))
               (_levels det')
               (emitting_steps (Size.mk 4 4) (Size.mk 0 0) (Size.mk 100 100)
                               (_data sample_det) (inject_Z 2) 0 2) /\
       StronglySorted Qlt (map Level.scale (_levels det'))).
Proof.
  apply (Init_levels_of_scale_iteration Qlt sample_det (Size.mk 4 4) (inject_Z 2)
           (Size.mk 0 0) (Size.mk 100 100) View_default 1 2).
  - exact Qlt_trans.
  - exact Q_scale_grows.
  - discriminate.
  - repeat constructor. intros s q t tc i16. cbn. discriminate.
  - reflexivity.
  - intros [| [| k]] Hk; [reflexivity | reflexivity | lia].
Defined.

(** The scale iteration on the sample detector: levels at scales 1 and 2. *)
Example Init_sample_scales :
  exists det',
    Init 3 sample_det (Size.mk 4 4) (inject_Z 2) (Size.mk 0 0) (Size.mk 100 100)
         View_default 1 = Ok (true, det') /\
    map Level.scale (_levels det') = [inject_Z 1; Qmult (inject_Z 1) (inject_Z 2)].
Proof. eexists. split; [vm_compute; reflexivity | reflexivity]. Qed.

(** C9 as stated fails when a native bind fails: after one iteration the
    loop has been left, at scale 1.0, where the window of the only model
    fits and qualifies; the level pushed for that scale binds no model. *)
Lemma InitLevels_left_early_on_bind_failure :
  all_exceed (Size.mk 4 4) (Size.mk 100 100) (_data unbindable_det)
             (scale_at (inject_Z 2) 0) = false /\
  any_qualifies (Size.mk 4 4) (Size.mk 0 0) (Size.mk 100 100) (_data unbindable_det)
                (scale_at (inject_Z 2) 0) = true /\
  exists det1 level,
    Init 1 unbindable_det (Size.mk 4 4) (inject_Z 2) (Size.mk 0 0) (Size.mk 100 100)
         View_default 1 = Ok (false, det1) /\
    _levels det1 = [level] /\ Level.hids level = [] /\
    qualifying_from (Size.mk 4 4) (Size.mk 0 0) (Size.mk 100 100)
                    (scale_at (inject_Z 2) 0) 0 (_data unbindable_det) = [0%nat].
Proof.
  split; [reflexivity |]. split; [reflexivity |].
  eexists _, _. split; [vm_compute; reflexivity |].
  split; [reflexivity |]. split; reflexivity.
Qed.

(** ** Coherence of the detectors a client can reach

    The premises of the parity theorem hold wherever [Detect] calls
    [Hid::Detect]: the pool is idle between calls and an evaluator's
    routine has stride 2 only on a [throughColumn] level. *)

Lemma for_preserves {St : Type} (P : St -> Prop) (body : Z -> St -> result St) :
  (forall k s s', body k s = Ok s' -> P s -> P s') ->
  forall (count : nat) (i : Z) (s s' : St),
    for_ count i body s = Ok s' -> P s -> P s'.
Proof.
  intros Hbody. induction count as [| c IH]; intros i s s' H HP.
  - now injection H as <-.
  - cbn [for_] in H. destruct (body i s) as [s1 | | | |] eqn:E; try discriminate.
    rewrite rbind_Ok in H. eapply IH; [exact H |]. eapply Hbody; eauto.
Qed.

Section Coherence.
Context {D : Type} {ops : DoubleOps D} {prim : Primitives}.

Lemma Hid_Detect_idle (bufs : Buffers) (h : Hid.t) (size : Size.t) (mask : View)
    (rect : Rect.t) (dst : View) (workers : list Worker) (throughColumn : bool)
    (dst' : View) (workers' : list Worker) :
  Hid_Detect bufs h size mask rect dst workers throughColumn = Ok (dst', workers') ->
  Forall idle workers -> Forall idle workers'.
Proof.
  intros H Hidle. unfold Hid_Detect in H.
  destruct workers as [| w ws] eqn:Ew; [injection H as _ <-; constructor |].
  rewrite <- Ew in *. clear Ew w ws.
  match type of H with
  | context [Hid_Detect_add ?h ?m ?r ?step] =>
      destruct (Hid_Detect_add_loop h m r step workers Hidle)
        as (ws1 & Hadd & Hl1 & Hk1);
      destruct (Hid_Detect_wait_loop bufs h m r step ws1 (Fill dst 0))
        as (ws2 & Hwait & Hl2 & Hidle2);
      [intros k Hk; apply Hk1; lia |]
  end.
  rewrite Hadd, rbind_Ok, <- Hl1, Hwait in H. now injection H as _ <-.
Qed.

Lemma Detect_hid_coherent (datas : list Data.t) (mask : View) (rect : Rect.t)
    (hids : list Hid.t) (tc : bool) (j : Z) (st st' : Detect_state) :
  Detect_hid false datas mask rect j st = Ok st' ->
  (Level.hids (fst (fst st)) = hids /\ Level.throughColumn (fst (fst st)) = tc /\
   Forall idle (snd (fst st))) ->
  (Level.hids (fst (fst st')) = hids /\ Level.throughColumn (fst (fst st')) = tc /\
   Forall idle (snd (fst st'))).
Proof.
  destruct st as [[level workers] candidates]. cbn [fst snd].
  intros H (Hh & Ht & Hi). unfold Detect_hid in H. cbn [Hid_data] in H.
  destruct (at_ (Level.hids level) j) as [hid | | | |]; try discriminate.
  rewrite rbind_Ok in H.
  destruct (at_ datas (Z.of_nat (Hid.data hid))) as [d | | | |]; try discriminate.
  rewrite rbind_Ok in H.
  destruct (Hid_Detect _ _ _ _ _ _ _ _) as [[dst' workers'] | | | |] eqn:E;
    try discriminate.
  rewrite rbind_Ok in H. injection H as <-. cbn [fst snd].
  split; [exact Hh |]. split; [exact Ht |].
  eapply Hid_Detect_idle; eauto.
Qed.

Lemma level_coherent_same (l l' : Level.t D) :
  Level.hids l' = Level.hids l -> Level.throughColumn l' = Level.throughColumn l ->
  level_coherent l -> level_coherent l'.
Proof. unfold level_coherent. now intros -> ->. Qed.

Lemma Detect_level_coherent (datas : list Data.t) (motionMask : bool)
    (motionRegions : list Rect.t) (i : Z)
    (st st' : list (Level.t D) * list Worker * Candidates) :
  Detect_level false datas motionMask motionRegions i st = Ok st' ->
  (Forall level_coherent (fst (fst st)) /\ Forall idle (snd (fst st))) ->
  (Forall level_coherent (fst (fst st')) /\ Forall idle (snd (fst st'))).
Proof.
  destruct st as [[levels workers] candidates]. cbn [fst snd].
  intros H (Hc & Hi). unfold Detect_level in H.
  destruct (at_ levels i) as [level | | | |] eqn:Eat; try discriminate.
  rewrite rbind_Ok in H. apply at_inv in Eat as (Hi0 & Hl).
  pose proof (Forall_lookup_1 _ _ _ _ Hc Hl) as Hlc.
  set (pre := if motionMask then _ else _) in H.
  assert (Hpre : Level.hids (fst (fst pre)) = Level.hids level /\
                 Level.throughColumn (fst (fst pre)) = Level.throughColumn level).
  { subst pre. destruct motionMask; [| split; reflexivity].
    unfold FillMotionMask. destruct (fold_left _ _ _) as [mask rect].
    split; reflexivity. }
  destruct pre as [[level1 mask] rect]. cbn [fst] in Hpre. destruct Hpre as (Hh1 & Ht1).
  assert (Hput : forall (level' : Level.t D) ws c,
            Level.hids level' = Level.hids level ->
            Level.throughColumn level' = Level.throughColumn level ->
            Forall idle ws ->
            (levels0 ← put_ levels i level'; Ok (levels0, ws, c)) = Ok st' ->
            Forall level_coherent (fst (fst st')) /\ Forall idle (snd (fst st'))).
  { intros level' ws c Hh Ht Hws Hp. unfold put_ in Hp.
    destruct (_ && _); [| discriminate]. rewrite rbind_Ok in Hp.
    injection Hp as <-. cbn [fst snd]. split; [| exact Hws].
    apply Forall_insert; [exact Hc |].
    now apply (level_coherent_same level). }
  destruct (Rect.Empty rect); [now apply (Hput level1 workers candidates) |].
  destruct (for_ _ _ _ _) as [[[level2 workers2] cand2] | | | |] eqn:Ef;
    try discriminate.
  rewrite rbind_Ok in H.
  pose proof (for_preserves
    (fun s : Detect_state =>
       Level.hids (fst (fst s)) = Level.hids level /\
       Level.throughColumn (fst (fst s)) = Level.throughColumn level /\
       Forall idle (snd (fst s)))
    (Detect_hid false datas mask rect)
    (fun k s s' => Detect_hid_coherent datas mask rect (Level.hids level)
                     (Level.throughColumn level) k s s')
    _ _ _ _ Ef (conj Hh1 (conj Ht1 Hi))) as (Hh2 & Ht2 & Hi2).
  cbn [fst snd] in *. now apply (Hput level2 workers2 cand2).
Qed.

Lemma EstimateIntegral_throughColumn (level : Level.t D) :
  Level.throughColumn (EstimateIntegral level) = Level.throughColumn level.
Proof.
  unfold EstimateIntegral.
  destruct (Level.needSqsum level); [destruct (Level.needTilted level) |].
  - destruct (Integral3 _ _ _ _) as [[s q] t]. reflexivity.
  - destruct (Integral2 _ _ _) as [s q]. reflexivity.
  - reflexivity.
Qed.

Lemma FillLevels_coherent (needNormalization : bool) (levels : list (Level.t D))
    (src : View) :
  Forall level_coherent levels ->
  Forall level_coherent (FillLevels needNormalization levels src).
Proof.
  intros Hc. destruct levels as [| level0 rest]; [constructor |].
  unfold FillLevels. apply Forall_cons in Hc as [H0 Hrest].
  apply Forall_cons. split.
  - apply (level_coherent_same level0); [| | exact H0].
    + rewrite EstimateIntegral_hids. now destruct needNormalization.
    + rewrite EstimateIntegral_throughColumn. now destruct needNormalization.
  - change (map ?f rest) with (f <$> rest). apply Forall_fmap.
    eapply Forall_impl; [exact Hrest |]. intros l Hl. cbn.
    apply (level_coherent_same l); [| | exact Hl]; unfold FillLevels_next.
    + now rewrite EstimateIntegral_hids.
    + now rewrite EstimateIntegral_throughColumn.
Qed.

Lemma Detect_coherent (det : Detection D) (src : View) (objects : Objects)
    (groupSizeMin : Z) (sizeDifferenceMax : D) (motionMask : bool)
    (motionRegions : list Rect.t) (b : bool) (objects' : Objects)
    (det' : Detection D) :
  Detect det src objects groupSizeMin sizeDifferenceMax motionMask motionRegions
    = Ok (b, objects', det') ->
  det_coherent det -> det_coherent det'.
Proof.
  intros H (Hc & Hi). unfold Detect in H.
  destruct (_ || _); [injection H as _ _ <-; now split |].
  destruct (_freed det) eqn:Hfr; [discriminate |].
  destruct (for_ _ _ _ _) as [[[levels workers] candidates] | | | |] eqn:Ef;
    try discriminate.
  apply (for_ok_ext _ (Detect_level false (_data det) motionMask motionRegions))
    in Ef; [| intros k0 s0 s1; apply Detect_level_stale].
  rewrite rbind_Ok in H.
  destruct (Detect_group _ _ _ _) as [out | | | |]; try discriminate.
  rewrite rbind_Ok in H. injection H as _ _ <-.
  apply (for_preserves
    (fun s : list (Level.t D) * list Worker * Candidates =>
       Forall level_coherent (fst (fst s)) /\ Forall idle (snd (fst s)))
    (Detect_level false (_data det) motionMask motionRegions)
    (fun k s s' => Detect_level_coherent (_data det) motionMask motionRegions k s s')
    _ _ _ _ Ef).
  cbn [fst snd]. split; [now apply FillLevels_coherent | exact Hi].
Qed.

Lemma select_detect_stride (d : Data.t) (tc : bool) :
  detect_stride (select_detect d tc) = 2 -> tc = true.
Proof.
  unfold select_detect.
  destruct (Data.Haar d), (Data.Int16 d), tc; cbn; congruence.
Qed.

Lemma InitLevels_bind_coherent :
  forall (datas : list Data.t) (inserts : list bool) (i : nat)
         (level : Level.t D) (needNormalization : bool),
    level_coherent level ->
    level_coherent (snd (fst (InitLevels_bind datas inserts i level
                                              needNormalization))).
Proof.
  induction datas as [| d datas IH]; intros inserts i level nn Hc; [exact Hc |].
  destruct inserts as [| ins inserts]; [exact Hc |].
  cbn [InitLevels_bind]. destruct ins; cbn [negb]; [| now apply IH].
  destruct (SimdDetectionInit _ _ _ _ _ _ =? 0); [exact Hc |].
  apply IH. unfold level_coherent in *.
  cbn [Level.set_need Level.set_hids Level.hids Level.throughColumn].
  apply Forall_app. split; [exact Hc |].
  constructor; [| constructor]. cbn [Hid.detect]. apply select_detect_stride.
Qed.

Lemma InitLevels_loop_coherent (scaleFactor : D) (sizeMin sizeMax : Size.t)
    (roi : View) :
  forall (fuel : nat) (det : Detection D) (scale : D) (b : bool) (det' : Detection D),
    InitLevels_loop fuel det scaleFactor sizeMin sizeMax roi scale = Ok (b, det') ->
    det_coherent det -> det_coherent det'.
Proof.
  induction fuel as [| fuel IH]; intros det scale b det' H Hc; [discriminate |].
  cbn [InitLevels_loop] in H.
  destruct (fold_left _ _ _) as [[inserts exit] insert].
  destruct exit; [injection H as _ <-; exact Hc |].
  destruct insert; [| now apply IH in H].
  pose proof (InitLevels_bind_coherent (_data det) inserts 0
                (InitLevels_alloc (_imageSize det) scale) (_needNormalization det)
                ltac:(constructor)) as Hb.
  destruct (InitLevels_bind _ _ _ _ _) as [[bound level] nn]. cbn [fst snd] in Hb.
  destruct Hc as (Hl & Hi).
  destruct bound.
  - apply IH in H; [exact H |]. split; [| exact Hi]. cbn [Levels_push_back Levels_clear _levels].
    apply Forall_app. split; [exact Hl |]. constructor; [| constructor].
    apply (level_coherent_same level); [apply InitLevels_roi_hids | | exact Hb].
    unfold InitLevels_roi. destruct (Format_eqb _ _); reflexivity.
  - injection H as _ <-. split; [| exact Hi]. cbn [Levels_push_back Levels_clear _levels].
    apply Forall_app. split; [exact Hl |]. constructor; [exact Hb | constructor].
Qed.

Lemma InitWorkers_idle (workers : list Worker) (threadNumber : Z) :
  Forall idle workers -> Forall idle (InitWorkers workers threadNumber).
Proof.
  intros Hi. unfold InitWorkers.
  destruct (1 <? _); [| exact Hi].
  apply Forall_app. split; [exact Hi |]. now apply Forall_replicate.
Qed.

Lemma reachable_coherent (det : Detection D) : reachable det -> det_coherent det.
Proof.
  induction 1 as [| det path tag _ IH
                  | det fuel sz f smin smax roi tn b det' _ IH HI
                  | det src objs g s mm mr b objs' det' _ IH HD].
  - split; constructor.
  - unfold Load. destruct (_ =? 0); [exact IH |].
    destruct (SimdDetectionInfo _) as [size flags]. exact IH.
  - unfold Init in HI. destruct (_data det); [injection HI as _ <-; exact IH |].
    unfold InitLevels in HI. apply InitLevels_loop_coherent in HI; [exact HI |].
    destruct IH as (_ & Hi). split; [constructor |].
    cbn. now apply InitWorkers_idle.
  - eapply Detect_coherent; eauto.
Qed.
End Coherence.

(** ** The strips in any order of completion

    The workers run concurrently; whatever order their strips complete in,
    the bitmap is the one of the index order used by the model. *)

Section AnyOrder.
Context {prim : Primitives}.
Variable bufs : Buffers.
Variable h : Hid.t.
Variable m : View.
Variable r : Rect.t.
Variable step : Z.

Lemma run_strips_in_pixel (order : list nat) (row col : Z) :
  forall d : View,
    let '(s, q, t) := bufs in
    let v := classify (Hid.detect h) (Hid.handle h) s q t in
    let st := detect_stride (Hid.detect h) in
    pixel (run_strips_in bufs h m r step order d) row col =
    if rows_of (Rect.top r) (Rect.bottom r) step st order row &&
       mem col (strided (Rect.left r) (Rect.right r) st) && hitb v m row col
    then 1 else pixel d row col.
Proof.
  destruct bufs as [[s q] t] eqn:Eb. cbv zeta.
  induction order as [| k ks IH]; intros d; [reflexivity |].
  unfold run_strips_in in *. cbn [fold_left]. rewrite IH.
  unfold Task_Run, run_detect, strip_task.
  cbn [task_r task_h task_m Rect.left Rect.top Rect.right Rect.bottom].
  rewrite kernel_pixel. unfold rows_of. cbn [existsb].
  destruct (existsb _ ks), (mem row _), (mem col _), (hitb _ _ _ _); reflexivity.
Qed.

Lemma run_strips_in_dims (order : list nat) :
  forall d : View,
    format (run_strips_in bufs h m r step order d) = format d /\
    width (run_strips_in bufs h m r step order d) = width d /\
    height (run_strips_in bufs h m r step order d) = height d.
Proof.
  induction order as [| k ks IH]; intros d; [now cbn |].
  unfold run_strips_in in *. cbn [fold_left].
  destruct (IH (Task_Run bufs (strip_task h m r step (Z.of_nat k)) d)) as (H1 & H2 & H3).
  rewrite H1, H2, H3. unfold Task_Run, run_detect. destruct bufs as [[s q] t].
  apply kernel_dims.
Qed.

Lemma rows_of_Permutation (top bottom stride : Z) (o1 o2 : list nat) (row : Z) :
  Permutation o1 o2 ->
  rows_of top bottom step stride o1 row = rows_of top bottom step stride o2 row.
Proof.
  unfold rows_of. induction 1 as [| x l l' _ IH | x y l | l l' l'' _ IH1 _ IH2];
    cbn [existsb].
  - reflexivity.
  - now rewrite IH.
  - rewrite !orb_assoc. f_equal. apply orb_comm.
  - now rewrite IH1.
Qed.

Lemma rows_of_seq (top bottom stride : Z) (n : nat) (row : Z) :
  rows_of top bottom step stride (seq 0 n) row =
  rows_upto top bottom step stride n row.
Proof.
  induction n as [| n IH]; [reflexivity |].
  rewrite seq_S. unfold rows_of in *. rewrite existsb_app, IH. cbn.
  now rewrite orb_false_r.
Qed.

Lemma strips_any_order (order : list nat) (n : nat) (d : View) :
  Permutation order (seq 0 n) ->
  same_view (run_strips_in bufs h m r step order d) (run_strips bufs h m r step n d).
Proof.
  intros Hperm.
  destruct (run_strips_in_dims order d) as (F1 & W1 & H1).
  destruct (run_strips_dims bufs h m r step n d) as (F2 & W2 & H2).
  split; [congruence |]. split; [congruence |]. split; [congruence |].
  intros row col.
  pose proof (run_strips_in_pixel order row col d) as P1.
  pose proof (run_strips_pixel bufs h m r step n d row col) as P2.
  destruct bufs as [[s q] t]. cbv zeta in P1, P2.
  rewrite P1, P2, (rows_of_Permutation _ _ _ _ _ _ Hperm), rows_of_seq.
  reflexivity.
Qed.
End AnyOrder.

(** * Further properties of the detector *)

(** ** [Partition] computes the connected components of [Similar] *)

Section Components.
Context {D : Type} {ops : DoubleOps D}.
Variable fuel : nat.
Variable vec : list Object.
Variable s : D.
Let N : Z := Z.of_nat (length vec).
Hypothesis Hfuel : N * N < Z.of_nat fuel.

Lemma similar_at_sym (a b : nat) : similar_at vec s a b -> similar_at vec s b a.
Proof.
  intros (va & vb & Ha & Hb & Hs). exists vb, va.
  split; [exact Hb | split; [exact Ha |]]. now rewrite Similar_sym.
Qed.

Lemma linked_trans (a b c : nat) :
  linked vec s a b -> linked vec s b c -> linked vec s a c.
Proof.
  intros Hab Hbc. induction Hbc as [b Hb | b c d Hbc IH Hcd]; [exact Hab |].
  eapply linked_step; [apply IH; exact Hab | exact Hcd].
Qed.

Lemma linked_sym (a b : nat) : linked vec s a b -> linked vec s b a.
Proof.
  induction 1 as [a Ha | a b c Hab IH Hbc]; [now apply linked_refl |].
  apply (linked_trans c b a); [| exact IH].
  apply (linked_step vec s c c b); [| now apply similar_at_sym].
  apply linked_refl. destruct Hbc as (vb & vc & _ & Hc & _).
  now apply lookup_lt_Some in Hc.
Qed.

Lemma similar_linked (a b : nat) : similar_at vec s a b -> linked vec s a b.
Proof.
  intros Hs. apply (linked_step vec s a a b); [| exact Hs].
  apply linked_refl. destruct Hs as (va & vb & Ha & _).
  now apply lookup_lt_Some in Ha.
Qed.

(** Merging the tree of [p] into the tree of [q], two linked candidates. *)
Lemma merge_sound (rep : Z -> Z) (p q : Z) :
  classes_sound vec s N rep -> 0 <= p < N -> 0 <= q < N ->
  linked vec s (Z.to_nat p) (Z.to_nat q) ->
  classes_sound vec s N (fun k => if rep k =? rep p then rep q else rep k).
Proof.
  intros Hs Hp Hq Hpq a b Ha Hb. cbv beta.
  destruct (Z.eqb_spec (rep a) (rep p)) as [Ea | Ea];
    destruct (Z.eqb_spec (rep b) (rep p)) as [Eb | Eb]; intros E.
  - apply Hs; auto. congruence.
  - apply (linked_trans _ (Z.to_nat p)); [now apply Hs |].
    apply (linked_trans _ (Z.to_nat q)); [exact Hpq | apply Hs; auto].
  - apply (linked_trans _ (Z.to_nat q)); [now apply Hs |].
    apply (linked_trans _ (Z.to_nat p)); [now apply linked_sym |].
    apply Hs; auto.
  - now apply Hs.
Qed.

Lemma merge_rows (rep : Z -> Z) (A B i : Z) :
  rows_done vec s N rep i ->
  rows_done vec s N (fun k => if rep k =? A then B else rep k) i.
Proof.
  intros Hr a b Ha Hb Hs. cbv beta. now rewrite (Hr a b Ha Hb Hs).
Qed.

Lemma Partition_inner_components (i j : Z) (st : list Z * Z) :
  0 <= i < N -> 0 <= j < N -> component_inner_inv vec s N i j st ->
  exists st',
    Partition_inner fuel vec s i j st = Ok st' /\
    component_inner_inv vec s N i (j + 1) st'.
Proof.
  intros Hi Hj Hinv. destruct st as [nodes root].
  destruct Hinv as (rep & R & F & HR & Hroot & Hsound & Hrows & Hrow).
  cbn [fst snd] in *.
  assert (Hkeep : (similar_at vec s (Z.to_nat i) (Z.to_nat j) -> rep i = rep j) ->
                  component_inner_inv vec s N i (j + 1) (nodes, root)).
  { intros Hj'. exists rep, R. cbn [fst snd].
    split; [exact F |]. split; [lia |]. split; [exact Hroot |].
    split; [exact Hsound |]. split; [exact Hrows |].
    intros b Hb Hsim. destruct (Z.eq_dec b j) as [-> | Hne]; [now apply Hj' |].
    apply Hrow; [lia | exact Hsim]. }
  assert (HiN : i * N <= (N - 1) * N) by (apply Z.mul_le_mono_nonneg_r; lia).
  assert (HRf : R + 1 < Z.of_nat fuel) by lia.
  pose proof (forest_len _ _ _ _ _ F) as Hlen.
  pose proof (forest_rep_range _ _ _ _ _ F) as Hrr.
  pose proof (forest_rep_root _ _ _ _ _ F) as Hro.
  pose proof (forest_root_rep _ _ _ _ _ F) as Hrt.
  pose proof (forest_height _ _ _ _ _ F) as Hh.
  unfold Partition_inner.
  destruct (Z.eqb_spec i j) as [<- | Hij]; [eexists; split; [reflexivity | now apply Hkeep] |].
  destruct (at_in_range vec i ltac:(fold N; lia)) as (vi & Hvi & Hli).
  destruct (at_in_range vec j ltac:(fold N; lia)) as (vj & Hvj & Hlj).
  rewrite Hvi, rbind_Ok, Hvj, rbind_Ok.
  destruct (Similar s vi vj) eqn:Hsim; cbn [negb].
  2:{ eexists; split; [reflexivity |]. apply Hkeep.
      intros (va & vb & Ha & Hb & Hab). congruence. }
  assert (Hlink : linked vec s (Z.to_nat i) (Z.to_nat j)).
  { apply similar_linked. now exists vi, vj. }
  rewrite (find_root_rep N nodes rep _ R F fuel j Hj)
    by (specialize (Hh j Hj); lia).
  rewrite rbind_Ok.
  destruct (Z.eqb_spec (rep j) root) as [Heq | Hne];
    [eexists; split; [reflexivity | apply Hkeep; congruence] |].
  assert (Hr1 : 0 <= root < N) by (rewrite Hroot; auto).
  assert (Hr2 : 0 <= rep j < N) by auto.
  rewrite (node_get_rank N nodes Hlen root Hr1), rbind_Ok.
  rewrite (node_get_rank N nodes Hlen (rep j) Hr2), rbind_Ok.
  assert (Hn1 : parent_of nodes root < 0) by (rewrite Hroot; auto).
  assert (Hn2 : parent_of nodes (rep j) < 0) by auto.
  destruct (Z.ltb_spec (rank_of nodes (rep j)) (rank_of nodes root)) as [Hlt | Hge].
  - (* root2 goes under root *)
    destruct (node_set_parent N nodes Hlen (rep j) root Hr2)
      as (n1 & Hset & Hlen1 & Hpa & Hpo & Hrk).
    rewrite Hset, !rbind_Ok.
    assert (F1 : forest N n1 (fun k => if rep k =? rep j then root else rep k)
                        (rank_of n1) (R + 1)).
    { apply (forest_link N nodes n1 rep (rank_of nodes) (rank_of n1) R (R + 1)
                         (rep j) root); auto; try lia.
      - intros k Hk _. apply Hrk. lia.
      - rewrite Hrk by lia. specialize (Hh root Hr1). lia.
      - rewrite Hrk by lia. exact Hlt. }
    destruct (compress_pair fuel vec n1 _ (R + 1) i j root F1 Hi Hj)
      as (n2 & Hc & F2).
    + cbv beta. destruct (Z.eqb_spec (rep i) (rep j)); [reflexivity | now symmetry].
    + cbv beta. now rewrite Z.eqb_refl.
    + exact HRf.
    + rewrite Hc. eexists; split; [reflexivity |].
      eexists _, (R + 1). cbn [fst snd]. split; [exact F2 |]. split; [lia |].
      split.
      { cbv beta. rewrite <- Hroot.
        destruct (Z.eqb_spec root (rep j)); [congruence | reflexivity]. }
      split.
      { rewrite Hroot. apply merge_sound; auto. now apply linked_sym. }
      split; [now apply merge_rows |].
      intros b Hb Hsb. cbv beta.
      rewrite <- Hroot.
      destruct (Z.eqb_spec root (rep j)) as [| _]; [congruence |].
      destruct (Z.eq_dec b j) as [-> | Hbj].
      * now rewrite Z.eqb_refl.
      * rewrite <- (Hrow b ltac:(lia) Hsb), <- Hroot.
        destruct (Z.eqb_spec root (rep j)); [congruence | reflexivity].
  - (* root goes under root2 *)
    destruct (node_set_parent N nodes Hlen root (rep j) Hr1)
      as (n1 & Hset & Hlen1 & Hpa & Hpo & Hrk).
    rewrite Hset, !rbind_Ok.
    rewrite (node_get_rank N n1 Hlen1 (rep j) Hr2), rbind_Ok.
    destruct (node_set_rank N n1 Hlen1 (rep j)
                (rank_of n1 (rep j) +
                 (if rank_of nodes root =? rank_of nodes (rep j) then 1 else 0))
                Hr2)
      as (n2 & Hset2 & Hlen2 & Hra & Hrao & Hpar).
    rewrite Hset2, !rbind_Ok.
    assert (F1 : forest N n2 (fun k => if rep k =? root then rep j else rep k)
                        (rank_of n2) (R + 1)).
    { apply (forest_link N nodes n2 rep (rank_of nodes) (rank_of n2) R (R + 1)
                         root (rep j)); auto; try lia.
      - rewrite Hpar by lia. exact Hpa.
      - intros k Hk Hka. rewrite Hpar by lia. now apply Hpo.
      - intros k Hk Hkb. rewrite Hrao by lia. apply Hrk. lia.
      - rewrite Hra, Hrk by lia. specialize (Hh (rep j) Hr2).
        destruct (rank_of nodes root =? rank_of nodes (rep j)); lia.
      - rewrite Hra, Hrk by lia.
        destruct (Z.eqb_spec (rank_of nodes root) (rank_of nodes (rep j))); lia. }
    destruct (compress_pair fuel vec n2 _ (R + 1) i j (rep j) F1 Hi Hj)
      as (n3 & Hc & F3).
    + cbv beta. rewrite <- Hroot. now rewrite Z.eqb_refl.
    + cbv beta. destruct (Z.eqb_spec (rep j) root); [contradiction | reflexivity].
    + exact HRf.
    + rewrite Hc. eexists; split; [reflexivity |].
      eexists _, (R + 1). cbn [fst snd]. split; [exact F3 |]. split; [lia |].
      split; [cbv beta; rewrite <- Hroot; now rewrite Z.eqb_refl |].
      split; [rewrite Hroot; now apply merge_sound |].
      split; [now apply merge_rows |].
      intros b Hb Hsb. cbv beta.
      rewrite <- Hroot, Z.eqb_refl.
      destruct (Z.eq_dec b j) as [-> | Hbj].
      * destruct (Z.eqb_spec (rep j) root); [contradiction | reflexivity].
      * rewrite <- (Hrow b ltac:(lia) Hsb), <- Hroot, Z.eqb_refl. reflexivity.
Qed.

Lemma Partition_outer_components (i : Z) (nodes : list Z) :
  0 <= i < N -> component_outer_inv vec s N i nodes ->
  exists nodes',
    Partition_outer fuel vec s (length vec) i nodes = Ok nodes' /\
    component_outer_inv vec s N (i + 1) nodes'.
Proof.
  intros Hi (rep & R & F & HR & Hsound & Hrows).
  assert (HiN : i * N <= (N - 1) * N) by (apply Z.mul_le_mono_nonneg_r; lia).
  unfold Partition_outer.
  rewrite (find_root_rep N nodes rep _ R F fuel i Hi)
    by (pose proof (forest_height _ _ _ _ _ F i Hi); lia).
  rewrite rbind_Ok.
  destruct (for_inv (component_inner_inv vec s N i) (Partition_inner fuel vec s i)
                    (length vec) 0 (nodes, rep i)) as ([n' r'] & Hfor & Hinv).
  - exists rep, R. cbn [fst snd]. split; [exact F |]. split; [lia |].
    split; [reflexivity |]. split; [exact Hsound |]. split; [exact Hrows |].
    intros b Hb. lia.
  - intros k s0 Hk. apply Partition_inner_components; [exact Hi | fold N in Hk; lia].
  - rewrite Hfor, rbind_Ok. exists n'. split; [reflexivity |].
    destruct Hinv as (rep' & R' & F' & HR' & _ & Hs' & Hrows' & Hrow').
    cbn [fst snd] in *. fold N in HR', Hrow'. cbn [Z.add] in Hrow'.
    exists rep', R'. split; [exact F' |]. split; [lia |]. split; [exact Hs' |].
    intros a b Ha Hb Hsim. destruct (Z.eq_dec a i) as [-> | Hne].
    + apply Hrow'; [lia | exact Hsim].
    + apply Hrows'; [lia | exact Hb | exact Hsim].
Qed.

Lemma Partition_label_components (rep h : Z -> Z) (R i : Z)
    (st : list Z * list Z * Z) :
  R < Z.of_nat fuel -> 0 <= i < N -> component_label_inv N rep h R i st ->
  exists st', Partition_label fuel i st = Ok st' /\
              component_label_inv N rep h R (i + 1) st'.
Proof.
  intros HR Hi. destruct st as [[nodes labels] nclasses].
  intros (F & Hll & Hnc & Hrk & Hlab & Hinj & Hgrow & Hcls).
  pose proof (forest_len _ _ _ _ _ F) as Hlen.
  pose proof (forest_rep_range _ _ _ _ _ F) as Hrr.
  pose proof (Hrr i Hi) as Hroot.
  unfold Partition_label.
  rewrite (find_root_rep N nodes rep h R F fuel i Hi)
    by (pose proof (forest_height _ _ _ _ _ F i Hi); lia).
  rewrite rbind_Ok, (node_get_rank N nodes Hlen (rep i) Hroot), rbind_Ok.
  destruct (Z.leb_spec 0 (rank_of nodes (rep i))) as [Hpos | Hneg].
  - destruct (node_set_rank N nodes Hlen (rep i) (Z.lnot nclasses) Hroot)
      as (n1 & Hs & Hl1 & Hr1 & Hro1 & Hp1).
    rewrite Hs, !rbind_Ok, (node_get_rank N n1 Hl1 (rep i) Hroot), rbind_Ok.
    rewrite Hr1, Z.lnot_involutive.
    rewrite put_Ok by lia. rewrite rbind_Ok.
    eexists; split; [reflexivity |].
    assert (Hold : forall k, 0 <= k < i -> rep k <> rep i).
    { intros k Hk E. destruct (Hlab k Hk) as (Hn & _). rewrite E in Hn. lia. }
    assert (Hrank : forall a, 0 <= a < N ->
              rank_of n1 (rep a) =
              if rep a =? rep i then Z.lnot nclasses else rank_of nodes (rep a)).
    { intros a Ha. specialize (Hrr a Ha).
      destruct (Z.eqb_spec (rep a) (rep i)) as [-> | E]; [exact Hr1 |].
      apply Hro1; lia. }
    split; [| split; [| split; [| split; [| split; [| split; [| split]]]]]].
    + apply (forest_same_parents fuel vec nodes); auto.
    + rewrite length_insert. exact Hll.
    + lia.
    + intros k Hk. destruct (Z.eq_dec k (rep i)) as [-> | Hne].
      * rewrite Hr1. unfold Z.lnot. lia.
      * rewrite Hro1 by lia. specialize (Hrk k Hk). lia.
    + intros k Hk. destruct (Z.eq_dec k i) as [-> | Hne].
      * rewrite Hr1, Z.lnot_involutive, list_lookup_insert_eq by lia.
        split; [unfold Z.lnot; lia | reflexivity].
      * rewrite Hrank by lia.
        destruct (Z.eqb_spec (rep k) (rep i)) as [E | _];
          [now apply Hold in E; [| lia] |].
        rewrite list_lookup_insert_ne by lia. apply Hlab. lia.
    + intros a b Ha Hb. rewrite !Hrank by assumption.
      pose proof (Hrk (rep a) (Hrr a Ha)). pose proof (Hrk (rep b) (Hrr b Hb)).
      destruct (Z.eqb_spec (rep a) (rep i)) as [Ea | Ea];
        destruct (Z.eqb_spec (rep b) (rep i)) as [Eb | Eb];
        unfold Z.lnot; intros Hn He; try congruence; try lia.
      apply Hinj; auto.
    + intros k l Hk Hl. destruct (Z.eq_dec k i) as [-> | Hne].
      * rewrite list_lookup_insert_eq in Hl by lia. injection Hl as <-.
        destruct (Z.eq_dec nclasses 0) as [| Hnz]; [now left | right].
        destruct (Hcls (nclasses - 1) ltac:(lia)) as (k' & Hk' & Hl').
        exists k'. split; [lia |]. rewrite list_lookup_insert_ne by lia. exact Hl'.
      * rewrite list_lookup_insert_ne in Hl by lia.
        destruct (Hgrow k l ltac:(lia) Hl) as [| (k' & Hk' & Hl')]; [now left | right].
        exists k'. split; [lia |]. rewrite list_lookup_insert_ne by lia. exact Hl'.
    + intros c Hc. destruct (Z.eq_dec c nclasses) as [-> | Hne].
      * exists i. split; [lia |].
        rewrite list_lookup_insert_eq by lia. reflexivity.
      * destruct (Hcls c ltac:(lia)) as (k & Hk & Hl).
        exists k. split; [lia |]. rewrite list_lookup_insert_ne by lia. exact Hl.
  - rewrite !rbind_Ok, (node_get_rank N nodes Hlen (rep i) Hroot), rbind_Ok.
    rewrite put_Ok by lia. rewrite rbind_Ok.
    eexists; split; [reflexivity |].
    pose proof (Hrk (rep i) Hroot) as Hlow.
    split; [| split; [| split; [| split; [| split; [| split; [| split]]]]]].
    + exact F.
    + rewrite length_insert. exact Hll.
    + lia.
    + exact Hrk.
    + intros k Hk. destruct (Z.eq_dec k i) as [-> | Hne].
      * rewrite list_lookup_insert_eq by lia. split; [exact Hneg | reflexivity].
      * rewrite list_lookup_insert_ne by lia. apply Hlab. lia.
    + exact Hinj.
    + intros k l Hk Hl. destruct (Z.eq_dec k i) as [-> | Hne].
      * rewrite list_lookup_insert_eq in Hl by lia. injection Hl as <-.
        destruct (Z.eq_dec (Z.lnot (rank_of nodes (rep i))) 0) as [| Hnz];
          [now left | right].
        destruct (Hcls (Z.lnot (rank_of nodes (rep i)) - 1)
                       ltac:(unfold Z.lnot in *; lia)) as (k' & Hk' & Hl').
        exists k'. split; [lia |]. rewrite list_lookup_insert_ne by lia. exact Hl'.
      * rewrite list_lookup_insert_ne in Hl by lia.
        destruct (Hgrow k l ltac:(lia) Hl) as [| (k' & Hk' & Hl')]; [now left | right].
        exists k'. split; [lia |]. rewrite list_lookup_insert_ne by lia. exact Hl'.
    + intros c Hc. destruct (Hcls c Hc) as (k & Hk & Hl).
      exists k. split; [lia |]. rewrite list_lookup_insert_ne by lia. exact Hl.
Qed.

(** The classes of [Partition] are the connected components of the
    similarity graph, numbered in order of first appearance. *)
Lemma Partition_components_spec (labels0 : list Z) :
  exists nclasses labels,
    Partition fuel vec s labels0 = Ok (nclasses, labels) /\
    length labels = length vec /\
    (forall i j li lj, labels !! i = Some li -> labels !! j = Some lj ->
                       (li = lj <-> linked vec s i j)) /\
    (forall i l, labels !! i = Some l ->
                 l = 0 \/ exists j, (j < i)%nat /\ labels !! j = Some (l - 1)).
Proof.
  unfold Partition.
  destruct (for_inv (init_inv N) Partition_init (length vec) 0
                    (replicate (length vec * 2) 0)) as (n1 & Hf1 & Hi1).
  { split; [rewrite length_replicate; unfold N; lia |]. split.
    - intros k Hk. unfold rank_of.
      destruct (replicate (length vec * 2) 0 !! Z.to_nat (2 * k + RANK)) eqn:E;
        [| reflexivity].
      apply lookup_replicate in E. cbn. tauto.
    - intros k Hk. lia. }
  { intros k s0 Hk. apply (Partition_init_ok fuel vec). fold N in Hk. lia. }
  rewrite Hf1, rbind_Ok. cbn [Z.add] in Hi1. fold N in Hi1.
  assert (Ho1 : component_outer_inv vec s N 0 n1).
  { destruct Hi1 as (Hlen & Hr & Hp). exists (fun k => k), 0.
    split; [| split; [lia | split]].
    - split; auto.
      + intros k Hk. rewrite Hp by exact Hk. lia.
      + intros k Hk Hpos. rewrite Hp in Hpos by exact Hk. lia.
      + intros k Hk. rewrite Hr by exact Hk. lia.
    - intros a b Ha Hb ->. apply linked_refl. unfold N in Hb. lia.
    - intros a b Ha. lia. }
  destruct (for_inv (component_outer_inv vec s N)
                    (Partition_outer fuel vec s (length vec))
                    (length vec) 0 n1 Ho1) as (n2 & Hf2 & Hi2).
  { intros k s0 Hk. apply Partition_outer_components. fold N in Hk. lia. }
  rewrite Hf2, rbind_Ok. cbn [Z.add] in Hi2. fold N in Hi2.
  destruct Hi2 as (rep & R & F & HR & Hsound & Hrows).
  assert (HRf : R < Z.of_nat fuel) by lia.
  destruct (for_inv (component_label_inv N rep (rank_of n2) R) (Partition_label fuel)
                    (length vec) 0 (n2, resize (length vec) 0 labels0, 0))
    as ([[n3 labels] nclasses] & Hf3 & Hi3).
  { split; [exact F |]. split; [rewrite length_resize; reflexivity |].
    split; [lia |]. split.
    { intros k Hk. pose proof (forest_height _ _ _ _ _ F k Hk). lia. }
    split; [intros k Hk; lia |]. split.
    { intros a b Ha Hb Hn.
      pose proof (forest_height _ _ _ _ _ F (rep a)
                    (forest_rep_range _ _ _ _ _ F a Ha)). lia. }
    split; [intros k l Hk; lia | intros c Hc; lia]. }
  { intros k s0 Hk. apply Partition_label_components; [exact HRf | fold N in Hk; lia]. }
  rewrite Hf3, rbind_Ok. cbn [Z.add] in Hi3. fold N in Hi3.
  destruct Hi3 as (F3 & Hll & Hnc & _ & Hlab & Hinj & Hgrow & _).
  exists nclasses, labels. split; [reflexivity |].
  split; [unfold N in Hll; lia |].
  assert (Hcomplete : forall a b, linked vec s a b ->
            rep (Z.of_nat a) = rep (Z.of_nat b)).
  { induction 1 as [a Ha | a b c Hab IH Hbc]; [reflexivity |].
    rewrite IH. destruct Hbc as (vb & vc & Hb & Hc & Hsim).
    pose proof (lookup_lt_Some _ _ _ Hb). pose proof (lookup_lt_Some _ _ _ Hc).
    apply Hrows; [unfold N; lia | unfold N; lia |].
    rewrite !Nat2Z.id. now exists vb, vc. }
  split.
  - intros i j li lj Hli Hlj.
    pose proof (lookup_lt_Some _ _ _ Hli) as Hi.
    pose proof (lookup_lt_Some _ _ _ Hlj) as Hj.
    destruct (Hlab (Z.of_nat i) ltac:(lia)) as (Hni & Hi').
    destruct (Hlab (Z.of_nat j) ltac:(lia)) as (Hnj & Hj').
    rewrite Nat2Z.id in Hi', Hj'.
    rewrite Hli in Hi'. rewrite Hlj in Hj'.
    injection Hi' as ->. injection Hj' as ->.
    split.
    + intros E. unfold Z.lnot in E.
      assert (Hr : rep (Z.of_nat i) = rep (Z.of_nat j))
        by (apply Hinj; [lia | lia | exact Hni | lia]).
      specialize (Hsound (Z.of_nat i) (Z.of_nat j) ltac:(lia) ltac:(lia) Hr).
      now rewrite !Nat2Z.id in Hsound.
    + intros Hl. now rewrite (Hcomplete i j Hl).
  - intros i l Hl. pose proof (lookup_lt_Some _ _ _ Hl) as Hi.
    destruct (Hgrow (Z.of_nat i) l ltac:(lia)) as [| (k' & Hk' & Hl')];
      [now rewrite Nat2Z.id | now left | right].
    exists (Z.to_nat k'). split; [lia | exact Hl'].
Qed.
End Components.

(** X1. Two candidates receive the same label from [Partition] exactly
    when a chain of candidates, each passing the [Similar] test with the
    next, joins them: the classes are the connected components of the
    similarity graph.  The fuel only needs to exceed the square of the
    number of candidates. *)
Theorem Partition_labels_are_components {D : Type} {ops : DoubleOps D}
    (fuel : nat) (vec : Objects) (s : D) (labels0 : list Z) :
  (length vec * length vec < fuel)%nat ->
  exists nclasses labels,
    Partition fuel vec s labels0 = Ok (nclasses, labels) /\
    length labels = length vec /\
    forall i j li lj,
      labels !! i = Some li -> labels !! j = Some lj ->
      (li = lj <-> linked vec s i j).
Proof.
  intros Hfuel.
  destruct (Partition_components_spec fuel vec s ltac:(lia) labels0)
    as (nclasses & labels & HP & Hlen & Hcomp & _).
  now exists nclasses, labels.
Qed.

Lemma Partition_labels_are_components_witness :
  exists nclasses labels,
    Partition 5 [cand_a; cand_b] (2 # 10)%Q [] = Ok (nclasses, labels) /\
    length labels = length [cand_a; cand_b] /\
    forall i j li lj,
      labels !! i = Some li -> labels !! j = Some lj ->
      (li = lj <-> linked [cand_a; cand_b] (2 # 10)%Q i j).
Proof.
  apply (Partition_labels_are_components 5 [cand_a; cand_b] (2 # 10)%Q []).
  cbn. lia.
Defined.

(** X2. [Partition] numbers the classes in order of first appearance: a
    candidate's label is 0, or the label just below it belongs to an
    earlier candidate.  In particular the first candidate has label 0. *)
Theorem Partition_labels_first_appearance {D : Type} {ops : DoubleOps D}
    (fuel : nat) (vec : Objects) (s : D) (labels0 : list Z) :
  (length vec * length vec < fuel)%nat ->
  exists nclasses labels,
    Partition fuel vec s labels0 = Ok (nclasses, labels) /\
    (forall l, labels !! 0%nat = Some l -> l = 0) /\
    forall i l, labels !! i = Some l ->
                l = 0 \/ exists j, (j < i)%nat /\ labels !! j = Some (l - 1).
Proof.
  intros Hfuel.
  destruct (Partition_components_spec fuel vec s ltac:(lia) labels0)
    as (nclasses & labels & HP & _ & _ & Hgrow).
  exists nclasses, labels. split; [exact HP |]. split; [| exact Hgrow].
  intros l Hl. destruct (Hgrow 0%nat l Hl) as [| (j & Hj & _)]; [assumption | lia].
Qed.

Lemma Partition_labels_first_appearance_witness :
  exists nclasses labels,
    Partition 5 [cand_a; cand_b] (2 # 10)%Q [] = Ok (nclasses, labels) /\
    (forall l, labels !! 0%nat = Some l -> l = 0) /\
    forall i l, labels !! i = Some l ->
                l = 0 \/ exists j, (j < i)%nat /\ labels !! j = Some (l - 1).
Proof.
  apply (Partition_labels_first_appearance 5 [cand_a; cand_b] (2 # 10)%Q []).
  cbn. lia.
Defined.

(** ** Weights and tags through [GroupObjects] *)

Lemma sumZ_app (l1 l2 : list Z) : sumZ (l1 ++ l2) = sumZ l1 + sumZ l2.
Proof. induction l1 as [| x l1 IH]; cbn; [reflexivity | unfold sumZ in *; lia]. Qed.

Lemma sumZ_map_add {A : Type} (f g : A -> Z) (l : list A) :
  sumZ (map (fun x => f x + g x) l) = sumZ (map f l) + sumZ (map g l).
Proof. induction l as [| x l IH]; cbn; [reflexivity | unfold sumZ in *; lia]. Qed.

Lemma sumZ_indicator (l : Z) (n a : nat) :
  sumZ (map (fun c => if l =? Z.of_nat c then 1 else 0) (seq a n)) =
  if (Z.of_nat a <=? l) && (l <? Z.of_nat (a + n)) then 1 else 0.
Proof.
  revert a. induction n as [| n IH]; intros a; cbn [seq map sumZ fold_right].
  - destruct (Z.leb_spec (Z.of_nat a) l), (Z.ltb_spec l (Z.of_nat (a + 0)));
      cbn; try reflexivity; lia.
  - fold (sumZ (map (fun c => if l =? Z.of_nat c then 1 else 0) (seq (S a) n))).
    rewrite IH.
    destruct (Z.eqb_spec l (Z.of_nat a)), (Z.leb_spec (Z.of_nat (S a)) l),
             (Z.ltb_spec l (Z.of_nat (S a + n))), (Z.leb_spec (Z.of_nat a) l),
             (Z.ltb_spec l (Z.of_nat (a + S n))); cbn; try reflexivity; lia.
Qed.

(** Every candidate is a member of exactly one class. *)
Lemma members_count (src : Objects) (labels : list Z) (K : nat) :
  length src = length labels ->
  (forall i l, labels !! i = Some l -> 0 <= l < Z.of_nat K) ->
  forall n, (n <= length labels)%nat ->
    sumZ (map (fun c => Z.of_nat (length (members_upto n src labels (Z.of_nat c))))
              (seq 0 K)) = Z.of_nat n.
Proof.
  intros Hlen Hrange. induction n as [| n IH]; intros Hn.
  - cbn [members_upto length]. induction (seq 0 K); cbn; [reflexivity | assumption].
  - destruct (lookup_lt_is_Some_2 labels n ltac:(lia)) as [l Hl].
    destruct (lookup_lt_is_Some_2 src n ltac:(lia)) as [o Ho].
    rewrite (map_ext _ (fun c => Z.of_nat (length (members_upto n src labels (Z.of_nat c)))
                               + (if l =? Z.of_nat c then 1 else 0))).
    + rewrite sumZ_map_add, IH by lia. rewrite sumZ_indicator.
      specialize (Hrange n l Hl).
      destruct (Z.leb_spec (Z.of_nat 0) l), (Z.ltb_spec l (Z.of_nat (0 + K)));
        cbn [andb]; lia.
    + intros c. rewrite (members_upto_S n src labels (Z.of_nat c) o l Ho Hl).
      rewrite length_app. destruct (l =? Z.of_nat c); cbn [length]; lia.
Qed.

Lemma members_upto_In (o : Object) (src : Objects) (labels : list Z) (c : Z) :
  forall n, In o (members_upto n src labels c) -> In o src.
Proof.
  induction n as [| n IH]; cbn [members_upto]; [contradiction |].
  rewrite in_app_iff. intros [H | H]; [now apply IH |].
  destruct (src !! n) as [x |] eqn:Ex; [| contradiction].
  destruct (labels !! n) as [l |]; [| contradiction].
  destruct (l =? c); [| contradiction].
  destruct H as [<- | []]. apply list_elem_of_In. eapply list_elem_of_lookup_2. exact Ex.
Qed.

Lemma last_In {A : Type} (l : list A) (d : A) : l <> [] -> In (List.last l d) l.
Proof.
  induction l as [| x l IH]; [contradiction |]. intros _.
  destruct l as [| y l]; [now left |]. right. apply IH. discriminate.
Qed.

(** The representatives of [Group_clusters]: one per class, with the class
    size as weight, the sizes adding up to the number of candidates. *)
Lemma Group_clusters_weights_spec {D : Type} {ops : DoubleOps D}
    (src : Objects) (s : D) :
  exists buffer,
    Group_clusters src s = Ok buffer /\
    (length buffer <= length src)%nat /\
    Forall (fun b => 1 <= weight b /\ exists c, In c src /\ tag b = tag c) buffer /\
    sumZ (map weight buffer) = Z.of_nat (length src).
Proof.
  destruct (Group_clusters_spec src s)
    as (nclasses & labels & buffer & HP & HG & Hnc & Hll & Hlb & Hrep).
  destruct (Partition_total (Partition_fuel (length src)) src s
              ltac:(unfold Partition_fuel; lia) [])
    as (nclasses' & labels' & HP' & (_ & Hrange & _) & Hbound).
  rewrite HP in HP'. injection HP' as <- <-.
  exists buffer. split; [exact HG |]. split; [lia |].
  assert (Hbuf : buffer =
            map (fun c => representative (members src labels (Z.of_nat c)))
                (seq 0 (Z.to_nat nclasses))).
  { apply list_eq. intros c.
    destruct (Nat.lt_ge_cases c (Z.to_nat nclasses)) as [Hc | Hc].
    - destruct (Hrep (Z.of_nat c) ltac:(lia)) as (_ & Hb).
      rewrite Nat2Z.id in Hb. rewrite Hb.
      change (map ?f ?l) with (f <$> l).
      rewrite list_lookup_fmap, lookup_seq_lt by exact Hc. reflexivity.
    - rewrite !lookup_ge_None_2; [reflexivity | |].
      + rewrite length_map, length_seq. exact Hc.
      + lia. }
  split.
  - apply Forall_lookup_2. intros c b Hb.
    pose proof (lookup_lt_Some _ _ _ Hb) as Hc.
    destruct (Hrep (Z.of_nat c) ltac:(lia)) as (Hne & Hb').
    rewrite Nat2Z.id, Hb in Hb'. injection Hb' as ->.
    cbn [representative weight tag]. split.
    + destruct (members src labels (Z.of_nat c)); [contradiction | cbn [length]; lia].
    + exists (List.last (members src labels (Z.of_nat c)) Object_default).
      split; [| reflexivity].
      apply (members_upto_In _ src labels (Z.of_nat c) (length labels)).
      apply last_In. exact Hne.
  - rewrite Hbuf, map_map. cbn [representative weight].
    unfold members.
    rewrite (members_count src labels (Z.to_nat nclasses)); [lia | lia | | lia].
    intros i l Hl. specialize (Hrange i l Hl). lia.
Qed.

(** X3. The first half of [GroupObjects] conserves the candidates: it
    always returns, with at most as many clusters as candidates; every
    cluster has weight at least 1 and the tag of one of the candidates, and
    the weights of the clusters add up to the number of candidates. *)
Theorem Group_clusters_conserves_candidates {D : Type} {ops : DoubleOps D}
    (src : Objects) (s : D) :
  exists buffer,
    Group_clusters src s = Ok buffer /\
    (length buffer <= length src)%nat /\
    Forall (fun b => 1 <= weight b /\ exists c, In c src /\ tag b = tag c) buffer /\
    sumZ (map weight buffer) = Z.of_nat (length src).
Proof. apply Group_clusters_weights_spec. Qed.

Lemma Group_suppress_sublist {D : Type} {ops : DoubleOps D}
    (g : Z) (s : D) (buffer dst : Objects) :
  exists out,
    Group_suppress g s buffer dst = Ok (dst ++ out) /\
    sublist out buffer /\
    Forall (fun o => g <= to_size_t (weight o)) out.
Proof.
  unfold Group_suppress.
  destruct (for_inv
              (fun k d => exists out,
                 d = dst ++ out /\ sublist out (take (Z.to_nat k) buffer) /\
                 Forall (fun o => g <= to_size_t (weight o)) out)
              (Group_emit g s buffer) (length buffer) 0 dst)
    as (d' & Hf & out & -> & Hsub & Hall).
  - exists []. rewrite app_nil_r. split; [reflexivity |].
    split; [apply sublist_nil_l | constructor].
  - intros k d Hk (out & -> & Hsub & Hall). unfold Group_emit.
    destruct (at_in_range buffer k ltac:(lia)) as (bi & Hat & Hl).
    rewrite Hat, rbind_Ok.
    assert (Htake : take (Z.to_nat (k + 1)) buffer = take (Z.to_nat k) buffer ++ [bi]).
    { replace (Z.to_nat (k + 1)) with (S (Z.to_nat k)) by lia. now apply take_S_r. }
    assert (Hskip : exists out0,
              dst ++ out = dst ++ out0 /\
              sublist out0 (take (Z.to_nat (k + 1)) buffer) /\
              Forall (fun o => g <= to_size_t (weight o)) out0).
    { exists out. split; [reflexivity |]. split; [| exact Hall].
      rewrite Htake. now apply sublist_inserts_r. }
    destruct (Z.ltb_spec (to_size_t (weight bi)) g) as [Hlt | Hge];
      [eexists; split; [reflexivity | exact Hskip] |].
    destruct (Group_search_total g s buffer k bi (length buffer) 0 eq_refl)
      as (jf & Hjf).
    change (Z.of_nat 0) with 0 in Hjf. rewrite Hjf, rbind_Ok.
    destruct (jf =? Z.of_nat (length buffer));
      [| eexists; split; [reflexivity | exact Hskip]].
    eexists; split; [reflexivity |].
    exists (out ++ [bi]). split; [now rewrite app_assoc |]. split.
    + rewrite Htake. apply sublist_app; [exact Hsub | reflexivity].
    + apply Forall_app. split; [exact Hall |]. constructor; [exact Hge | constructor].
  - rewrite Hf. exists out. split; [reflexivity |]. split; [| exact Hall].
    replace (Z.to_nat (0 + Z.of_nat (length buffer))) with (length buffer) in Hsub
      by lia.
    now rewrite firstn_all in Hsub.
Qed.

Lemma sumZ_sublist (l k : list Object) :
  sublist l k -> Forall (fun o => 0 <= weight o) k ->
  sumZ (map weight l) <= sumZ (map weight k).
Proof.
  induction 1 as [| x l k Hs IH | x l k Hs IH]; intros Hk; cbn.
  - lia.
  - inversion Hk; subst. specialize (IH ltac:(assumption)). unfold sumZ in *. lia.
  - inversion Hk; subst. specialize (IH ltac:(assumption)). unfold sumZ in *. lia.
Qed.

Lemma sublist_Forall {A : Type} (P : A -> Prop) (l k : list A) :
  sublist l k -> Forall P k -> Forall P l.
Proof.
  induction 1 as [| x l k Hs IH | x l k Hs IH]; intros Hk.
  - constructor.
  - inversion Hk; subst. constructor; auto.
  - inversion Hk; subst. auto.
Qed.

Lemma sumZ_lower (g : Z) (l : list Object) :
  Forall (fun o => g <= weight o) l ->
  Z.of_nat (length l) * g <= sumZ (map weight l).
Proof.
  induction 1 as [| o l Ho Hl IH]; cbn [length map sumZ fold_right]; [lia |].
  fold (sumZ (map weight l)). lia.
Qed.

(** What [GroupObjects] appends to [dst]. *)
Lemma GroupObjects_output_spec {D : Type} {ops : DoubleOps D}
    (dst src : Objects) (g : Z) (s : D) :
  exists out,
    GroupObjects dst src g s = Ok (dst ++ out) /\
    Forall (fun o => 1 <= weight o /\ g <= weight o /\
                     exists c, In c src /\ tag o = tag c) out /\
    sumZ (map weight out) <= Z.of_nat (length src) /\
    Z.of_nat (length out) * g <= Z.of_nat (length src) /\
    (g = 0 -> out = []).
Proof.
  unfold GroupObjects.
  destruct ((g =? 0) || (Z.of_nat (length src) <? g)) eqn:Hearly.
  { exists []. rewrite app_nil_r. split; [reflexivity |].
    split; [constructor |]. cbn. repeat split; lia. }
  apply orb_false_iff in Hearly. destruct Hearly as (Hg0 & HgN).
  apply Z.eqb_neq in Hg0. apply Z.ltb_ge in HgN.
  destruct (Group_clusters_weights_spec src s) as (buffer & HG & Hlb & Hall & Hsum).
  rewrite HG, rbind_Ok.
  destruct (Group_suppress_sublist g s buffer dst) as (out & HS & Hsub & Hge).
  exists out. split; [exact HS |].
  pose proof (sublist_Forall _ _ _ Hsub Hall) as Hout.
  assert (Hall' : Forall (fun o => 1 <= weight o /\ g <= weight o /\
                                   exists c, In c src /\ tag o = tag c) out).
  { rewrite Forall_forall in *. intros o Ho.
    destruct (Hout o Ho) as (H1 & Hc). specialize (Hge o Ho). cbv beta in Hge.
    split; [exact H1 |]. split; [| exact Hc].
    pose proof (Z.mod_le (weight o) size_t_modulus ltac:(lia)
                         ltac:(unfold size_t_modulus; lia)).
    unfold to_size_t in Hge. lia. }
  split; [exact Hall' |].
  assert (Hs : sumZ (map weight out) <= Z.of_nat (length src)).
  { rewrite <- Hsum. apply sumZ_sublist; [exact Hsub |].
    eapply Forall_impl; [exact Hall |]. cbv beta. intros o (H1 & _). lia. }
  split; [exact Hs |]. split; [| contradiction].
  etransitivity; [| exact Hs]. apply sumZ_lower.
  eapply Forall_impl; [exact Hall' |]. cbv beta. tauto.
Qed.

(** X4. [GroupObjects] always returns and only appends to [dst].  Every
    object it appends has a weight of at least 1 and at least
    [groupSizeMin] and carries the tag of one of the candidates; the
    appended weights add up to at most the number of candidates, so at most
    [length src / groupSizeMin] objects are appended, and none when
    [groupSizeMin] is 0. *)
Theorem GroupObjects_appends_bounded {D : Type} {ops : DoubleOps D}
    (dst src : Objects) (groupSizeMin : Z) (s : D) :
  exists out,
    GroupObjects dst src groupSizeMin s = Ok (dst ++ out) /\
    Forall (fun o => 1 <= weight o /\ groupSizeMin <= weight o /\
                     exists c, In c src /\ tag o = tag c) out /\
    sumZ (map weight out) <= Z.of_nat (length src) /\
    Z.of_nat (length out) * groupSizeMin <= Z.of_nat (length src) /\
    (groupSizeMin = 0 -> out = []).
Proof. apply GroupObjects_output_spec. Qed.

(** ** One detection pass: [Hid::Detect] followed by [AddObjects] *)

Section Pass.
Context {D : Type} {ops : DoubleOps D} {prim : Primitives}.

Lemma In_mem (x : Z) (l : list Z) : In x l -> mem x l = true.
Proof.
  intros H. unfold mem. apply existsb_exists. exists x.
  split; [exact H | apply Z.eqb_refl].
Qed.

Lemma strided_In (lo hi st x : Z) :
  1 <= st -> (In x (strided lo hi st) <-> lo <= x < hi /\ (x - lo) mod st = 0).
Proof. intros Hst. unfold strided. apply scan_In; [exact Hst | lia]. Qed.

Lemma AddObjects_row (dst : View) (size : Size.t) (scale : D) (tag : Tag) (row : Z) :
  forall (cols : list Z) (objects : Objects),
    fold_left (AddObjects_cell dst size scale tag row) cols objects =
    objects ++ map (window_object size scale tag row)
                   (List.filter (fun col => negb (pixel dst row col =? 0)) cols).
Proof.
  induction cols as [| col cols IH]; intros objects; cbn [fold_left List.filter map].
  - now rewrite app_nil_r.
  - rewrite IH. unfold AddObjects_cell.
    destruct (negb (pixel dst row col =? 0)); cbn [map]; [| reflexivity].
    now rewrite <- app_assoc.
Qed.

(** [AddObjects] as a comprehension over the scanned positions. *)
Lemma AddObjects_hits (objects : Objects) (dst : View) (rect : Rect.t)
    (size : Size.t) (scale : D) (step : Z) (tag : Tag) :
  AddObjects objects dst rect size scale step tag =
  objects ++
  map (fun p => window_object size scale tag (fst p) (snd p))
      (scan_hits (fun row col => negb (pixel dst row col =? 0))
                 (valid_rect dst rect size) step).
Proof.
  unfold AddObjects, scan_hits. fold (valid_rect dst rect size).
  generalize (strided (Rect.top (valid_rect dst rect size))
                      (Rect.bottom (valid_rect dst rect size)) step) as rows.
  intros rows. revert objects.
  induction rows as [| row rows IH]; intros objects; cbn [fold_left flat_map map].
  - now rewrite app_nil_r.
  - rewrite IH, AddObjects_row, map_app, map_map, <- app_assoc. reflexivity.
Qed.

Lemma scan_hits_ext (t1 t2 : Z -> Z -> bool) (r : Rect.t) (step : Z) :
  (forall row col,
     In row (strided (Rect.top r) (Rect.bottom r) step) ->
     In col (strided (Rect.left r) (Rect.right r) step) -> t1 row col = t2 row col) ->
  scan_hits t1 r step = scan_hits t2 r step.
Proof.
  unfold scan_hits.
  generalize (strided (Rect.top r) (Rect.bottom r) step) as rows.
  induction rows as [| row rows IH]; intros Hext; cbn [flat_map]; [reflexivity |].
  rewrite IH by (intros; apply Hext; [now right | assumption]).
  f_equal. f_equal. apply filter_ext_in. intros col Hc. apply Hext; [now left | exact Hc].
Qed.

Lemma scan_hits_In (test : Z -> Z -> bool) (r : Rect.t) (step row col : Z) :
  In (row, col) (scan_hits test r step) <->
  In row (strided (Rect.top r) (Rect.bottom r) step) /\
  In col (strided (Rect.left r) (Rect.right r) step) /\ test row col = true.
Proof.
  unfold scan_hits. rewrite in_flat_map. split.
  - intros (row' & Hr & Hin). apply in_map_iff in Hin.
    destruct Hin as (col' & [= <- <-] & Hf). apply filter_In in Hf. tauto.
  - intros (Hr & Hc & Ht). exists row. split; [exact Hr |].
    apply in_map_iff. exists col. split; [reflexivity |]. apply filter_In. tauto.
Qed.

Lemma valid_rect_dims (a b : View) (rect : Rect.t) (size : Size.t) :
  width a = width b -> height a = height b ->
  valid_rect a rect size = valid_rect b rect size.
Proof. intros Hw Hh. unfold valid_rect, View_Size. now rewrite Hw, Hh. Qed.

(** The bitmap [Hid::Detect] leaves, on the synchronous path and on the
    parallel one. *)
Lemma Hid_Detect_pixels
    (bufs : Buffers) (h : Hid.t) (size : Size.t) (mask : View) (rect : Rect.t)
    (dst : View) (workers : list Worker) (throughColumn : bool) :
  let r := valid_rect dst rect size in
  let st := detect_stride (Hid.detect h) in
  Forall idle workers ->
  (st = 2 -> throughColumn = true) ->
  (workers <> [] ->
   Rect.bottom r + Z.of_nat (length workers) * (Rect.bottom r - Rect.top r + 2)
     < 2 ^ 63) ->
  exists dst' workers',
    Hid_Detect bufs h size mask rect dst workers throughColumn = Ok (dst', workers') /\
    format dst' = format dst /\ width dst' = width dst /\ height dst' = height dst /\
    length workers' = length workers /\ Forall idle workers' /\
    forall row col,
      pixel dst' row col =
      if mem row (strided (Rect.top r) (Rect.bottom r) st) &&
         mem col (strided (Rect.left r) (Rect.right r) st) &&
         hitb (verdict_of bufs h) (mask_region mask dst size) row col
      then 1 else 0.
Proof.
  cbv zeta. intros Hidle Hstride Hrange.
  set (r := valid_rect dst rect size) in *.
  set (m := mask_region mask dst size).
  assert (Hsync : forall d,
            format (run_detect bufs h m (Rect.left r) (Rect.top r) (Rect.right r)
                               (Rect.bottom r) (Fill d 0)) = format d /\
            width (run_detect bufs h m (Rect.left r) (Rect.top r) (Rect.right r)
                              (Rect.bottom r) (Fill d 0)) = width d /\
            height (run_detect bufs h m (Rect.left r) (Rect.top r) (Rect.right r)
                               (Rect.bottom r) (Fill d 0)) = height d /\
            forall row col,
              pixel (run_detect bufs h m (Rect.left r) (Rect.top r) (Rect.right r)
                                (Rect.bottom r) (Fill d 0)) row col =
              if mem row (strided (Rect.top r) (Rect.bottom r)
                                  (detect_stride (Hid.detect h))) &&
                 mem col (strided (Rect.left r) (Rect.right r)
                                  (detect_stride (Hid.detect h))) &&
                 hitb (verdict_of bufs h) m row col
              then 1 else 0).
  { intros d. unfold run_detect, verdict_of. destruct bufs as [[s q] t].
    destruct (kernel_dims (classify (Hid.detect h) (Hid.handle h) s q t) m
                (detect_stride (Hid.detect h)) (Rect.left r) (Rect.top r)
                (Rect.right r) (Rect.bottom r) (Fill d 0)) as (F2 & W2 & H2).
    split; [exact F2 |]. split; [exact W2 |]. split; [exact H2 |].
    intros row col. rewrite kernel_pixel. reflexivity. }
  destruct workers as [| w0 ws0] eqn:Ew.
  - destruct (Hsync dst) as (Hf & Hw & Hh & Hp).
    eexists _, []. split; [reflexivity |].
    split; [exact Hf |]. split; [exact Hw |]. split; [exact Hh |].
    split; [reflexivity |]. split; [constructor | exact Hp].
  - rewrite <- Ew in *. assert (Hne : workers <> []) by (rewrite Ew; discriminate).
    specialize (Hrange Hne).
    set (N := Z.of_nat (length workers)) in *.
    set (step := strip_step (Rect.top r) (Rect.bottom r) N throughColumn).
    pose proof (valid_rect_ordered dst rect size) as Htop. fold r in Htop.
    assert (HN : 1 <= N) by (subst N; rewrite Ew; cbn; lia).
    pose proof (strip_step_eq (Rect.top r) (Rect.bottom r) N throughColumn
                              Htop HN Hrange) as Hstep.
    fold step in Hstep.
    assert (Hpar :
      Hid_Detect bufs h size mask rect dst workers throughColumn =
      (for_ (length workers) 0 (Hid_Detect_add h m r step) workers ≫=
       fun ws => for_ (length workers) 0 (Hid_Detect_wait bufs) (Fill dst 0, ws))).
    { unfold Hid_Detect. subst step N m r. rewrite Ew. reflexivity. }
    rewrite Hpar.
    destruct (Hid_Detect_add_loop h m r step workers Hidle) as (ws1 & Hadd & Hl1 & Hk1).
    rewrite Hadd, rbind_Ok. rewrite <- Hl1.
    destruct (Hid_Detect_wait_loop bufs h m r step ws1 (Fill dst 0))
      as (ws2 & Hwait & Hl2 & Hidle2).
    { intros k Hk. apply Hk1. lia. }
    rewrite Hwait. eexists _, ws2. split; [reflexivity |].
    destruct (run_strips_dims bufs h m r step (length ws1) (Fill dst 0))
      as (F1 & W1 & H1).
    split; [exact F1 |]. split; [exact W1 |]. split; [exact H1 |].
    split; [lia |]. split; [exact Hidle2 |].
    intros row col.
    pose proof (run_strips_pixel bufs h m r step (length ws1) (Fill dst 0) row col)
      as Hpix.
    unfold verdict_of. destruct bufs as [[s q] t]. cbv zeta in Hpix.
    rewrite Hpix. cbn [Fill pixel].
    replace (length ws1) with (Z.to_nat N) by (unfold N; lia).
    rewrite Hstep, rows_upto_all; auto.
    + destruct (Hid.detect h); cbn; lia.
    + destruct (Z.eq_dec (detect_stride (Hid.detect h)) 2) as [E | E].
      * rewrite E, (Hstride E). unfold ideal_step. cbv zeta.
        apply Z.mod_divide; [lia | apply even_step].
      * replace (detect_stride (Hid.detect h)) with 1
          by (destruct (Hid.detect h); cbn in *; congruence).
        apply Z.divide_1_l.
Qed.

Lemma detect_stride_pos (p : DetectPtr) : 1 <= detect_stride p.
Proof. destruct p; cbn; lia. Qed.

(** X5. [Hid::Detect] leaves a bitmap that is 1 exactly at the hits and 0
    everywhere else, whatever the bitmap held before: a cell is 1 iff its
    row and column lie in the valid rectangle on the routine's stride grid,
    the mask is non-zero there and the cascade votes positive.  This holds
    for the synchronous path and, for an idle pool, for the parallel one;
    the pool is idle again afterwards and the bitmap keeps its size. *)
Theorem Hid_Detect_marks_exactly_hits
    (bufs : Buffers) (h : Hid.t) (size : Size.t) (mask : View) (rect : Rect.t)
    (dst : View) (workers : list Worker) (throughColumn : bool) :
  let r := valid_rect dst rect size in
  let st := detect_stride (Hid.detect h) in
  Forall idle workers ->
  (st = 2 -> throughColumn = true) ->
  (workers <> [] ->
   Rect.bottom r + Z.of_nat (length workers) * (Rect.bottom r - Rect.top r + 2)
     < 2 ^ 63) ->
  exists dst' workers',
    Hid_Detect bufs h size mask rect dst workers throughColumn = Ok (dst', workers') /\
    View_Size dst' = View_Size dst /\
    length workers' = length workers /\ Forall idle workers' /\
    forall row col,
      (pixel dst' row col = 1 \/ pixel dst' row col = 0) /\
      (pixel dst' row col = 1 <->
       (Rect.top r <= row < Rect.bottom r /\ (row - Rect.top r) mod st = 0) /\
       (Rect.left r <= col < Rect.right r /\ (col - Rect.left r) mod st = 0) /\
       pixel (mask_region mask dst size) row col <> 0 /\
       verdict_of bufs h row col = true).
Proof.
  cbv zeta. intros Hidle Hstride Hrange.
  destruct (Hid_Detect_pixels bufs h size mask rect dst workers throughColumn
                              Hidle Hstride Hrange)
    as (dst' & ws' & HD & _ & Hw & Hh & Hl & Hi' & Hpix).
  exists dst', ws'. split; [exact HD |].
  split; [unfold View_Size; now rewrite Hw, Hh |].
  split; [exact Hl |]. split; [exact Hi' |].
  intros row col. rewrite Hpix.
  pose proof (detect_stride_pos (Hid.detect h)) as Hst.
  rewrite <- !(mem_strided _ _ _ _ Hst).
  unfold hitb.
  destruct (mem row _), (mem col _),
           (Z.eqb_spec (pixel (mask_region mask dst size) row col) 0) as [E | E],
           (verdict_of bufs h row col); cbn [andb negb];
    (split; [auto |]); split; try discriminate; try tauto;
    intros (H1 & H2 & H3 & H4); try discriminate; try contradiction.
Qed.

(** X6. A detection pass of one evaluator composes as intended: when the
    stride of the routine is the step [AddObjects] is called with (2 under
    [throughColumn], else 1), [Hid::Detect] followed by [AddObjects] appends
    exactly one candidate per scanned position of the valid rectangle at
    which the mask is non-zero and the cascade votes positive, in row-major
    order, with or without worker threads. *)
Theorem detection_pass_candidates
    (bufs : Buffers) (h : Hid.t) (size : Size.t) (mask : View) (rect : Rect.t)
    (dst : View) (workers : list Worker) (throughColumn : bool)
    (objects : Objects) (scale : D) (tag : Tag) :
  let r := valid_rect dst rect size in
  let step := if throughColumn then 2 else 1 in
  Forall idle workers ->
  detect_stride (Hid.detect h) = step ->
  (workers <> [] ->
   Rect.bottom r + Z.of_nat (length workers) * (Rect.bottom r - Rect.top r + 2)
     < 2 ^ 63) ->
  exists dst' workers',
    Hid_Detect bufs h size mask rect dst workers throughColumn = Ok (dst', workers') /\
    AddObjects objects dst' rect size scale step tag =
    objects ++
    map (fun p => window_object size scale tag (fst p) (snd p))
        (scan_hits (hitb (verdict_of bufs h) (mask_region mask dst size)) r step).
Proof.
  cbv zeta. intros Hidle Hstride Hrange.
  destruct (Hid_Detect_pixels bufs h size mask rect dst workers throughColumn Hidle)
    as (dst' & ws' & HD & _ & Hw & Hh & _ & _ & Hpix).
  { rewrite Hstride. destruct throughColumn; [reflexivity | discriminate]. }
  { exact Hrange. }
  exists dst', ws'. split; [exact HD |].
  rewrite AddObjects_hits, (valid_rect_dims dst' dst rect size Hw Hh).
  f_equal. f_equal. apply scan_hits_ext. intros row col Hr Hc.
  rewrite Hpix, Hstride, (In_mem _ _ Hr), (In_mem _ _ Hc). cbn [andb].
  now destruct (hitb _ _ row col).
Qed.

(** X7. [AddObjects] only appends, and every object it appends has weight
    1, the given tag, and is the scaled window of a position with a
    non-zero bitmap cell that lies inside the valid rectangle; such a
    window starts at non-negative coordinates and ends strictly before the
    right and bottom edges of the level, so a window flush with the far
    edge is never reported. *)
Theorem AddObjects_windows_inside
    (objects : Objects) (dst : View) (rect : Rect.t) (size : Size.t) (scale : D)
    (step : Z) (t : Tag) :
  1 <= step ->
  exists new,
    AddObjects objects dst rect size scale step t = objects ++ new /\
    Forall (fun o =>
              weight o = 1 /\ tag o = t /\
              exists row col,
                o = window_object size scale t row col /\
                pixel dst row col <> 0 /\
                0 <= col /\ col + Size.x size < width dst /\
                0 <= row /\ row + Size.y size < height dst) new.
Proof.
  intros Hstep. rewrite AddObjects_hits. eexists; split; [reflexivity |].
  apply List.Forall_forall. intros o Ho. apply in_map_iff in Ho.
  destruct Ho as ([row col] & <- & Hin). cbn [fst snd].
  apply scan_hits_In in Hin. destruct Hin as (Hr & Hc & Ht).
  apply (strided_In _ _ _ _ Hstep) in Hr. apply (strided_In _ _ _ _ Hstep) in Hc.
  split; [reflexivity |]. split; [reflexivity |].
  exists row, col. split; [reflexivity |]. split.
  - destruct (Z.eqb_spec (pixel dst row col) 0); [discriminate | assumption].
  - unfold valid_rect, Rect.Intersection, Rect.of_size, Rect.Shifted, Size.sub,
      View_Size in Hr, Hc. cbn in Hr, Hc. lia.
Qed.
End Pass.

Lemma Hid_Detect_marks_exactly_hits_witness :
  let r := valid_rect (gray_image 8) (R4 0 0 8 8) (Size.mk 2 2) in
  let st := detect_stride (Hid.detect sample_hid) in
  exists dst' workers',
    Hid_Detect sample_buffers sample_hid (Size.mk 2 2) (all_set 8) (R4 0 0 8 8)
               (gray_image 8) two_workers true = Ok (dst', workers') /\
    View_Size dst' = View_Size (gray_image 8) /\
    length workers' = length two_workers /\ Forall idle workers' /\
    forall row col,
      (pixel dst' row col = 1 \/ pixel dst' row col = 0) /\
      (pixel dst' row col = 1 <->
       (Rect.top r <= row < Rect.bottom r /\ (row - Rect.top r) mod st = 0) /\
       (Rect.left r <= col < Rect.right r /\ (col - Rect.left r) mod st = 0) /\
       pixel (mask_region (all_set 8) (gray_image 8) (Size.mk 2 2)) row col <> 0 /\
       verdict_of sample_buffers sample_hid row col = true).
Proof.
  apply (Hid_Detect_marks_exactly_hits sample_buffers sample_hid (Size.mk 2 2)
           (all_set 8) (R4 0 0 8 8) (gray_image 8) two_workers true).
  - repeat constructor.
  - reflexivity.
  - intros _. vm_compute. reflexivity.
Defined.

Lemma detection_pass_candidates_witness :
  let r := valid_rect (gray_image 8) (R4 0 0 8 8) (Size.mk 2 2) in
  exists dst' workers',
    Hid_Detect sample_buffers sample_hid (Size.mk 2 2) (all_set 8) (R4 0 0 8 8)
               (gray_image 8) two_workers true = Ok (dst', workers') /\
    AddObjects [] dst' (R4 0 0 8 8) (Size.mk 2 2) (inject_Z 1) 2 7 =
    [] ++
    map (fun p => window_object (Size.mk 2 2) (inject_Z 1) 7 (fst p) (snd p))
        (scan_hits (hitb (verdict_of sample_buffers sample_hid)
                         (mask_region (all_set 8) (gray_image 8) (Size.mk 2 2)))
                   r 2).
Proof.
  apply (detection_pass_candidates sample_buffers sample_hid (Size.mk 2 2)
           (all_set 8) (R4 0 0 8 8) (gray_image 8) two_workers true []
           (inject_Z 1) 7).
  - repeat constructor.
  - reflexivity.
  - intros _. vm_compute. reflexivity.
Defined.

Lemma AddObjects_windows_inside_witness :
  exists new,
    AddObjects [] (all_set 8) (R4 0 0 8 8) (Size.mk 2 2) (inject_Z 1) 2 7 = [] ++ new /\
    Forall (fun o =>
              weight o = 1 /\ tag o = 7 /\
              exists row col,
                o = window_object (Size.mk 2 2) (inject_Z 1) 7 row col /\
                pixel (all_set 8) row col <> 0 /\
                0 <= col /\ col + Size.x (Size.mk 2 2) < width (all_set 8) /\
                0 <= row /\ row + Size.y (Size.mk 2 2) < height (all_set 8)) new.
Proof.
  apply (AddObjects_windows_inside [] (all_set 8) (R4 0 0 8 8) (Size.mk 2 2)
           (inject_Z 1) 2 7).
  lia.
Defined.

(** ** What [Detect] leaves alone *)

Section Frame.
Context {D : Type} {ops : DoubleOps D} {prim : Primitives}.

Lemma EstimateIntegral_static (level : Level.t D) :
  Level_static (EstimateIntegral level) = Level_static level.
Proof.
  unfold EstimateIntegral.
  destruct (Level.needSqsum level) eqn:Eq; [destruct (Level.needTilted level) eqn:Et |].
  - destruct (Integral3 _ _ _ _) as [[s q] t]. unfold Level_static. cbn.
    now rewrite Eq, Et.
  - destruct (Integral2 _ _ _) as [s q]. unfold Level_static. cbn.
    now rewrite Eq, Et.
  - unfold Level_static. cbn. now rewrite Eq.
Qed.

Lemma FillLevels_static (needNormalization : bool) (levels : list (Level.t D))
    (src : View) :
  map Level_static (FillLevels needNormalization levels src) = map Level_static levels.
Proof.
  destruct levels as [| level0 rest]; [reflexivity |].
  unfold FillLevels. cbn [map]. f_equal.
  - rewrite EstimateIntegral_static. now destruct needNormalization.
  - rewrite map_map. apply map_ext. intros l. unfold FillLevels_next.
    now rewrite EstimateIntegral_static.
Qed.

Lemma Task_Run_dims (bufs : Buffers) (t : Task) (d : View) :
  format (Task_Run bufs t d) = format d /\
  width (Task_Run bufs t d) = width d /\ height (Task_Run bufs t d) = height d.
Proof.
  unfold Task_Run, run_detect. destruct bufs as [[s q] tl]. apply kernel_dims.
Qed.

Lemma Worker_Wait_dims (bufs : Buffers) (w : Worker) (d : View) :
  format (fst (Worker_Wait bufs w d)) = format d /\
  width (fst (Worker_Wait bufs w d)) = width d /\
  height (fst (Worker_Wait bufs w d)) = height d.
Proof.
  unfold Worker_Wait. cbn [fst]. generalize (_tasks w) as ts. intros ts. revert d.
  induction ts as [| t ts IH]; intros d; cbn [fold_left]; [auto |].
  destruct (IH (Task_Run bufs t d)) as (H1 & H2 & H3).
  destruct (Task_Run_dims bufs t d) as (H4 & H5 & H6).
  repeat split; congruence.
Qed.

(** [Hid::Detect] keeps the geometry of the bitmap and the size of the
    pool, whatever the pool holds. *)
Lemma Hid_Detect_frame (bufs : Buffers) (h : Hid.t) (size : Size.t) (mask : View)
    (rect : Rect.t) (dst : View) (workers : list Worker) (throughColumn : bool)
    (dst' : View) (workers' : list Worker) :
  Hid_Detect bufs h size mask rect dst workers throughColumn = Ok (dst', workers') ->
  format dst' = format dst /\ View_Size dst' = View_Size dst /\
  length workers' = length workers.
Proof.
  intros H.
  destruct (Hid_Detect_total bufs h size mask rect dst workers throughColumn)
    as (d1 & w1 & H1 & Hlen).
  rewrite H in H1. injection H1 as <- <-.
  assert (Hd : format dst' = format dst /\ width dst' = width dst /\
               height dst' = height dst).
  { unfold Hid_Detect in H. destruct workers as [| w ws].
    - injection H as <- _. unfold run_detect. destruct bufs as [[s q] t].
      exact (kernel_dims _ _ _ _ _ _ _ (Fill dst 0)).
    - destruct (for_ _ _ (Hid_Detect_add _ _ _ _) _) as [ws1 | | | |];
        try discriminate.
      rewrite rbind_Ok in H.
      apply (for_preserves
               (fun st : View * list Worker =>
                  format (fst st) = format dst /\ width (fst st) = width dst /\
                  height (fst st) = height dst)
               (Hid_Detect_wait bufs)) in H; [exact H | | cbn; auto].
      intros k [d ws0] st' Hw (Hf & Hwd & Hh). cbn [fst] in *.
      unfold Hid_Detect_wait in Hw.
      destruct (at_ ws0 k) as [w' | | | |]; try discriminate.
      rewrite rbind_Ok in Hw.
      pose proof (Worker_Wait_dims bufs w' d) as (G1 & G2 & G3).
      destruct (Worker_Wait bufs w' d) as [d2 w2]. cbn [fst] in *.
      destruct (put_ ws0 k w2); try discriminate.
      rewrite rbind_Ok in Hw. injection Hw as <-. cbn [fst].
      repeat split; congruence. }
  destruct Hd as (Hf & Hw & Hh).
  split; [exact Hf |]. split; [unfold View_Size; now rewrite Hw, Hh | exact Hlen].
Qed.

Lemma Detect_hid_static (datas : list Data.t) (mask : View) (rect : Rect.t)
    (j : Z) (st st' : Detect_state) :
  Detect_hid false datas mask rect j st = Ok st' ->
  Level_static (fst (fst st')) = Level_static (fst (fst st)) /\
  length (snd (fst st')) = length (snd (fst st)).
Proof.
  destruct st as [[level workers] candidates]. cbn [fst snd].
  intros H. unfold Detect_hid in H. cbn [Hid_data] in H.
  destruct (at_ (Level.hids level) j) as [hid | | | |]; try discriminate.
  rewrite rbind_Ok in H.
  destruct (at_ datas (Z.of_nat (Hid.data hid))) as [d | | | |]; try discriminate.
  rewrite rbind_Ok in H.
  destruct (Hid_Detect _ _ _ _ _ _ _ _) as [[dst' workers'] | | | |] eqn:E;
    try discriminate.
  rewrite rbind_Ok in H. injection H as <-. cbn [fst snd].
  apply Hid_Detect_frame in E as (_ & Hs & Hl).
  split; [| exact Hl]. unfold Level_static. cbn. now rewrite Hs.
Qed.

Lemma FillMotionMask_static (rects : list Rect.t) (level : Level.t D) :
  Level_static (fst (FillMotionMask rects level)) = Level_static level.
Proof.
  unfold FillMotionMask. destruct (fold_left _ _ _) as [mask rect]. reflexivity.
Qed.

Lemma Detect_level_static (datas : list Data.t) (motionMask : bool)
    (motionRegions : list Rect.t) (i : Z)
    (st st' : list (Level.t D) * list Worker * Candidates) :
  Detect_level false datas motionMask motionRegions i st = Ok st' ->
  map Level_static (fst (fst st')) = map Level_static (fst (fst st)) /\
  length (snd (fst st')) = length (snd (fst st)).
Proof.
  destruct st as [[levels workers] candidates]. cbn [fst snd].
  intros H. unfold Detect_level in H.
  destruct (at_ levels i) as [level | | | |] eqn:Eat; try discriminate.
  rewrite rbind_Ok in H. apply at_inv in Eat as (Hi0 & Hl).
  set (pre := if motionMask then _ else _) in H.
  assert (Hpre : Level_static (fst (fst pre)) = Level_static level).
  { subst pre. destruct motionMask; [| reflexivity].
    pose proof (FillMotionMask_static motionRegions level) as Hs.
    destruct (FillMotionMask motionRegions level) as [l1 r1]. exact Hs. }
  destruct pre as [[level1 mask] rect]. cbn [fst] in Hpre.
  assert (Hput : forall (level' : Level.t D) ws c,
            Level_static level' = Level_static level ->
            length ws = length workers ->
            (levels0 ← put_ levels i level'; Ok (levels0, ws, c)) = Ok st' ->
            map Level_static (fst (fst st')) = map Level_static levels /\
            length (snd (fst st')) = length workers).
  { intros level' ws c Hs Hws Hp. unfold put_ in Hp.
    destruct (_ && _); [| discriminate]. rewrite rbind_Ok in Hp.
    injection Hp as <-. cbn [fst snd]. split; [| exact Hws].
    change (map ?f ?l) with (f <$> l).
    rewrite list_fmap_insert, Hs. apply list_insert_id.
    now rewrite list_lookup_fmap, Hl. }
  destruct (Rect.Empty rect); [now apply (Hput level1 workers candidates) |].
  destruct (for_ _ _ _ _) as [[[level2 workers2] cand2] | | | |] eqn:Ef;
    try discriminate.
  rewrite rbind_Ok in H.
  pose proof (for_preserves
    (fun s : Detect_state =>
       Level_static (fst (fst s)) = Level_static level /\
       length (snd (fst s)) = length workers)
    (Detect_hid false datas mask rect)) as Hfp.
  destruct (Hfp ltac:(intros k s0 s1 Hb (Hs0 & Hl0);
                      apply Detect_hid_static in Hb as (Hs1 & Hl1);
                      split; congruence)
                _ _ _ _ Ef (conj Hpre eq_refl)) as (Hs2 & Hl2).
  cbn [fst snd] in *. now apply (Hput level2 workers2 cand2).
Qed.

(** [Detect] changes nothing but the pixel buffers of the levels. *)
Lemma Detect_frame (det : Detection D) (src : View) (objects : Objects)
    (groupSizeMin : Z) (sizeDifferenceMax : D) (motionMask : bool)
    (motionRegions : list Rect.t) (b : bool) (objects' : Objects)
    (det' : Detection D) :
  Detect det src objects groupSizeMin sizeDifferenceMax motionMask motionRegions
    = Ok (b, objects', det') ->
  _data det' = _data det /\ _imageSize det' = _imageSize det /\
  _needNormalization det' = _needNormalization det /\
  map Level_static (_levels det') = map Level_static (_levels det) /\
  length (_workers det') = length (_workers det).
Proof.
  intros H. unfold Detect in H.
  destruct (_ || _); [injection H as _ _ <-; auto |].
  destruct (_freed det) eqn:Hfr; [discriminate |].
  destruct (for_ _ _ _ _) as [[[levels workers] candidates] | | | |] eqn:Ef;
    try discriminate.
  apply (for_ok_ext _ (Detect_level false (_data det) motionMask motionRegions))
    in Ef; [| intros k0 s0 s1; apply Detect_level_stale].
  rewrite rbind_Ok in H.
  destruct (Detect_group _ _ _ _) as [out | | | |]; try discriminate.
  rewrite rbind_Ok in H. injection H as _ _ <-. cbn.
  pose proof (for_preserves
    (fun s : list (Level.t D) * list Worker * Candidates =>
       map Level_static (fst (fst s)) = map Level_static (_levels det) /\
       length (snd (fst s)) = length (_workers det))
    (Detect_level false (_data det) motionMask motionRegions)) as Hfp.
  destruct (Hfp ltac:(intros k s0 s1 Hb (Hs0 & Hl0);
                      apply Detect_level_static in Hb as (Hs1 & Hl1);
                      split; congruence)
                _ _ _ _ Ef) as (Hs & Hl).
  { cbn [fst snd]. split; [apply FillLevels_static | reflexivity]. }
  cbn [fst snd] in *. auto.
Qed.
End Frame.

(** ** Invariants of the detectors a client can obtain *)

Section Sound.
Context {D : Type} {ops : DoubleOps D} {prim : Primitives}.

Lemma level_sound_static (datas : list Data.t) (sz : Size.t) (l l' : Level.t D) :
  Level_static l' = Level_static l ->
  level_sound datas sz l -> level_sound datas sz l'.
Proof.
  unfold Level_static, level_sound, View_Size.
  intros [= -> -> _ _ -> -> -> -> ->]. auto.
Qed.

Lemma levels_sound_static (datas : list Data.t) (sz : Size.t) :
  forall ls ls' : list (Level.t D),
    map Level_static ls' = map Level_static ls ->
    Forall (level_sound datas sz) ls -> Forall (level_sound datas sz) ls' /\
    existsb Level.needSqsum ls' = existsb Level.needSqsum ls.
Proof.
  induction ls as [| l ls IH]; intros [| l' ls'] Hm Hs; try discriminate.
  - split; [constructor | reflexivity].
  - cbn [map] in Hm.
    pose proof (f_equal (hd (Level_static l)) Hm) as Hl.
    pose proof (f_equal (@tl _) Hm) as Hm'. cbn [hd tl] in Hl, Hm'.
    apply Forall_cons in Hs as (Hs0 & Hs).
    destruct (IH ls' Hm' Hs) as (G1 & G2).
    split; [constructor; [now apply (level_sound_static datas sz l) | exact G1] |].
    cbn [existsb]. rewrite G2. f_equal.
    exact (f_equal (fun t => snd (fst (fst t))) Hl).
Qed.

Lemma model_flag_app (datas extra : list Data.t) (f : Data.t -> bool) (tc : bool)
    (hids : list Hid.t) :
  Forall (hid_sound datas tc) hids ->
  Forall (hid_sound (datas ++ extra) tc) hids /\
  existsb (model_flag (datas ++ extra) f) hids = existsb (model_flag datas f) hids.
Proof.
  induction 1 as [| h hids (Hh & d & Hd & Hsel) _ (IH1 & IH2)];
    [split; [constructor | reflexivity] |].
  assert (Hd' : (datas ++ extra) !! Hid.data h = Some d)
    by now apply lookup_app_l_Some.
  split.
  - constructor; [| exact IH1]. split; [exact Hh |]. now exists d.
  - cbn [existsb]. rewrite IH2. unfold model_flag. now rewrite Hd, Hd'.
Qed.

Lemma level_sound_app (datas extra : list Data.t) (sz : Size.t) (l : Level.t D) :
  level_sound datas sz l -> level_sound (datas ++ extra) sz l.
Proof.
  intros (Ht & Hh & Hq & Htl & Hd).
  destruct (model_flag_app datas extra Data.Haar _ _ Hh) as (Hh' & Eq).
  destruct (model_flag_app datas extra Data.Tilted _ _ Hh) as (_ & Et).
  split; [exact Ht |]. split; [exact Hh' |].
  split; [now rewrite Eq |]. split; [now rewrite Et | exact Hd].
Qed.

Lemma InitLevels_alloc_sound (datas : list Data.t) (imageSize : Size.t) (scale : D) :
  level_sound datas imageSize (InitLevels_alloc imageSize scale).
Proof.
  unfold level_sound, InitLevels_alloc. cbn.
  split; [reflexivity |]. split; [constructor |]. auto.
Qed.

Lemma InitLevels_roi_sound (datas : list Data.t) (sz : Size.t) (roi : View)
    (level : Level.t D) :
  level_sound datas sz level -> level_sound datas sz (InitLevels_roi roi level).
Proof.
  intros Hs. unfold InitLevels_roi.
  destruct (Format_eqb (format roi) FormatNone); exact Hs.
Qed.

(** The binding loop keeps the level sound and accumulates the Haar flag of
    the bound models into [_needNormalization]. *)
Lemma InitLevels_bind_sound (alldatas : list Data.t) (sz : Size.t) (nn0 : bool) :
  forall (datas : list Data.t) (inserts : list bool) (i : nat)
         (level : Level.t D) (nn : bool),
    (forall k d, datas !! k = Some d -> alldatas !! (i + k)%nat = Some d) ->
    level_sound alldatas sz level ->
    nn = nn0 || Level.needSqsum level ->
    level_sound alldatas sz
      (snd (fst (InitLevels_bind datas inserts i level nn))) /\
    snd (InitLevels_bind datas inserts i level nn) =
      nn0 || Level.needSqsum (snd (fst (InitLevels_bind datas inserts i level nn))).
Proof.
  induction datas as [| d datas IH]; intros inserts i level nn Hat Hs Hnn;
    [now split |].
  destruct inserts as [| ins inserts]; [now split |].
  assert (Hat' : forall k d0, datas !! k = Some d0 ->
                              alldatas !! (S i + k)%nat = Some d0).
  { intros k d0 Hk. specialize (Hat (S k) d0 Hk).
    now replace (S i + k)%nat with (i + S k)%nat by lia. }
  cbn [InitLevels_bind]. destruct ins; cbn [negb]; [| now apply IH].
  destruct (Z.eqb_spec (SimdDetectionInit (Data.handle d) (Level.sum level)
                          (Level.sqsum level) (Level.tilted level)
                          (Level.throughColumn level) (Data.Int16 d)) 0)
    as [| Hne]; [now split |].
  assert (Hd : alldatas !! i = Some d).
  { specialize (Hat 0%nat d eq_refl). now rewrite Nat.add_0_r in Hat. }
  destruct Hs as (Ht & Hh & Hq & Htl & Hdst).
  apply IH; [exact Hat' | |].
  - unfold level_sound.
    cbn [Level.set_need Level.set_hids Level.hids Level.throughColumn Level.scale
         Level.needSqsum Level.needTilted Level.dst].
    split; [exact Ht |]. split.
    { apply Forall_app. split; [exact Hh |]. constructor; [| constructor].
      split; [exact Hne |]. exists d. split; [exact Hd | reflexivity]. }
    rewrite !existsb_app. cbn [existsb]. unfold model_flag at 2 4.
    cbn [Hid.data]. rewrite Hd, !orb_false_r, <- Hq, <- Htl.
    split; [reflexivity |]. split; [reflexivity | exact Hdst].
  - cbn [Level.set_need Level.set_hids Level.needSqsum].
    rewrite Hnn. now rewrite orb_assoc.
Qed.

Lemma InitLevels_loop_sound (scaleFactor : D) (sizeMin sizeMax : Size.t)
    (roi : View) :
  forall (fuel : nat) (det : Detection D) (scale : D) (b : bool) (det' : Detection D),
    InitLevels_loop fuel det scaleFactor sizeMin sizeMax roi scale = Ok (b, det') ->
    Forall (level_sound (_data det) (_imageSize det)) (_levels det) ->
    _needNormalization det = existsb Level.needSqsum (_levels det) ->
    Forall (level_sound (_data det') (_imageSize det')) (_levels det') /\
    _needNormalization det' = existsb Level.needSqsum (_levels det') /\
    _workers det' = _workers det.
Proof.
  induction fuel as [| fuel IH]; intros det scale b det' H Hl Hn; [discriminate |].
  cbn [InitLevels_loop] in H.
  destruct (fold_left _ _ _) as [[inserts exit] insert].
  destruct exit; [injection H as _ <-; auto |].
  destruct insert; [| now apply IH in H].
  destruct (InitLevels_bind_sound (_data det) (_imageSize det) (_needNormalization det)
              (_data det) inserts 0
              (InitLevels_alloc (_imageSize det) scale) (_needNormalization det))
    as (Hb1 & Hb2).
  { intros k d Hk. exact Hk. }
  { apply InitLevels_alloc_sound. }
  { cbn. now rewrite orb_false_r. }
  destruct (InitLevels_bind _ _ _ _ _) as [[bound level] nn]. cbn [fst snd] in Hb1, Hb2.
  assert (Hpush : forall level',
            level_sound (_data det) (_imageSize det) level' ->
            Level.needSqsum level' = Level.needSqsum level ->
            Forall (level_sound (_data det) (_imageSize det))
                   (_levels det ++ [level']) /\
            nn = existsb Level.needSqsum (_levels det ++ [level'])).
  { intros level' Hs Hq. split.
    - apply Forall_app. split; [exact Hl |]. constructor; [exact Hs | constructor].
    - rewrite existsb_app. cbn [existsb]. now rewrite orb_false_r, Hq, <- Hn. }
  destruct bound.
  - destruct (Hpush (InitLevels_roi roi level)) as (P1 & P2).
    { now apply InitLevels_roi_sound. }
    { unfold InitLevels_roi. destruct (Format_eqb _ _); reflexivity. }
    apply IH in H; [exact H | exact P1 | exact P2].
  - injection H as _ <-. destruct (Hpush level Hb1 eq_refl) as (P1 & P2).
    cbn [Levels_push_back Levels_clear _levels _data _imageSize _needNormalization _workers]. auto.
Qed.

Lemma level_sound_coherent (datas : list Data.t) (sz : Size.t) (l : Level.t D) :
  level_sound datas sz l -> level_coherent l.
Proof.
  intros (_ & Hh & _). unfold level_coherent.
  eapply Forall_impl; [exact Hh |]. intros h (_ & d & _ & ->).
  apply select_detect_stride.
Qed.

Lemma Detect_sound (det : Detection D) (src : View) (objects : Objects)
    (groupSizeMin : Z) (sizeDifferenceMax : D) (motionMask : bool)
    (motionRegions : list Rect.t) (b : bool) (objects' : Objects)
    (det' : Detection D) :
  Detect det src objects groupSizeMin sizeDifferenceMax motionMask motionRegions
    = Ok (b, objects', det') ->
  det_sound det -> det_sound det'.
Proof.
  intros H (Hl & Hn & Hi).
  destruct (Detect_frame _ _ _ _ _ _ _ _ _ _ H) as (Ed & Es & En & Em & _).
  destruct (levels_sound_static (_data det) (_imageSize det) _ _ Em Hl) as (Hl' & Hq).
  split; [now rewrite Ed, Es |]. split.
  - intros Hne. rewrite En, Hq. apply Hn. intros E. rewrite E in Em.
    destruct (_levels det'); [contradiction | discriminate].
  - apply (Detect_coherent _ _ _ _ _ _ _ _ _ _ H). split; [| exact Hi].
    eapply Forall_impl; [exact Hl |]. intros l. apply level_sound_coherent.
Qed.

Lemma reachable_sound (det : Detection D) : reachable det -> det_sound det.
Proof.
  induction 1 as [| det path tag _ IH
                  | det fuel sz f smin smax roi tn b det' _ IH HI
                  | det src objs g s mm mr b objs' det' _ IH HD].
  - split; [constructor |]. split; [intros Hne; now contradiction Hne | constructor].
  - unfold Load. destruct (_ =? 0); [exact IH |].
    destruct (SimdDetectionInfo _) as [size flags].
    destruct IH as (Hl & Hn & Hi). split; [| split; [exact Hn | exact Hi]].
    cbn [snd _data _imageSize _levels].
    eapply Forall_impl; [exact Hl |]. intros l. apply level_sound_app.
  - unfold Init in HI. destruct (_data det) eqn:Ed;
      [injection HI as _ <-; exact IH |].
    unfold InitLevels in HI. apply InitLevels_loop_sound in HI.
    + destruct HI as (Hl & Hn & Hw). split; [exact Hl |].
      split; [intros _; exact Hn |]. rewrite Hw. cbn.
      apply InitWorkers_idle. apply IH.
    + constructor.
    + reflexivity.
  - eapply Detect_sound; eauto.
Qed.

Lemma select_detect_step (d : Data.t) (tc : bool) :
  detect_stride (select_detect d tc) = if tc then 2 else 1.
Proof.
  unfold select_detect. destruct (Data.Haar d), (Data.Int16 d), tc; reflexivity.
Qed.

(** X8. In every detector obtained from a fresh one by [Load], [Init] and
    [Detect] calls and still usable (no model loaded since the evaluators
    were bound, no level pushed beyond the reserved capacity), each
    evaluator of each level has a non-NULL handle, points at a registered
    model and holds the routine selected by that model's flags and the
    level's [throughColumn]; hence its stride is the step [Detect] passes
    to [AddObjects] (2 under [throughColumn], else 1).  Between calls every
    worker's queue is empty. *)
Theorem reachable_evaluators_match_models (det : Detection D) :
  reachable det ->
  usable det ->
  Forall (fun level =>
            Forall (fun h =>
                      Hid.handle h <> 0 /\
                      (exists d, _data det !! Hid.data h = Some d /\
                                 Hid.detect h =
                                   select_detect d (Level.throughColumn level)) /\
                      detect_stride (Hid.detect h) =
                        (if Level.throughColumn level then 2 else 1))
                   (Level.hids level))
         (_levels det) /\
  Forall idle (_workers det).
Proof.
  intros Hr _. destruct (reachable_sound det Hr) as (Hl & _ & Hi).
  split; [| exact Hi].
  eapply Forall_impl; [exact Hl |]. intros l (_ & Hh & _).
  eapply Forall_impl; [exact Hh |]. intros h (Hn & d & Hd & Hsel).
  split; [exact Hn |]. split; [now exists d |].
  rewrite Hsel. apply select_detect_step.
Qed.

(** X9. In every detector obtained from a fresh one by [Load], [Init] and
    [Detect] calls each level scans every second position
    exactly when its scale is at most 2, asks for the squared (tilted)
    integral exactly when one of its evaluators' models is a Haar (tilted)
    cascade, and has a hit bitmap of the image size divided by its scale;
    once levels exist, the source is histogram-normalised exactly when some
    level holds a Haar evaluator. *)
Theorem reachable_level_flags (det : Detection D) :
  reachable det ->
  Forall (fun level =>
            Level.throughColumn level = Dleb (Level.scale level) (D_of_Z 2) /\
            Level.needSqsum level =
              existsb (model_flag (_data det) Data.Haar) (Level.hids level) /\
            Level.needTilted level =
              existsb (model_flag (_data det) Data.Tilted) (Level.hids level) /\
            View_Size (Level.dst level) =
              Size.unscale (_imageSize det) (Level.scale level))
         (_levels det) /\
  (_levels det <> [] ->
   _needNormalization det = existsb Level.needSqsum (_levels det)).
Proof.
  intros Hr. destruct (reachable_sound det Hr) as (Hl & Hn & _).
  split; [| exact Hn].
  eapply Forall_impl; [exact Hl |]. intros l (H1 & _ & H2 & H3 & H4). auto.
Qed.

(** X10. [Detect] is repeatable: on every such detector that is usable
    (no model loaded since the evaluators were bound, no level pushed
    beyond the reserved capacity) it returns, and it changes neither the
    models, the image size, the normalisation flag, the size of the pool
    nor the fixed part of any level (evaluators, scale, region of interest,
    flags, bitmap size), and leaves the detector usable; so the next call
    accepts exactly the images this one accepts, and returns as well. *)
Theorem Detect_repeatable (det : Detection D) (src : View) (objects : Objects)
    (groupSizeMin : Z) (sizeDifferenceMax : D) (motionMask : bool)
    (motionRegions : list Rect.t) :
  reachable det ->
  usable det ->
  exists b objects' det',
    Detect det src objects groupSizeMin sizeDifferenceMax motionMask motionRegions
      = Ok (b, objects', det') /\
    (_data det' = _data det /\ _imageSize det' = _imageSize det /\
     _needNormalization det' = _needNormalization det /\
     map Level_static (_levels det') = map Level_static (_levels det) /\
     length (_workers det') = length (_workers det)) /\
    usable det' /\
    forall src2 objects2 g2 s2 mm2 mr2,
      (Detect_rejects det' src2 <-> Detect_rejects det src2) /\
      exists b2 objects2' det2,
        Detect det' src2 objects2 g2 s2 mm2 mr2 = Ok (b2, objects2', det2) /\
        (b2 = false <-> Detect_rejects det src2).
Proof.
  intros Hr Hu. destruct (reachable_wf det Hr) as (Hwf & _).
  assert (HD : exists b objects' det',
            Detect det src objects groupSizeMin sizeDifferenceMax motionMask
                   motionRegions = Ok (b, objects', det')).
  { destruct (Detect_cases det src objects groupSizeMin sizeDifferenceMax motionMask
                           motionRegions Hwf Hu)
      as [(_ & H) | (_ & o & l & w & H & _)]; eauto. }
  destruct HD as (b & objects' & det' & HD).
  exists b, objects', det'. split; [exact HD |].
  pose proof (Detect_frame _ _ _ _ _ _ _ _ _ _ HD) as Hf.
  split; [exact Hf |]. destruct Hf as (Ed & Es & _ & Em & _).
  assert (Hu' : usable det').
  { destruct (Detect_Ok_wf _ _ _ _ _ _ _ _ _ _ Hwf HD) as (_ & _ & _ & Hs & Hf).
    destruct Hu as (Hu1 & Hu2). split; congruence. }
  split; [exact Hu' |].
  intros src2 objects2 g2 s2 mm2 mr2.
  assert (Hrej : Detect_rejects det' src2 <-> Detect_rejects det src2).
  { unfold Detect_rejects. rewrite Es.
    assert (_levels det' = [] <-> _levels det = []); [| tauto].
    split; intros E; rewrite E in Em.
    - destruct (_levels det); [reflexivity | discriminate].
    - destruct (_levels det'); [reflexivity | discriminate]. }
  split; [exact Hrej |].
  destruct (reachable_wf det' (reachable_Detect _ _ _ _ _ _ _ _ _ _ Hr HD))
    as (Hwf' & _).
  destruct (Detect_cases det' src2 objects2 g2 s2 mm2 mr2 Hwf' Hu')
    as [(Hy & H) | (Hn & o & l & w & H & _)].
  - eexists _, _, _. split; [exact H |]. tauto.
  - eexists _, _, _. split; [exact H |]. split; [discriminate | tauto].
Qed.
End Sound.

Lemma ready_det_reachable : reachable ready_det.
Proof.
  apply (reachable_Init loaded_det 3 (Size.mk 4 4) (inject_Z 2) (Size.mk 0 0)
                        (Size.mk 100 100) View_default 1 true ready_det).
  - apply reachable_Load, reachable_new.
  - vm_compute. reflexivity.
Qed.

Lemma ready_det_usable : usable ready_det.
Proof. split; reflexivity. Qed.

Lemma reachable_evaluators_match_models_witness :
  Forall (fun level =>
            Forall (fun h =>
                      Hid.handle h <> 0 /\
                      (exists d, _data ready_det !! Hid.data h = Some d /\
                                 Hid.detect h =
                                   select_detect d (Level.throughColumn level)) /\
                      detect_stride (Hid.detect h) =
                        (if Level.throughColumn level then 2 else 1))
                   (Level.hids level))
         (_levels ready_det) /\
  Forall idle (_workers ready_det).
Proof.
  apply (reachable_evaluators_match_models ready_det ready_det_reachable
                                           ready_det_usable).
Defined.

Lemma reachable_level_flags_witness :
  Forall (fun level =>
            Level.throughColumn level = Dleb (Level.scale level) (D_of_Z 2) /\
            Level.needSqsum level =
              existsb (model_flag (_data ready_det) Data.Haar) (Level.hids level) /\
            Level.needTilted level =
              existsb (model_flag (_data ready_det) Data.Tilted) (Level.hids level) /\
            View_Size (Level.dst level) =
              Size.unscale (_imageSize ready_det) (Level.scale level))
         (_levels ready_det) /\
  (_levels ready_det <> [] ->
   _needNormalization ready_det = existsb Level.needSqsum (_levels ready_det)).
Proof. apply (reachable_level_flags ready_det ready_det_reachable). Defined.

Lemma Detect_repeatable_witness :
  exists b objects' det',
    Detect ready_det (gray_image 4) [] 1 (2 # 10)%Q false []
      = Ok (b, objects', det') /\
    (_data det' = _data ready_det /\ _imageSize det' = _imageSize ready_det /\
     _needNormalization det' = _needNormalization ready_det /\
     map Level_static (_levels det') = map Level_static (_levels ready_det) /\
     length (_workers det') = length (_workers ready_det)) /\
    usable det' /\
    forall src2 objects2 g2 s2 mm2 mr2,
      (Detect_rejects det' src2 <-> Detect_rejects ready_det src2) /\
      exists b2 objects2' det2,
        Detect det' src2 objects2 g2 s2 mm2 mr2 = Ok (b2, objects2', det2) /\
        (b2 = false <-> Detect_rejects ready_det src2).
Proof.
  apply (Detect_repeatable ready_det (gray_image 4) [] 1 (2 # 10)%Q false []
           ready_det_reachable ready_det_usable).
Defined.

(** ** The objects [Detect] returns *)

Section ByTag.
Context {D : Type} {ops : DoubleOps D} {prim : Primitives}.

Lemma Candidates_update_keys (c : Candidates) (t : Tag) (f : Objects -> Objects) :
  forall x, In x (map fst (Candidates_update c t f)) -> x = t \/ In x (map fst c).
Proof.
  induction c as [| [k v] c IH]; intros x; cbn [Candidates_update].
  - cbn. intuition auto.
  - destruct (t <? k); [cbn; intuition auto |].
    destruct (t =? k); [cbn; intuition auto |].
    cbn [map fst In]. intros [<- | H]; [auto |].
    destruct (IH x H); auto.
Qed.

Lemma Candidates_update_ok (datas : list Data.t) (c : Candidates) (t : Tag)
    (f : Objects -> Objects) :
  In t (map Data.tag datas) ->
  (forall objs, Forall (fun o => tag o = t) objs ->
                Forall (fun o => tag o = t) (f objs)) ->
  cand_ok datas c -> cand_ok datas (Candidates_update c t f).
Proof.
  intros Ht Hf. induction c as [| [k v] c IH]; intros (Hs & Ha).
  - cbn [Candidates_update]. split; [repeat constructor |].
    constructor; [| constructor]. cbn [fst snd]. split; [exact Ht |].
    apply Hf. constructor.
  - cbn [map fst] in Hs. apply StronglySorted_inv in Hs as (Hs & Hk).
    apply Forall_cons in Ha as ((Hin & Hv) & Ha). cbn [fst snd] in Hin, Hv.
    cbn [Candidates_update].
    destruct (Z.ltb_spec t k) as [Hlt | Hge].
    + split.
      * cbn [map fst]. constructor; [constructor; assumption |].
        constructor; [exact Hlt |].
        eapply Forall_impl; [exact Hk |]. cbv beta. intros; lia.
      * constructor; [| constructor; [split; assumption | exact Ha]].
        cbn [fst snd]. split; [exact Ht |]. apply Hf. constructor.
    + destruct (Z.eqb_spec t k) as [-> | Hne].
      * split; [cbn [map fst]; now constructor |].
        constructor; [| exact Ha]. cbn [fst snd]. split; [exact Hin | now apply Hf].
      * destruct (IH (conj Hs Ha)) as (Hs' & Ha').
        split; [| constructor; [split; assumption | exact Ha']].
        cbn [map fst]. constructor; [exact Hs' |].
        apply List.Forall_forall. intros x Hx.
        apply Candidates_update_keys in Hx as [-> | Hx]; [lia |].
        rewrite List.Forall_forall in Hk. now apply Hk.
Qed.

Lemma AddObjects_tags (objects : Objects) (dst : View) (rect : Rect.t)
    (size : Size.t) (scale : D) (step : Z) (t : Tag) :
  Forall (fun o => tag o = t) objects ->
  Forall (fun o => tag o = t) (AddObjects objects dst rect size scale step t).
Proof.
  intros H. rewrite AddObjects_hits. apply Forall_app. split; [exact H |].
  apply List.Forall_forall. intros o Ho. apply in_map_iff in Ho.
  now destruct Ho as (p & <- & _).
Qed.

Lemma Detect_hid_cand (datas : list Data.t) (mask : View) (rect : Rect.t)
    (j : Z) (st st' : Detect_state) :
  Detect_hid false datas mask rect j st = Ok st' ->
  cand_ok datas (snd st) -> cand_ok datas (snd st').
Proof.
  destruct st as [[level workers] candidates]. cbn [fst snd].
  intros H Hc. unfold Detect_hid in H. cbn [Hid_data] in H.
  destruct (at_ (Level.hids level) j) as [hid | | | |]; try discriminate.
  rewrite rbind_Ok in H.
  destruct (at_ datas (Z.of_nat (Hid.data hid))) as [d | | | |] eqn:Ed;
    try discriminate.
  rewrite rbind_Ok in H.
  destruct (Hid_Detect _ _ _ _ _ _ _ _) as [[dst' workers'] | | | |];
    try discriminate.
  rewrite rbind_Ok in H. injection H as <-. cbn [snd].
  apply Candidates_update_ok; [| intros objs; apply AddObjects_tags | exact Hc].
  apply at_inv in Ed as (_ & Hd). apply in_map.
  apply list_elem_of_In. eapply list_elem_of_lookup_2. exact Hd.
Qed.

Lemma Detect_level_cand (datas : list Data.t) (motionMask : bool)
    (motionRegions : list Rect.t) (i : Z)
    (st st' : list (Level.t D) * list Worker * Candidates) :
  Detect_level false datas motionMask motionRegions i st = Ok st' ->
  cand_ok datas (snd st) -> cand_ok datas (snd st').
Proof.
  destruct st as [[levels workers] candidates]. cbn [snd].
  intros H Hc. unfold Detect_level in H.
  destruct (at_ levels i) as [level | | | |]; try discriminate.
  rewrite rbind_Ok in H.
  destruct (if motionMask then _ else _) as [[level1 mask] rect].
  destruct (Rect.Empty rect).
  - destruct (put_ levels i level1); try discriminate.
    rewrite rbind_Ok in H. now injection H as <-.
  - destruct (for_ _ _ _ _) as [[[level2 workers2] cand2] | | | |] eqn:Ef;
      try discriminate.
    rewrite rbind_Ok in H.
    destruct (put_ levels i level2); try discriminate.
    rewrite rbind_Ok in H. injection H as <-. cbn [snd].
    apply (for_preserves (fun s : Detect_state => cand_ok datas (snd s))
             (Detect_hid false datas mask rect)
             (fun k s s' => Detect_hid_cand datas mask rect k s s')
             _ _ _ _ Ef Hc).
Qed.

Lemma StronglySorted_le_app (l1 l2 : list Z) :
  StronglySorted Z.le l1 -> StronglySorted Z.le l2 ->
  (forall x y, In x l1 -> In y l2 -> x <= y) ->
  StronglySorted Z.le (l1 ++ l2).
Proof.
  induction 1 as [| a l1 H1 IH Ha]; intros H2 Hxy; [exact H2 |].
  cbn [app]. constructor.
  - apply IH; [exact H2 |]. intros x y Hx. apply Hxy. now right.
  - apply Forall_app. split; [exact Ha |].
    apply List.Forall_forall. intros y Hy. apply Hxy; [now left | exact Hy].
Qed.

Lemma StronglySorted_le_const (k : Z) (l : list Z) :
  Forall (fun x => x = k) l -> StronglySorted Z.le l.
Proof.
  induction 1 as [| a l -> Hl IH]; constructor; [exact IH |].
  eapply Forall_impl; [exact Hl |]. cbv beta. intros; lia.
Qed.

(** The grouping loop at the end of [Detect]. *)
Lemma Detect_group_spec (c : Candidates) (g : Z) (s : D) :
  StronglySorted Z.lt (map fst c) ->
  Forall (fun e => Forall (fun o => tag o = fst e) (snd e)) c ->
  forall objects,
  exists out,
    Detect_group c objects g s = Ok (objects ++ out) /\
    Forall (fun o => In (tag o) (map fst c) /\ 1 <= weight o /\ g <= weight o) out /\
    StronglySorted Z.le (map tag out) /\
    (g = 0 -> out = []).
Proof.
  induction c as [| [k second] c IH]; intros Hs Ha objects.
  - exists []. cbn [Detect_group]. rewrite app_nil_r.
    split; [reflexivity |]. split; [constructor |]. split; [constructor | reflexivity].
  - cbn [map fst] in Hs. apply StronglySorted_inv in Hs as (Hs & Hk).
    apply Forall_cons in Ha as (Hv & Ha). cbn [fst snd] in Hv.
    cbn [Detect_group].
    destruct (GroupObjects_output_spec objects second g s)
      as (out1 & HG & Hall1 & _ & _ & Hz1).
    rewrite HG, rbind_Ok.
    destruct (IH Hs Ha (objects ++ out1)) as (out2 & HD & Hall2 & Hs2 & Hz2).
    exists (out1 ++ out2). split; [now rewrite app_assoc |].
    assert (Ht1 : Forall (fun o => tag o = k) out1).
    { eapply Forall_impl; [exact Hall1 |]. cbv beta.
      intros o (_ & _ & cnd & Hin & ->).
      rewrite List.Forall_forall in Hv. now apply Hv. }
    split; [| split].
    + apply Forall_app. split.
      * rewrite List.Forall_forall in *. intros o Ho.
        destruct (Hall1 o Ho) as (H1 & H2 & _).
        split; [left; symmetry; now apply Ht1 | auto].
      * eapply Forall_impl; [exact Hall2 |]. cbv beta.
        intros o (H1 & H2). split; [now right | exact H2].
    + rewrite map_app. apply StronglySorted_le_app; [| exact Hs2 |].
      * apply (StronglySorted_le_const k).
        change (map ?f ?l) with (f <$> l). now apply Forall_fmap.
      * intros x y Hx Hy. apply in_map_iff in Hx as (o1 & <- & Ho1).
        apply in_map_iff in Hy as (o2 & <- & Ho2).
        rewrite List.Forall_forall in Ht1, Hall2, Hk.
        rewrite (Ht1 o1 Ho1). destruct (Hall2 o2 Ho2) as (Hin & _).
        specialize (Hk _ Hin). lia.
    + intros Hg. now rewrite (Hz1 Hg), (Hz2 Hg).
Qed.

Lemma Detect_objects_spec (det : Detection D) (src : View) (objects : Objects)
    (groupSizeMin : Z) (sizeDifferenceMax : D) (motionMask : bool)
    (motionRegions : list Rect.t) (objects' : Objects) (det' : Detection D) :
  Detect det src objects groupSizeMin sizeDifferenceMax motionMask motionRegions
    = Ok (true, objects', det') ->
  StronglySorted Z.le (map tag objects') /\
  Forall (fun o => In (tag o) (map Data.tag (_data det)) /\
                   1 <= weight o /\ to_size_t groupSizeMin <= weight o) objects' /\
  (groupSizeMin = 0 -> objects' = []) /\
  forall other,
    Detect det src other groupSizeMin sizeDifferenceMax motionMask motionRegions
      = Ok (true, objects', det').
Proof.
  intros H. unfold Detect in H |- *.
  destruct (_ || _); [discriminate |].
  destruct (_freed det) eqn:Hfr; [discriminate |].
  destruct (for_ _ _ _ _) as [[[levels workers] candidates] | | | |] eqn:Ef;
    try discriminate.
  apply (for_ok_ext _ (Detect_level false (_data det) motionMask motionRegions))
    in Ef; [| intros k0 s0 s1; apply Detect_level_stale].
  rewrite rbind_Ok in H |- *.
  assert (Hc : cand_ok (_data det) candidates).
  { apply (for_preserves
             (fun s : list (Level.t D) * list Worker * Candidates =>
                cand_ok (_data det) (snd s))
             (Detect_level false (_data det) motionMask motionRegions)
             (fun k s s' => Detect_level_cand (_data det) motionMask
                              motionRegions k s s')
             _ _ _ _ Ef).
    split; constructor. }
  destruct Hc as (Hs & Ha).
  destruct (Detect_group_spec candidates (to_size_t groupSizeMin) sizeDifferenceMax
              Hs) with (objects := @nil Object)
    as (out & HG & Hall & Hsorted & Hz).
  { eapply Forall_impl; [exact Ha |]. cbv beta. tauto. }
  cbn [app] in HG. rewrite HG, rbind_Ok in H |- *. injection H as <- <-.
  split; [exact Hsorted |]. split; [| split; [| reflexivity]].
  - rewrite List.Forall_forall in *. intros o Ho.
    destruct (Hall o Ho) as (Hin & Hw). split; [| exact Hw].
    apply in_map_iff in Hin as (e & <- & He). now destruct (Ha e He).
  - intros ->. now apply Hz.
Qed.

(** X11. On a usable detector (no model loaded since the evaluators were
    bound, no level pushed beyond the reserved capacity) [Detect] returns,
    and the objects of a successful call do not depend on what [objects]
    held before it.  They come out in ascending tag order (the candidates
    are grouped per tag in a map); every object carries the tag of a loaded
    model and a weight of at least 1 and of at least [groupSizeMin] (as
    [size_t]); with [groupSizeMin = 0] nothing is returned at all. *)
Theorem Detect_objects_by_tag (det : Detection D) (src : View) (objects : Objects)
    (groupSizeMin : Z) (sizeDifferenceMax : D) (motionMask : bool)
    (motionRegions : list Rect.t) :
  reachable det ->
  usable det ->
  exists b objects' det',
    Detect det src objects groupSizeMin sizeDifferenceMax motionMask motionRegions
      = Ok (b, objects', det') /\
    (b = true ->
     StronglySorted Z.le (map tag objects') /\
     Forall (fun o => In (tag o) (map Data.tag (_data det)) /\
                      1 <= weight o /\ to_size_t groupSizeMin <= weight o)
            objects' /\
     (groupSizeMin = 0 -> objects' = []) /\
     forall other,
       Detect det src other groupSizeMin sizeDifferenceMax motionMask motionRegions
         = Ok (true, objects', det')).
Proof.
  intros Hr Hu. destruct (reachable_wf det Hr) as (Hwf & _).
  destruct (Detect_cases det src objects groupSizeMin sizeDifferenceMax motionMask
                         motionRegions Hwf Hu)
    as [(_ & H) | (_ & o & l & w & H & _)].
  - eexists _, _, _. split; [exact H | discriminate].
  - eexists _, _, _. split; [exact H |]. intros _.
    now apply (Detect_objects_spec _ _ _ _ _ _ _ _ _ H).
Qed.
End ByTag.

Lemma Detect_objects_by_tag_witness :
  exists b objects' det',
    Detect ready_det (gray_image 4) [] 1 (2 # 10)%Q false []
      = Ok (b, objects', det') /\
    (b = true ->
     StronglySorted Z.le (map tag objects') /\
     Forall (fun o => In (tag o) (map Data.tag (_data ready_det)) /\
                      1 <= weight o /\ to_size_t 1 <= weight o)
            objects' /\
     (1 = 0 -> objects' = []) /\
     forall other,
       Detect ready_det (gray_image 4) other 1 (2 # 10)%Q false []
         = Ok (true, objects', det')).
Proof.
  apply (Detect_objects_by_tag ready_det (gray_image 4) [] 1 (2 # 10)%Q false []
           ready_det_reachable ready_det_usable).
Defined.

(** ** [Init]: the pool, the size range, failure *)

Section InitEdges.
Context {D : Type} {ops : DoubleOps D} {prim : Primitives}.

Lemma InitWorkers_spec (workers : list Worker) (threadNumber : Z) :
  exists n : nat,
    InitWorkers workers threadNumber = workers ++ replicate n (mkWorker []) /\
    n <> 1%nat /\
    Z.of_nat n <= Z.max 0 hardware_concurrency /\
    (1 < threadNumber <= hardware_concurrency -> Z.of_nat n = threadNumber) /\
    (threadNumber <= 0 \/ hardware_concurrency < threadNumber ->
     1 < hardware_concurrency -> Z.of_nat n = hardware_concurrency) /\
    (threadNumber = 1 \/ hardware_concurrency <= 1 -> n = 0%nat).
Proof.
  unfold InitWorkers.
  destruct (Z.leb_spec threadNumber 0) as [H0 | H0];
    destruct (Z.ltb_spec hardware_concurrency threadNumber) as [H1 | H1];
    cbn [orb];
    match goal with
    | |- context [1 <? ?t] => destruct (Z.ltb_spec 1 t) as [H2 | H2]
    end;
    first [ exists 0%nat; rewrite app_nil_r; repeat split; lia
          | eexists (Z.to_nat _); split; [reflexivity |]; repeat split; lia ].
Qed.

Lemma InitLevels_loop_workers (scaleFactor : D) (sizeMin sizeMax : Size.t)
    (roi : View) :
  forall (fuel : nat) (det : Detection D) (scale : D) (b : bool) (det' : Detection D),
    InitLevels_loop fuel det scaleFactor sizeMin sizeMax roi scale = Ok (b, det') ->
    _workers det' = _workers det.
Proof.
  induction fuel as [| fuel IH]; intros det scale b det' H; [discriminate |].
  cbn [InitLevels_loop] in H.
  destruct (fold_left _ _ _) as [[inserts exit] insert].
  destruct exit; [now injection H as _ <- |].
  destruct insert; [| now apply IH in H].
  destruct (InitLevels_bind _ _ _ _ _) as [[bound level] nn].
  destruct bound; [now apply IH in H | now injection H as _ <-].
Qed.

(** X12. [Init] never shrinks or replaces the worker pool: whatever it
    returns, the pool afterwards is the old pool followed by [n] new idle
    workers.  [n] is never 1 and never more than [hardware_concurrency];
    it is [threadNumber] when that lies in [2, hardware_concurrency], and
    [hardware_concurrency] (if above 1) when [threadNumber] is not positive
    or too large; it is 0 when no model is loaded, when one thread is asked
    for, or on a single-core machine.  Calling [Init] again therefore adds
    workers to those of the first call. *)
Theorem Init_extends_pool
    (fuel : nat) (det : Detection D) (imageSize : Size.t) (scaleFactor : D)
    (sizeMin sizeMax : Size.t) (roi : View) (threadNumber : Z)
    (b : bool) (det' : Detection D) :
  Init fuel det imageSize scaleFactor sizeMin sizeMax roi threadNumber = Ok (b, det') ->
  exists n : nat,
    _workers det' = _workers det ++ replicate n (mkWorker []) /\
    n <> 1%nat /\
    Z.of_nat n <= Z.max 0 hardware_concurrency /\
    (_data det = [] -> n = 0%nat) /\
    (_data det <> [] -> 1 < threadNumber <= hardware_concurrency ->
     Z.of_nat n = threadNumber) /\
    (_data det <> [] ->
     threadNumber <= 0 \/ hardware_concurrency < threadNumber ->
     1 < hardware_concurrency -> Z.of_nat n = hardware_concurrency) /\
    (threadNumber = 1 \/ hardware_concurrency <= 1 -> n = 0%nat).
Proof.
  intros H. unfold Init in H. destruct (_data det) as [| d ds] eqn:Ed.
  - injection H as _ <-. exists 0%nat. rewrite app_nil_r.
    repeat split; try lia; try reflexivity; intros; contradiction.
  - unfold InitLevels in H. apply InitLevels_loop_workers in H. cbn in H.
    destruct (InitWorkers_spec (_workers det) threadNumber)
      as (n & Hn & H1 & H2 & H3 & H4 & H5).
    exists n. rewrite H, Hn. split; [reflexivity |].
    repeat split; auto; discriminate.
Qed.

Lemma model_never_qualifies (imageSize sizeMin sizeMax : Size.t) (scale : D)
    (d : Data.t) :
  Size.x sizeMax < Size.x sizeMin \/ Size.y sizeMax < Size.y sizeMin ->
  model_qualifies imageSize sizeMin sizeMax scale d = false.
Proof.
  intros Hr. unfold model_qualifies, model_fits, window_fits, window_large_enough.
  repeat match goal with
         | |- context [?a <=? ?b] => destruct (Z.leb_spec a b)
         end; cbn; try reflexivity; lia.
Qed.

Lemma InitLevels_loop_starved (scaleFactor : D) (sizeMin sizeMax : Size.t)
    (roi : View) :
  Size.x sizeMax < Size.x sizeMin \/ Size.y sizeMax < Size.y sizeMin ->
  forall (fuel : nat) (det : Detection D) (scale : D) (b : bool) (det' : Detection D),
    InitLevels_loop fuel det scaleFactor sizeMin sizeMax roi scale = Ok (b, det') ->
    _levels det' = _levels det /\ b = negb (length (_levels det) =? 0)%nat.
Proof.
  intros Hr. induction fuel as [| fuel IH]; intros det scale b det' H; [discriminate |].
  cbn [InitLevels_loop] in H. rewrite InitLevels_probe_fold in H.
  assert (E : forall ds,
            existsb (model_qualifies (_imageSize det) sizeMin sizeMax scale) ds
            = false).
  { induction ds as [| d ds IHd]; [reflexivity |]. cbn [existsb].
    rewrite (model_never_qualifies _ _ _ _ _ Hr), IHd. reflexivity. }
  rewrite E in H. cbn [orb andb] in H.
  destruct (forallb _ _); [now injection H as <- <- | now apply IH in H].
Qed.

(** X13. With a size range that no window can meet ([sizeMax] below
    [sizeMin] in width or in height) [Init] never builds a level: if it
    returns, it returns false and leaves no level, so every later [Detect]
    is rejected with [objects] untouched. *)
Theorem Init_empty_size_range
    (fuel : nat) (det : Detection D) (imageSize : Size.t) (scaleFactor : D)
    (sizeMin sizeMax : Size.t) (roi : View) (threadNumber : Z)
    (b : bool) (det' : Detection D) :
  reachable det ->
  Size.x sizeMax < Size.x sizeMin \/ Size.y sizeMax < Size.y sizeMin ->
  Init fuel det imageSize scaleFactor sizeMin sizeMax roi threadNumber = Ok (b, det') ->
  b = false /\ _levels det' = [] /\
  forall src objects groupSizeMin sizeDifferenceMax motionMask motionRegions,
    Detect det' src objects groupSizeMin sizeDifferenceMax motionMask motionRegions
      = Ok (false, objects, det').
Proof.
  intros Hreach Hr H.
  assert (Hb : b = false /\ _levels det' = []).
  { destruct (reachable_wf det Hreach) as (_ & He).
    unfold Init in H. destruct (_data det) as [| d ds] eqn:Ed.
    - injection H as <- <-. auto.
    - unfold InitLevels in H.
      apply (InitLevels_loop_starved _ _ _ _ Hr) in H as (Hl & ->). cbn in Hl. auto. }
  destruct Hb as (-> & Hl). split; [reflexivity |]. split; [exact Hl |].
  intros. unfold Detect. now rewrite Hl.
Qed.

Lemma InitLevels_bind_bindable :
  forall (datas : list Data.t) (inserts : list bool) (i : nat)
         (level : Level.t D) (needNormalization : bool),
    Forall bindable datas ->
    fst (fst (InitLevels_bind datas inserts i level needNormalization)) = true.
Proof.
  induction datas as [| d datas IH]; intros inserts i level nn Hb; [reflexivity |].
  destruct inserts as [| ins inserts]; [reflexivity |].
  apply Forall_cons in Hb as (Hd & Hb).
  cbn [InitLevels_bind]. destruct ins; cbn [negb]; [| now apply IH].
  destruct (Z.eqb_spec (SimdDetectionInit (Data.handle d) (Level.sum level)
              (Level.sqsum level) (Level.tilted level) (Level.throughColumn level)
              (Data.Int16 d)) 0) as [E | _]; [now apply Hd in E | now apply IH].
Qed.

Lemma InitLevels_loop_bindable (scaleFactor : D) (sizeMin sizeMax : Size.t)
    (roi : View) :
  forall (fuel : nat) (det : Detection D) (scale : D) (det' : Detection D),
    Forall bindable (_data det) ->
    InitLevels_loop fuel det scaleFactor sizeMin sizeMax roi scale = Ok (false, det') ->
    _levels det' = [].
Proof.
  induction fuel as [| fuel IH]; intros det scale det' Hb H; [discriminate |].
  cbn [InitLevels_loop] in H.
  destruct (fold_left _ _ _) as [[inserts exit] insert].
  destruct exit.
  { injection H as Hf <-. destruct (_levels det); [reflexivity | discriminate]. }
  destruct insert; [| now apply IH in H].
  pose proof (InitLevels_bind_bindable (_data det) inserts 0
                (InitLevels_alloc (_imageSize det) scale) (_needNormalization det) Hb)
    as Hbound.
  destruct (InitLevels_bind _ _ _ _ _) as [[bound level] nn]. cbn in Hbound.
  subst bound. now apply IH in H.
Qed.

(** X14. When the native bind refuses none of the loaded models, a failed
    [Init] leaves no level behind, and every later [Detect] is rejected
    with [objects] untouched and the detector unchanged.  (A bind failure
    is the one way [Init] can fail and still leave levels.) *)
Theorem Init_failure_blocks_Detect
    (fuel : nat) (det det1 : Detection D) (imageSize : Size.t) (scaleFactor : D)
    (sizeMin sizeMax : Size.t) (roi : View) (threadNumber : Z) :
  reachable det ->
  Forall bindable (_data det) ->
  Init fuel det imageSize scaleFactor sizeMin sizeMax roi threadNumber = Ok (false, det1) ->
  _levels det1 = [] /\
  forall src objects groupSizeMin sizeDifferenceMax motionMask motionRegions,
    Detect det1 src objects groupSizeMin sizeDifferenceMax motionMask motionRegions
      = Ok (false, objects, det1).
Proof.
  intros Hr Hb HI. assert (Hl : _levels det1 = []).
  { destruct (reachable_wf det Hr) as (_ & He).
    unfold Init in HI. destruct (_data det) as [| d ds] eqn:Ed.
    - injection HI as <-. auto.
    - unfold InitLevels in HI.
      apply InitLevels_loop_bindable in HI; [exact HI | exact Hb]. }
  split; [exact Hl |]. intros. unfold Detect. now rewrite Hl.
Qed.

(** X15. After a successful [Init] for [imageSize] that builds no more
    levels than the reserved capacity of 100 holds, on a detector whose
    levels had not been freed before, the detector is usable: [Detect]
    returns on every input, and it returns false exactly for the images
    whose size is not [imageSize]. *)
Theorem Init_success_then_Detect_checks_size
    (fuel : nat) (det det1 : Detection D) (imageSize : Size.t) (scaleFactor : D)
    (sizeMin sizeMax : Size.t) (roi : View) (threadNumber : Z) :
  reachable det ->
  _freed det = false ->
  Init fuel det imageSize scaleFactor sizeMin sizeMax roi threadNumber = Ok (true, det1) ->
  (length (_levels det1) <= levels_reserved)%nat ->
  usable det1 /\ _levels det1 <> [] /\ _imageSize det1 = imageSize /\
  forall src objects groupSizeMin sizeDifferenceMax motionMask motionRegions,
  exists b objects' det2,
    Detect det1 src objects groupSizeMin sizeDifferenceMax motionMask motionRegions
      = Ok (b, objects', det2) /\
    (b = false <-> View_Size src <> imageSize).
Proof.
  intros Hr Hfr HI Hn.
  destruct (Init_props _ _ _ _ _ _ _ _ _ _ HI) as (_ & Ht & _).
  destruct (Ht eq_refl) as (Hne & Hsz).
  assert (Hd : _data det <> []).
  { intros E. unfold Init in HI. rewrite E in HI. discriminate. }
  pose proof (Init_usable _ _ _ _ _ _ _ _ _ _ HI Hd Hfr Hn) as Hu.
  split; [exact Hu |]. split; [exact Hne |]. split; [exact Hsz |].
  now apply (Init_true_then_Detect fuel det det1 imageSize scaleFactor sizeMin
               sizeMax roi threadNumber).
Qed.
End InitEdges.

Lemma loaded_det_reachable : reachable loaded_det.
Proof. apply reachable_Load, reachable_new. Qed.

Lemma Init_extends_pool_witness :
  exists n : nat,
    _workers pooled_det = _workers loaded_det ++ replicate n (mkWorker []) /\
    n <> 1%nat /\
    Z.of_nat n <= Z.max 0 hardware_concurrency /\
    (_data loaded_det = [] -> n = 0%nat) /\
    (_data loaded_det <> [] -> 1 < 3 <= hardware_concurrency -> Z.of_nat n = 3) /\
    (_data loaded_det <> [] ->
     3 <= 0 \/ hardware_concurrency < 3 ->
     1 < hardware_concurrency -> Z.of_nat n = hardware_concurrency) /\
    (3 = 1 \/ hardware_concurrency <= 1 -> n = 0%nat).
Proof.
  apply (Init_extends_pool 3 loaded_det (Size.mk 4 4) (inject_Z 2) (Size.mk 0 0)
           (Size.mk 100 100) View_default 3 true pooled_det).
  vm_compute. reflexivity.
Defined.

Lemma Init_empty_size_range_witness :
  false = false /\ _levels starved_det = [] /\
  forall src objects groupSizeMin sizeDifferenceMax motionMask motionRegions,
    Detect starved_det src objects groupSizeMin sizeDifferenceMax motionMask
           motionRegions = Ok (false, objects, starved_det).
Proof.
  apply (Init_empty_size_range 3 loaded_det (Size.mk 4 4) (inject_Z 2)
           (Size.mk 10 10) (Size.mk 5 5) View_default 1 false starved_det
           loaded_det_reachable).
  - left. cbn. lia.
  - vm_compute. reflexivity.
Defined.

Lemma loaded_det_bindable : Forall bindable (_data loaded_det).
Proof. repeat constructor. intros s q t tc i16. cbn. discriminate. Qed.

Lemma Init_failure_blocks_Detect_witness :
  _levels starved_det = [] /\
  forall src objects groupSizeMin sizeDifferenceMax motionMask motionRegions,
    Detect starved_det src objects groupSizeMin sizeDifferenceMax motionMask
           motionRegions = Ok (false, objects, starved_det).
Proof.
  apply (Init_failure_blocks_Detect 3 loaded_det starved_det (Size.mk 4 4)
           (inject_Z 2) (Size.mk 10 10) (Size.mk 5 5) View_default 1
           loaded_det_reachable loaded_det_bindable).
  vm_compute. reflexivity.
Defined.

Lemma Init_success_then_Detect_checks_size_witness :
  usable ready_det /\ _levels ready_det <> [] /\ _imageSize ready_det = Size.mk 4 4 /\
  forall src objects groupSizeMin sizeDifferenceMax motionMask motionRegions,
  exists b objects' det2,
    Detect ready_det src objects groupSizeMin sizeDifferenceMax motionMask
           motionRegions = Ok (b, objects', det2) /\
    (b = false <-> View_Size src <> Size.mk 4 4).
Proof.
  apply (Init_success_then_Detect_checks_size 3 loaded_det ready_det (Size.mk 4 4)
           (inject_Z 2) (Size.mk 0 0) (Size.mk 100 100) View_default 1
           loaded_det_reachable).
  - reflexivity.
  - vm_compute. reflexivity.
  - vm_compute. lia.
Defined.

(** ** The worker threads: scheduling order and write sets *)

Section Threads.
Context {prim : Primitives}.

Lemma same_view_sym (a b : View) : same_view a b -> same_view b a.
Proof.
  intros (H1 & H2 & H3 & H4).
  split; [congruence |]. split; [congruence |]. split; [congruence |].
  intros row col. now rewrite H4.
Qed.

(** X16. The order in which the worker threads get to run their strips is
    irrelevant: with an idle non-empty pool the bitmap [Hid::Detect]
    returns has the geometry and the pixels obtained by running the strip
    tasks one after the other in any order whatsoever. *)
Theorem Hid_Detect_any_schedule
    (bufs : Buffers) (h : Hid.t) (size : Size.t) (mask : View) (rect : Rect.t)
    (dst : View) (workers : list Worker) (throughColumn : bool)
    (order : list nat) :
  let r := valid_rect dst rect size in
  let step := strip_step (Rect.top r) (Rect.bottom r)
                         (Z.of_nat (length workers)) throughColumn in
  workers <> [] ->
  Forall idle workers ->
  Permutation order (seq 0 (length workers)) ->
  exists dst' workers',
    Hid_Detect bufs h size mask rect dst workers throughColumn = Ok (dst', workers') /\
    same_view dst'
      (run_strips_in bufs h (mask_region mask dst size) r step order (Fill dst 0)).
Proof.
  cbv zeta. intros Hne Hidle Hperm.
  set (r := valid_rect dst rect size).
  set (m := mask_region mask dst size).
  set (step := strip_step (Rect.top r) (Rect.bottom r)
                          (Z.of_nat (length workers)) throughColumn).
  assert (Hpar :
    Hid_Detect bufs h size mask rect dst workers throughColumn =
    (for_ (length workers) 0 (Hid_Detect_add h m r step) workers ≫=
     fun ws => for_ (length workers) 0 (Hid_Detect_wait bufs) (Fill dst 0, ws))).
  { unfold Hid_Detect. subst step m r. destruct workers; [contradiction | reflexivity]. }
  rewrite Hpar.
  destruct (Hid_Detect_add_loop h m r step workers Hidle) as (ws1 & Hadd & Hl1 & Hk1).
  rewrite Hadd, rbind_Ok. rewrite <- Hl1.
  destruct (Hid_Detect_wait_loop bufs h m r step ws1 (Fill dst 0))
    as (ws2 & Hwait & _).
  { intros k Hk. apply Hk1. lia. }
  rewrite Hwait. eexists _, ws2. split; [reflexivity |].
  apply same_view_sym, strips_any_order. now rewrite Hl1.
Qed.

Lemma Task_Run_changes (bufs : Buffers) (t : Task) (d : View) (row col : Z) :
  pixel (Task_Run bufs t d) row col <> pixel d row col ->
  (Rect.top (task_r t) <= row < Rect.bottom (task_r t)) /\
  (Rect.left (task_r t) <= col < Rect.right (task_r t)).
Proof.
  unfold Task_Run, run_detect. destruct bufs as [[s q] tl].
  rewrite kernel_pixel.
  pose proof (detect_stride_pos (Hid.detect (task_h t))) as Hst.
  destruct (mem row _) eqn:Er; [| cbn; congruence].
  destruct (mem col _) eqn:Ec; [| cbn; congruence].
  intros _. apply (mem_strided _ _ _ _ Hst) in Er, Ec. lia.
Qed.

(** X17. The strips never race on the bitmap: a strip's task changes only
    cells of its own rows, within the valid rectangle, and a cell changed
    by the task of one strip is left alone by the task of every other
    strip, whatever bitmap state each of them starts from. *)
Theorem strip_tasks_write_disjoint_cells
    (bufs : Buffers) (h : Hid.t) (m : View) (size : Size.t) (rect : Rect.t)
    (dst : View) (N : Z) (throughColumn : bool) (i j row col : Z) (d1 d2 : View) :
  let r := valid_rect dst rect size in
  let step := strip_step (Rect.top r) (Rect.bottom r) N throughColumn in
  1 <= N ->
  Rect.bottom r + N * (Rect.bottom r - Rect.top r + 2) < 2 ^ 63 ->
  0 <= i < N -> 0 <= j < N -> i <> j ->
  pixel (Task_Run bufs (strip_task h m r step i) d1) row col <> pixel d1 row col ->
  in_strip (Rect.top r) (Rect.bottom r) step i row /\
  (Rect.top r <= row < Rect.bottom r /\ Rect.left r <= col < Rect.right r) /\
  pixel (Task_Run bufs (strip_task h m r step j) d2) row col = pixel d2 row col.
Proof.
  cbv zeta. intros HN Hrange Hi Hj Hij Hch.
  set (r := valid_rect dst rect size) in *.
  pose proof (valid_rect_ordered dst rect size) as Htop. fold r in Htop.
  pose proof (strip_step_eq (Rect.top r) (Rect.bottom r) N throughColumn
                            Htop HN Hrange) as Hstep.
  rewrite Hstep in *.
  apply Task_Run_changes in Hch as (Hrow & Hcol). cbn in Hrow, Hcol.
  assert (Hin : in_strip (Rect.top r) (Rect.bottom r)
                  (ideal_step (Rect.top r) (Rect.bottom r) N throughColumn) i row)
    by exact Hrow.
  split; [exact Hin |]. split.
  - split; [| exact Hcol].
    apply (strips_cover _ _ _ throughColumn Htop HN Hrange). now exists i.
  - destruct (Z.eq_dec
                (pixel (Task_Run bufs
                          (strip_task h m r
                             (ideal_step (Rect.top r) (Rect.bottom r) N throughColumn)
                             j) d2) row col)
                (pixel d2 row col)) as [E | E]; [exact E |].
    apply Task_Run_changes in E as (Hrow' & _). cbn in Hrow'.
    exfalso. apply Hij.
    now apply (strips_disjoint _ _ _ throughColumn Htop HN Hrange i j row).
Qed.
End Threads.

Lemma Hid_Detect_any_schedule_witness :
  let r := valid_rect (gray_image 8) (R4 0 0 8 8) (Size.mk 2 2) in
  let step := strip_step (Rect.top r) (Rect.bottom r)
                         (Z.of_nat (length two_workers)) true in
  exists dst' workers',
    Hid_Detect sample_buffers sample_hid (Size.mk 2 2) (all_set 8) (R4 0 0 8 8)
               (gray_image 8) two_workers true = Ok (dst', workers') /\
    same_view dst'
      (run_strips_in sample_buffers sample_hid
                     (mask_region (all_set 8) (gray_image 8) (Size.mk 2 2))
                     r step [1%nat; 0%nat] (Fill (gray_image 8) 0)).
Proof.
  apply (Hid_Detect_any_schedule sample_buffers sample_hid (Size.mk 2 2) (all_set 8)
           (R4 0 0 8 8) (gray_image 8) two_workers true [1%nat; 0%nat]).
  - discriminate.
  - repeat constructor.
  - apply perm_swap.
Defined.

Lemma strip_tasks_write_disjoint_cells_witness :
  let r := valid_rect (gray_image 8) (R4 0 0 8 8) (Size.mk 2 2) in
  let step := strip_step (Rect.top r) (Rect.bottom r) 2 true in
  in_strip (Rect.top r) (Rect.bottom r) step 0 0 /\
  (Rect.top r <= 0 < Rect.bottom r /\ Rect.left r <= 0 < Rect.right r) /\
  pixel (Task_Run sample_buffers
           (strip_task sample_hid (all_set 8) r step 1) (gray_image 8)) 0 0 =
  pixel (gray_image 8) 0 0.
Proof.
  apply (strip_tasks_write_disjoint_cells sample_buffers sample_hid (all_set 8)
           (Size.mk 2 2) (R4 0 0 8 8) (gray_image 8) 2 true 0 1 0 0
           (gray_image 8) (gray_image 8)).
  - lia.
  - vm_compute. reflexivity.
  - lia.
  - lia.
  - lia.
  - vm_compute. discriminate.
Defined.

(** * The test driver *)

Section TestDriver.
Import Stdlib.Strings.String Stdlib.Strings.Ascii.
Variable NDEBUG : bool.
Variable read_size_t : Test.String -> Z -> Z.
Variable g_groups : Test.Groups.

Lemma Options_loop_help (args1 args2 : list Test.String) (h : Test.String) :
  Test.substr h 0 2 = "-h"%string \/ Test.substr h 0 2 = "-?"%string ->
  forall o,
    Test.Options_loop NDEBUG read_size_t (args1 ++ h :: args2) o =
    Test.Options_loop NDEBUG read_size_t (args1 ++ [h]) o /\
    (Test.Options_loop NDEBUG read_size_t (args1 ++ h :: args2) o = Test.Exited 1 \/
     exists o', Test.Options_loop NDEBUG read_size_t (args1 ++ h :: args2) o
                  = Test.Returned o' /\ Test.help o' = true).
Proof.
  intros Hh. induction args1 as [| a args1 IH]; intros o.
  - cbn [app Test.Options_loop].
    assert (E : ((Test.substr h 0 2 =? "-h")%string
                 || (Test.substr h 0 2 =? "-?")%string) = true).
    { apply orb_true_iff. destruct Hh as [-> | ->]; [left | right]; reflexivity. }
    rewrite E. split; [reflexivity |]. right. eexists. split; reflexivity.
  - cbn [app Test.Options_loop].
    destruct (_ || _); [split; [reflexivity | right; eexists; split; reflexivity] |].
    destruct (Test.find_is_0 a "-m="%string).
    { destruct (get 3 a) as [c |]; [| split; [reflexivity | now left]].
      destruct c as [[] [] [] [] [] [] [] []];
        first [ apply IH | split; [reflexivity | now left] ]. }
    destruct (Test.find_is_0 a "-t="%string); [apply IH |].
    destruct (Test.find_is_0 a "-f="%string); [apply IH |].
    destruct (Test.find_is_0 a "-o="%string); [apply IH |].
    split; [reflexivity | now left].
Qed.

(** X18. A help flag ends the parsing of the command line: the arguments
    after the first [-h...] or [-?...] are never looked at, not even
    malformed ones, and the constructor either has already left through
    [exit(1)] on an earlier malformed argument or returns with [help] set;
    [main] then returns 0 without selecting or running any test. *)
Theorem Options_help_ends_parsing
    (prog : Test.String) (args1 args2 : list Test.String) (h : Test.String) :
  Test.substr h 0 2 = "-h"%string \/ Test.substr h 0 2 = "-?"%string ->
  Test.Options_ctor NDEBUG read_size_t (prog :: args1 ++ h :: args2) =
  Test.Options_ctor NDEBUG read_size_t (prog :: args1 ++ [h]) /\
  (Test.main NDEBUG read_size_t g_groups (prog :: args1 ++ h :: args2)
     = Test.Exited 1 \/
   Test.main NDEBUG read_size_t g_groups (prog :: args1 ++ h :: args2)
     = Test.Returned 0).
Proof.
  intros Hh. unfold Test.main, Test.Options_ctor. cbn [List.tl].
  destruct (Options_loop_help args1 args2 h Hh
              (Test.mkOptions false Test.Auto [] EmptyString 0))
    as (E & [Hx | (o' & Ho & Hhelp)]).
  - split; [exact E |]. left. now rewrite Hx.
  - split; [exact E |]. right. now rewrite Ho, Hhelp.
Qed.

Lemma find_occurs (s pat : Test.String) :
  (exists m, Test.find s pat = Some m) <-> exists m, Test.occurs_at s pat m.
Proof.
  unfold Test.find, Test.occurs_at. split.
  - intros (m & Hm). exists m. now apply index_correct1 in Hm.
  - intros (m & Hm). destruct (index 0 pat s) as [k |] eqn:E; [now exists k |].
    exfalso. destruct pat as [| c pat].
    + apply index_correct4 in E. lia.
    + apply (index_correct3 0 m) in E; [contradiction | discriminate | lia].
Qed.

Lemma Required_filters_iff (name : Test.String) (fs : Test.Strings) :
  Test.Required_filters name fs = true <->
  exists f m, In f fs /\ Test.occurs_at name f m.
Proof.
  induction fs as [| f fs IH]; cbn [Test.Required_filters].
  - split; [discriminate | intros (f & m & [] & _)].
  - destruct (Test.find name f) as [k |] eqn:E.
    + split; [intros _ | reflexivity].
      destruct (proj1 (find_occurs name f) (ex_intro _ k E)) as (m & Hm).
      exists f, m. split; [now left | exact Hm].
    + rewrite IH. split.
      * intros (f' & m & Hin & Hm). exists f', m. split; [now right | exact Hm].
      * intros (f' & m & [<- | Hin] & Hm); [| now exists f', m].
        destruct (proj2 (find_occurs name f) (ex_intro _ m Hm)) as (k & Hk).
        congruence.
Qed.

(** The test pointer of the current mode is not [NULL]. *)
Lemma Required_pointer (o : Test.Options) (g : Test.Group) :
  Test.Required o g = true ->
  match Test.mode o with
  | Test.Auto => Test.autoTest g <> None
  | Test.Create | Test.Verify => Test.dataTest g <> None
  | Test.Special => Test.specialTest g <> None
  end.
Proof.
  unfold Test.Required.
  destruct (Test.mode o), (Test.autoTest g), (Test.dataTest g), (Test.specialTest g);
    cbn; congruence.
Qed.

Lemma Required_spec (o : Test.Options) (g : Test.Group) :
  Test.Required o g = true <->
  match Test.mode o with
  | Test.Auto => Test.autoTest g <> None
  | Test.Create | Test.Verify => Test.dataTest g <> None
  | Test.Special => Test.specialTest g <> None
  end /\
  (Test.filters o = [] \/
   exists f m, In f (Test.filters o) /\ Test.occurs_at (Test.name g) f m).
Proof.
  split.
  - intros H. split; [now apply Required_pointer |].
    unfold Test.Required in H.
    destruct (_ && _); [discriminate |]. destruct (_ && _); [discriminate |].
    destruct (_ && _); [discriminate |].
    destruct (Test.filters o) as [| f fs] eqn:Ef; [now left | right].
    now apply Required_filters_iff.
  - intros (Hp & Hf). unfold Test.Required.
    assert (Hfs : match Test.filters o with
                  | [] => true
                  | _ :: _ => Test.Required_filters (Test.name g) (Test.filters o)
                  end = true).
    { destruct (Test.filters o) as [| f fs] eqn:Ef; [reflexivity |].
      apply Required_filters_iff. destruct Hf as [| Hf]; [discriminate | exact Hf]. }
    rewrite Hfs.
    destruct (Test.mode o), (Test.autoTest g), (Test.dataTest g), (Test.specialTest g);
      cbn; try reflexivity; congruence.
Qed.

(** X19. [Options::Required] keeps a group exactly when the test pointer
    of the current mode is not [NULL] and either no filter was given or
    one of the filters occurs somewhere in the group's name; an empty
    filter therefore keeps every group that has a test for the mode. *)
Theorem Required_iff_test_and_filter (o : Test.Options) (g : Test.Group) :
  (Test.Required o g = true <->
   match Test.mode o with
   | Test.Auto => Test.autoTest g <> None
   | Test.Create | Test.Verify => Test.dataTest g <> None
   | Test.Special => Test.specialTest g <> None
   end /\
   (Test.filters o = [] \/
    exists f m, In f (Test.filters o) /\ Test.occurs_at (Test.name g) f m)) /\
  (In EmptyString (Test.filters o) ->
   Test.Required o g =
   negb (match Test.mode o with
         | Test.Auto => Test.is_null (Test.autoTest g)
         | Test.Create | Test.Verify => Test.is_null (Test.dataTest g)
         | Test.Special => Test.is_null (Test.specialTest g)
         end)).
Proof.
  split; [apply Required_spec |]. intros Hin.
  apply eq_true_iff_eq. rewrite Required_spec. split.
  - intros (Hp & _).
    destruct (Test.mode o), (Test.autoTest g), (Test.dataTest g), (Test.specialTest g);
      cbn in *; congruence.
  - intros Hn. split.
    + destruct (Test.mode o), (Test.autoTest g), (Test.dataTest g),
               (Test.specialTest g); cbn in *; congruence.
    + right. exists EmptyString, 0%nat. split; [exact Hin |].
      unfold Test.occurs_at. cbn. now destruct (Test.name g).
Qed.

Lemma Task_Run_spec (o : Test.Options) (groups : Test.Groups) :
  Test.mode o = Test.Auto ->
  Forall (fun g => Test.Required o g = true) groups ->
  exists stopped,
    Test.Task_Run groups = Some stopped /\
    (stopped = false <-> Forall (Test.passes o) groups).
Proof.
  intros Hm. induction 1 as [| g groups Hg _ (st & E & IH)]; cbn [Test.Task_Run].
  - exists false. split; [reflexivity |]. split; [constructor | reflexivity].
  - pose proof (Required_pointer o g Hg) as Hp. rewrite Hm in Hp.
    destruct (Test.autoTest g) as [[|] |] eqn:Ea; [| | contradiction].
    + exists st. split; [exact E |]. rewrite IH. split.
      * intros Hall. constructor; [| exact Hall]. unfold Test.passes. now rewrite Hm.
      * intros Hall. now apply Forall_cons in Hall as (_ & Hall).
    + exists true. split; [reflexivity |]. split; [discriminate |].
      intros Hall. apply Forall_cons in Hall as (Hpass & _).
      unfold Test.passes in Hpass. rewrite Hm in Hpass. congruence.
Qed.

Lemma MakeDataTests_spec (o : Test.Options) (groups : Test.Groups) :
  Test.mode o = Test.Create \/ Test.mode o = Test.Verify ->
  Forall (fun g => Test.Required o g = true) groups ->
  (Test.MakeDataTests groups o = Test.Returned 0 /\ Forall (Test.passes o) groups) \/
  (Test.MakeDataTests groups o = Test.Returned 1 /\ ~ Forall (Test.passes o) groups).
Proof.
  intros Hm. induction 1 as [| g groups Hg _ IH]; cbn [Test.MakeDataTests].
  - left. split; [reflexivity | constructor].
  - pose proof (Required_pointer o g Hg) as Hp.
    assert (Hd : Test.dataTest g <> None) by (destruct Hm as [E | E]; now rewrite E in Hp).
    destruct (Test.dataTest g) as [test |] eqn:Ed; [| contradiction].
    assert (Hpass : Test.passes o g <-> test (Test.Mode_eqb (Test.mode o) Test.Create) = true).
    { unfold Test.passes. destruct Hm as [E | E]; rewrite E, Ed; cbn; split.
      - now intros (t & [= <-] & Ht).
      - intros Ht. now exists test.
      - now intros (t & [= <-] & Ht).
      - intros Ht. now exists test. }
    destruct (test (Test.Mode_eqb (Test.mode o) Test.Create)) eqn:Et.
    + destruct IH as [(E & Hall) | (E & Hall)]; [left | right]; split; try exact E.
      * constructor; [now apply Hpass | exact Hall].
      * intros Hc. apply Hall. now apply Forall_cons in Hc as (_ & Hc).
    + right. split; [reflexivity |]. intros Hc. apply Forall_cons in Hc as (Hc & _).
      apply Hpass in Hc. discriminate.
Qed.

Lemma MakeSpecialTests_spec (o : Test.Options) (groups : Test.Groups) :
  Test.mode o = Test.Special ->
  Forall (fun g => Test.Required o g = true) groups ->
  (Test.MakeSpecialTests groups o = Test.Returned 0 /\ Forall (Test.passes o) groups) \/
  (Test.MakeSpecialTests groups o = Test.Returned 1 /\ ~ Forall (Test.passes o) groups).
Proof.
  intros Hm. induction 1 as [| g groups Hg _ IH]; cbn [Test.MakeSpecialTests].
  - left. split; [reflexivity | constructor].
  - pose proof (Required_pointer o g Hg) as Hp. rewrite Hm in Hp.
    destruct (Test.specialTest g) as [[|] |] eqn:Es; [| | contradiction].
    + destruct IH as [(E & Hall) | (E & Hall)]; [left | right]; split; try exact E.
      * constructor; [| exact Hall]. unfold Test.passes. now rewrite Hm.
      * intros Hc. apply Hall. now apply Forall_cons in Hc as (_ & Hc).
    + right. split; [reflexivity |]. intros Hc. apply Forall_cons in Hc as (Hc & _).
      unfold Test.passes in Hc. rewrite Hm in Hc. congruence.
Qed.

Lemma selected_Required (o : Test.Options) :
  Forall (fun g => Test.Required o g = true) (Test.selected g_groups o).
Proof.
  unfold Test.selected. apply List.Forall_forall. intros g Hg.
  now apply filter_In in Hg as (_ & Hg).
Qed.

(** X20. [main] never calls a test through a [NULL] pointer, whatever the
    command line and the registered groups: the selection by [Required]
    keeps only groups that have the test of the chosen mode.  Run on the
    main thread, it returns 0 exactly when the options are parsed and
    either help was asked for or at least one group is selected and the
    tests of all selected groups pass; otherwise it returns 1 or has left
    through [exit(1)]. *)
Theorem main_exit_code (argv : list Test.String) :
  Test.main NDEBUG read_size_t g_groups argv <> Test.NullCalled /\
  (Test.main NDEBUG read_size_t g_groups argv = Test.Returned 0 <->
   exists o,
     Test.Options_ctor NDEBUG read_size_t argv = Test.Returned o /\
     (Test.help o = true \/
      (Test.selected g_groups o <> [] /\
       Forall (Test.passes o) (Test.selected g_groups o) /\
       (Test.mode o = Test.Auto -> Test.threads o <= 0)))) /\
  (Test.main NDEBUG read_size_t g_groups argv = Test.Returned 0 \/
   Test.main NDEBUG read_size_t g_groups argv = Test.Returned 1 \/
   Test.main NDEBUG read_size_t g_groups argv = Test.Exited 1 \/
   Test.main NDEBUG read_size_t g_groups argv = Test.Threaded).
Proof.
  unfold Test.main.
  assert (Hctor : forall args o,
            Test.Options_loop NDEBUG read_size_t args o <> Test.NullCalled /\
            Test.Options_loop NDEBUG read_size_t args o <> Test.Threaded /\
            forall c, Test.Options_loop NDEBUG read_size_t args o = Test.Exited c ->
                      c = 1).
  { induction args as [| a args IH]; intros o; cbn [Test.Options_loop].
    - repeat split; try discriminate.
    - destruct (_ || _); [repeat split; discriminate |].
      destruct (Test.find_is_0 a "-m="%string).
      { destruct (get 3 a) as [c |];
          [| repeat split; try discriminate; now intros c [= <-]].
        destruct c as [[] [] [] [] [] [] [] []];
          first [ apply IH | repeat split; try discriminate; now intros c [= <-] ]. }
      destruct (Test.find_is_0 a "-t="%string); [apply IH |].
      destruct (Test.find_is_0 a "-f="%string); [apply IH |].
      destruct (Test.find_is_0 a "-o="%string); [apply IH |].
      repeat split; try discriminate. now intros c [= <-]. }
  unfold Test.Options_ctor.
  destruct (Hctor (List.tl argv) (Test.mkOptions false Test.Auto [] EmptyString 0))
    as (Hn & Ht & Hx).
  destruct (Test.Options_loop NDEBUG read_size_t (List.tl argv) _) as [o | c | |];
    [| | contradiction | contradiction].
  2:{ rewrite (Hx c eq_refl). split; [discriminate |]. split; [| auto].
      split; [discriminate | intros (o & [=] & _)]. }
  destruct (Test.help o) eqn:Eh.
  { split; [discriminate |]. split; [| now left].
    split; [intros _; exists o; split; [reflexivity | now left] | reflexivity]. }
  pose proof (selected_Required o) as Hsel.
  destruct (Test.selected g_groups o) as [| g gs] eqn:Es.
  { split; [discriminate |]. split; [| auto].
    split; [discriminate |].
    intros (o' & [= <-] & [Hh | (Hne & _)]); [congruence | contradiction]. }
  rewrite <- Es in *.
  assert (Hne : Test.selected g_groups o <> []) by (rewrite Es; discriminate).
  destruct (Test.mode o) eqn:Em.
  - unfold Test.MakeAutoTests.
    destruct (Z.ltb_spec 0 (Test.threads o)) as [Hth | Hth].
    { split; [discriminate |]. split; [| auto].
      split; [discriminate |].
      intros (o' & [= <-] & [Hh | (_ & _ & Hz)]); [congruence |].
      specialize (Hz Em). lia. }
    destruct (Task_Run_spec o _ Em Hsel) as (st & Er & Hst).
    rewrite Er. destruct st.
    + split; [discriminate |]. split; [| auto]. split; [discriminate |].
      intros (o' & [= <-] & [Hh | (_ & Hall & _)]); [congruence |].
      apply Hst in Hall. discriminate.
    + split; [discriminate |]. split; [| auto]. split; [| reflexivity].
      intros _. exists o. split; [reflexivity |]. right.
      split; [exact Hne |]. split; [now apply Hst | intros _; exact Hth].
  - destruct (MakeDataTests_spec o _ (or_introl Em) Hsel) as [(E & Hall) | (E & Hall)].
    + rewrite E.
      split; [discriminate |]. split; [| auto]. split; [| reflexivity].
      intros _. exists o. split; [reflexivity |]. right.
      split; [exact Hne |]. split; [exact Hall | congruence].
    + rewrite E.
      split; [discriminate |]. split; [| auto]. split; [discriminate |].
      intros (o' & [= <-] & [Hh | (_ & Hall' & _)]); [congruence | contradiction].
  - destruct (MakeDataTests_spec o _ (or_intror Em) Hsel) as [(E & Hall) | (E & Hall)].
    + rewrite E.
      split; [discriminate |]. split; [| auto]. split; [| reflexivity].
      intros _. exists o. split; [reflexivity |]. right.
      split; [exact Hne |]. split; [exact Hall | congruence].
    + rewrite E.
      split; [discriminate |]. split; [| auto]. split; [discriminate |].
      intros (o' & [= <-] & [Hh | (_ & Hall' & _)]); [congruence | contradiction].
  - destruct (MakeSpecialTests_spec o _ Em Hsel) as [(E & Hall) | (E & Hall)].
    + rewrite E.
      split; [discriminate |]. split; [| auto]. split; [| reflexivity].
      intros _. exists o. split; [reflexivity |]. right.
      split; [exact Hne |]. split; [exact Hall | congruence].
    + rewrite E.
      split; [discriminate |]. split; [| auto]. split; [discriminate |].
      intros (o' & [= <-] & [Hh | (_ & Hall' & _)]); [congruence | contradiction].
Qed.
End TestDriver.

Lemma Options_help_ends_parsing_witness :
  Test.Options_ctor true Test.read_zero
    (Test.prog :: [Test.arg_filter] ++ Test.arg_help :: [Test.arg_bogus]) =
  Test.Options_ctor true Test.read_zero
    (Test.prog :: [Test.arg_filter] ++ [Test.arg_help]) /\
  (Test.main true Test.read_zero Test.sample_groups
     (Test.prog :: [Test.arg_filter] ++ Test.arg_help :: [Test.arg_bogus])
     = Test.Exited 1 \/
   Test.main true Test.read_zero Test.sample_groups
     (Test.prog :: [Test.arg_filter] ++ Test.arg_help :: [Test.arg_bogus])
     = Test.Returned 0).
Proof.
  apply (Options_help_ends_parsing true Test.read_zero Test.sample_groups Test.prog
           [Test.arg_filter] [Test.arg_bogus] Test.arg_help).
  left. reflexivity.
Defined.

(** The special tests filtered by name: only [Detection] is kept, and its
    test passes. *)
Example main_special_run :
  Test.selected Test.sample_groups
    (Test.mkOptions false Test.Special [Test.name Test.detection]
                    String.EmptyString 0) = [Test.detection] /\
  Test.main true Test.read_zero Test.sample_groups Test.argv_special = Test.Returned 0.
Proof. split; reflexivity. Qed.

(** [-m=] without a mode letter leaves through [exit(1)]. *)
Example main_mode_missing :
  Test.main true Test.read_zero Test.sample_groups Test.argv_mode_missing
  = Test.Exited 1.
Proof. reflexivity. Qed.

(** ** A connected set of candidates *)

Section OneComponent.
Context {D : Type} {ops : DoubleOps D}.

Lemma members_upto_replicate (src : Objects) (N : nat) :
  forall n, (n <= N)%nat -> (n <= length src)%nat ->
    members_upto n src (replicate N 0) 0 = take n src.
Proof.
  induction n as [| n IH]; intros HN Hs; [reflexivity |].
  destruct (lookup_lt_is_Some_2 src n ltac:(lia)) as [o Ho].
  rewrite (members_upto_S n src (replicate N 0) 0 o 0 Ho)
    by (apply lookup_replicate_2; lia).
  rewrite IH by lia. cbn. symmetry. now apply take_S_r.
Qed.

Lemma Partition_one_class (src : Objects) (s : D) :
  src <> [] ->
  (forall i j, (i < length src)%nat -> (j < length src)%nat -> linked src s i j) ->
  Partition (Partition_fuel (length src)) src s [] = Ok (1, replicate (length src) 0).
Proof.
  intros Hne Hall.
  assert (Hfuel : Z.of_nat (length src) * Z.of_nat (length src)
                  < Z.of_nat (Partition_fuel (length src)))
    by (unfold Partition_fuel; lia).
  destruct (Partition_components_spec _ src s Hfuel [])
    as (nclasses & labels & HP & Hlen & Hcomp & Hgrow).
  destruct (Partition_total _ src s Hfuel [])
    as (nclasses' & labels' & HP' & (_ & Hrange & Hcls) & _).
  rewrite HP in HP'. injection HP' as <- <-.
  assert (Hpos : (0 < length src)%nat) by (destruct src; [contradiction | cbn; lia]).
  assert (Hzero : forall i l, labels !! i = Some l -> l = 0).
  { intros i l Hl.
    destruct (lookup_lt_is_Some_2 labels 0 ltac:(lia)) as [l0 Hl0].
    assert (l0 = 0).
    { destruct (Hgrow 0%nat l0 Hl0) as [| (j & Hj & _)]; [assumption | lia]. }
    subst l0. apply (Hcomp i 0%nat l 0 Hl Hl0).
    apply Hall; [| lia]. apply lookup_lt_Some in Hl. lia. }
  rewrite HP. f_equal. f_equal.
  - destruct (lookup_lt_is_Some_2 labels 0 ltac:(lia)) as [l0 Hl0].
    pose proof (Hzero _ _ Hl0) as ->. pose proof (Hrange _ _ Hl0) as Hr.
    destruct (Z.eq_dec nclasses 1) as [| Hn]; [assumption | exfalso].
    destruct (Hcls 1 ltac:(lia)) as (k & Hk). apply Hzero in Hk. lia.
  - apply list_eq. intros i.
    destruct (Nat.lt_ge_cases i (length src)) as [Hi | Hi].
    + destruct (lookup_lt_is_Some_2 labels i ltac:(lia)) as [l Hl].
      rewrite Hl, (Hzero _ _ Hl). symmetry. now apply lookup_replicate_2.
    + rewrite !lookup_ge_None_2; [reflexivity | rewrite length_replicate; lia | lia].
Qed.

Lemma GroupObjects_one_component_spec (dst src : Objects) (g : Z) (s : D) :
  src <> [] ->
  Z.of_nat (length src) < size_t_modulus ->
  0 < g <= Z.of_nat (length src) ->
  (forall i j, (i < length src)%nat -> (j < length src)%nat -> linked src s i j) ->
  GroupObjects dst src g s = Ok (dst ++ [representative src]).
Proof.
  intros Hne Hsz Hg Hall. unfold GroupObjects.
  destruct (Z.eqb_spec g 0); [lia |].
  destruct (Z.ltb_spec (Z.of_nat (length src)) g); [lia |]. cbn [orb].
  destruct (Group_clusters_spec src s)
    as (nclasses & labels & buffer & HP & HG & _ & _ & Hlb & Hrep).
  rewrite (Partition_one_class src s Hne Hall) in HP. injection HP as <- <-.
  destruct (Hrep 0 ltac:(lia)) as (_ & Hb). change (Z.to_nat 0) with 0%nat in Hb.
  unfold members in Hb. rewrite length_replicate in Hb.
  rewrite members_upto_replicate, firstn_all in Hb by lia.
  assert (Hbuf : buffer = [representative src]).
  { destruct buffer as [| b [| b' buffer]]; cbn in Hlb; try lia.
    cbn in Hb. now injection Hb as ->. }
  rewrite HG, rbind_Ok, Hbuf. unfold Group_suppress. cbn [length for_].
  unfold Group_emit.
  change (at_ [representative src] 0) with (Ok (representative src)).
  rewrite rbind_Ok. cbn [representative weight].
  assert (Hw : to_size_t (Z.of_nat (length src)) = Z.of_nat (length src)).
  { unfold to_size_t. apply Z.mod_small. lia. }
  rewrite Hw. destruct (Z.ltb_spec (Z.of_nat (length src)) g); [lia |].
  cbn [length Group_search].
  change (at_ [representative src] 0) with (Ok (representative src)).
  rewrite rbind_Ok. unfold Group_absorbs. cbn [Z.eqb orb].
  rewrite !rbind_Ok. reflexivity.
Qed.

(** X21. Candidates that form one connected set under [Similar] come out
    of [GroupObjects] as exactly one object: when every candidate is
    joined to every other by a chain of similar candidates and
    [groupSizeMin] is between 1 and their number, [GroupObjects] appends
    the single object whose rectangle is the rounded mean of all
    candidate rectangles, whose weight is their number and whose tag is
    that of the last candidate. *)
Theorem GroupObjects_single_component (dst src : Objects) (groupSizeMin : Z) (s : D) :
  src <> [] ->
  Z.of_nat (length src) < size_t_modulus ->
  0 < groupSizeMin <= Z.of_nat (length src) ->
  (forall i j, (i < length src)%nat -> (j < length src)%nat -> linked src s i j) ->
  GroupObjects dst src groupSizeMin s = Ok (dst ++ [representative src]).
Proof. apply GroupObjects_one_component_spec. Qed.
End OneComponent.

Lemma cand_a_b_linked (i j : nat) :
  (i < 2)%nat -> (j < 2)%nat -> linked [cand_a; cand_b] (2 # 10)%Q i j.
Proof.
  intros Hi Hj.
  assert (H01 : similar_at [cand_a; cand_b] (2 # 10)%Q 0 1)
    by (exists cand_a, cand_b; repeat split).
  assert (H10 : similar_at [cand_a; cand_b] (2 # 10)%Q 1 0)
    by (exists cand_b, cand_a; repeat split).
  destruct i as [| [| i]], j as [| [| j]]; try lia.
  - apply linked_refl. cbn. lia.
  - eapply linked_step; [apply linked_refl; cbn; lia | exact H01].
  - eapply linked_step; [apply linked_refl; cbn; lia | exact H10].
  - apply linked_refl. cbn. lia.
Qed.

Lemma GroupObjects_single_component_witness :
  GroupObjects [] [cand_a; cand_b] 2 (2 # 10)%Q
  = Ok ([] ++ [representative [cand_a; cand_b]]).
Proof.
  apply (GroupObjects_single_component [] [cand_a; cand_b] 2 (2 # 10)%Q).
  - discriminate.
  - cbn. reflexivity.
  - cbn. lia.
  - exact cand_a_b_linked.
Defined.

(** ** Isolated candidates *)

Section Isolated.
Context {D : Type} {ops : DoubleOps D}.

Lemma members_upto_injective (src : Objects) (labels : list Z) (c : Z) :
  (forall i j l, labels !! i = Some l -> labels !! j = Some l -> i = j) ->
  forall n,
    (length (members_upto n src labels c) <= 1)%nat /\
    (members_upto n src labels c <> [] ->
     exists i, (i < n)%nat /\ labels !! i = Some c).
Proof.
  intros Hinj. induction n as [| n (IH1 & IH2)]; cbn [members_upto].
  - split; [cbn; lia | intros H; now contradiction H].
  - destruct (src !! n) as [o |] eqn:Eo;
      [| rewrite app_nil_r; split; [exact IH1 |];
         intros H; destruct (IH2 H) as (i & Hi & Hl); exists i; split; [lia | exact Hl]].
    destruct (labels !! n) as [l |] eqn:El;
      [| rewrite app_nil_r; split; [exact IH1 |];
         intros H; destruct (IH2 H) as (i & Hi & Hl); exists i; split; [lia | exact Hl]].
    destruct (Z.eqb_spec l c) as [-> | Hne].
    + assert (Hempty : members_upto n src labels c = []).
      { destruct (members_upto n src labels c) eqn:Em; [reflexivity | exfalso].
        destruct (IH2 ltac:(discriminate)) as (i & Hi & Hl).
        specialize (Hinj i n c Hl El). lia. }
      rewrite Hempty. cbn. split; [lia |]. intros _. exists n. split; [lia | exact El].
    + rewrite app_nil_r. split; [exact IH1 |].
      intros H. destruct (IH2 H) as (i & Hi & Hl). exists i. split; [lia | exact Hl].
Qed.

Lemma GroupObjects_isolated_spec (dst src : Objects) (g : Z) (s : D) :
  (forall i j, similar_at src s i j -> i = j) ->
  2 <= g ->
  GroupObjects dst src g s = Ok dst.
Proof.
  intros Hiso Hg. unfold GroupObjects.
  destruct ((g =? 0) || (Z.of_nat (length src) <? g)); [reflexivity |].
  assert (Hlinked : forall i j, linked src s i j -> i = j).
  { induction 1 as [| a b c _ IH Hbc]; [reflexivity |].
    rewrite IH. now apply Hiso. }
  assert (Hfuel : Z.of_nat (length src) * Z.of_nat (length src)
                  < Z.of_nat (Partition_fuel (length src)))
    by (unfold Partition_fuel; lia).
  destruct (Partition_components_spec _ src s Hfuel [])
    as (nclasses & labels & HP & Hlen & Hcomp & _).
  destruct (Group_clusters_spec src s)
    as (nclasses' & labels' & buffer & HP' & HG & Hnc & _ & Hlb & Hrep).
  rewrite HP in HP'. injection HP' as <- <-.
  assert (Hinj : forall i j l, labels !! i = Some l -> labels !! j = Some l -> i = j).
  { intros i j l Hi Hj. apply Hlinked. now apply (Hcomp i j l l Hi Hj). }
  assert (Hone : Forall (fun b => weight b = 1) buffer).
  { apply Forall_lookup_2. intros c b Hb.
    pose proof (lookup_lt_Some _ _ _ Hb) as Hc.
    destruct (Hrep (Z.of_nat c) ltac:(lia)) as (Hne & Hb').
    rewrite Nat2Z.id, Hb in Hb'. injection Hb' as ->.
    cbn [representative weight]. unfold members in *.
    destruct (members_upto_injective src labels (Z.of_nat c) Hinj (length labels))
      as (Hle & _).
    destruct (members_upto (length labels) src labels (Z.of_nat c));
      [contradiction | cbn [length] in *; lia]. }
  rewrite HG, rbind_Ok.
  destruct (Group_suppress_sublist g s buffer dst) as (out & HS & Hsub & Hge).
  rewrite HS. destruct out as [| o out]; [now rewrite app_nil_r | exfalso].
  pose proof (sublist_Forall _ _ _ Hsub Hone) as Hout.
  apply Forall_cons in Hout as (Ho & _). apply Forall_cons in Hge as (Hgo & _).
  rewrite Ho in Hgo. unfold to_size_t, size_t_modulus in Hgo.
  rewrite Z.mod_small in Hgo by lia. lia.
Qed.

(** X22. Isolated candidates are discarded: when no two different
    candidates pass the [Similar] test and [groupSizeMin] is at least 2,
    [GroupObjects] appends nothing. *)
Theorem GroupObjects_isolated_candidates (dst src : Objects) (groupSizeMin : Z) (s : D) :
  (forall i j, similar_at src s i j -> i = j) ->
  2 <= groupSizeMin ->
  GroupObjects dst src groupSizeMin s = Ok dst.
Proof. apply GroupObjects_isolated_spec. Qed.
End Isolated.

Lemma cand_a_far_isolated (i j : nat) :
  similar_at [cand_a; cand_far] (2 # 10)%Q i j -> i = j.
Proof.
  intros (va & vb & Ha & Hb & Hs).
  destruct i as [| [| i]], j as [| [| j]]; try reflexivity; try discriminate;
    cbn in Ha, Hb; injection Ha as <-; injection Hb as <-; discriminate.
Qed.

Lemma GroupObjects_isolated_candidates_witness :
  GroupObjects [] [cand_a; cand_far] 2 (2 # 10)%Q = Ok [].
Proof.
  apply (GroupObjects_isolated_candidates [] [cand_a; cand_far] 2 (2 # 10)%Q).
  - exact cand_a_far_isolated.
  - lia.
Defined.
